(* ===== verification/_CoqProject ===== *)
-Q . S2P
Prelude.v
BTree.v
Kv.v
Memory.v
MemoryView.v
MemoryTxn.v
MemoryPurge.v
MemorySystem.v
MemoryIter.v
MemoryCommit.v
MemoryRefine.v
MemoryProgress.v
MemoryIterSpec.v
MemoryIterCorrect.v
MemoryTxnIter.v
MemoryStore.v
Namespace.v
Chunk.v
ChunkSpec.v
ChunkIter.v
Blockstore.v
Leveldb.v
LeveldbSpec.v
GoMonad.v
Badger.v
BadgerSpec.v
Ffi.v
FfiLib.v
FfiBridge.v
FfiSpec.v
FfiInv.v
FfiRefine.v
FfiSim.v
FfiExamples.v
FfiExamplesSpec.v
FfiMain.v
FfiSample.v
