(* ===== verification/Prelude.v ===== *)
(** * corekv: ordered key-value stores and their wrappers

    corekv is a Go library with one interface for ordered key-value stores
    ([ReaderWriter], [Iterator], [Txn] of kv.go and txn.go), several
    implementations of it (a versioned in-memory store, a leveldb backend, and a
    badger backend, once directly and once through a C library) and wrappers that
    are stores over a store (namespaces, values cut into chunks, blocks by content
    identifier).  This library models those parts as executable functions with
    explicit state and proves what they promise.

    ** The parts and the files that model them

    - Prelude.v (this file): Go byte slices ([None] is nil), their order, the
      comparison functions and [bytesPrefixEnd] (memory/iter.go and its copies in
      the other packages), wrap-around of [uint64], the tactic [border] for goals
      about the order.
    - Kv.v: error.go, kv.go and txn.go.  The interface is the class
      [ReaderWriter] (every operation returns the store, since reading may change
      one); what its implementations keep in common is the class [RWLaws] over an
      abstract content, a sorted list of entries ([RWModel]), with [select] for
      what iterator options ask for.  Clients are proved against the class,
      implementations discharge it.
    - BTree.v: the interface of github.com/tidwall/btree that the memory store
      uses, as a class with laws and an implementation by sorted lists.
    - Memory.v: memory/memory.go and memory/txn.go: items with versions, the
      store's operations, transactions with their recorded items, conflict check,
      commit, purge, the table of transactions in flight.  MemoryView.v and
      MemoryTxn.v have the lemmas about what a version of the store and a
      transaction read.
    - MemorySystem.v: the store together with all its transactions, calls in any
      order as steps, [DropAll], [Close] and purges at any version among them; the
      context look-up in front of the store's operations.
    - MemoryPurge.v, MemoryCommit.v, MemoryRefine.v: purging, committing, and the
      refinement of a finite map.  MemoryProgress.v: the goroutine
      [purgeOldVersions] beside the calls, and progress of transactions.
    - MemoryIter.v: memory/iter.go and the merging iterator of memory/txn.go;
      MemoryIterSpec.v, MemoryIterCorrect.v and MemoryTxnIter.v: their theorems.
    - MemoryStore.v: the memory store as an instance of the contract.
    - Namespace.v: namespace/namespace.go and namespace/txn.go.
    - Chunk.v: chunk/chunk.go and chunk/txn.go; ChunkSpec.v and ChunkIter.v: their
      theorems.
    - Blockstore.v: blockstore/blockstore.go over any store.
    - Leveldb.v: leveldb/leveldb.go and leveldb/iter.go over goleveldb as a
      parameter; LeveldbSpec.v: what goleveldb documents, and the theorems.
    - GoMonad.v: the monad of Go code over shared objects, with panics.
    - Badger.v: badger/badger.go and badger/iter.go over badger as a parameter
      ([BadgerDB]) whose operations may panic, and when they do not
      ([BadgerPanics]); BadgerSpec.v: what badger documents, and the theorems.
    - Ffi.v: badger_ffi/ffi/api.go, the objects over badger and the status codes.
      FfiLib.v: badger_ffi/ffi/cshared/main.go, the exported C functions with the
      tables of handles and the C heap.  FfiBridge.v: badger_ffi/ffi_bridge.go,
      badger.go and iter.go, the client side of the C library and the store on
      top.  FfiSpec.v: what one call across the boundary does.  FfiInv.v: the
      invariant of the library.  FfiRefine.v and FfiSim.v: the badger backend as
      the specification and the simulation, call by call.  FfiMain.v: the
      theorems; FfiSample.v: concrete runs.
    - FfiExamples.v: the programs under badger_ffi/ffi/examples;
      FfiExamplesSpec.v: what they print and write.

    Names follow the source; a name that Rocq reserves or that another
    declaration of the file has gets an underscore or the receiver's name
    ([Set_], [txn_Get] for [basicTxn.Get], [iter_Close]).

    ** What the theorems show

    - The memory store is a map: any sequence of calls, with purges in between,
      answers as a finite map with a closed flag would (MemoryRefine).
    - Its transactions, with all calls in any order: an invariant of the store and
      all its transactions holds.  What a transaction reads is isolated from
      whatever others do, except that [DropAll], and a purge above the snapshot,
      reach into it; of two transactions of one snapshot in conflict at most one
      commits, unless [DropAll] comes in between; a commit succeeds exactly if no
      recorded key was overtaken and then installs exactly the writes.  Finished
      transactions and closed stores stay so: reads, writes and commits are
      refused; what is not refused is stated too, [Iterator] of a finished
      transaction, and [DropAll] and [NewTxn] of a closed store (MemorySystem,
      MemoryCommit).
    - Purging terminates and changes no read at or above its version
      (MemoryPurge).
    - Iterators of all three implementations yield exactly the selected entries
      in order, and [Seek] goes where kv.go says within the conditions that the
      statements name.  For the memory store they are exact about the rest as
      well: where a forward [Seek] below the range and a reversed one below all
      items lead, and what iterating in a transaction yields for keys that it
      recorded, which is some of them twice (MemoryIterCorrect, MemoryTxnIter,
      LeveldbSpec, BadgerSpec).
    - The memory store, the leveldb backend and namespaces over any store that
      keeps the contract satisfy the contract; so chunk stores and block stores,
      whose theorems are proved against it, work over all of them.
    - Chunk stores: what is read after writing, overwriting and deleting, and that
      the iterator joins the chunks of every key in both directions.
    - Block stores: reading, writing and listing in terms of a map from
      identifiers to data; the guarantee of hashing on read.
    - The badger backend through the C library refines the one without: every
      sequence of calls, on objects that are not yet finished, that badger answers
      without a panic gets the same answers and leaves the C heap as it was.  The
      library keeps an invariant of its handles, with whatever handles and nil
      pointers it is called, and panics exactly where badger does: it does not
      catch the panics of committing or discarding a transaction, of creating an
      iterator, and of asking one for an item that it does not stand on.  Opening,
      closing and discarding on every branch; which lengths survive the boundary
      (FfiMain, FfiInv).  The example programs end and print what they should
      (FfiExamplesSpec).
    - The purging goroutine goes unnoticed by clients, purges at most once a day
      and not after it returned; a transaction that nobody disturbs commits
      (MemoryProgress).
    - Errors: the translation of the backends' errors, and which operations a
      closed store of each kind refuses.
    - Behaviours that differ from what the code or its comments intend are stated
      as theorems about concrete runs: repeated keys in a transaction's iterator,
      reads of missing keys that are not validated, a purge that removes what an
      open transaction reads, reversed iterators at older versions or after their end,
      prefixes of 255, values overwritten by shorter ones.

    ** Bounds and fuel

    Versions are integers modulo 2^64 and the theorems ask for room for the
    writes they make.  Loops that the code ends by a condition have fuel: those
    of the memory store get it from the sizes of the trees they walk and are
    proved to end within it; loops over an iterator of an inner store (Chunk.v,
    Blockstore.v) take it as an argument, and the theorems show that more than
    the number of entries (two more for the chunk iterator) is enough; so do the
    printing loops of the example programs.  Handles are counted modulo 2^64: the
    theorems about the C library ask for fewer calls than that.  Lengths cross the
    C boundary as 32-bit integers with their wrap-around.

    ** What is not modelled

    Locks: a call, or a turn of the purging goroutine, is one step, so
    interleavings are sequences of steps.  What the disk holds: opening a database
    is an argument of the constructors.  blockstore/ipld.go, which only wraps the
    block store in an adapter of a third-party package, and the harness of the
    integration tests.  The third-party packages (btree, goleveldb, badger, go-cid)
    are parameters with laws; every file that states laws has an implementation by
    sorted lists that satisfies them.  Which keys badger notes as read in a
    transaction for updates, when an iterator moves or is asked for its item, is
    not part of its interface here; conflicts are whatever [btx_Commit] answers.
    Reversed prefix iterators of the badger backend are defined, but what badger
    does when it seeks beyond a prefix is not documented: the C library is shown to
    do the same, and no other theorem covers them.  Capacities of slices: slicing
    beyond the length of a key, in the chunk iterator, counts as a panic.

    ** Plan

    Next: the transactions of the memory store as an instance of the contract, the
    wrappers' transactions over it, reverse iteration inside a transaction, chunk
    and block stores composed over the memory store. *)
From stdpp Require Export prelude sorting.
From Stdlib Require Export ZArith.
From Stdlib Require Import Strings.Byte NArith.
From Stdlib Require String.

(** * Byte strings

    A Go [[]byte] is a [slice]: [None] is the nil slice, [Some l] a non-nil
    one.  Nil and empty slices have the same length and compare equal, but
    [== nil] distinguishes them, and the code relies on that difference. *)

#[export] Instance byte_eq_decision : EqDecision byte := byte_eq_dec.

Abbreviation bytes := (list byte).
Abbreviation slice := (option (list byte)).

Declare Scope corekv_scope.
Create HintDb corekv.
Delimit Scope corekv_scope with corekv.

(** Byte strings written as text, e.g. [bs "k1"]. *)
Definition bs (s : String.string) : bytes := String.list_byte_of_string s.
Arguments bs s%_string_scope.

(** Lexicographic comparison of byte strings. *)
Fixpoint bcompare (a b : bytes) : comparison :=
  match a, b with
  | [], [] => Eq
  | [], _ :: _ => Lt
  | _ :: _, [] => Gt
  | x :: a', y :: b' =>
      match N.compare (to_N x) (to_N y) with
      | Eq => bcompare a' b'
      | c => c
      end
  end.

Lemma to_N_inj x y : to_N x = to_N y -> x = y.
Proof. intros H. apply (f_equal of_N) in H. rewrite !of_to_N in H. by injection H. Qed.

Lemma bcompare_eq a b : bcompare a b = Eq <-> a = b.
Proof.
  revert b; induction a as [|x a IH]; intros [|y b]; simpl; try done.
  destruct (N.compare_spec (to_N x) (to_N y)) as [E|E|E].
  - apply to_N_inj in E as ->. rewrite IH. naive_solver.
  - split; [done|]. intros [= -> _]. lia.
  - split; [done|]. intros [= -> _]. lia.
Qed.

Lemma bcompare_antisym a b : bcompare b a = CompOpp (bcompare a b).
Proof.
  revert b; induction a as [|x a IH]; intros [|y b]; simpl; try done.
  rewrite (N.compare_antisym (to_N x) (to_N y)).
  destruct (N.compare (to_N x) (to_N y)); simpl; auto.
Qed.

Lemma bcompare_lt_trans a b c :
  bcompare a b = Lt -> bcompare b c = Lt -> bcompare a c = Lt.
Proof.
  revert b c; induction a as [|x a IH]; intros [|y b] [|z c]; simpl; try done.
  destruct (N.compare_spec (to_N x) (to_N y)), (N.compare_spec (to_N y) (to_N z)),
    (N.compare_spec (to_N x) (to_N z)); try done; try lia; eauto.
Qed.

(** The lexicographic order, strict and reflexive. *)
Module BytesOrd.
Definition slt (a b : bytes) : Prop := bcompare a b = Lt.
Definition le (a b : bytes) : Prop := bcompare b a <> Lt.
End BytesOrd.

Notation "a ≺ b" := (BytesOrd.slt a b) (at level 70, no associativity) : corekv_scope.
Notation "a ⪯ b" := (BytesOrd.le a b) (at level 70, no associativity) : corekv_scope.
Open Scope corekv_scope.
Open Scope Z_scope.

#[export] Instance bytes_lt_strorder : StrictOrder BytesOrd.slt.
Proof.
  split.
  - intros a H. unfold BytesOrd.slt in H. by rewrite (proj2 (bcompare_eq a a) eq_refl) in H.
  - intros a b c. apply bcompare_lt_trans.
Qed.

Lemma bytes_le_lteq a b : a ⪯ b <-> a ≺ b \/ a = b.
Proof.
  unfold BytesOrd.le, BytesOrd.slt. rewrite (bcompare_antisym a b), <- bcompare_eq.
  destruct (bcompare a b); simpl; intuition congruence.
Qed.

Lemma bytes_lt_total a b : a ≺ b \/ a = b \/ b ≺ a.
Proof.
  unfold BytesOrd.slt. rewrite (bcompare_antisym a b), <- bcompare_eq.
  destruct (bcompare a b); simpl; auto.
Qed.

Lemma bytes_lt_dec a b : {a ≺ b} + {b ⪯ a}.
Proof.
  unfold BytesOrd.slt, BytesOrd.le.
  destruct (bcompare a b); [right|left|right]; congruence.
Qed.

Lemma bytes_lt_irrefl a : not (a ≺ a).
Proof. apply irreflexivity, _. Qed.
Lemma bytes_le_refl a : a ⪯ a.
Proof. apply bytes_lt_irrefl. Qed.
Lemma bytes_eq_le a b : a = b -> a ⪯ b.
Proof. intros ->. apply bytes_le_refl. Qed.
Lemma bytes_lt_le a b : a ≺ b -> a ⪯ b.
Proof. rewrite bytes_le_lteq. auto. Qed.
Lemma bytes_lt_trans a b c : a ≺ b -> b ≺ c -> a ≺ c.
Proof. apply bcompare_lt_trans. Qed.
Lemma bytes_lt_le_trans a b c : a ≺ b -> b ⪯ c -> a ≺ c.
Proof. rewrite bytes_le_lteq. intros ? [?| <-]; eauto using bytes_lt_trans. Qed.
Lemma bytes_le_lt_trans a b c : a ⪯ b -> b ≺ c -> a ≺ c.
Proof. rewrite bytes_le_lteq. intros [?| ->] ?; eauto using bytes_lt_trans. Qed.
Lemma bytes_le_trans a b c : a ⪯ b -> b ⪯ c -> a ⪯ c.
Proof.
  rewrite (bytes_le_lteq a b). intros [?| ->] ?; [|done].
  eauto using bytes_lt_le, bytes_lt_le_trans.
Qed.
Lemma bytes_le_antisym a b : a ⪯ b -> b ⪯ a -> a = b.
Proof. rewrite (bytes_le_lteq a b). by intros [?| ->] Hb. Qed.

Ltac border_pose P pf :=
  lazymatch goal with
  | _ : P |- _ => fail
  | _ => pose proof (pf : P)
  end.

(** Decide a goal about [≺], [⪯] and equality of byte strings: negate the goal,
    turn equations into inequalities and close the order under transitivity. *)
Ltac border_sat :=
  repeat match goal with
    | H : ?a ≺ ?a |- _ => exfalso; exact (bytes_lt_irrefl a H)
    | H1 : ?a ≺ ?b, H2 : ?b ≺ ?c |- _ => border_pose (a ≺ c) (bytes_lt_trans a b c H1 H2)
    | H1 : ?a ≺ ?b, H2 : ?b ⪯ ?c |- _ => border_pose (a ≺ c) (bytes_lt_le_trans a b c H1 H2)
    | H1 : ?a ⪯ ?b, H2 : ?b ≺ ?c |- _ => border_pose (a ≺ c) (bytes_le_lt_trans a b c H1 H2)
    | H1 : ?a ⪯ ?b, H2 : ?b ⪯ ?c |- _ => border_pose (a ⪯ c) (bytes_le_trans a b c H1 H2)
    end.

Ltac border_hyps :=
  repeat match goal with
    | H : not (?a ≺ ?b) |- _ =>
        change (b ⪯ a) in H
    | H : not (?a ⪯ ?b) |- _ =>
        destruct (bytes_lt_dec b a); [clear H|by destruct H]
    | H : not (@eq (list byte) ?a ?b) |- _ =>
        let Hc := fresh "Hc" in
        destruct (bytes_lt_total a b) as [ Hc | [ Hc | Hc ] ]; [clear H|by destruct H|clear H]
    end;
  repeat match goal with
    | H : @eq (list byte) ?a ?b |- _ =>
        pose proof (bytes_eq_le a b H); pose proof (bytes_eq_le b a (eq_sym H)); clear H
    end.

Ltac border_core := border_hyps; solve [border_sat].

Ltac border :=
  intros;
  lazymatch goal with
  | |- ?a ≺ ?b => destruct (bytes_lt_dec a b); [assumption|exfalso; border_core]
  | |- ?a ⪯ ?b => destruct (bytes_lt_dec b a); [exfalso; border_core|assumption]
  | |- @eq (list byte) ?a ?b =>
      apply bytes_le_antisym;
      [destruct (bytes_lt_dec b a); [exfalso; border_core|assumption]
      |destruct (bytes_lt_dec a b); [exfalso; border_core|assumption]]
  | |- not _ => intro; exfalso; border_core
  | |- _ => exfalso; border_core
  end.

#[export] Instance bytes_lt_decision a b : Decision (a ≺ b).
Proof. unfold BytesOrd.slt. solve_decision. Defined.
#[export] Instance bytes_le_decision a b : Decision (a ⪯ b).
Proof. unfold BytesOrd.le. solve_decision. Defined.

Lemma bytes_lt_cons x y a b :
  (x :: a) ≺ (y :: b) <-> (to_N x < to_N y)%N \/ (x = y /\ a ≺ b).
Proof.
  unfold BytesOrd.slt. simpl.
  destruct (N.compare_spec (to_N x) (to_N y)) as [E|E|E].
  - apply to_N_inj in E as ->. split; [by right|]. intros [?|[_ ?]]; [lia|done].
  - by split; [left|].
  - split; [done|]. intros [?|[-> _]]; lia.
Qed.

Lemma bytes_le_cons x y a b :
  (x :: a) ⪯ (y :: b) <-> (to_N x < to_N y)%N \/ (x = y /\ a ⪯ b).
Proof.
  rewrite !bytes_le_lteq, bytes_lt_cons.
  split; [|naive_solver]. intros [[?|[-> ?]]|[= -> ->]]; auto.
Qed.

Lemma bytes_nil_le a : [] ⪯ a.
Proof. by destruct a. Qed.

Lemma bytes_lt_nil a : not (a ≺ []).
Proof. by destruct a. Qed.

#[export] Hint Resolve bytes_nil_le bytes_lt_nil : corekv.

Lemma bytes_lt_app q a b : (q ++ a) ≺ (q ++ b) <-> a ≺ b.
Proof.
  induction q as [|x q IH]; [done|]. simpl. rewrite bytes_lt_cons, IH.
  split; [|auto]. intros [?|[_ ?]]; [lia|done].
Qed.

Lemma bytes_le_app q a b : (q ++ a) ⪯ (q ++ b) <-> a ⪯ b.
Proof.
  rewrite !bytes_le_lteq, bytes_lt_app.
  split; (intros [?|E]; [by left|right]); [exact (app_inv_head _ _ _ E)|by rewrite E].
Qed.

(** A string between two extensions of [q] extends [q] itself. *)
Lemma bytes_between q a b k :
  (q ++ a) ⪯ k -> k ≺ (q ++ b) -> exists k', k = q ++ k' /\ a ⪯ k' /\ k' ≺ b.
Proof.
  revert k; induction q as [|x q IH]; intros k Hl Hr; [by exists k|].
  destruct k as [|y k]; [by destruct Hl|].
  simpl in *. apply bytes_le_cons in Hl. apply bytes_lt_cons in Hr.
  destruct Hl as [?|[<- Hl]], Hr as [?|[E Hr]]; subst; try lia.
  destruct (IH k Hl Hr) as (k' & -> & ? & ?). by exists k'.
Qed.

(** ** Slices *)

(** The contents and [len] of a slice. *)
Definition bdata (s : slice) : bytes := default [] s.
Definition blen (s : slice) : nat := length (bdata s).
Definition is_nil (s : slice) : bool := match s with None => true | Some _ => false end.

(** [bytes.Compare], [bytes.Equal] and [bytes.HasPrefix] of the standard library. *)
Definition bytes_Compare (a b : slice) : Z :=
  match bcompare (bdata a) (bdata b) with Lt => -1 | Eq => 0 | Gt => 1 end.
Definition bytes_Equal (a b : slice) : bool := bool_decide (bdata a = bdata b).
Definition bytes_HasPrefix (s prefix : slice) : bool :=
  bool_decide (take (blen prefix) (bdata s) = bdata prefix).

(** [b + 1] on a [byte]: wraps around at 255. *)
Definition byte_inc (b : byte) : byte := default x00 (of_N ((to_N b + 1) mod 256)).

(** [uint64] addition wraps around at 2^64. *)
Definition two64 : Z := 2 ^ 64.
Definition uadd (a b : Z) : Z := (a + b) mod two64.

Lemma uadd_small a b : 0 <= a + b < two64 -> uadd a b = a + b.
Proof. intros H. unfold uadd. by apply Z.mod_small. Qed.

Lemma bytes_Compare_lt a b : bytes_Compare a b = -1 <-> bdata a ≺ bdata b.
Proof. unfold bytes_Compare, BytesOrd.slt. destruct (bcompare _ _); intuition congruence. Qed.

Lemma bytes_Compare_eq a b : bytes_Compare a b = 0 <-> bdata a = bdata b.
Proof. rewrite <- bcompare_eq. unfold bytes_Compare. destruct (bcompare _ _); intuition congruence. Qed.

Lemma bytes_Compare_gt a b : bytes_Compare a b = 1 <-> bdata b ≺ bdata a.
Proof.
  unfold bytes_Compare, BytesOrd.slt. rewrite (bcompare_antisym (bdata a) (bdata b)).
  destruct (bcompare _ _); simpl; intuition congruence.
Qed.

Lemma bytes_Compare_ltb a b : (bytes_Compare a b <? 0) = bool_decide (bdata a ≺ bdata b).
Proof.
  apply eq_true_iff_eq. rewrite Z.ltb_lt, bool_decide_eq_true, <- bytes_Compare_lt.
  unfold bytes_Compare. destruct (bcompare _ _); lia.
Qed.

Lemma bytes_Compare_gtb a b : (0 <? bytes_Compare a b) = bool_decide (bdata b ≺ bdata a).
Proof.
  apply eq_true_iff_eq. rewrite Z.ltb_lt, bool_decide_eq_true, <- bytes_Compare_gt.
  unfold bytes_Compare. destruct (bcompare _ _); lia.
Qed.

Lemma bytes_Equal_true a b : bytes_Equal a b = true <-> bdata a = bdata b.
Proof. apply bool_decide_eq_true. Qed.

Lemma bytes_Equal_false a b : bytes_Equal a b = false <-> bdata a <> bdata b.
Proof. apply bool_decide_eq_false. Qed.

Lemma bytes_HasPrefix_true s p : bytes_HasPrefix s p = true <-> bdata p `prefix_of` bdata s.
Proof.
  unfold bytes_HasPrefix, blen. rewrite bool_decide_eq_true. split.
  - intros <-. apply prefix_take.
  - intros [k ->]. apply take_app_length.
Qed.

Lemma blen_zero s : blen s = 0%nat <-> bdata s = [].
Proof. unfold blen. destruct (bdata s); naive_solver. Qed.

Lemma blen_nonzero (k : slice) : bdata k <> [] -> (blen k =? 0)%nat = false.
Proof. intros H. apply Nat.eqb_neq. by rewrite blen_zero. Qed.

(** Less than, and greater than or equal to, as the packages define them
    (memory/iter.go, badger/iter.go). *)
Definition lt (a b : slice) : bool := bytes_Compare a b =? -1.
Definition gte (a b : slice) : bool := -1 <? bytes_Compare a b.

Lemma lt_true a b : lt a b = true <-> bdata a ≺ bdata b.
Proof. unfold lt. rewrite Z.eqb_eq. apply bytes_Compare_lt. Qed.

Lemma gte_negb_lt a b : gte a b = negb (lt a b).
Proof. unfold gte, lt, bytes_Compare. by destruct (bcompare _ _). Qed.

Lemma lt_false a b : lt a b = false <-> bdata b ⪯ bdata a.
Proof.
  destruct (lt a b) eqn:E; split; intros H; try done.
  - apply lt_true in E. exfalso. border.
  - destruct (bytes_lt_dec (bdata a) (bdata b)) as [Hl|]; [|done].
    apply lt_true in Hl. congruence.
Qed.

Lemma gte_true a b : gte a b = true <-> bdata b ⪯ bdata a.
Proof. rewrite gte_negb_lt, negb_true_iff. apply lt_false. Qed.

(** ** The end of a prefix

    [bytesPrefixEnd] occurs, with the same body, in memory/iter.go,
    chunk/chunk.go, namespace/namespace.go and badger/iter.go.  The loop runs
    over a copy [end_] of the argument, with [i] one above the Go index. *)
Fixpoint bytesPrefixEnd_loop (i : nat) (end_ : bytes) : option bytes :=
  match i with
  | O => None
  | S i' =>
      let end' := alter byte_inc i' end_ in
      if bool_decide (end' !! i' = Some x00)
      then bytesPrefixEnd_loop i' end'
      else Some (take (S i') end')
  end.

Definition bytesPrefixEnd (b : slice) : slice :=
  match bytesPrefixEnd_loop (blen b) (bdata b) with
  | Some e => Some e
  | None => b
  end.

Lemma to_N_byte_inc x : to_N (byte_inc x) = ((to_N x + 1) mod 256)%N.
Proof. by destruct x. Qed.

Lemma byte_inc_zero x : byte_inc x = x00 <-> x = xff.
Proof. split; [|by intros ->]. by destruct x. Qed.

Lemma to_N_byte_inc_ne x : x <> xff -> to_N (byte_inc x) = (to_N x + 1)%N.
Proof. by destruct x. Qed.

Lemma to_N_xff x : (to_N xff <= to_N x)%N -> x = xff.
Proof. intros H. apply to_N_inj. pose proof (to_N_bounded x). change (to_N xff) with 255%N in *. lia. Qed.

(** Every byte string is a run of [xff] or ends in such a run after a smaller byte. *)
Lemma xff_suffix (p : bytes) :
  (exists n, p = replicate n xff) \/
  (exists q x n, p = q ++ x :: replicate n xff /\ x <> xff).
Proof.
  induction p as [|y p IH]; [left; by exists 0%nat|].
  destruct IH as [[n ->]|(q & x & n & -> & Hx)].
  - destruct (decide (y = xff)) as [ -> |Hy].
    + left. by exists (S n).
    + right. by exists [], y, n.
  - right. by exists (y :: q), x, n.
Qed.

Lemma list_alter_middle {A} (f : A -> A) (q : list A) x tl :
  alter f (length q) (q ++ x :: tl) = q ++ f x :: tl.
Proof. induction q as [|y q IH]; [done|]. cbn. f_equal. apply IH. Qed.

(** One turn of the loop, at the byte [x] behind [q]. *)
Lemma bytesPrefixEnd_loop_turn q x tl :
  bytesPrefixEnd_loop (S (length q)) (q ++ x :: tl) =
  if bool_decide (x = xff) then bytesPrefixEnd_loop (length q) (q ++ x00 :: tl)
  else Some (q ++ [byte_inc x]).
Proof.
  cbn [bytesPrefixEnd_loop]. rewrite list_alter_middle, list_lookup_middle by done.
  case_bool_decide as H1; case_bool_decide as H2; simplify_eq; try done.
  - apply byte_inc_zero in H1. done.
  - f_equal. change (S (length q)) with (1 + length q)%nat. rewrite Nat.add_comm.
    by rewrite take_app_add.
Qed.

(** The loop turns a final run of [xff] into zeroes. *)
Lemma bytesPrefixEnd_loop_run q n tl :
  exists tl', bytesPrefixEnd_loop (length q + n) (q ++ replicate n xff ++ tl) =
              bytesPrefixEnd_loop (length q) (q ++ tl').
Proof.
  revert tl. induction n as [|n IH]; intros tl; [exists tl; by rewrite Nat.add_0_r|].
  destruct (IH (x00 :: tl)) as [tl' Htl']. exists tl'. rewrite <- Htl'.
  rewrite replicate_S_end, <- (assoc_L (++)). simpl.
  replace (length q + S n)%nat with (S (length (q ++ replicate n xff)))
    by (rewrite length_app, length_replicate; lia).
  rewrite (assoc_L (++) q), bytesPrefixEnd_loop_turn. simpl.
  rewrite <- (assoc_L (++)). f_equal. rewrite length_app, length_replicate. lia.
Qed.

Lemma bytesPrefixEnd_loop_xff n : bytesPrefixEnd_loop n (replicate n xff) = None.
Proof.
  destruct (bytesPrefixEnd_loop_run [] n []) as [tl' H].
  simpl in H. by rewrite app_nil_r in H.
Qed.

Lemma bytesPrefixEnd_loop_some q x n :
  x <> xff ->
  bytesPrefixEnd_loop (length (q ++ x :: replicate n xff)) (q ++ x :: replicate n xff) =
  Some (q ++ [byte_inc x]).
Proof.
  intros Hx. destruct (bytesPrefixEnd_loop_run (q ++ [x]) n []) as [tl' H].
  rewrite app_nil_r, <- !(assoc_L (++)) in H. simpl in H.
  rewrite length_app in H. simpl in H.
  rewrite length_app. simpl. rewrite length_replicate.
  replace (length q + S n)%nat with (length q + 1 + n)%nat by lia.
  rewrite H, Nat.add_1_r, bytesPrefixEnd_loop_turn. by rewrite bool_decide_false.
Qed.

(** The prefixes with a finite upper bound: not a run of [xff]. *)
Definition all_xff (p : bytes) : bool := forallb (fun x => bool_decide (x = xff)) p.

Lemma all_xff_replicate n : all_xff (replicate n xff) = true.
Proof. by induction n. Qed.

Lemma bytes_le_xff n k : replicate n xff ⪯ k -> replicate n xff `prefix_of` k.
Proof.
  revert k. induction n as [|n IH]; intros k H; [apply prefix_nil|].
  destruct k as [|y k]; [by destruct H|]. simpl in *.
  apply bytes_le_cons in H as [H|[<- H]].
  - assert (y = xff) as -> by (apply to_N_xff; lia). lia.
  - by apply prefix_cons, IH.
Qed.

Lemma bytesPrefixEnd_xff p : all_xff (bdata p) = true -> bytesPrefixEnd p = p.
Proof.
  intros H. unfold bytesPrefixEnd, blen.
  assert (bdata p = replicate (length (bdata p)) xff) as E.
  { revert H. induction (bdata p) as [|x l IH]; [done|]. simpl.
    rewrite andb_true_iff, bool_decide_eq_true. intros [-> H]. by f_equal; auto. }
  rewrite E at 2. by rewrite bytesPrefixEnd_loop_xff.
Qed.

(** Between a prefix and its end lie exactly the extensions of the prefix. *)
Lemma bytesPrefixEnd_spec p :
  all_xff (bdata p) = false ->
  exists e, bytesPrefixEnd p = Some e /\ e <> [] /\
    forall k, bdata p `prefix_of` k <-> bdata p ⪯ k /\ k ≺ e.
Proof.
  intros Hp. unfold bytesPrefixEnd, blen.
  destruct (xff_suffix (bdata p)) as [[n E]|(q & x & n & E & Hx)]; rewrite E in *.
  { by rewrite all_xff_replicate in Hp. }
  rewrite bytesPrefixEnd_loop_some by done. eexists; split; [done|].
  split; [by destruct q|]. intros k; split.
  - intros [r ->]. rewrite <- (assoc_L (++)), bytes_le_app, bytes_lt_app. simpl. split.
    + apply bytes_le_cons. right. split; [done|].
      rewrite <- (app_nil_r (replicate n xff)) at 1. apply bytes_le_app, bytes_nil_le.
    + apply bytes_lt_cons. left. rewrite to_N_byte_inc_ne by done. lia.
  - intros [Hl Hr]. destruct (bytes_between q _ _ k Hl Hr) as (k' & -> & Hl' & Hr').
    apply prefix_app. destruct k' as [|y k']; [by destruct Hl'|].
    apply bytes_le_cons in Hl'. apply bytes_lt_cons in Hr'.
    rewrite to_N_byte_inc_ne in Hr' by done.
    destruct Hr' as [Hr'|[_ Hr']]; [|by destruct (bytes_lt_nil k')].
    destruct Hl' as [?|[<- Hl']]; [lia|]. by apply prefix_cons, bytes_le_xff.
Qed.

(** The end of a prefix range: unless the prefix is a run of 255 (or empty),
    [bytesPrefixEnd] returns a non-empty key such that the keys from the prefix
    up to before it are exactly those that start with the prefix; a run of 255
    is returned unchanged, and the keys from itself up to before itself are
    none. *)
Theorem bytesPrefixEnd_bounds p :
  if all_xff (bdata p) then bytesPrefixEnd p = p /\ forall k, ~ (bdata p ⪯ k /\ k ≺ bdata (bytesPrefixEnd p))
  else bdata (bytesPrefixEnd p) <> [] /\
    forall k, bdata p `prefix_of` k <-> bdata p ⪯ k /\ k ≺ bdata (bytesPrefixEnd p).
Proof.
  destruct (all_xff (bdata p)) eqn:E.
  - rewrite bytesPrefixEnd_xff by done. split; [done|]. intros k [? ?]. border.
  - destruct (bytesPrefixEnd_spec p E) as (e & -> & He & Hk). done.
Qed.
