(* ===== verification/BTree.v ===== *)
(** The interface of github.com/tidwall/btree that the memory store uses.

    The package is not part of this repository, so its operations are the
    fields of a class [BTreeG] over which the memory store is parametric, and
    what the store relies on are the fields of [BTreeGLaws]: the behaviour of
    the package documentation, and, for a cursor that ran off an end of the
    tree, the behaviour that memory/iter_test.go ([TestBTreePrevBug]) records.
    [ListBTree] at the end is an implementation by sorted lists: it shows that
    the laws can hold together, and it is what concrete runs evaluate with. *)
From S2P Require Import Prelude.

(** ** Reference operations on sorted lists *)

(** A strict order whose incomparability is an equivalence. *)
Class LessOrder {A : Type} (less : A -> A -> bool) : Prop := {
  less_irrefl a : less a a = false;
  less_trans a b c : less a b = true -> less b c = true -> less a c = true;
  less_weak a b c : less a b = true -> less a c = true \/ less c b = true }.

Section sorted_list.
Context {A : Type} (less : A -> A -> bool).

(** Insert [x], replacing an element equivalent to it. *)
Fixpoint sl_insert (x : A) (l : list A) : list A :=
  match l with
  | [] => [x]
  | y :: l' =>
      if less x y then x :: y :: l'
      else if less y x then y :: sl_insert x l'
      else x :: l'
  end.

(** Delete the element equivalent to [x]. *)
Fixpoint sl_delete (x : A) (l : list A) : list A :=
  match l with
  | [] => []
  | y :: l' =>
      if less x y then y :: l'
      else if less y x then y :: sl_delete x l'
      else l'
  end.

Fixpoint sortedb (l : list A) : bool :=
  match l with
  | [] => true
  | x :: l' => forallb (less x) l' && sortedb l'
  end.

Notation Less := (fun a b => less a b = true).

Lemma sortedb_sorted l : sortedb l = true <-> StronglySorted Less l.
Proof.
  induction l as [|x l IH]; simpl; [split; [constructor|done]|].
  rewrite andb_true_iff, IH, forallb_forall. split.
  - intros [Hx ?]. constructor; [done|]. apply Forall_forall. intros y Hy.
    by apply Hx, list_elem_of_In.
  - intros [? Hx]%StronglySorted_inv. split; [|done]. intros y Hy%list_elem_of_In.
    by eapply Forall_forall in Hx.
Qed.

Context {LO : LessOrder less}.

Lemma less_asym a b : less a b = true -> less b a = false.
Proof.
  intros Hab. destruct (less b a) eqn:E; [|done].
  pose proof (less_trans _ _ _ Hab E). by rewrite less_irrefl in *.
Qed.

Lemma less_equiv_l a b c :
  less a b = false -> less b a = false -> less a c = less b c.
Proof.
  intros H1 H2. destruct (less a c) eqn:E, (less b c) eqn:E'; try done.
  - destruct (less_weak _ _ b E); congruence.
  - destruct (less_weak _ _ a E'); congruence.
Qed.

Lemma less_equiv_r a b c :
  less a b = false -> less b a = false -> less c a = less c b.
Proof.
  intros H1 H2. destruct (less c a) eqn:E, (less c b) eqn:E'; try done.
  - destruct (less_weak _ _ b E); congruence.
  - destruct (less_weak _ _ a E'); congruence.
Qed.

Lemma sorted_head_lt x l y : StronglySorted Less (x :: l) -> y ∈ l -> less x y = true.
Proof. intros [_ H]%StronglySorted_inv Hy. by eapply Forall_forall in H. Qed.

Lemma elem_of_sl_insert x y l :
  StronglySorted Less l ->
  y ∈ sl_insert x l <-> y = x \/ (y ∈ l /\ (less x y = true \/ less y x = true)).
Proof.
  induction l as [|z l IH]; intros Hs; simpl; [set_solver|].
  pose proof (fun w => sorted_head_lt z l w Hs) as Hz.
  apply StronglySorted_inv in Hs as [Hs _]. specialize (IH Hs).
  destruct (less x z) eqn:E1; [|destruct (less z x) eqn:E2].
  - rewrite !elem_of_cons. split; [|naive_solver].
    intros [->|[->|Hy]]; naive_solver eauto using less_trans.
  - rewrite !elem_of_cons, IH. naive_solver.
  - rewrite !elem_of_cons. split; [|naive_solver congruence].
    intros [->|Hy]; [by left|right; split; [by right|left]].
    rewrite (less_equiv_l _ _ _ E1 E2). auto.
Qed.

Lemma elem_of_sl_delete x y l :
  StronglySorted Less l ->
  y ∈ sl_delete x l <-> y ∈ l /\ (less x y = true \/ less y x = true).
Proof.
  induction l as [|z l IH]; intros Hs; simpl; [set_solver|].
  pose proof (fun w => sorted_head_lt z l w Hs) as Hz.
  apply StronglySorted_inv in Hs as [Hs _]. specialize (IH Hs).
  destruct (less x z) eqn:E1; [|destruct (less z x) eqn:E2].
  - rewrite !elem_of_cons. split; [|naive_solver].
    intros [->|Hy]; naive_solver eauto using less_trans.
  - rewrite !elem_of_cons, IH. naive_solver.
  - rewrite !elem_of_cons. split; [|naive_solver congruence].
    intros Hy. split; [by right|left]. rewrite (less_equiv_l _ _ _ E1 E2). auto.
Qed.

Lemma sl_insert_sorted x l : StronglySorted Less l -> StronglySorted Less (sl_insert x l).
Proof.
  induction l as [|z l IH]; intros Hs; simpl; [by repeat constructor|].
  pose proof (fun w => sorted_head_lt z l w Hs) as Hz.
  pose proof Hs as [Hs' HF]%StronglySorted_inv.
  destruct (less x z) eqn:E1; [|destruct (less z x) eqn:E2].
  - constructor; [done|]. constructor; [done|].
    eapply Forall_impl; [done|]. simpl. eauto using less_trans.
  - constructor; [by apply IH|]. apply Forall_forall. intros y Hy.
    apply elem_of_sl_insert in Hy as [->|[? _]]; auto.
  - constructor; [done|]. eapply Forall_impl; [done|]. simpl. intros y.
    by rewrite (less_equiv_l _ _ _ E1 E2).
Qed.

Lemma sl_delete_sorted x l : StronglySorted Less l -> StronglySorted Less (sl_delete x l).
Proof.
  induction l as [|z l IH]; intros Hs; simpl; [done|].
  pose proof (fun w => sorted_head_lt z l w Hs) as Hz.
  pose proof Hs as [Hs' HF]%StronglySorted_inv.
  destruct (less x z) eqn:E1; [done|destruct (less z x) eqn:E2; [|done]].
  constructor; [by apply IH|]. apply Forall_forall. intros y Hy.
  apply elem_of_sl_delete in Hy as [? _]; auto.
Qed.

Lemma sl_delete_length x l :
  StronglySorted Less l -> x ∈ l -> S (length (sl_delete x l)) = length l.
Proof.
  induction l as [|z l IH]; intros Hs Hx; [set_solver|].
  pose proof (fun w => sorted_head_lt z l w Hs) as Hz.
  pose proof Hs as [Hs' _]%StronglySorted_inv. simpl.
  apply elem_of_cons in Hx as [->|Hx]; [by rewrite less_irrefl|].
  pose proof (Hz x Hx) as Hzx. rewrite (less_asym _ _ Hzx), Hzx. simpl. by rewrite IH.
Qed.

(** Two different elements of a sorted list are comparable. *)
Lemma sorted_neq l x y :
  StronglySorted Less l -> x ∈ l -> y ∈ l -> x <> y -> less x y = true \/ less y x = true.
Proof.
  induction l as [|z l IH]; intros Hs Hx Hy Hne; [set_solver|].
  pose proof (fun w => sorted_head_lt z l w Hs) as Hz.
  apply StronglySorted_inv in Hs as [Hs _].
  apply elem_of_cons in Hx as [->|Hx], Hy as [->|Hy]; auto; done.
Qed.

(** A sorted list is determined by its elements. *)
Lemma sorted_ext l1 l2 :
  StronglySorted Less l1 -> StronglySorted Less l2 -> (forall x, x ∈ l1 <-> x ∈ l2) -> l1 = l2.
Proof.
  revert l2. induction l1 as [|x l1 IH]; intros [|y l2] H1 H2 He; [done|set_solver..|].
  pose proof (fun w => sorted_head_lt x l1 w H1) as Hx.
  pose proof (fun w => sorted_head_lt y l2 w H2) as Hy.
  assert (x = y) as ->.
  { destruct (proj1 (elem_of_cons _ _ _) (proj1 (He x) ltac:(set_solver))) as [?|E1]; [done|].
    destruct (proj1 (elem_of_cons _ _ _) (proj2 (He y) ltac:(set_solver))) as [?|E2]; [done|].
    apply Hy, less_asym in E1. apply Hx in E2. congruence. }
  f_equal. apply StronglySorted_inv in H1 as [H1 _], H2 as [H2 _]. apply IH; [done..|].
  assert (forall z, z ∈ l1 -> z <> y) as N1.
  { intros z Hz ->. apply Hx in Hz. by rewrite less_irrefl in Hz. }
  assert (forall z, z ∈ l2 -> z <> y) as N2.
  { intros z Hz ->. apply Hy in Hz. by rewrite less_irrefl in Hz. }
  intros z. specialize (He z). rewrite !elem_of_cons in He. naive_solver.
Qed.

(** Deleting a list of elements. *)
Definition sl_deletes (l E : list A) : list A := foldl (fun acc e => sl_delete e acc) l E.

Lemma sl_deletes_spec l E :
  StronglySorted Less l ->
  StronglySorted Less (sl_deletes l E) /\
  forall y, y ∈ sl_deletes l E <->
    y ∈ l /\ forall e, e ∈ E -> less e y = true \/ less y e = true.
Proof.
  revert l. induction E as [|e E IH]; intros l Hs; simpl.
  - split; [done|]. intros y. set_solver.
  - destruct (IH (sl_delete e l)) as [Hs' Hy]; [by apply sl_delete_sorted|].
    split; [done|]. intros y. rewrite Hy, elem_of_sl_delete by done.
    setoid_rewrite elem_of_cons. naive_solver.
Qed.

(** Deleting elements of the list itself removes just those. *)
Lemma sl_deletes_subset l E :
  StronglySorted Less l -> (forall e, e ∈ E -> e ∈ l) ->
  forall y, y ∈ sl_deletes l E <-> y ∈ l /\ y ∉ E.
Proof.
  intros Hs HE y. rewrite (proj2 (sl_deletes_spec l E Hs)). split; intros [Hy He]; (split; [done|]).
  - intros HyE. specialize (He y HyE). rewrite less_irrefl in He. naive_solver.
  - intros e HeE. apply (sorted_neq l); auto. intros ->. done.
Qed.

End sorted_list.
#[export] Hint Resolve sl_insert_sorted sl_delete_sorted : corekv.

(** ** The interface *)

(** [BTreeG[A]] and its cursor [IterG[A]].  [bt_Descend t p] lists the items a
    descent from pivot [p] passes to its callback when it never stops.  A
    cursor holds the tree's read lock from [bt_Iter] to [c_Release], so it
    iterates over the items present when it was created. *)
Class BTreeG (A : Type) := {
  btree : Type;
  bt_New : btree;
  bt_Set : btree -> A -> btree;
  bt_Delete : btree -> A -> btree;
  bt_Clear : btree -> btree;
  bt_Min : btree -> option A;
  bt_Height : btree -> nat;
  bt_Len : btree -> nat;
  bt_Descend : btree -> A -> list A;
  iterG : Type;
  bt_Iter : btree -> iterG;
  c_First : iterG -> bool * iterG;
  c_Last : iterG -> bool * iterG;
  c_Next : iterG -> bool * iterG;
  c_Prev : iterG -> bool * iterG;
  c_Seek : iterG -> A -> bool * iterG;
  c_Item : iterG -> A;
  c_Release : iterG -> iterG }.
Arguments btree A {_}.
Arguments iterG A {_}.

(** A callback of [Descend] that always returns [false] sees only the first item. *)
Definition descend_once {A B} (items : list A) (f : A -> B -> B) (b : B) : B :=
  match items with [] => b | x :: _ => f x b end.

(** The loop [for iter.Next() { body }] over a cursor.  The body maps the
    item and the loop's variables to new variables and whether it breaks. *)
Fixpoint for_Next {A B} `{BTreeG A} (fuel : nat) (body : A -> B -> B * bool)
    (c : iterG A) (b : B) : B :=
  match fuel with
  | O => b
  | S fuel' =>
      let '(ok, c') := c_Next c in
      if ok then
        let '(b', brk) := body (c_Item c') b in
        if brk then b' else for_Next fuel' body c' b'
      else b
  end.

(** The same loop over a list. *)
Fixpoint for_list {A B} (body : A -> B -> B * bool) (l : list A) (b : B) : B :=
  match l with
  | [] => b
  | x :: l' => let '(b', brk) := body x b in if brk then b' else for_list body l' b'
  end.

(** Where a cursor stands: nowhere yet, at the item of index [i], or beyond
    one of the two ends. *)
Inductive cpos := Unseeked | At (i : nat) | PastEnd | BeforeFirst.

(** What the memory store relies on.  [items] is the tree's content in order,
    [cur_items] that of the tree under a cursor; [ran_end] and [ran_start]
    record that a [Next] (a [Prev]) of this cursor ran off the end (the start). *)
Class BTreeGLaws (A : Type) `{BTreeG A} (zero : A) (less : A -> A -> bool) := {
  items : btree A -> list A;
  items_sorted t : StronglySorted (fun a b => less a b = true) (items t);
  items_New : items bt_New = [];
  items_Set t x : items (bt_Set t x) = sl_insert less x (items t);
  items_Delete t x : items (bt_Delete t x) = sl_delete less x (items t);
  items_Clear t : items (bt_Clear t) = [];
  Min_items t : bt_Min t = head (items t);
  Height_items t : bt_Height t = 0%nat <-> items t = [];
  Len_items t : bt_Len t = length (items t);
  Descend_items t p : bt_Descend t p = reverse (filter (fun y => less p y = false) (items t));

  cur_items : iterG A -> list A;
  cur_pos : iterG A -> cpos;
  ran_end : iterG A -> bool;
  ran_start : iterG A -> bool;

  Iter_spec t : let c := bt_Iter t in
    cur_items c = items t /\ cur_pos c = Unseeked /\ c_Item c = zero /\
    ran_end c = false /\ ran_start c = false;
  First_items c : cur_items (c_First c).2 = cur_items c;
  Last_items c : cur_items (c_Last c).2 = cur_items c;
  Next_items c : cur_items (c_Next c).2 = cur_items c;
  Prev_items c : cur_items (c_Prev c).2 = cur_items c;
  Seek_items c x : cur_items (c_Seek c x).2 = cur_items c;
  (** On an empty tree every movement fails. *)
  empty_moves c x : cur_items c = [] ->
    (c_First c).1 = false /\ (c_Last c).1 = false /\ (c_Next c).1 = false /\
    (c_Prev c).1 = false /\ (c_Seek c x).1 = false;
  Item_At c i : cur_pos c = At i -> cur_items c !! i = Some (c_Item c);
  First_spec c : cur_items c <> [] ->
    (c_First c).1 = true /\ cur_pos (c_First c).2 = At 0 /\
    (ran_start c = false -> ran_start (c_First c).2 = false);
  Last_spec c : cur_items c <> [] ->
    (c_Last c).1 = true /\ cur_pos (c_Last c).2 = At (pred (length (cur_items c))) /\
    ran_start (c_Last c).2 = ran_start c /\ ran_end (c_Last c).2 = ran_end c;
  (** [Seek] moves to the first item that is not less than [x]. *)
  Seek_found c x i y : cur_items c !! i = Some y -> less y x = false ->
    (forall j z, (j < i)%nat -> cur_items c !! j = Some z -> less z x = true) ->
    (c_Seek c x).1 = true /\ cur_pos (c_Seek c x).2 = At i /\
    ran_start (c_Seek c x).2 = ran_start c;
  Seek_none c x : cur_items c <> [] -> (forall z, z ∈ cur_items c -> less z x = true) ->
    (c_Seek c x).1 = false /\ cur_pos (c_Seek c x).2 = PastEnd /\
    ran_start (c_Seek c x).2 = ran_start c;
  Next_Unseeked c : cur_pos c = Unseeked -> c_Next c = c_First c;
  Next_At c i : cur_pos c = At i -> (S i < length (cur_items c))%nat ->
    (c_Next c).1 = true /\ cur_pos (c_Next c).2 = At (S i) /\
    ran_start (c_Next c).2 = ran_start c /\ ran_end (c_Next c).2 = ran_end c;
  Next_At_last c i : cur_pos c = At i -> S i = length (cur_items c) ->
    (c_Next c).1 = false /\ cur_pos (c_Next c).2 = PastEnd /\
    c_Item (c_Next c).2 = c_Item c /\
    ran_start (c_Next c).2 = ran_start c /\ ran_end (c_Next c).2 = true;
  Next_PastEnd c : cur_pos c = PastEnd -> ran_start c = false ->
    (c_Next c).1 = false /\ cur_pos (c_Next c).2 = PastEnd /\
    c_Item (c_Next c).2 = c_Item c /\
    ran_start (c_Next c).2 = ran_start c /\ ran_end (c_Next c).2 = ran_end c;
  Prev_At c i : cur_pos c = At (S i) ->
    (c_Prev c).1 = true /\ cur_pos (c_Prev c).2 = At i /\
    ran_start (c_Prev c).2 = ran_start c /\ ran_end (c_Prev c).2 = ran_end c;
  Prev_At_first c : cur_pos c = At 0 ->
    (c_Prev c).1 = false /\ cur_pos (c_Prev c).2 = BeforeFirst /\
    c_Item (c_Prev c).2 = c_Item c /\ ran_end (c_Prev c).2 = ran_end c;
  (** From beyond the end, [Prev] goes to the last item but one: the cursor
      reads as if it still stood on the last item. *)
  Prev_PastEnd c i : cur_pos c = PastEnd -> length (cur_items c) = S (S i) ->
    (c_Prev c).1 = true /\ cur_pos (c_Prev c).2 = At i /\
    ran_start (c_Prev c).2 = ran_start c /\ ran_end (c_Prev c).2 = ran_end c;
  Prev_PastEnd_one c : cur_pos c = PastEnd -> length (cur_items c) = 1%nat ->
    (c_Prev c).1 = false /\ cur_pos (c_Prev c).2 = BeforeFirst /\
    ran_end (c_Prev c).2 = ran_end c;
  Prev_BeforeFirst c : cur_pos c = BeforeFirst -> ran_end c = false ->
    (c_Prev c).1 = false /\ cur_pos (c_Prev c).2 = BeforeFirst /\
    c_Item (c_Prev c).2 = c_Item c /\ ran_end (c_Prev c).2 = false;
  (** The defect of https://github.com/tidwall/btree/issues/46: a cursor that
      once ran off the end starts over when it runs off the start. *)
  Prev_BeforeFirst_bug c i : cur_pos c = BeforeFirst -> ran_end c = true ->
    length (cur_items c) = S (S i) ->
    (c_Prev c).1 = true /\ cur_pos (c_Prev c).2 = At i /\ ran_end (c_Prev c).2 = true }.

(** ** The cursor as an index *)

Section cursor.
Context `{BT : BTreeG A} {zero : A} {less : A -> A -> bool} {BL : BTreeGLaws A zero less}.

(** The cursor reads the item of index [i]: it stands on it, or it stood on the
    last item when a [Next] failed. *)
Definition cur_on (c : iterG A) (i : nat) : Prop :=
  cur_items c !! i = Some (c_Item c) /\ ran_start c = false /\
  (cur_pos c = At i \/ (cur_pos c = PastEnd /\ S i = length (cur_items c))).

(** The cursor is beyond the last item, and stays there. *)
Definition cur_end (c : iterG A) : Prop := cur_pos c = PastEnd /\ ran_start c = false.

Lemma cur_on_lookup c i : cur_on c i -> cur_items c !! i = Some (c_Item c).
Proof. by intros [? _]. Qed.

Lemma cur_on_lt c i : cur_on c i -> (i < length (cur_items c))%nat.
Proof. intros [? _]. by eapply lookup_lt_Some. Qed.

Lemma cur_on_At c i : cur_pos c = At i -> ran_start c = false -> cur_on c i.
Proof. intros H ?. split; [by apply Item_At|]. auto. Qed.

Lemma cur_on_Next c i :
  cur_on c i -> (S i < length (cur_items c))%nat ->
  (c_Next c).1 = true /\ cur_on (c_Next c).2 (S i).
Proof.
  intros (Hi & Hs & [Hp|[_ ?]]) Hlt; [|lia].
  destruct (Next_At c i Hp Hlt) as (? & ? & ? & _). split; [done|].
  apply cur_on_At; congruence.
Qed.

Lemma cur_on_Next_last c i :
  cur_on c i -> S i = length (cur_items c) ->
  (c_Next c).1 = false /\ cur_on (c_Next c).2 i /\ cur_end (c_Next c).2 /\
  c_Item (c_Next c).2 = c_Item c.
Proof.
  intros (Hi & Hs & Hp) Hlt.
  assert ((c_Next c).1 = false /\ cur_pos (c_Next c).2 = PastEnd /\
    c_Item (c_Next c).2 = c_Item c /\ ran_start (c_Next c).2 = false)
    as (? & Hp' & HI & ?).
  { destruct Hp as [Hp|[Hp _]].
    - destruct (Next_At_last c i Hp Hlt) as (? & ? & ? & ? & _). naive_solver congruence.
    - destruct (Next_PastEnd c Hp Hs) as (? & ? & ? & ? & _). naive_solver congruence. }
  unfold cur_on, cur_end. rewrite Next_items, HI. naive_solver.
Qed.

Lemma cur_end_Next c : cur_end c -> (c_Next c).1 = false /\ cur_end (c_Next c).2.
Proof.
  intros [Hp Hs]. destruct (Next_PastEnd c Hp Hs) as (? & ? & _ & ? & _).
  unfold cur_end. naive_solver congruence.
Qed.

Lemma cur_on_Prev c i :
  cur_on c (S i) -> (c_Prev c).1 = true /\ cur_on (c_Prev c).2 i.
Proof.
  intros (Hi & Hs & [Hp|[Hp Hl]]).
  - destruct (Prev_At c i Hp) as (? & ? & ? & _). split; [done|]. apply cur_on_At; congruence.
  - destruct (Prev_PastEnd c i Hp) as (? & ? & ? & _); [done|].
    split; [done|]. apply cur_on_At; congruence.
Qed.

Lemma cur_on_Prev_first c : cur_on c 0 -> (c_Prev c).1 = false.
Proof.
  intros (_ & _ & [Hp|[Hp Hl]]); [apply (Prev_At_first c Hp)|by apply (Prev_PastEnd_one c Hp)].
Qed.

Lemma cur_on_First c :
  ran_start c = false -> cur_items c <> [] ->
  (c_First c).1 = true /\ cur_on (c_First c).2 0.
Proof. intros Hs Hn. destruct (First_spec c Hn) as (? & ? & ?). auto using cur_on_At. Qed.

Lemma cur_on_Last c :
  ran_start c = false -> cur_items c <> [] ->
  (c_Last c).1 = true /\ cur_on (c_Last c).2 (pred (length (cur_items c))).
Proof.
  intros Hs Hn. destruct (Last_spec c Hn) as (? & ? & E & _). split; [done|].
  apply cur_on_At; congruence.
Qed.

(** *** Zippers: the cursor reads [x] between the items [l1] and [l2] *)

Definition zip_at (c : iterG A) (l1 : list A) (x : A) (l2 : list A) : Prop :=
  cur_items c = l1 ++ x :: l2 /\ c_Item c = x /\ cur_pos c = At (length l1).

(** The same, or a [Next] has failed on the last item. *)
Definition zip (c : iterG A) (l1 : list A) (x : A) (l2 : list A) : Prop :=
  cur_items c = l1 ++ x :: l2 /\ c_Item c = x /\
  (cur_pos c = At (length l1) \/ (cur_pos c = PastEnd /\ l2 = [])).

Lemma zip_at_zip c l1 x l2 : zip_at c l1 x l2 -> zip c l1 x l2.
Proof. unfold zip_at, zip. tauto. Qed.

Lemma zip_At c l1 x l2 :
  cur_items c = l1 ++ x :: l2 -> cur_pos c = At (length l1) -> zip_at c l1 x l2.
Proof.
  intros Hi Hp. split_and!; [done| |done]. apply Item_At in Hp. rewrite Hi, list_lookup_middle in Hp by done.
  by injection Hp.
Qed.

Lemma zip_Next c l1 x y l2 :
  zip c l1 x (y :: l2) ->
  (c_Next c).1 = true /\ zip_at (c_Next c).2 (l1 ++ [x]) y l2 /\ ran_start (c_Next c).2 = ran_start c.
Proof.
  intros (Hi & Hx & [Hp|[_ ?]]); [|done].
  destruct (Next_At c (length l1) Hp) as (? & ? & ? & _).
  { rewrite Hi, length_app. simpl. lia. }
  split_and!; try done. apply zip_At.
  - by rewrite Next_items, Hi, <- (assoc_L (++)).
  - rewrite length_app. simpl. by rewrite Nat.add_1_r.
Qed.

Lemma zip_at_Next_nil c l1 x :
  zip_at c l1 x [] ->
  (c_Next c).1 = false /\ zip (c_Next c).2 l1 x [] /\ ran_start (c_Next c).2 = ran_start c.
Proof.
  intros (Hi & Hx & Hp). destruct (Next_At_last c (length l1) Hp) as (? & ? & ? & ? & _).
  { rewrite Hi, length_app. simpl. lia. }
  split_and!; try done. split_and!; [by rewrite Next_items|congruence|by right].
Qed.

Lemma zip_Next_nil c l1 x :
  zip c l1 x [] -> ran_start c = false ->
  (c_Next c).1 = false /\ zip (c_Next c).2 l1 x [] /\ ran_start (c_Next c).2 = false.
Proof.
  intros (Hi & Hx & [Hp|[Hp _]]) Hs.
  - destruct (zip_at_Next_nil c l1 x) as (? & ? & ?); [done|]. split_and!; congruence.
  - destruct (Next_PastEnd c Hp Hs) as (? & ? & ? & E & _). rewrite E, Hs.
    split_and!; try done. split_and!; [by rewrite Next_items|congruence|by right].
Qed.

Lemma zip_Prev c l1 w x l2 :
  zip c (l1 ++ [w]) x l2 ->
  (c_Prev c).1 = true /\ zip_at (c_Prev c).2 l1 w (x :: l2) /\ ran_start (c_Prev c).2 = ran_start c.
Proof.
  intros (Hi & Hx & Hp). rewrite <- (assoc_L (++)) in Hi. simpl in Hi.
  assert ((c_Prev c).1 = true /\ cur_pos (c_Prev c).2 = At (length l1) /\
    ran_start (c_Prev c).2 = ran_start c) as (? & ? & ?).
  { destruct Hp as [Hp|[Hp ->]].
    - rewrite length_app in Hp. simpl in Hp. rewrite Nat.add_1_r in Hp.
      destruct (Prev_At c _ Hp) as (? & ? & ? & _). done.
    - destruct (Prev_PastEnd c (length l1) Hp) as (? & ? & ? & _); [|done].
      rewrite Hi, length_app. simpl. lia. }
  split_and!; try done. apply zip_At; [by rewrite Prev_items|done].
Qed.

Lemma zip_Prev_nil c x l2 : zip c [] x l2 -> (c_Prev c).1 = false.
Proof.
  intros (Hi & _ & [Hp|[Hp ->]]); [apply (Prev_At_first c Hp)|].
  apply (Prev_PastEnd_one c Hp). by rewrite Hi.
Qed.

Lemma zip_First c x l2 :
  cur_items c = x :: l2 -> ran_start c = false ->
  (c_First c).1 = true /\ zip_at (c_First c).2 [] x l2 /\ ran_start (c_First c).2 = false.
Proof.
  intros Hi Hs. destruct (First_spec c) as (? & ? & ?); [by rewrite Hi|]. split_and!; auto.
  apply zip_At; [by rewrite First_items|done].
Qed.

Lemma zip_Last c l1 x :
  cur_items c = l1 ++ [x] -> (c_Last c).1 = true /\ zip_at (c_Last c).2 l1 x [].
Proof.
  intros Hi. destruct (Last_spec c) as (? & Hp & _); [rewrite Hi; by destruct l1|]. split; [done|].
  apply zip_At; [by rewrite Last_items|]. rewrite Hp, Hi, length_app. simpl. f_equal. lia.
Qed.

Lemma zip_Seek c p l1 x l2 :
  cur_items c = l1 ++ x :: l2 -> (forall z, z ∈ l1 -> less z p = true) -> less x p = false ->
  (c_Seek c p).1 = true /\ zip_at (c_Seek c p).2 l1 x l2 /\ ran_start (c_Seek c p).2 = ran_start c.
Proof.
  intros Hi Hl Hx. destruct (Seek_found c p (length l1) x) as (? & ? & ?); [|done| |].
  - by rewrite Hi, list_lookup_middle.
  - intros j z Hj Hz. rewrite Hi, lookup_app_l in Hz by done. apply Hl. by eapply list_elem_of_lookup_2.
  - split_and!; try done. apply zip_At; [by rewrite Seek_items|done].
Qed.

(** The cursor has no item ahead, and never will. *)
Definition dead (c : iterG A) : Prop := cur_items c = [] \/ cur_end c.

Lemma dead_Next c : dead c -> (c_Next c).1 = false /\ dead (c_Next c).2.
Proof.
  intros [H|H].
  - split; [apply (empty_moves c zero H)|]. left. by rewrite Next_items.
  - destruct (cur_end_Next c H). split; [done|]. by right.
Qed.

Lemma Seek_dead c p :
  ran_start c = false -> (forall z, z ∈ cur_items c -> less z p = true) ->
  (c_Seek c p).1 = false /\ dead (c_Seek c p).2.
Proof.
  intros Hs Hz. destruct (cur_items c) as [|x l] eqn:E.
  - split; [by apply (empty_moves c p)|]. left. by rewrite Seek_items.
  - destruct (Seek_none c p) as (? & ? & ?); [by rewrite E|by rewrite E|].
    split; [done|]. right. split; congruence.
Qed.

Lemma items_deletes (t : btree A) E :
  items (foldl bt_Delete t E) = sl_deletes less (items t) E.
Proof.
  revert t. induction E as [|e E IH]; intros t; simpl; [done|].
  by rewrite IH, items_Delete.
Qed.

(** A cursor on index [i] runs the loop over the items behind [i]. *)
Lemma for_Next_on {B} (body : A -> B -> B * bool) fuel c i b :
  cur_on c i -> (length (cur_items c) <= i + fuel)%nat ->
  for_Next fuel body c b = for_list body (drop (S i) (cur_items c)) b.
Proof.
  revert c i b. induction fuel as [|fuel IH]; intros c i b Hc Hf.
  { apply cur_on_lt in Hc. lia. }
  simpl. destruct (decide (S i < length (cur_items c))%nat) as [Hl|Hl].
  - destruct (cur_on_Next c i Hc Hl) as [Hok Hon]. pose proof (cur_on_lookup _ _ Hon) as Hit.
    rewrite Next_items in Hit.
    destruct (c_Next c) as [ok c'] eqn:E. simpl in *. subst ok.
    rewrite (drop_S _ _ _ Hit). simpl. destruct (body (c_Item c') b) as [b' []]; [done|].
    pose proof (Next_items c) as Hi. rewrite E in Hi. simpl in Hi.
    rewrite (IH c' (S i)) by (done || rewrite Hi; lia). by rewrite Hi.
  - pose proof (cur_on_lt _ _ Hc). destruct (cur_on_Next_last c i Hc) as [Hok _]; [lia|].
    destruct (c_Next c) as [ok c']. simpl in *. subst ok. by rewrite drop_ge by lia.
Qed.

(** A fresh cursor runs the loop over all items. *)
Lemma for_Next_Iter {B} (body : A -> B -> B * bool) fuel t b :
  (length (items t) < fuel)%nat ->
  for_Next fuel body (bt_Iter t) b = for_list body (items t) b.
Proof.
  intros Hf. destruct (Iter_spec t) as (Hi & Hp & _ & _ & Hs).
  destruct fuel as [|fuel]; [lia|]. simpl. rewrite (Next_Unseeked _ Hp).
  destruct (items t) as [|x l] eqn:E.
  - destruct (empty_moves (bt_Iter t) zero Hi) as [Hok _].
    destruct (c_First _). simpl in *. by subst.
  - destruct (cur_on_First (bt_Iter t) Hs) as [Hok Hon]; [congruence|].
    pose proof (First_items (bt_Iter t)) as Hi'. rewrite Hi in Hi'.
    destruct (c_First (bt_Iter t)) as [ok c]. simpl in *. subst ok.
    pose proof (cur_on_lookup _ _ Hon) as Hit. rewrite Hi' in Hit. simpl in Hit.
    injection Hit as <-. destruct (body x b) as [b' []]; [done|].
    rewrite (for_Next_on _ _ c 0) by (done || rewrite Hi'; simpl in *; lia).
    by rewrite Hi'.
Qed.

End cursor.

(** ** An implementation by sorted lists *)

Module ListBTree.
Section impl.
Context {A : Type} (zero : A) (less : A -> A -> bool) {LO : LessOrder less}.

Record tree := mk_tree { t_items : list A; t_sorted : sortedb less t_items = true }.

Record cursor := mk_cursor {
  k_items : list A; k_pos : cpos; k_end : bool; k_start : bool; k_item : A }.

Definition pos (c : cursor) : cpos :=
  match k_pos c with
  | At i => if (i <? length (k_items c))%nat then At i else PastEnd
  | p => p
  end.
Definition Item (c : cursor) : A :=
  match pos c with At i => default zero (k_items c !! i) | _ => k_item c end.

Definition move (c : cursor) (i : nat) : cursor :=
  mk_cursor (k_items c) (At i) (k_end c) (k_start c) (k_item c).

Lemma insert_ok x l : sortedb less l = true -> sortedb less (sl_insert less x l) = true.
Proof. rewrite !sortedb_sorted. auto with corekv. Qed.
Lemma delete_ok x l : sortedb less l = true -> sortedb less (sl_delete less x l) = true.
Proof. rewrite !sortedb_sorted. auto with corekv. Qed.

Definition First (c : cursor) : bool * cursor :=
  match k_items c with [] => (false, c) | _ => (true, move c 0) end.
Definition Last (c : cursor) : bool * cursor :=
  match k_items c with [] => (false, c) | _ => (true, move c (pred (length (k_items c)))) end.

Definition Next (c : cursor) : bool * cursor :=
  match k_items c with
  | [] => (false, c)
  | _ =>
      match pos c with
      | Unseeked => First c
      | At i =>
          if (S i <? length (k_items c))%nat then (true, move c (S i))
          else (false, mk_cursor (k_items c) PastEnd true (k_start c) (Item c))
      | PastEnd => (false, c)
      | BeforeFirst => (true, move c 0)
      end
  end.

Definition Prev (c : cursor) : bool * cursor :=
  let back n c :=
    match n with
    | S i => (true, move c i)
    | O => (false, mk_cursor (k_items c) BeforeFirst (k_end c) true (Item c))
    end in
  match k_items c with
  | [] => (false, c)
  | _ =>
      match pos c with
      | Unseeked => (false, c)
      | At i => back i c
      | PastEnd => back (pred (length (k_items c))) c
      | BeforeFirst => if k_end c then back (pred (length (k_items c))) c else (false, c)
      end
  end.

Fixpoint seek_index (x : A) (l : list A) : option nat :=
  match l with
  | [] => None
  | y :: l' => if less y x then S <$> seek_index x l' else Some 0%nat
  end.

Definition Seek (c : cursor) (x : A) : bool * cursor :=
  match k_items c with
  | [] => (false, c)
  | _ =>
      match seek_index x (k_items c) with
      | Some i => (true, move c i)
      | None => (false, mk_cursor (k_items c) PastEnd true (k_start c) (Item c))
      end
  end.

#[export] Instance btreeG : BTreeG A := {
  btree := tree;
  bt_New := mk_tree [] eq_refl;
  bt_Set t x := mk_tree (sl_insert less x (t_items t)) (insert_ok x _ (t_sorted t));
  bt_Delete t x := mk_tree (sl_delete less x (t_items t)) (delete_ok x _ (t_sorted t));
  bt_Clear _ := mk_tree [] eq_refl;
  bt_Min t := head (t_items t);
  bt_Height t := length (t_items t);
  bt_Len t := length (t_items t);
  bt_Descend t p := reverse (filter (fun y => less p y = false) (t_items t));
  iterG := cursor;
  bt_Iter t := mk_cursor (t_items t) Unseeked false false zero;
  c_First := First; c_Last := Last; c_Next := Next; c_Prev := Prev; c_Seek := Seek;
  c_Item := Item;
  c_Release c := c }.

Lemma seek_index_some x l i :
  seek_index x l = Some i <->
  exists y, l !! i = Some y /\ less y x = false /\
    forall j z, (j < i)%nat -> l !! j = Some z -> less z x = true.
Proof.
  revert i. induction l as [|y l IH]; intros i; simpl; [naive_solver|].
  destruct (less y x) eqn:E.
  - destruct i as [|i].
    + split; [by destruct (seek_index x l)|]. intros (? & [= ->] & ? & _). congruence.
    + assert (S <$> seek_index x l = Some (S i) <-> seek_index x l = Some i) as ->.
      { destruct (seek_index x l); naive_solver. }
      rewrite IH. split; intros (w & Hw & Hl & Hj); exists w; split_and!; try done.
      * intros [|j] z Hlt Hz; [naive_solver|]. apply (Hj j z); [lia|done].
      * intros j z Hlt Hz. apply (Hj (S j) z); [lia|done].
  - split.
    + intros [= <-]. exists y. split_and!; try done. lia.
    + intros (w & Hw & Hl & Hj). destruct i as [|i]; [done|].
      pose proof (Hj 0%nat y ltac:(lia) eq_refl). congruence.
Qed.

Lemma seek_index_none x l : (forall z, z ∈ l -> less z x = true) -> seek_index x l = None.
Proof.
  induction l as [|y l IH]; intros H; simpl; [done|].
  rewrite (H y) by set_solver. rewrite IH by set_solver. done.
Qed.

Lemma pos_move c i : (i < length (k_items c))%nat -> pos (move c i) = At i.
Proof. intros H. unfold pos. simpl. by rewrite (proj2 (Nat.ltb_lt _ _) H). Qed.

Lemma pos_lt c i : pos c = At i -> (i < length (k_items c))%nat.
Proof.
  unfold pos. destruct (k_pos c) as [|j| |]; try done.
  destruct (j <? _)%nat eqn:E; [|done]. intros [= ->]. by apply Nat.ltb_lt.
Qed.

Lemma Item_lookup c i : pos c = At i -> k_items c !! i = Some (Item c).
Proof.
  intros H. pose proof (pos_lt c i H) as Hi. unfold Item. rewrite H.
  by destruct (lookup_lt_is_Some_2 _ _ Hi) as [y ->].
Qed.

#[export] Program Instance laws : BTreeGLaws A zero less := {
  items := t_items;
  cur_items := k_items;
  cur_pos := pos;
  ran_end := k_end;
  ran_start := k_start }.
Next Obligation. intros t. apply sortedb_sorted, t_sorted. Qed.
Next Obligation. done. Qed.
Next Obligation. done. Qed.
Next Obligation. done. Qed.
Next Obligation. done. Qed.
Next Obligation. done. Qed.
Next Obligation. intros t. simpl. by destruct (t_items t). Qed.
Next Obligation. done. Qed.
Next Obligation. done. Qed.
Next Obligation. done. Qed.
Next Obligation. intros c. simpl. unfold First. repeat case_match; simpl; congruence. Qed.
Next Obligation. intros c. simpl. unfold Last. repeat case_match; simpl; congruence. Qed.
Next Obligation. intros c. simpl. unfold Next, First. repeat case_match; simpl; congruence. Qed.
Next Obligation. intros c. simpl. unfold Prev. repeat case_match; simpl; congruence. Qed.
Next Obligation. intros c x. simpl. unfold Seek. repeat case_match; simpl; congruence. Qed.
Next Obligation.
  intros c x E. simpl in *. unfold First, Last, Next, Prev, Seek. by rewrite E.
Qed.
Next Obligation. exact Item_lookup. Qed.
Next Obligation.
  intros c Hn. simpl in *. unfold First. destruct (k_items c) eqn:E; [done|]. simpl.
  rewrite pos_move by (rewrite E; simpl; lia). split_and!; auto.
Qed.
Next Obligation.
  intros c Hn. simpl in *. unfold Last. destruct (k_items c) eqn:E; [done|]. rewrite <- E.
  simpl. rewrite pos_move by (rewrite E; simpl; lia). done.
Qed.
Next Obligation.
  intros c x i y Hi Hy Hj. simpl in *. unfold Seek.
  rewrite (proj2 (seek_index_some x (k_items c) i)) by eauto.
  pose proof (lookup_lt_Some _ _ _ Hi). destruct (k_items c) eqn:E; [done|]. simpl.
  rewrite pos_move by (rewrite E; simpl in *; lia). split_and!; auto.
Qed.
Next Obligation.
  intros c x Hn Hz. simpl in *. unfold Seek. rewrite seek_index_none by done.
  by destruct (k_items c).
Qed.
Next Obligation.
  intros c Hp. simpl in *. unfold Next. rewrite Hp. unfold First. by destruct (k_items c).
Qed.
Next Obligation.
  intros c i Hp Hl. simpl in *. unfold Next. rewrite Hp, (proj2 (Nat.ltb_lt _ _) Hl).
  destruct (k_items c) eqn:E; [simpl in Hl; lia|]. simpl.
  rewrite pos_move by (rewrite E; simpl in *; lia). split_and!; auto.
Qed.
Next Obligation.
  intros c i Hp Hl. simpl in *. unfold Next. rewrite Hp, (proj2 (Nat.ltb_ge _ _)) by lia.
  by destruct (k_items c) eqn:E.
Qed.
Next Obligation.
  intros c Hp Hs. simpl in *. unfold Next. rewrite Hp. by destruct (k_items c).
Qed.
Next Obligation.
  intros c i Hp. simpl in *. pose proof (pos_lt _ _ Hp). unfold Prev. rewrite Hp.
  destruct (k_items c) eqn:E; [simpl in *; lia|]. simpl.
  rewrite pos_move by (rewrite E; simpl in *; lia). split_and!; auto.
Qed.
Next Obligation.
  intros c Hp. simpl in *. pose proof (pos_lt _ _ Hp). unfold Prev. rewrite Hp.
  by destruct (k_items c) eqn:E; [simpl in *; lia|].
Qed.
Next Obligation.
  intros c i Hp Hl. simpl in *. unfold Prev. rewrite Hp, Hl.
  destruct (k_items c) eqn:E; [done|]. simpl.
  rewrite pos_move by (rewrite E; simpl in *; lia). split_and!; auto.
Qed.
Next Obligation.
  intros c Hp Hl. simpl in *. unfold Prev. rewrite Hp, Hl. by destruct (k_items c) eqn:E.
Qed.
Next Obligation.
  intros c Hp He. simpl in *. unfold Prev. rewrite Hp, He. by destruct (k_items c) eqn:E.
Qed.
Next Obligation.
  intros c i Hp He Hl. simpl in *. unfold Prev. rewrite Hp, He, Hl.
  destruct (k_items c) eqn:E; [done|]. simpl.
  rewrite pos_move by (rewrite E; simpl in *; lia). split_and!; auto.
Qed.
End impl.
End ListBTree.
