(* ===== verification/Kv.v ===== *)
(** The root package [corekv]: errors (error.go), iterator options and the
    store interfaces (kv.go), and the transaction carried by a context
    (txn.go).  The interfaces are the class [ReaderWriter]; the contract its
    implementations and wrappers keep is the class [RWLaws], stated over an
    ordered list of entries ([RWModel]). *)
From S2P Require Import Prelude.
From Stdlib Require Import Strings.Byte.
From Stdlib Require String.

(** ** Errors *)

(** The sentinel errors of error.go, the values [errors.Join] builds, and the
    errors other packages return, by message. *)
Inductive error :=
| ErrNotFound
| ErrEmptyKey
| ErrValueNil
| ErrDiscardedTxn
| ErrDBClosed
| ErrTxnConflict
| ErrReadOnlyTxn
| ErrOther (msg : String.string)
| ErrJoin1 (e : error)
| ErrJoin2 (e1 e2 : error).

Arguments ErrOther msg%_string_scope.

#[export] Instance string_eq_decision : EqDecision String.string := String.string_dec.
#[export] Instance error_eq_decision : EqDecision error.
Proof. solve_decision. Defined.

(** [errors.Join] of two errors: nil errors are dropped. *)
Definition errors_Join (e1 e2 : option error) : option error :=
  match e1, e2 with
  | None, None => None
  | Some e, None | None, Some e => Some (ErrJoin1 e)
  | Some e, Some e' => Some (ErrJoin2 e e')
  end.

(** [errors.Is]. *)
Fixpoint errors_Is (e target : error) : bool :=
  bool_decide (e = target) ||
  match e with
  | ErrJoin1 e1 => errors_Is e1 target
  | ErrJoin2 e1 e2 => errors_Is e1 target || errors_Is e2 target
  | _ => false
  end.

(** A Go [(value, error)] pair. *)
Inductive result (A : Type) := Ok (a : A) | Err (e : error).
Arguments Ok {A} a.
Arguments Err {A} e.

#[export] Instance result_eq_decision `{EqDecision A} : EqDecision (result A).
Proof. solve_decision. Defined.

(** ** Iterator options *)

Record IterOptions := mkIterOptions {
  Prefix : slice;
  Start : slice;
  End_ : slice;
  Reverse : bool;
  KeysOnly : bool }.

Definition DefaultIterOptions : IterOptions := mkIterOptions None None None false false.

(** ** The transaction of a context *)

Section context.
Context {D : Type}.

(** A context is a chain of key-value pairs; [CtxTxnKey] is the key of the
    transaction, [OtherKey] any other one.  [D] are the dynamic values. *)
Inductive ctxKey := CtxTxnKey | OtherKey (n : nat).

#[export] Instance ctxKey_eq_decision : EqDecision ctxKey.
Proof. solve_decision. Defined.

Inductive Context_ :=
| Background
| WithValue (parent : Context_) (key : ctxKey) (val : D).

Fixpoint ctx_Value (ctx : Context_) (key : ctxKey) : option D :=
  match ctx with
  | Background => None
  | WithValue parent key' val => if bool_decide (key' = key) then Some val else ctx_Value parent key
  end.

(** [as_T] is the type assertion to [T]; [None] of the second function is the panic. *)
Definition TryGetCtxTxnG {T} (as_T : D -> option T) (ctx : Context_) : option T :=
  match ctx_Value ctx CtxTxnKey with
  | Some d => as_T d
  | None => None
  end.

Definition MustGetCtxTxnG {T} (as_T : D -> option T) (ctx : Context_) : option T :=
  match ctx_Value ctx CtxTxnKey with
  | Some d => as_T d
  | None => None
  end.

Definition SetCtxTxn (ctx : Context_) (txn : D) : Context_ := WithValue ctx CtxTxnKey txn.

Lemma TryGetCtxTxnG_set {T} (as_T : D -> option T) ctx txn :
  TryGetCtxTxnG as_T (SetCtxTxn ctx txn) = as_T txn.
Proof. done. Qed.

End context.
Arguments Context_ D : clear implicits.

(** ** Ordered entries: the abstract content of a store *)

Abbreviation entry := (bytes * bytes)%type.

Definition kv_sorted (l : list entry) : Prop := StronglySorted (fun a b => a.1 ≺ b.1) l.

Fixpoint kv_lookup (k : bytes) (l : list entry) : option bytes :=
  match l with
  | [] => None
  | (k', v) :: l' => if bool_decide (k' = k) then Some v else kv_lookup k l'
  end.

Lemma kv_lookup_elem l k v : kv_sorted l -> kv_lookup k l = Some v <-> (k, v) ∈ l.
Proof.
  induction l as [|[k' v'] l IH]; intros Hs; simpl; [set_solver|].
  apply StronglySorted_inv in Hs as [Hs HF]. specialize (IH Hs).
  rewrite elem_of_cons. case_bool_decide as E.
  - subst. split; [naive_solver|]. intros [?|Hin]; [naive_solver|].
    rewrite Forall_forall in HF. apply HF in Hin. by destruct (bytes_lt_irrefl k).
  - rewrite IH. naive_solver.
Qed.

Lemma kv_lookup_none l k : kv_lookup k l = None <-> forall v, (k, v) ∉ l.
Proof.
  induction l as [|[k' v'] l IH]; simpl; [set_solver|].
  case_bool_decide as E; [|rewrite IH; set_solver].
  subst. split; [done|]. intros H. destruct (H v'). set_solver.
Qed.

Lemma kv_sorted_nodup l : kv_sorted l -> forall k v v', (k, v) ∈ l -> (k, v') ∈ l -> v = v'.
Proof. intros Hs k v v' H1 H2. apply kv_lookup_elem in H1, H2; [congruence|done..]. Qed.

(** Sorted entries are determined by their lookups. *)
Lemma kv_ext l1 l2 :
  kv_sorted l1 -> kv_sorted l2 -> (forall k, kv_lookup k l1 = kv_lookup k l2) -> l1 = l2.
Proof.
  revert l2. induction l1 as [|[k1 v1] l1 IH]; intros [|[k2 v2] l2] H1 H2 Hl; [done|..].
  - specialize (Hl k2). simpl in Hl. by rewrite bool_decide_true in Hl.
  - specialize (Hl k1). simpl in Hl. by rewrite bool_decide_true in Hl.
  - pose proof H1 as [H1' F1]%StronglySorted_inv. pose proof H2 as [H2' F2]%StronglySorted_inv.
    rewrite Forall_forall in F1, F2.
    assert (forall x, (x ∈ (k1, v1) :: l1) <-> (x ∈ (k2, v2) :: l2)) as He.
    { intros [k v]. rewrite <- !kv_lookup_elem by done. by rewrite Hl. }
    assert ((k1, v1) = (k2, v2)) as [= -> ->].
    { destruct (proj1 (elem_of_cons _ _ _) (proj1 (He (k1, v1)) ltac:(set_solver))) as [?|E1]; [done|].
      destruct (proj1 (elem_of_cons _ _ _) (proj2 (He (k2, v2)) ltac:(set_solver))) as [?|E2]; [done|].
      apply F2 in E1. apply F1 in E2. simpl in *. border. }
    f_equal. apply IH; [done..|]. intros k. specialize (Hl k). simpl in Hl.
    case_bool_decide as E; [|done]. subst.
    assert (kv_lookup k l1 = None /\ kv_lookup k l2 = None) as [-> ->]; [|done].
    rewrite !kv_lookup_none. split; intros v Hv; [apply F1 in Hv|apply F2 in Hv]; simpl in *; border.
Qed.

(** Insertion and removal. *)
Fixpoint kv_put (k v : bytes) (l : list entry) : list entry :=
  match l with
  | [] => [(k, v)]
  | (k', v') :: l' =>
      if bool_decide (k ≺ k') then (k, v) :: l
      else if bool_decide (k = k') then (k, v) :: l' else (k', v') :: kv_put k v l'
  end.
Definition kv_del (k : bytes) (l : list entry) : list entry := filter (fun e => negb (bool_decide (e.1 = k)) = true) l.

Lemma kv_put_lookup k v l k' : kv_lookup k' (kv_put k v l) = if bool_decide (k = k') then Some v else kv_lookup k' l.
Proof.
  induction l as [|[k0 v0] l IH]; simpl; [done|].
  destruct (decide (k ≺ k0)) as [H|H]; [by rewrite (bool_decide_true _ H)|]. rewrite (bool_decide_false _ H).
  destruct (decide (k = k0)) as [-> |Hne]; [rewrite (bool_decide_true (k0 = k0)) by done; simpl; by case_bool_decide|].
  rewrite (bool_decide_false _ Hne). simpl. rewrite IH. destruct (decide (k0 = k')) as [-> |Hk].
  - rewrite (bool_decide_true (k' = k')) by done. by rewrite bool_decide_false.
  - by rewrite (bool_decide_false _ Hk).
Qed.

Lemma kv_put_elem k v l e : e ∈ kv_put k v l -> e = (k, v) \/ e ∈ l.
Proof.
  induction l as [|[k0 v0] l IH]; simpl; [set_solver|]. case_bool_decide; [set_solver|].
  case_bool_decide; set_solver.
Qed.

Lemma kv_put_sorted k v l : kv_sorted l -> kv_sorted (kv_put k v l).
Proof.
  unfold kv_sorted. induction l as [|[k0 v0] l IH]; simpl; intros Hs; [repeat constructor|].
  pose proof Hs as [Hs' HF]%StronglySorted_inv. case_bool_decide as H; [|case_bool_decide as H'].
  - constructor; [done|]. constructor; [done|]. eapply Forall_impl; [exact HF|]. simpl. intros ? ?. border.
  - subst. by constructor.
  - constructor; [by apply IH|]. apply Forall_forall. intros e [-> |He]%kv_put_elem; simpl.
    + destruct (bytes_lt_total k k0) as [|[|]]; done.
    + by eapply Forall_forall in HF.
Qed.

(** Entries selected by their keys. *)
Lemma kv_lookup_filter (P : bytes -> bool) l k :
  kv_sorted l ->
  kv_lookup k (filter (fun e => P e.1 = true) l) = if P k then kv_lookup k l else None.
Proof.
  intros Hs. induction l as [|[k' v'] l IH]; simpl; [by destruct (P k)|].
  apply StronglySorted_inv in Hs as [Hs _]. rewrite filter_cons. cbn [fst].
  destruct (decide (P k' = true)) as [E|E]; simpl.
  - rewrite (IH Hs). case_bool_decide as Ek; [|done]. subst. by rewrite E.
  - rewrite (IH Hs). case_bool_decide as Ek; [|done]. subst. by destruct (P k).
Qed.

Lemma filter_sorted_by (Q : entry -> bool) l : kv_sorted l -> kv_sorted (filter (fun e => Q e = true) l).
Proof.
  unfold kv_sorted. induction 1 as [|e l Hl IH HF]; [constructor|]. rewrite filter_cons.
  case_decide; [|done]. constructor; [done|]. apply Forall_forall.
  intros y [_ Hy]%list_elem_of_filter. by eapply Forall_forall in HF.
Qed.

Lemma filter_sorted (P : bytes -> bool) l :
  kv_sorted l -> kv_sorted (filter (fun e => P e.1 = true) l).
Proof. apply (filter_sorted_by (fun e => P e.1)). Qed.

Lemma kv_del_lookup k l k' :
  kv_sorted l -> kv_lookup k' (kv_del k l) = if bool_decide (k = k') then None else kv_lookup k' l.
Proof.
  intros Hs. pose proof (kv_lookup_filter (fun x => negb (bool_decide (x = k))) l k' Hs) as E.
  cbn beta in E. unfold kv_del. rewrite E.
  destruct (decide (k = k')) as [-> |H]; [by rewrite !bool_decide_true|].
  by rewrite (bool_decide_false (k' = k)), (bool_decide_false (k = k')) by congruence.
Qed.

Lemma kv_del_sorted k l : kv_sorted l -> kv_sorted (kv_del k l).
Proof. intros Hs. exact (filter_sorted (fun x => negb (bool_decide (x = k))) l Hs). Qed.

(** ** What an iterator ranges over *)

(** The keys the options ask for: with a non-nil [Prefix] the keys it is a
    prefix of, else those from [Start] to before [End] (an empty bound is none). *)
Definition in_opts (o : IterOptions) (k : bytes) : bool :=
  match Prefix o with
  | Some p => bool_decide (p `prefix_of` k)
  | None =>
      bool_decide (bdata (Start o) ⪯ k) &&
      ((blen (End_ o) =? 0)%nat || bool_decide (k ≺ bdata (End_ o)))
  end.

Definition select (o : IterOptions) (l : list entry) : list entry :=
  let sel := filter (fun e => in_opts o e.1 = true) l in
  if Reverse o then reverse sel else sel.

(** Options that the theorems about iterators cover.  Left out are a prefix that
    is a non-empty run of 255, for which [bytesPrefixEnd] returns the prefix
    itself, so that all implementations but leveldb, and namespaces, yield nothing
    for it; and an [End] that is present but empty, which is not above any
    [Start], what kv.go leaves undefined. *)
Definition wf_opts (o : IterOptions) : bool :=
  match Prefix o with
  | Some p => (length p =? 0)%nat || negb (all_xff p)
  | None => is_nil (End_ o) || negb (blen (End_ o) =? 0)%nat
  end.

(** Insertion and removal by key. *)
Definition kv_eq (l l' : list entry) : Prop := forall k, kv_lookup k l = kv_lookup k l'.

(** [l'] is [l] with key [k] bound to [v] ([None]: without the key). *)
Definition kv_update (k : bytes) (v : option bytes) (l l' : list entry) : Prop :=
  forall k', kv_lookup k' l' = if bool_decide (k = k') then v else kv_lookup k' l.

(** ** The store interface

    [ReaderWriter] of kv.go with its [Iterator].  The [ctx] argument, which
    stores pass on or search for a transaction, is left out.  Reading may change
    a store (a transaction records what it read), so every operation returns
    the store; an iterator's movements look at its store. *)
Class ReaderWriter := {
  store : Type;
  iter : Type;
  rw_Get : store -> slice -> result slice * store;
  rw_Has : store -> slice -> result bool * store;
  rw_Set : store -> slice -> slice -> option error * store;
  rw_Delete : store -> slice -> option error * store;
  rw_Iterator : store -> IterOptions -> result iter * store;
  it_Next : store -> iter -> result bool * iter;
  it_Key : iter -> slice;
  it_Value : iter -> result slice;
  it_Seek : store -> iter -> slice -> result bool * iter;
  it_Reset : iter -> iter;
  it_Close : iter -> option error * iter }.
Arguments store : clear implicits.
Arguments iter : clear implicits.

(** What a store stands for.  [usable s n] says that the store is open and
    can take [n] more writes; [it_rem s it o E] that the iterator [it], created
    with options [o], will yield the entries [E]; [it_live] that it can be
    reset, positioned and closed. *)
Class RWModel (RW : ReaderWriter) := {
  usable : store RW -> nat -> Prop;
  entries : store RW -> list entry;
  it_live : store RW -> iter RW -> IterOptions -> Prop;
  it_rem : store RW -> iter RW -> IterOptions -> list entry -> Prop }.

(** The current entry of an iterator, and what comes after it. *)
Definition it_at {RW : ReaderWriter} {M : RWModel RW} (s : store RW) (it : iter RW) (o : IterOptions) (e : entry)
    (E : list entry) : Prop :=
  bdata (it_Key it) = e.1 /\
  (KeysOnly o = false -> exists v, it_Value it = Ok v /\ bdata v = e.2) /\ it_rem s it o E.

(** A movement that finds the first of the entries [E].  A forward iterator
    that found nothing keeps finding nothing. *)
Definition it_finds {RW : ReaderWriter} {M : RWModel RW} (s : store RW) (o : IterOptions) (E : list entry)
    (r : result bool * iter RW) : Prop :=
  it_live s r.2 o /\
  match E with
  | [] => r.1 = Ok false /\ (Reverse o = false -> it_rem s r.2 o [])
  | e :: E' => r.1 = Ok true /\ it_at s r.2 o e E'
  end.

(** The part of kv.go's contract that all implementations keep, and that the
    wrappers rely on.  Three things that kv.go describes are not in it: [Seek] of
    reversed iterators and to keys outside of the range, where the implementations
    differ; that keys equal to the prefix are not yielded, since every
    implementation yields them ([select] has them); and iterators whose prefix is
    a run of 255 ([wf_opts]), whose range the code of most leaves empty. *)
Class RWLaws (RW : ReaderWriter) (M : RWModel RW) : Prop := {
  usable_le s n m : usable s n -> (m <= n)%nat -> usable s m;
  entries_sorted s n : usable s n -> kv_sorted (entries s);
  Get_spec s n k : usable s n -> bdata k <> [] ->
    exists r s', rw_Get s k = (r, s') /\ usable s' n /\ entries s' = entries s /\
      match kv_lookup (bdata k) (entries s) with
      | Some v => exists sv, r = Ok sv /\ bdata sv = v
      | None => r = Err ErrNotFound
      end;
  Has_spec s n k : usable s n -> bdata k <> [] ->
    exists s', rw_Has s k = (Ok (bool_decide (is_Some (kv_lookup (bdata k) (entries s)))), s') /\
      usable s' n /\ entries s' = entries s;
  Set_spec s n k v : usable s (S n) -> bdata k <> [] ->
    exists s', rw_Set s k v = (None, s') /\ usable s' n /\
      kv_update (bdata k) (Some (bdata v)) (entries s) (entries s');
  Delete_spec s n k : usable s (S n) -> bdata k <> [] ->
    exists s', rw_Delete s k = (None, s') /\ usable s' n /\
      kv_update (bdata k) None (entries s) (entries s');
  Iterator_spec s n o : usable s n -> wf_opts o = true ->
    exists it s', rw_Iterator s o = (Ok it, s') /\ usable s' n /\ entries s' = entries s /\
      it_live s' it o /\ it_rem s' it o (select o (entries s));
  rem_live s it o E : it_rem s it o E -> it_live s it o;
  Next_spec s it o E : it_rem s it o E -> it_finds s o E (it_Next s it);
  Reset_spec s it o : it_live s it o -> it_rem s (it_Reset it) o (select o (entries s));
  Close_spec s it o : it_live s it o -> (it_Close it).1 = None;
  (** [Seek] to a key inside the iterator's range. *)
  Seek_spec s it o k : it_live s it o -> Reverse o = false -> in_opts o (bdata k) = true ->
    bdata k <> [] ->
    it_finds s o (filter (fun e => bdata k ⪯ e.1) (select o (entries s))) (it_Seek s it k) }.

(** Empty keys are refused.  kv.go does not ask for it; the memory store, the
    namespaces and badger do it, leveldb does not. *)
Class EmptyKeys (RW : ReaderWriter) (M : RWModel RW) : Prop := {
  empty_key s n k v : usable s n -> bdata k = [] ->
    rw_Get s k = (Err ErrEmptyKey, s) /\ rw_Has s k = (Err ErrEmptyKey, s) /\
    rw_Set s k v = (Some ErrEmptyKey, s) /\ rw_Delete s k = (Some ErrEmptyKey, s) }.

(** ** Transactions and stores that create them (txn.go) *)

(** [Txn]: a [ReaderWriter] to commit or discard. *)
Class Txn := {
  txn_rw :: ReaderWriter;
  tx_Commit : store txn_rw -> option error * store txn_rw;
  tx_Discard : store txn_rw -> store txn_rw }.

(** [TxnReaderWriter]: a [ReaderWriter] with transactions of type [T]. *)
Class TxnReaderWriter (T : Txn) := {
  ts_rw :: ReaderWriter;
  ts_NewTxn : store ts_rw -> bool -> store (txn_rw (Txn := T)) * store ts_rw }.
