(* ===== verification/Memory.v ===== *)
(** The memory store: memory/memory.go and the transactions of memory/txn.go.

    This file holds the data and the operations; MemoryView.v, MemoryTxn.v and
    MemoryPurge.v prove their properties.  A [Datastore] keeps every committed
    version of every key in one tree, ordered by key and version; a
    transaction ([basicTxn]) buffers its writes and the items it read in a tree
    of its own.  [t.ds] is the store a transaction operation gets as argument.
    The mutexes serialise operations and are not part of the state. *)
From S2P Require Import Prelude BTree Kv.

Module Memory.

(** ** Data *)

Record dsItem := mk_dsItem {
  key : slice;
  version : Z;
  val : slice;
  isDeleted : bool;
  isGet : bool }.

(** [dsItem{}]. *)
Definition dsItem_zero : dsItem := mk_dsItem None 0 None false false.

(** An entry of [inFlightTxn]; [d_txn] is the pointer to the transaction. *)
Record dsTxn := mk_dsTxn {
  d_dsVersion : Z;
  d_txnVersion : Z;
  expiresAt : Z;
  d_txn : nat }.

Definition dsTxn_zero : dsTxn := mk_dsTxn 0 0 0 0.

Definition byDSVersion (a b : dsTxn) : bool :=
  if d_dsVersion a <? d_dsVersion b then true
  else if (d_dsVersion a =? d_dsVersion b) && (d_txnVersion a <? d_txnVersion b) then true
  else false.

Definition byVersion (a b : dsItem) : bool := version a <? version b.

Definition byKeys (a b : dsItem) : bool :=
  let cmp := bytes_Compare (key a) (key b) in
  if cmp =? -1 then true
  else if cmp =? 1 then false
  else byVersion a b.

Section store.
Context {BI : BTreeG dsItem} {BT : BTreeG dsTxn}.

Record Datastore := mk_Datastore {
  ds_version : Z;
  values : btree dsItem;
  inFlightTxn : btree dsTxn;
  closing : bool;
  closed : bool }.

Definition set_version (v : Z) (d : Datastore) : Datastore :=
  mk_Datastore v (values d) (inFlightTxn d) (closing d) (closed d).
Definition set_values (t : btree dsItem) (d : Datastore) : Datastore :=
  mk_Datastore (ds_version d) t (inFlightTxn d) (closing d) (closed d).
Definition set_inFlightTxn (t : btree dsTxn) (d : Datastore) : Datastore :=
  mk_Datastore (ds_version d) (values d) t (closing d) (closed d).

Record basicTxn := mk_basicTxn {
  ops : btree dsItem;
  dsVersion : Z;
  readOnly : bool;
  discarded : bool }.

Definition set_ops (o : btree dsItem) (t : basicTxn) : basicTxn :=
  mk_basicTxn o (dsVersion t) (readOnly t) (discarded t).
Definition set_discarded (t : basicTxn) : basicTxn :=
  mk_basicTxn (ops t) (dsVersion t) (readOnly t) true.

(** ** The store's versions and life cycle *)

Definition NewDatastore : Datastore := mk_Datastore 0 bt_New bt_New false false.

Definition getVersion (d : Datastore) : Z := ds_version d.

Definition nextVersion (d : Datastore) : Z * Datastore :=
  let v := uadd (ds_version d) 1 in (v, set_version v d).

Definition Close (d : Datastore) : Datastore :=
  if closed d then d
  else mk_Datastore (ds_version d) (values d) (inFlightTxn d) true true.

(** The goroutine that waits for the context: it closes the store. *)
Definition handleContextDone (d : Datastore) : Datastore := Close d.

Definition DropAll (d : Datastore) : Datastore := set_values (bt_Clear (values d)) d.

(** ** Lookup: the newest item of a key that is not newer than a version *)

Definition get (vs : btree dsItem) (k : slice) (v : Z) : dsItem :=
  descend_once (bt_Descend vs (mk_dsItem k v None false false))
    (fun item result => if bytes_Equal k (key item) then item else result)
    dsItem_zero.

(** ** Transactions *)

(** [time.Hour] in nanoseconds. *)
Definition hour : Z := 3600 * 10 ^ 9.

(** [p] is the address of the new transaction, [now] the time of the call. *)
Definition newTransaction (now : Z) (p : nat) (ro : bool) (d : Datastore) : basicTxn * Datastore :=
  let v := getVersion d in
  (mk_basicTxn bt_New v ro false,
   set_inFlightTxn (bt_Set (inFlightTxn d) (mk_dsTxn v (uadd v 1) (now + hour) p)) d).

Definition getDSVersion (t : basicTxn) : Z := dsVersion t.
Definition getTxnVersion (t : basicTxn) : Z := uadd (getDSVersion t) 1.

(** [basicTxn.get]: the transaction's own item, else the item of its
    snapshot, which it then records in [ops]. *)
Definition txn_get (d : Datastore) (t : basicTxn) (k : slice) : dsItem * basicTxn :=
  let result := get (ops t) k (getTxnVersion t) in
  if is_nil (key result) then
    let r := get (values d) k (getDSVersion t) in
    let r' := mk_dsItem (key r) (version r) (val r) (isDeleted r) true in
    (r', set_ops (bt_Set (ops t) r') t)
  else (result, t).

Definition txn_Get (d : Datastore) (t : basicTxn) (k : slice) : result slice * basicTxn :=
  if closed d then (Err ErrDBClosed, t)
  else if discarded t then (Err ErrDiscardedTxn, t)
  else if (blen k =? 0)%nat then (Err ErrEmptyKey, t)
  else
    let '(r, t') := txn_get d t k in
    if is_nil (key r) || isDeleted r then (Err ErrNotFound, t') else (Ok (val r), t').

Definition txn_GetSize (d : Datastore) (t : basicTxn) (k : slice) : result nat * basicTxn :=
  if closed d then (Err ErrDBClosed, t)
  else if discarded t then (Err ErrDiscardedTxn, t)
  else if (blen k =? 0)%nat then (Err ErrEmptyKey, t)
  else
    let '(r, t') := txn_get d t k in
    if is_nil (key r) || isDeleted r then (Err ErrNotFound, t') else (Ok (blen (val r)), t').

Definition txn_Has (d : Datastore) (t : basicTxn) (k : slice) : result bool * basicTxn :=
  if closed d then (Err ErrDBClosed, t)
  else if discarded t then (Err ErrDiscardedTxn, t)
  else if (blen k =? 0)%nat then (Err ErrEmptyKey, t)
  else
    let '(r, t') := txn_get d t k in
    if is_nil (key r) || isDeleted r then (Ok false, t') else (Ok true, t').

Definition txn_Set (d : Datastore) (t : basicTxn) (k v : slice) : option error * basicTxn :=
  if closed d then (Some ErrDBClosed, t)
  else if discarded t then (Some ErrDiscardedTxn, t)
  else if readOnly t then (Some ErrReadOnlyTxn, t)
  else if (blen k =? 0)%nat then (Some ErrEmptyKey, t)
  else (None, set_ops (bt_Set (ops t) (mk_dsItem k (getTxnVersion t) v false false)) t).

Definition txn_Delete (d : Datastore) (t : basicTxn) (k : slice) : option error * basicTxn :=
  if closed d then (Some ErrDBClosed, t)
  else if discarded t then (Some ErrDiscardedTxn, t)
  else if readOnly t then (Some ErrReadOnlyTxn, t)
  else if (blen k =? 0)%nat then (Some ErrEmptyKey, t)
  else
    let '(item, t') := txn_get d t k in
    if is_nil (key item) || isDeleted item then (None, t')
    else (None, set_ops (bt_Set (ops t') (mk_dsItem k (getTxnVersion t') None true false)) t').

(** ** Bookkeeping of the transactions in flight *)

(** One round of [clearOldInFlightTxn]: the expired entries. *)
Definition expired_body (now : Z) (it : dsTxn) (b : list dsTxn * nat) : list dsTxn * nat * bool :=
  let '(itemsToDelete, total) := b in
  if expiresAt it <? now then (itemsToDelete ++ [it], S total, false)
  else (itemsToDelete, total, false).

Fixpoint clear_loop (fuel : nat) (now : Z) (d : Datastore) : option Datastore :=
  match fuel with
  | O => None
  | S fuel' =>
      let '(itemsToDelete, total) :=
        for_Next (S (bt_Len (inFlightTxn d))) (expired_body now) (bt_Iter (inFlightTxn d)) ([], 0%nat) in
      if (total =? 0)%nat then Some d
      else clear_loop fuel' now (set_inFlightTxn (foldl bt_Delete (inFlightTxn d) itemsToDelete) d)
  end.

Definition clearOldInFlightTxn (now : Z) (d : Datastore) : Datastore :=
  if (bt_Height (inFlightTxn d) =? 0)%nat then d
  else default d (clear_loop (S (S (bt_Len (inFlightTxn d)))) now d).

Definition clearInFlightTxn (now : Z) (t : basicTxn) (d : Datastore) : Datastore :=
  clearOldInFlightTxn now
    (set_inFlightTxn (bt_Delete (inFlightTxn d) (mk_dsTxn (getDSVersion t) (getTxnVersion t) 0 0)) d).

Definition txn_Discard (now : Z) (d : Datastore) (t : basicTxn) : Datastore * basicTxn :=
  if discarded t then (d, t)
  else
    let t' := set_ops (bt_Clear (ops t)) t in
    (clearInFlightTxn now t' d, set_discarded t').

(** ** Commit *)

Definition conflict_body (d : Datastore) (t : basicTxn) (it : dsItem) (b : option error)
    : option error * bool :=
  let expectedItem := get (values d) (key it) (getDSVersion t) in
  let latestItem := get (values d) (key it) (getVersion d) in
  if negb (version latestItem =? version expectedItem) then (Some ErrTxnConflict, true)
  else (b, false).

Definition checkForConflicts (d : Datastore) (t : basicTxn) : option error :=
  if getDSVersion t =? getVersion d then None
  else for_Next (S (bt_Len (ops t))) (conflict_body d t) (bt_Iter (ops t)) None.

Definition commit_body (v : Z) (it : dsItem) (vs : btree dsItem) : btree dsItem * bool :=
  if isGet it then (vs, false)
  else (bt_Set vs (mk_dsItem (key it) v (val it) (isDeleted it) (isGet it)), false).

Definition commit (d : Datastore) (t : basicTxn) : option error * Datastore :=
  match checkForConflicts d t with
  | Some err => (Some err, d)
  | None =>
      let '(v, d') := nextVersion d in
      (None, set_values (for_Next (S (bt_Len (ops t))) (commit_body v) (bt_Iter (ops t)) (values d')) d')
  end.

Definition txn_Commit (now : Z) (d : Datastore) (t : basicTxn) : option error * Datastore * basicTxn :=
  if closed d then (Some ErrDBClosed, d, t)
  else if discarded t then (Some ErrDiscardedTxn, d, t)
  else
    let '(err, d') := if negb (readOnly t) then commit d t else (None, d) in
    let '(d'', t') := txn_Discard now d' t in
    (err, d'', t').

(** ** The store's own operations, outside of a transaction

    [now] and [now'] are the times of the calls of [time.Now], [p] the address
    of the internal transaction. *)

Definition Get (d : Datastore) (k : slice) : result slice :=
  if closed d then Err ErrDBClosed
  else if (blen k =? 0)%nat then Err ErrEmptyKey
  else
    let r := get (values d) k (getVersion d) in
    if is_nil (key r) || isDeleted r then Err ErrNotFound else Ok (val r).

Definition Has (d : Datastore) (k : slice) : result bool :=
  if closed d then Err ErrDBClosed
  else if (blen k =? 0)%nat then Err ErrEmptyKey
  else
    let r := get (values d) k (getVersion d) in
    Ok (negb (is_nil (key r)) && negb (isDeleted r)).

Definition Set_ (now now' : Z) (p : nat) (d : Datastore) (k v : slice) : option error * Datastore :=
  if closed d then (Some ErrDBClosed, d)
  else if (blen k =? 0)%nat then (Some ErrEmptyKey, d)
  else
    let '(tx, d1) := newTransaction now p false d in
    match txn_Set d1 tx k v with
    | (Some err, tx') => (Some err, (txn_Discard now' d1 tx').1)
    | (None, tx') => let '(err, d2, _) := txn_Commit now' d1 tx' in (err, d2)
    end.

Definition Delete (now now' : Z) (p : nat) (d : Datastore) (k : slice) : option error * Datastore :=
  if closed d then (Some ErrDBClosed, d)
  else if (blen k =? 0)%nat then (Some ErrEmptyKey, d)
  else
    let '(tx, d1) := newTransaction now p false d in
    let '(err, tx') := txn_Delete d1 tx k in
    let '(cErr, d2, _) := txn_Commit now' d1 tx' in
    (errors_Join err cErr, d2).

(** ** Purging old versions *)

(** The loop over the items: [item] is the previous item that is not newer
    than [v]; it is outdated when the current one has the same key. *)
Definition purge_body (v : Z) (it : dsItem) (b : dsItem * list dsItem * nat)
    : dsItem * list dsItem * nat * bool :=
  let '(item, itemsToDelete, total) := b in
  if v <? version it then (item, itemsToDelete, total, false)
  else
    let '(itemsToDelete', total') :=
      if bytes_Equal (key item) (key it) then (itemsToDelete ++ [item], S total)
      else (itemsToDelete, total) in
    (it, itemsToDelete', total', (1000 <=? total')%nat).

Fixpoint purge_loop (fuel : nat) (v : Z) (vs : btree dsItem) : option (btree dsItem) :=
  match fuel with
  | O => None
  | S fuel' =>
      let '(_, c) := c_Next (bt_Iter vs) in
      let '(_, itemsToDelete, total) :=
        for_Next (S (bt_Len vs)) (purge_body v) c (c_Item c, [], 0%nat) in
      if (total =? 0)%nat then Some vs
      else purge_loop fuel' v (foldl bt_Delete vs itemsToDelete)
  end.

Definition purge_version (d : Datastore) : Z :=
  match bt_Min (inFlightTxn d) with
  | Some m => d_dsVersion m
  | None => getVersion d
  end.

Definition executePurge (d : Datastore) : option Datastore :=
  (fun vs => set_values vs d) <$> purge_loop (S (bt_Len (values d))) (purge_version d) (values d).

End store.
End Memory.
