(* ===== verification/MemoryView.v ===== *)
(** Lookups in the memory store: what [get] finds, how the content of the store
    at a version ([view]) changes under the store's own operations, and the
    refinement of those operations to a map. *)
From S2P Require Import Prelude BTree Kv Memory.
Import Memory.

(** ** The order of the items *)

Definition kd (i : dsItem) : bytes := bdata (key i).

Lemma byKeys_true a b :
  byKeys a b = true <-> kd a ≺ kd b \/ (kd a = kd b /\ version a < version b).
Proof.
  unfold byKeys, byVersion, kd.
  destruct (bytes_lt_total (bdata (key a)) (bdata (key b))) as [H|[H|H]].
  - pose proof H as ->%bytes_Compare_lt. simpl. naive_solver.
  - pose proof H as ->%bytes_Compare_eq. simpl. rewrite Z.ltb_lt, H.
    split; [auto|]. intros [?|[_ ?]]; [by destruct (bytes_lt_irrefl (bdata (key b)))|done].
  - pose proof H as ->%bytes_Compare_gt. simpl. split; [done|]. intros [?|[? _]]; border.
Qed.

Lemma byKeys_false a b :
  byKeys a b = false <-> kd b ≺ kd a \/ (kd a = kd b /\ version b <= version a).
Proof.
  rewrite <- not_true_iff_false, byKeys_true.
  destruct (bytes_lt_total (kd a) (kd b)) as [H|[H|H]]; split; intros Hx.
  - tauto.
  - destruct Hx as [?|[? _]]; border.
  - right. split; [done|]. destruct (Z.le_gt_cases (version b) (version a)); tauto || lia.
  - intros [?|[_ ?]]; [border|]. destruct Hx as [?|[_ ?]]; [border|lia].
  - by left.
  - intros [?|[? _]]; border.
Qed.

#[export] Instance byKeys_order : LessOrder byKeys.
Proof.
  split.
  - intros a. apply byKeys_false. right. split; [done|lia].
  - intros a b c. rewrite !byKeys_true.
    intros [?|[E ?]] [?|[E' ?]]; [left; border|left; border|left; border|right].
    split; [congruence|lia].
  - intros a b c. rewrite !byKeys_true.
    destruct (bytes_lt_total (kd a) (kd c)) as [H|[H|H]]; [tauto| |].
    + intros [?|[E ?]]; [right; left; border|].
      destruct (Z.lt_ge_cases (version a) (version c)); [tauto|right; right].
      split; [congruence|lia].
    + intros [?|[E ?]]; right; left; border.
Qed.

Lemma byDSVersion_true a b :
  byDSVersion a b = true <->
  d_dsVersion a < d_dsVersion b \/
  (d_dsVersion a = d_dsVersion b /\ d_txnVersion a < d_txnVersion b).
Proof.
  unfold byDSVersion. destruct (d_dsVersion a <? d_dsVersion b) eqn:E.
  - apply Z.ltb_lt in E. naive_solver.
  - apply Z.ltb_ge in E.
    destruct ((d_dsVersion a =? d_dsVersion b) && (d_txnVersion a <? d_txnVersion b)) eqn:E2.
    + apply andb_true_iff in E2 as [?%Z.eqb_eq ?%Z.ltb_lt]. naive_solver.
    + apply andb_false_iff in E2 as [?%Z.eqb_neq|?%Z.ltb_ge]; split; try done; lia.
Qed.

#[export] Instance byDSVersion_order : LessOrder byDSVersion.
Proof.
  split.
  - intros a. apply not_true_iff_false. rewrite byDSVersion_true. lia.
  - intros a b c. rewrite !byDSVersion_true. lia.
  - intros a b c. rewrite !byDSVersion_true. lia.
Qed.

(** A list of items as the tree holds it. *)
Abbreviation sorted_items := (StronglySorted (fun a b => byKeys a b = true)).

(** Key and version identify an item. *)
Lemma sorted_items_inj l i j :
  sorted_items l -> i ∈ l -> j ∈ l -> kd i = kd j -> version i = version j -> i = j.
Proof.
  induction l as [|x l IH]; [set_solver|]. intros [Hs HF]%StronglySorted_inv Hi Hj Hk Hv.
  rewrite Forall_forall in HF.
  apply elem_of_cons in Hi as [->|Hi], Hj as [->|Hj]; [done| | |auto].
  - specialize (HF j Hj). apply byKeys_true in HF as [HF|[_ ?]]; [|lia]. border.
  - specialize (HF i Hi). apply byKeys_true in HF as [HF|[_ ?]]; [|lia]. border.
Qed.

(** ** Snapshots *)

(** The newest item of key [k] whose version is at most [v]. *)
Definition snap (l : list dsItem) (v : Z) (k : bytes) : option dsItem :=
  last (filter (fun i => kd i = k /\ version i <= v) l).

Lemma snap_app_last l x v k :
  snap (l ++ [x]) v k = if bool_decide (kd x = k /\ version x <= v) then Some x else snap l v k.
Proof.
  unfold snap. rewrite filter_app, filter_cons, filter_nil.
  case_decide; case_bool_decide; try done; [by rewrite last_snoc|by rewrite app_nil_r].
Qed.

Lemma snap_Some_1 l v k i : snap l v k = Some i -> i ∈ l /\ kd i = k /\ version i <= v.
Proof.
  unfold snap. intros H. apply last_Some_elem_of in H. apply list_elem_of_filter in H. tauto.
Qed.

Lemma snap_None l v k : snap l v k = None <-> forall i, i ∈ l -> kd i = k -> v < version i.
Proof.
  unfold snap. rewrite last_None. split.
  - intros H i Hi Hk. destruct (Z.lt_ge_cases v (version i)); [done|exfalso].
    assert (i ∈ filter (fun i => kd i = k /\ version i <= v) l) as Hf
      by (apply list_elem_of_filter; auto with lia).
    rewrite H in Hf. set_solver.
  - intros H. destruct (filter _ l) as [|i l'] eqn:E; [done|exfalso].
    assert (i ∈ filter (fun i => kd i = k /\ version i <= v) l) as Hf by (rewrite E; set_solver).
    apply list_elem_of_filter in Hf as [[Hk ?] Hi]. specialize (H i Hi Hk). lia.
Qed.

Lemma sorted_items_snoc l x :
  sorted_items (l ++ [x]) <-> sorted_items l /\ forall i, i ∈ l -> byKeys i x = true.
Proof.
  rewrite StronglySorted_app. split.
  - intros (H & ? & _). split; [done|]. intros i Hi. apply H; set_solver.
  - intros [? H]. split_and!; [|done|by repeat constructor].
    intros a b Ha Hb. apply list_elem_of_singleton in Hb as ->. auto.
Qed.

Lemma snap_Some l v k i :
  sorted_items l ->
  snap l v k = Some i <->
  i ∈ l /\ kd i = k /\ version i <= v /\
  forall j, j ∈ l -> kd j = k -> version j <= v -> version j <= version i.
Proof.
  induction l as [|x l IH] using rev_ind; intros Hs; [split; [done|set_solver]|].
  apply sorted_items_snoc in Hs as [Hs Hx]. specialize (IH Hs).
  rewrite snap_app_last. case_bool_decide as E.
  - destruct E as [Ek Ev]. split.
    + intros [= <-]. split_and!; try done; [set_solver|].
      intros j Hj Hk _. apply elem_of_app in Hj as [Hj|Hj]; [|set_solver by lia].
      specialize (Hx j Hj). apply byKeys_true in Hx as [Hx|[_ ?]]; [|lia].
      rewrite Hk, Ek in Hx. by destruct (bytes_lt_irrefl k).
    + intros (Hi & Hk & Hv & Hmax). f_equal.
      apply elem_of_app in Hi as [Hi|Hi]; [exfalso|set_solver].
      specialize (Hmax x ltac:(set_solver) Ek Ev). specialize (Hx i Hi).
      apply byKeys_true in Hx as [Hx|[_ ?]]; [|lia].
      rewrite Hk, Ek in Hx. by destruct (bytes_lt_irrefl k).
  - rewrite IH. split.
    + intros (Hi & Hk & Hv & Hmax). split_and!; try done; [set_solver|].
      intros j Hj Hkj Hvj. apply elem_of_app in Hj as [Hj| ->%list_elem_of_singleton]; [auto|].
      tauto.
    + intros (Hi & Hk & Hv & Hmax). split_and!; try done; [|set_solver].
      apply elem_of_app in Hi as [Hi| ->%list_elem_of_singleton]; [done|tauto].
Qed.

(** Snapshots depend only on the items of the key up to the version. *)
Lemma snap_ext l l' v k :
  sorted_items l -> sorted_items l' ->
  (forall i, kd i = k -> version i <= v -> i ∈ l <-> i ∈ l') -> snap l v k = snap l' v k.
Proof.
  intros Hl Hl' H. apply option_eq. intros i.
  rewrite !snap_Some by done. split; intros (? & ? & ? & Hm);
    (split_and!; [by apply H|done|done|]); intros j Hj ? ?; apply Hm; try done; by apply H.
Qed.

(** ** Insertions *)

Lemma snap_insert l x v k :
  sorted_items l -> (forall j, j ∈ l -> kd j = kd x -> version j <= version x) ->
  snap (sl_insert byKeys x l) v k =
  if bool_decide (kd x = k /\ version x <= v) then Some x else snap l v k.
Proof.
  intros Hs Hx. pose proof (sl_insert_sorted byKeys x l Hs) as Hs'.
  case_bool_decide as E.
  - destruct E as [<- Hv]. apply snap_Some; [done|]. split_and!; try done.
    + rewrite (elem_of_sl_insert byKeys) by done. by left.
    + intros j Hj Hk _. apply (elem_of_sl_insert byKeys) in Hj; [|done]. destruct Hj as [->|[Hj _]]; [lia|auto].
  - apply snap_ext; [done..|]. intros i Hk Hv. rewrite (elem_of_sl_insert byKeys) by done. split.
    + intros [->|[? _]]; [tauto|done].
    + intros Hi. right. split; [done|].
      destruct (byKeys x i) eqn:E1; [by left|]. right. apply byKeys_true.
      apply byKeys_false in E1 as [?|[Hkx ?]]; [by left|]. right. split; [done|].
      specialize (Hx i Hi (eq_sym Hkx)). destruct (decide (version i = version x)); [|lia].
      destruct E. split; [congruence|lia].
Qed.

(** Inserting items of one version [nv], newer than all the others. *)
Lemma snap_inserts ws l nv v k :
  sorted_items l -> (forall j, j ∈ l -> version j < nv) -> Forall (fun w => version w = nv) ws ->
  snap (foldl (fun acc w => sl_insert byKeys w acc) l ws) v k =
  match last (filter (fun w => kd w = k) ws) with
  | Some w => if bool_decide (nv <= v) then Some w else snap l v k
  | None => snap l v k
  end.
Proof.
  intros Hs Hl Hws.
  assert (forall ws, Forall (fun w => version w = nv) ws ->
    sorted_items (foldl (fun acc w => sl_insert byKeys w acc) l ws) /\
    forall j, j ∈ foldl (fun acc w => sl_insert byKeys w acc) l ws -> version j <= nv) as Hacc.
  { clear ws Hws. induction ws as [|w ws IH] using rev_ind; intros Hws.
    - simpl. split; [done|]. intros j Hj. specialize (Hl j Hj). lia.
    - apply Forall_app in Hws as [Hws Hw]. apply Forall_cons in Hw as [Hw _].
      destruct (IH Hws) as [Hs' Hj]. rewrite foldl_snoc. split; [by apply (sl_insert_sorted byKeys)|].
      intros j Hin. apply (elem_of_sl_insert byKeys) in Hin; [|done]. destruct Hin as [->|[? _]]; [lia|auto]. }
  induction ws as [|w ws IH] using rev_ind; [done|].
  apply Forall_app in Hws as [Hws Hw]. apply Forall_cons in Hw as [Hw _].
  destruct (Hacc ws Hws) as [Hs' Hj]. rewrite foldl_snoc, snap_insert; [|done|].
  2: { intros j Hin _. rewrite Hw. auto. }
  rewrite IH by done. rewrite filter_app, filter_cons, filter_nil, Hw.
  destruct (decide (kd w = k)) as [Ek|Ek].
  - rewrite last_snoc. repeat case_bool_decide; try tauto. by case_match.
  - rewrite app_nil_r, bool_decide_false by tauto. done.
Qed.

Lemma inserts_elem ws l i :
  i ∈ foldl (fun acc w => sl_insert byKeys w acc) l ws -> i ∈ ws \/ i ∈ l.
Proof.
  revert l. induction ws as [|w ws IH]; intros l; simpl; [auto|].
  intros [Hi|Hi]%IH; [set_solver|]. clear IH. revert Hi.
  assert (i ∈ sl_insert byKeys w l -> i = w \/ i ∈ l); [|set_solver].
  induction l as [|x l IH]; simpl; [set_solver|]. repeat case_match; set_solver.
Qed.

(** ** The store *)

(** What an item gives a reader: nothing if there is none or it is deleted. *)
Definition live (o : option dsItem) : option slice :=
  match o with
  | Some i => if isDeleted i then None else Some (val i)
  | None => None
  end.

Section view.
Context {BI : BTreeG dsItem} {BT : BTreeG dsTxn}
  {LI : BTreeGLaws dsItem dsItem_zero byKeys} {LT : BTreeGLaws dsTxn dsTxn_zero byDSVersion}.

(** [get] finds the newest item of the key up to the version. *)
Lemma get_snap (vs : btree dsItem) k v :
  get vs k v = default dsItem_zero (snap (items vs) v (bdata k)).
Proof.
  unfold get. rewrite Descend_items. pose proof (items_sorted vs) as Hs.
  set (p := mk_dsItem k v None false false). revert Hs.
  induction (items vs) as [|x l IH] using rev_ind; intros Hs; [done|].
  apply sorted_items_snoc in Hs as [Hs Hx]. specialize (IH Hs).
  rewrite snap_app_last, filter_app, filter_cons, filter_nil.
  destruct (decide (byKeys p x = false)) as [Hp|Hp].
  - rewrite reverse_snoc. simpl. unfold bytes_Equal.
    apply byKeys_false in Hp as [Hp|[Hk Hv]]; change (kd p) with (bdata k) in *.
    + rewrite !bool_decide_false.
      * assert (snap l v (bdata k) = None) as ->; [|done]. apply snap_None. intros i Hi Hk.
        specialize (Hx i Hi). apply byKeys_true in Hx as [?|[? _]]; border.
      * intros [Hk _]. border.
      * intros Hk. change (bdata (key x)) with (kd x) in Hk. border.
    + by rewrite !bool_decide_true.
  - rewrite app_nil_r, IH. apply not_false_iff_true in Hp.
    rewrite bool_decide_false; [done|]. intros [Hk Hv].
    apply byKeys_true in Hp as [?|[_ ?]]; [|simpl in *; lia].
    change (kd p) with (bdata k) in *. border.
Qed.

(** The items of the store: non-empty keys, versions from 1 to the store's. *)
Definition items_ok (l : list dsItem) (v : Z) : Prop :=
  Forall (fun i => kd i <> [] /\ isGet i = false /\ 0 < version i <= v) l.

(** Beyond the newest version there is nothing more to see. *)
Lemma snap_latest l V v k : items_ok l V -> V <= v -> snap l v k = snap l V k.
Proof.
  intros Hok Hv. induction l as [|i l IH] using rev_ind; [done|].
  apply Forall_app in Hok as [Hok (_ & _ & Hi)%Forall_singleton].
  rewrite !snap_app_last, IH by done.
  by repeat case_bool_decide; try done; exfalso; naive_solver lia.
Qed.

Definition ds_inv (d : Datastore) : Prop :=
  items_ok (items (values d)) (ds_version d) /\ 0 <= ds_version d < two64.

(** The content of the store at version [v]. *)
Definition view (d : Datastore) (v : Z) (k : bytes) : option slice :=
  live (snap (items (values d)) v k).

(** The items of a well-formed store have a non-nil key. *)
Lemma snap_key_nonnil l V v k i : items_ok l V -> snap l v k = Some i -> is_nil (key i) = false.
Proof.
  intros Hok Hi. apply snap_Some_1 in Hi as (Hi & _ & _).
  eapply Forall_forall in Hok; [|done]. destruct Hok as [Hk _].
  unfold kd in Hk. by destruct (key i).
Qed.

Lemma get_live (vs : btree dsItem) V k v :
  items_ok (items vs) V ->
  let r := get vs k v in
  live (snap (items vs) v (bdata k)) = if is_nil (key r) || isDeleted r then None else Some (val r).
Proof.
  intros Hok. simpl. rewrite get_snap.
  destruct (snap (items vs) v (bdata k)) as [i|] eqn:E; [|done]. simpl.
  by rewrite (snap_key_nonnil _ _ _ _ _ Hok E).
Qed.

Lemma Get_view d k :
  ds_inv d -> closed d = false -> bdata k <> [] ->
  Get d k = match view d (ds_version d) (bdata k) with Some v => Ok v | None => Err ErrNotFound end.
Proof.
  intros [Hok _] Hc Hk. unfold Get, view. rewrite Hc, (get_live (values d) _ k _ Hok).
  destruct (blen k =? 0)%nat eqn:E; [by apply Nat.eqb_eq, blen_zero in E|].
  unfold getVersion. by destruct (_ || _).
Qed.

Lemma Has_view d k :
  ds_inv d -> closed d = false -> bdata k <> [] ->
  Has d k = Ok (bool_decide (is_Some (view d (ds_version d) (bdata k)))).
Proof.
  intros [Hok _] Hc Hk. unfold Has, view. rewrite Hc, (get_live (values d) _ k _ Hok).
  destruct (blen k =? 0)%nat eqn:E; [by apply Nat.eqb_eq, blen_zero in E|].
  unfold getVersion. f_equal. rewrite <- negb_orb.
  destruct (_ || _); [rewrite bool_decide_false; [done|by intros []]|by rewrite bool_decide_true].
Qed.

(** [d'] is a later state of [d]: what was visible at its versions still is. *)
Record grows (d d' : Datastore) : Prop := {
  grows_inv : ds_inv d';
  grows_version : ds_version d <= ds_version d';
  grows_snap w k : w <= ds_version d -> snap (items (values d')) w k = snap (items (values d)) w k;
  grows_closed : closed d' = closed d }.

Lemma grows_refl d : ds_inv d -> grows d d.
Proof. by split. Qed.

Lemma grows_trans d1 d2 d3 : grows d1 d2 -> grows d2 d3 -> grows d1 d3.
Proof.
  intros [I1 V1 S1 C1] [I2 V2 S2 C2]. split; [done|lia| |congruence].
  intros w k Hw. rewrite S2 by lia. auto.
Qed.

End view.
