(* ===== verification/MemoryTxn.v ===== *)
(** Transactions of the memory store: reads see the transaction's own writes
    over its snapshot, commits apply all writes at one new version or fail with
    a conflict, and the store's own writes are one-operation transactions. *)
From S2P Require Import Prelude BTree Kv Memory MemoryView.
Import Memory.

(** The item as the store holds it, without the mark of a recorded read. *)
Definition unget (i : dsItem) : dsItem := mk_dsItem (key i) (version i) (val i) (isDeleted i) false.

(** The write a list of operations holds for a key. *)
Definition pend_in (l : list dsItem) (k : bytes) : option dsItem :=
  last (filter (fun i => kd i = k /\ isGet i = false) l).

Lemma pend_in_None l k : pend_in l k = None <-> forall i, i ∈ l -> kd i = k -> isGet i = true.
Proof.
  unfold pend_in. rewrite last_None. split.
  - intros H i Hi Hk. apply not_false_iff_true. intros Hg.
    assert (i ∈ filter (fun i => kd i = k /\ isGet i = false) l) as Hf
      by (apply list_elem_of_filter; auto).
    rewrite H in Hf. set_solver.
  - intros H. destruct (filter _ l) as [|i l'] eqn:E; [done|exfalso].
    assert (i ∈ filter (fun i => kd i = k /\ isGet i = false) l) as Hf by (rewrite E; set_solver).
    apply list_elem_of_filter in Hf as [[Hk Hg] Hi]. rewrite (H i Hi Hk) in Hg. done.
Qed.

Lemma pend_in_Some_1 l k w : pend_in l k = Some w -> w ∈ l /\ kd w = k /\ isGet w = false.
Proof. intros H%last_Some_elem_of. apply list_elem_of_filter in H. tauto. Qed.

Lemma pend_in_Some l tv k w :
  sorted_items l -> (forall i, i ∈ l -> isGet i = false -> version i = tv) ->
  pend_in l k = Some w <-> w ∈ l /\ kd w = k /\ isGet w = false.
Proof.
  intros Hs Hv. split; [apply pend_in_Some_1|]. intros (Hw & Hk & Hg).
  destruct (pend_in l k) as [w'|] eqn:E.
  - apply pend_in_Some_1 in E as (Hw' & Hk' & Hg'). f_equal.
    apply (sorted_items_inj l); try done; [congruence|]. rewrite !Hv; done.
  - rewrite pend_in_None in E. rewrite (E w Hw Hk) in Hg. done.
Qed.

Section txn.
Context {BI : BTreeG dsItem} {BT : BTreeG dsTxn}
  {LI : BTreeGLaws dsItem dsItem_zero byKeys} {LT : BTreeGLaws dsTxn dsTxn_zero byDSVersion}.

Definition pend (t : basicTxn) (k : bytes) : option dsItem := pend_in (items (ops t)) k.

(** An operation a transaction recorded: a write, at the transaction's
    version, or a read, of an item that is not newer than its snapshot (or an
    empty item for a key that was not found). *)
Definition op_ok (t : basicTxn) (i : dsItem) : Prop :=
  (isGet i = false /\ kd i <> [] /\ version i = dsVersion t + 1) \/
  (isGet i = true /\ (kd i = [] \/ version i <= dsVersion t)).

Record txn_inv (d : Datastore) (t : basicTxn) : Prop := {
  txn_version : 0 <= dsVersion t <= ds_version d;
  txn_room : dsVersion t + 1 < two64;
  txn_ops : forall i, i ∈ items (ops t) -> op_ok t i }.

(** The recorded reads are still the items of the snapshot. *)
Definition faithful (d : Datastore) (t : basicTxn) : Prop :=
  forall i, i ∈ items (ops t) -> isGet i = true -> kd i <> [] ->
    snap (items (values d)) (dsVersion t) (kd i) = Some (unget i).

(** What a key reads as inside the transaction. *)
Definition txn_lookup (d : Datastore) (t : basicTxn) (k : bytes) : option slice :=
  match pend t k with
  | Some w => live (Some w)
  | None => view d (dsVersion t) k
  end.

Lemma getTxnVersion_eq d t : txn_inv d t -> getTxnVersion t = dsVersion t + 1.
Proof. intros [? ? _]. unfold getTxnVersion, getDSVersion. apply uadd_small. lia. Qed.

Lemma txn_write_version d t i :
  txn_inv d t -> i ∈ items (ops t) -> isGet i = false -> version i = dsVersion t + 1.
Proof. intros Hi Hin Hg. destruct (txn_ops _ _ Hi i Hin) as [?|[? _]]; [tauto|congruence]. Qed.

Lemma pend_Some d t k w :
  txn_inv d t -> pend t k = Some w <-> w ∈ items (ops t) /\ kd w = k /\ isGet w = false.
Proof.
  intros Hi. apply (pend_in_Some _ (dsVersion t + 1)); [apply items_sorted|].
  intros i. by apply (txn_write_version d).
Qed.

(** Other writers do not disturb a transaction. *)
Lemma txn_inv_later d d' t : ds_version d <= ds_version d' -> txn_inv d t -> txn_inv d' t.
Proof. intros HV [? ? Ho]. split; [lia|done|done]. Qed.

Lemma txn_inv_grows d d' t : grows d d' -> txn_inv d t -> txn_inv d' t.
Proof. intros [_ HV _ _]. by apply txn_inv_later. Qed.

Lemma faithful_snap d d' t :
  (forall k, snap (items (values d')) (dsVersion t) k = snap (items (values d)) (dsVersion t) k) ->
  faithful d t -> faithful d' t.
Proof. intros HS Hf i Hi Hg Hk. rewrite HS. by apply Hf. Qed.

Lemma faithful_grows d d' t : grows d d' -> txn_inv d t -> faithful d t -> faithful d' t.
Proof. intros [_ _ HS _] [? _ _]. apply faithful_snap. intros k. apply HS. lia. Qed.

Lemma txn_lookup_grows d d' t k : grows d d' -> txn_inv d t -> txn_lookup d' t k = txn_lookup d t k.
Proof. intros [_ _ HS _] [? _ _]. unfold txn_lookup, view. rewrite HS by lia. done. Qed.

(** ** Recording an operation *)

Lemma elem_of_ops_set t x i :
  i ∈ items (ops (set_ops (bt_Set (ops t) x) t)) <->
  i = x \/ i ∈ items (ops t) /\ (byKeys x i = true \/ byKeys i x = true).
Proof. simpl. rewrite items_Set. apply (elem_of_sl_insert byKeys), items_sorted. Qed.

(** Adding [x] to the operations, where it replaces no write of another key. *)
Lemma txn_ops_set d t x :
  txn_inv d t -> op_ok t x ->
  txn_inv d (set_ops (bt_Set (ops t) x) t) /\
  forall k, pend (set_ops (bt_Set (ops t) x) t) k =
    if bool_decide (kd x = k /\ isGet x = false) then Some x else pend t k.
Proof.
  intros Hi Hx. pose proof (elem_of_ops_set t x) as He. set (t' := set_ops _ t) in *.
  assert (txn_inv d t') as Hi'.
  { destruct Hi as [? ? Ho]. split; [done..|]. intros i Hin.
    apply He in Hin as [->|[? _]]; [done|]. by apply Ho. }
  split; [done|]. intros k. case_bool_decide as E.
  - apply (pend_Some d); [done|]. split; [apply He; by left|done].
  - apply option_eq. intros w. rewrite (pend_Some d t), (pend_Some d t') by done. rewrite He. split.
    + intros ([->|[? _]] & ? & ?); [tauto|done].
    + intros (Hw & Hk & Hg). split; [|done]. right. split; [done|].
      destruct (byKeys x w) eqn:E1; [by left|]. right. apply byKeys_true.
      apply byKeys_false in E1 as [?|[Hkx Hv]]; [by left|]. right. split; [done|].
      pose proof (txn_write_version d t w Hi Hw Hg) as Hvw.
      destruct Hx as [(Hgx & _ & Hvx)|[Hgx Hs]].
      * tauto || (destruct E; split; congruence).
      * destruct Hs as [Hs|Hs]; [|lia].
        exfalso. destruct (txn_ops _ _ Hi w Hw) as [(_ & Hne & _)|[? _]]; congruence.
Qed.

Lemma faithful_set d t x :
  faithful d t -> (isGet x = true -> kd x <> [] ->
    snap (items (values d)) (dsVersion t) (kd x) = Some (unget x)) ->
  faithful d (set_ops (bt_Set (ops t) x) t).
Proof.
  intros Hf Hx i Hin. apply elem_of_ops_set in Hin as [->|[Hin _]]; [done|]. by apply Hf.
Qed.

Lemma txn_get_hit d t k i :
  txn_inv d t -> faithful d t -> k <> [] -> snap (items (ops t)) (dsVersion t + 1) k = Some i ->
  is_nil (key i) = false /\ live (Some i) = txn_lookup d t k.
Proof.
  intros Hi Hf Hk Hs. apply snap_Some in Hs as (Hin & Hki & Hv & Hmax); [|apply items_sorted].
  split. { subst k. unfold kd in *. by destruct (key i). }
  unfold txn_lookup. destruct (isGet i) eqn:Hg.
  - assert (pend t k = None) as ->.
    { apply pend_in_None. intros j Hj Hkj. apply not_false_iff_true. intros Hgj.
      pose proof (txn_write_version _ _ _ Hi Hj Hgj) as Hvj.
      specialize (Hmax j Hj Hkj ltac:(lia)).
      destruct (txn_ops _ _ Hi i Hin) as [(? & _)|[_ [?|?]]]; [congruence..|lia]. }
    unfold view. rewrite <- Hki, (Hf i Hin Hg) by congruence. done.
  - assert (pend t k = Some i) as ->; [|done]. apply (pend_Some d); auto.
Qed.

Lemma txn_get_miss d t k :
  txn_inv d t -> k <> [] -> snap (items (ops t)) (dsVersion t + 1) k = None ->
  pend t k = None.
Proof.
  intros Hi Hk Hs. rewrite snap_None in Hs. apply pend_in_None. intros i Hin Hki.
  specialize (Hs i Hin Hki).
  destruct (txn_ops _ _ Hi i Hin) as [(_ & _ & ?)|[? _]]; [lia|done].
Qed.

(** The fields of a transaction that reads do not change. *)
Definition same_txn (t t' : basicTxn) : Prop :=
  dsVersion t' = dsVersion t /\ readOnly t' = readOnly t /\ discarded t' = discarded t /\
  forall k, pend t' k = pend t k.

Lemma same_txn_refl t : same_txn t t.
Proof. done. Qed.

Lemma same_txn_lookup d t t' k : same_txn t t' -> txn_lookup d t' k = txn_lookup d t k.
Proof. intros (Hv & _ & _ & Hp). unfold txn_lookup. by rewrite Hp, Hv. Qed.

(** [basicTxn.get] keeps the transaction well formed and its writes as they
    are; an item it finds is in the operations from then on. *)
Lemma txn_get_inv d t k :
  txn_inv d t -> bdata k <> [] ->
  let '(r, t') := txn_get d t k in
  txn_inv d t' /\ same_txn t t' /\
  (is_nil (key r) = false -> exists i, i ∈ items (ops t') /\ kd i = bdata k).
Proof.
  intros Hi Hk. unfold txn_get. rewrite get_snap, (getTxnVersion_eq d t Hi).
  destruct (snap (items (ops t)) (dsVersion t + 1) (bdata k)) as [i|] eqn:E; simpl.
  - pose proof E as (Hin & Hki & _)%snap_Some_1.
    assert (is_nil (key i) = false) as -> by (unfold kd in Hki; destruct (key i); [done|simpl in Hki; congruence]).
    split_and!; try done. intros _. by exists i.
  - rewrite get_snap. change (getDSVersion t) with (dsVersion t).
    set (r := default dsItem_zero (snap (items (values d)) (dsVersion t) (bdata k))).
    assert (kd r = [] \/ kd r = bdata k /\ version r <= dsVersion t) as Hr.
    { unfold r. destruct (snap (items (values d)) (dsVersion t) (bdata k)) as [i|] eqn:Es; [right|left; reflexivity]. apply snap_Some_1 in Es as (_ & ? & ?); auto. }
    destruct (txn_ops_set d t (mk_dsItem (key r) (version r) (val r) (isDeleted r) true) Hi) as [Hi' Hpend].
    { right. split; [done|]. change (kd (mk_dsItem _ _ _ _ _)) with (kd r). simpl. tauto. }
    split; [done|]. split.
    + split_and!; try done. intros k'. rewrite Hpend. simpl. by rewrite bool_decide_false by (by intros []).
    + intros Hn. eexists. split; [apply (elem_of_ops_set t); by left|].
      change (kd (mk_dsItem _ _ _ _ _)) with (kd r). destruct Hr as [Hr|[Hr _]]; [|done]. exfalso.
      simpl in Hn. unfold r in Hn, Hr. destruct (snap (items (values d)) (dsVersion t) (bdata k)) as [i|] eqn:Es; [|done].
      apply snap_Some_1 in Es as (_ & Es & _). simpl in Hr. congruence.
Qed.

(** [basicTxn.get] reads through the transaction. *)
Lemma txn_get_spec d t k :
  ds_inv d -> txn_inv d t -> faithful d t -> bdata k <> [] ->
  let '(r, t') := txn_get d t k in
  (if is_nil (key r) || isDeleted r then None else Some (val r)) = txn_lookup d t (bdata k) /\
  faithful d t'.
Proof.
  intros Hd Hi Hf Hk. unfold txn_get. rewrite get_snap, (getTxnVersion_eq d t Hi).
  destruct (snap (items (ops t)) (dsVersion t + 1) (bdata k)) as [i|] eqn:E; simpl.
  - destruct (txn_get_hit d t _ i Hi Hf Hk E) as [Hn Hl]. rewrite Hn. by rewrite Hn, <- Hl.
  - pose proof (txn_get_miss d t _ Hi Hk E) as Hp. destruct Hd as [Hok _]. split.
    + unfold txn_lookup. rewrite Hp. unfold view. by rewrite (get_live (values d) _ k (dsVersion t) Hok).
    + apply faithful_set; [done|]. intros _. rewrite get_snap. change (getDSVersion t) with (dsVersion t).
      destruct (snap (items (values d)) (dsVersion t) (bdata k)) as [i|] eqn:Es; [intros _|done].
      cbn [default]. change (kd (mk_dsItem _ _ _ _ _)) with (kd i).
      pose proof Es as (Hin & -> & _)%snap_Some_1. rewrite Es.
      eapply Forall_forall in Hok as (_ & Hg & _); [|done]. destruct i; simpl in *; by subst.
Qed.

(** ** Operations inside a transaction *)

(** The transaction can be used: neither it nor its store is closed. *)
Definition active (d : Datastore) (t : basicTxn) : Prop := closed d = false /\ discarded t = false.

(** The three reads share the guards and [basicTxn.get]. *)
Ltac read_spec d t k Hd Hi Hf Hc Ha Hk :=
  rewrite Hc, Ha, blen_nonzero by done;
  pose proof (txn_get_spec d t k Hd Hi Hf Hk) as H; pose proof (txn_get_inv d t k Hi Hk) as H2;
  destruct (txn_get d t k) as [r t']; destruct H as (<- & Hf'); destruct H2 as (Hi' & Hs & _); exists t'.

Lemma txn_Get_spec d t k :
  ds_inv d -> txn_inv d t -> faithful d t -> active d t -> bdata k <> [] ->
  exists t', txn_Get d t k =
    (match txn_lookup d t (bdata k) with Some v => Ok v | None => Err ErrNotFound end, t') /\
    txn_inv d t' /\ faithful d t' /\ same_txn t t'.
Proof.
  intros Hd Hi Hf [Hc Ha] Hk. unfold txn_Get. read_spec d t k Hd Hi Hf Hc Ha Hk. by destruct (_ || _).
Qed.

Lemma txn_GetSize_spec d t k :
  ds_inv d -> txn_inv d t -> faithful d t -> active d t -> bdata k <> [] ->
  exists t', txn_GetSize d t k =
    (match txn_lookup d t (bdata k) with Some v => Ok (blen v) | None => Err ErrNotFound end, t') /\
    txn_inv d t' /\ faithful d t' /\ same_txn t t'.
Proof.
  intros Hd Hi Hf [Hc Ha] Hk. unfold txn_GetSize. read_spec d t k Hd Hi Hf Hc Ha Hk. by destruct (_ || _).
Qed.

Lemma txn_Has_spec d t k :
  ds_inv d -> txn_inv d t -> faithful d t -> active d t -> bdata k <> [] ->
  exists t', txn_Has d t k = (Ok (bool_decide (is_Some (txn_lookup d t (bdata k)))), t') /\
    txn_inv d t' /\ faithful d t' /\ same_txn t t'.
Proof.
  intros Hd Hi Hf [Hc Ha] Hk. unfold txn_Has. read_spec d t k Hd Hi Hf Hc Ha Hk.
  destruct (_ || _); [rewrite bool_decide_false by (by intros [])|rewrite bool_decide_true by eauto]; done.
Qed.

(** The effect of a write on the transaction's reads. *)
Lemma txn_lookup_set d t x k :
  txn_inv d t -> isGet x = false -> kd x <> [] -> version x = dsVersion t + 1 ->
  txn_inv d (set_ops (bt_Set (ops t) x) t) /\
  txn_lookup d (set_ops (bt_Set (ops t) x) t) k =
    if bool_decide (kd x = k) then live (Some x) else txn_lookup d t k.
Proof.
  intros Hi Hg Hk Hv. destruct (txn_ops_set d t x Hi) as [Hi' Hp]; [by left|].
  split; [done|]. unfold txn_lookup. rewrite Hp. repeat case_bool_decide; try done; tauto.
Qed.

Lemma faithful_write d t x : faithful d t -> isGet x = false -> faithful d (set_ops (bt_Set (ops t) x) t).
Proof. intros Hf Hg. apply faithful_set; [done|congruence]. Qed.

Lemma txn_Set_spec d t k v :
  txn_inv d t -> active d t -> readOnly t = false -> bdata k <> [] ->
  exists t', txn_Set d t k v = (None, t') /\ txn_inv d t' /\ (faithful d t -> faithful d t') /\
    dsVersion t' = dsVersion t /\ readOnly t' = false /\ discarded t' = false /\
    forall k', txn_lookup d t' k' = if bool_decide (bdata k = k') then Some v else txn_lookup d t k'.
Proof.
  intros Hi [Hc Ha] Hr Hk. unfold txn_Set. rewrite Hc, Ha, Hr, blen_nonzero by done.
  eexists; split; [done|]. rewrite (getTxnVersion_eq d t Hi).
  set (x := mk_dsItem k (dsVersion t + 1) v false false).
  split; [by apply (txn_lookup_set d t x [])|]. split; [intros Hf; by apply faithful_write|]. split_and!; try done.
  intros k'. by apply (txn_lookup_set d t x).
Qed.

Lemma txn_Delete_spec d t k :
  ds_inv d -> txn_inv d t -> faithful d t -> active d t -> readOnly t = false -> bdata k <> [] ->
  exists t', txn_Delete d t k = (None, t') /\ txn_inv d t' /\ faithful d t' /\
    dsVersion t' = dsVersion t /\ readOnly t' = false /\ discarded t' = false /\
    forall k', txn_lookup d t' k' = if bool_decide (bdata k = k') then None else txn_lookup d t k'.
Proof.
  intros Hd Hi Hf [Hc Ha] Hr Hk. unfold txn_Delete. rewrite Hc, Ha, Hr, blen_nonzero by done.
  pose proof (txn_get_spec d t k Hd Hi Hf Hk) as H. pose proof (txn_get_inv d t k Hi Hk) as H2.
  destruct (txn_get d t k) as [r t']. destruct H as (Hl & Hf'), H2 as (Hi' & Hs & _).
  pose proof Hs as (Hv & Hro & Hdi & _). rewrite Hr in Hro. rewrite Ha in Hdi.
  destruct (is_nil (key r) || isDeleted r).
  - eexists; split; [done|]. split_and!; try done. intros k'.
    rewrite (same_txn_lookup d t t' k' Hs). case_bool_decide; subst; done.
  - eexists; split; [done|]. rewrite (getTxnVersion_eq d t' Hi').
    set (x := mk_dsItem k (dsVersion t' + 1) None true false).
    split; [by apply (txn_lookup_set d t' x [])|]. split; [by apply faithful_write|]. split_and!; try done.
    intros k'. destruct (txn_lookup_set d t' x k') as [_ ->]; try done.
    by rewrite (same_txn_lookup d t t' k' Hs).
Qed.

(** ** Discarding *)

(** [d'] differs from [d] at most in the transactions in flight. *)
Definition same_store (d d' : Datastore) : Prop :=
  ds_version d' = ds_version d /\ values d' = values d /\ closed d' = closed d /\
  closing d' = closing d.

Lemma same_store_grows d d' : ds_inv d -> same_store d d' -> grows d d'.
Proof.
  intros [? ?] (Hv & Hvs & Hc & _).
  split; unfold ds_inv; rewrite ?Hv, ?Hvs; [by split|lia|done|done].
Qed.

Lemma clear_loop_same fuel now d d' : clear_loop fuel now d = Some d' -> same_store d d'.
Proof.
  revert d. induction fuel as [|fuel IH]; intros d; cbn [clear_loop]; [done|].
  destruct (for_Next _ (expired_body now) _ ([], 0%nat)) as [del total]. destruct (total =? 0)%nat.
  - by intros [= ->].
  - intros H%IH. done.
Qed.

Lemma clearOldInFlightTxn_same now d : same_store d (clearOldInFlightTxn now d).
Proof.
  unfold clearOldInFlightTxn. destruct (_ =? 0)%nat; [done|].
  destruct (clear_loop _ now d) eqn:E; [|done]. by eapply clear_loop_same.
Qed.

Lemma txn_Discard_same now d t : same_store d (txn_Discard now d t).1.
Proof.
  unfold txn_Discard. destruct (discarded t); [done|]. simpl. unfold clearInFlightTxn.
  by destruct (clearOldInFlightTxn_same now (set_inFlightTxn
    (bt_Delete (inFlightTxn d) (mk_dsTxn (getDSVersion (set_ops (bt_Clear (ops t)) t))
      (getTxnVersion (set_ops (bt_Clear (ops t)) t)) 0 0)) d)) as (? & ? & ? & ?).
Qed.

Lemma txn_Discard_discarded now d t : discarded (txn_Discard now d t).2 = true.
Proof. unfold txn_Discard. by destruct (discarded t) eqn:E. Qed.

(** ** Conflicts *)

(** The key changed in the store since the transaction began. *)
Definition changed (d : Datastore) (t : basicTxn) (k : bytes) : Prop :=
  snap (items (values d)) (ds_version d) k <> snap (items (values d)) (dsVersion t) k.

Lemma snap_version_inj (vs : btree dsItem) V v v' k :
  items_ok (items vs) V ->
  version (default dsItem_zero (snap (items vs) v k)) =
    version (default dsItem_zero (snap (items vs) v' k)) ->
  snap (items vs) v k = snap (items vs) v' k.
Proof.
  intros Hok. assert (forall w i, snap (items vs) w k = Some i -> 0 < version i) as Hpos.
  { intros w i Hi. apply snap_Some_1 in Hi as (Hi & _ & _).
    eapply Forall_forall in Hok as (_ & _ & ?); [|done]. lia. }
  destruct (snap (items vs) v k) as [i|] eqn:E, (snap (items vs) v' k) as [j|] eqn:E';
    simpl; intros Hv; [f_equal| | |done].
  - apply snap_Some_1 in E as (? & ? & _), E' as (? & ? & _).
    apply (sorted_items_inj (items vs)); [apply items_sorted|done..|congruence|done].
  - specialize (Hpos v i E). lia.
  - specialize (Hpos v' j E'). lia.
Qed.

Lemma conflict_body_changed d t i b :
  ds_inv d ->
  conflict_body d t i b = (b, false) /\ ~ changed d t (kd i) \/
  conflict_body d t i b = (Some ErrTxnConflict, true) /\ changed d t (kd i).
Proof.
  intros [Hok _]. unfold conflict_body, changed, getDSVersion, getVersion.
  rewrite !get_snap. change (bdata (key i)) with (kd i).
  destruct (Z.eqb_spec (version (default dsItem_zero (snap (items (values d)) (ds_version d) (kd i))))
    (version (default dsItem_zero (snap (items (values d)) (dsVersion t) (kd i))))) as [E|E]; simpl.
  - left. split; [done|]. intros H. apply H. by eapply snap_version_inj.
  - right. split; [done|]. intros H. apply E. by rewrite H.
Qed.

(** A conflict is reported exactly when a key in the operations changed. *)
Lemma checkForConflicts_spec d t :
  ds_inv d ->
  checkForConflicts d t = None /\ (forall i, i ∈ items (ops t) -> ~ changed d t (kd i)) \/
  checkForConflicts d t = Some ErrTxnConflict /\ (exists i, i ∈ items (ops t) /\ changed d t (kd i)).
Proof.
  intros Hd. unfold checkForConflicts. destruct (Z.eqb_spec (getDSVersion t) (getVersion d)) as [E|E].
  { left. split; [done|]. intros i _ H. apply H. unfold getDSVersion, getVersion in E. by rewrite E. }
  rewrite (for_Next_Iter (conflict_body d t)) by (rewrite Len_items; lia).
  clear E. induction (items (ops t)) as [|i l IH]; simpl; [left; split; [done|set_solver]|].
  destruct (conflict_body_changed d t i None Hd) as [[-> Hn]|[-> Hc]].
  - destruct IH as [[-> ?]|[-> (j & ? & ?)]]; [left; set_solver|right; split; [done|]].
    exists j. set_solver.
  - right. split; [done|]. exists i. set_solver.
Qed.

(** ** Commit *)

(** The items a commit at version [v] writes. *)
Definition relabel (v : Z) (i : dsItem) : dsItem := mk_dsItem (key i) v (val i) (isDeleted i) false.
Definition writes (v : Z) (l : list dsItem) : list dsItem :=
  relabel v <$> filter (fun i => isGet i = false) l.

Lemma commit_loop_items v l vs :
  items (for_list (commit_body v) l vs) =
  foldl (fun acc w => sl_insert byKeys w acc) (items vs) (writes v l).
Proof.
  revert vs. induction l as [|i l IH]; intros vs; simpl; [done|].
  unfold writes. rewrite filter_cons. unfold commit_body at 1.
  destruct (isGet i) eqn:E; simpl.
  - by rewrite IH.
  - by rewrite IH, items_Set.
Qed.

Lemma writes_pend v l k :
  last (filter (fun w => kd w = k) (writes v l)) = relabel v <$> pend_in l k.
Proof.
  unfold writes, pend_in. induction l as [|i l IH] using rev_ind; [done|].
  rewrite !filter_app, fmap_app, filter_app, !filter_cons, !filter_nil.
  destruct (decide (isGet i = false)) as [Hg|Hg]; simpl.
  - rewrite filter_cons, filter_nil. change (kd (relabel v i)) with (kd i).
    destruct (decide (kd i = k)) as [Hk|Hk].
    + by rewrite decide_True, !last_snoc by done.
    + by rewrite decide_False, !app_nil_r by tauto.
  - by rewrite decide_False, filter_nil, !app_nil_r by tauto.
Qed.

Lemma live_relabel v o : live (relabel v <$> o) = live o.
Proof. by destruct o. Qed.

(** A commit without conflict: one new version, at which every key reads as
    the transaction left it. *)
Lemma commit_ok d t :
  ds_inv d -> txn_inv d t -> ds_version d + 1 < two64 -> checkForConflicts d t = None ->
  exists d', commit d t = (None, d') /\ grows d d' /\ ds_version d' = ds_version d + 1 /\
    (forall k, view d' (ds_version d') k =
      match pend t k with Some w => live (Some w) | None => view d (ds_version d) k end) /\
    (forall k w, pend t k = Some w ->
      snap (items (values d')) (ds_version d') k = Some (relabel (ds_version d') w)).
Proof.
  intros [Hok Hr] Hi Hroom Hc. unfold commit. rewrite Hc.
  unfold nextVersion. rewrite uadd_small by lia. cbn [fst snd].
  eexists; split; [done|].
  rewrite (for_Next_Iter (commit_body (ds_version d + 1))) by (rewrite Len_items; lia).
  set (nv := ds_version d + 1) in *.
  assert (forall j, j ∈ items (values d) -> version j < nv) as Hlt.
  { intros j Hj. eapply Forall_forall in Hok as (_ & _ & ?); [|done]. lia. }
  assert (Forall (fun w => version w = nv) (writes nv (items (ops t)))) as Hnv.
  { apply Forall_fmap, Forall_true. done. }
  assert (forall v k, snap (items (for_list (commit_body nv) (items (ops t)) (values d))) v k =
    match pend t k with
    | Some w => if bool_decide (nv <= v) then Some (relabel nv w) else snap (items (values d)) v k
    | None => snap (items (values d)) v k
    end) as Hsnap.
  { intros v k. rewrite commit_loop_items, (snap_inserts _ _ nv) by (done || apply items_sorted).
    rewrite writes_pend. unfold pend. by destruct (pend_in _ k). }
  split; [split|split]; simpl.
  - split; simpl; [|lia]. apply Forall_forall. intros i Hin.
    rewrite commit_loop_items in Hin. apply inserts_elem in Hin as [Hin|Hin].
    + unfold writes in Hin. apply list_elem_of_fmap in Hin as (w & -> & Hw).
      apply list_elem_of_filter in Hw as [Hg Hw].
      destruct (txn_ops _ _ Hi w Hw) as [(_ & ? & _)|[? _]]; [|congruence].
      simpl. unfold kd in *. simpl. split_and!; [done..|lia|lia].
    + eapply Forall_forall in Hok as (? & ? & ?); [|done]. split_and!; [done..|lia|lia].
  - lia.
  - intros w k Hw. rewrite Hsnap. destruct (pend t k); [|done].
    by rewrite bool_decide_false by lia.
  - done.
  - done.
  - split.
    + intros k. unfold view. simpl. rewrite Hsnap. destruct (pend t k) as [w|].
      * by rewrite bool_decide_true by lia.
      * by rewrite (snap_latest _ (ds_version d) nv) by (done || lia).
    + intros k w Hw. rewrite Hsnap, Hw. by rewrite bool_decide_true by lia.
Qed.

Lemma view_same_store d d' v k : same_store d d' -> view d' v k = view d v k.
Proof. intros (_ & Hvs & _). unfold view. by rewrite Hvs. Qed.

(** The three outcomes of committing a usable transaction. *)
Inductive commit_outcome (d : Datastore) (t : basicTxn) : option error -> Datastore -> Prop :=
| commit_readonly d' :
    readOnly t = true -> same_store d d' -> commit_outcome d t None d'
| commit_conflict d' i :
    readOnly t = false -> i ∈ items (ops t) -> changed d t (kd i) -> same_store d d' ->
    commit_outcome d t (Some ErrTxnConflict) d'
| commit_done d' :
    readOnly t = false -> (forall i, i ∈ items (ops t) -> ~ changed d t (kd i)) ->
    grows d d' -> ds_version d' = ds_version d + 1 ->
    (forall k, view d' (ds_version d') k =
      match pend t k with Some w => live (Some w) | None => view d (ds_version d) k end) ->
    (forall k w, pend t k = Some w ->
      snap (items (values d')) (ds_version d') k = Some (relabel (ds_version d') w)) ->
    commit_outcome d t None d'.

Lemma same_store_trans d1 d2 d3 : same_store d1 d2 -> same_store d2 d3 -> same_store d1 d3.
Proof. unfold same_store. intuition congruence. Qed.

Lemma txn_Commit_outcome now d t :
  ds_inv d -> txn_inv d t -> active d t -> ds_version d + 1 < two64 ->
  exists err d' t', txn_Commit now d t = (err, d', t') /\ discarded t' = true /\
    commit_outcome d t err d'.
Proof.
  intros Hd Hi [Hc Ha] Hroom. unfold txn_Commit. rewrite Hc, Ha.
  destruct (readOnly t) eqn:Hro; cbn [negb].
  { pose proof (txn_Discard_same now d t) as Hs. pose proof (txn_Discard_discarded now d t) as Ht.
    destruct (txn_Discard now d t) as [d' t']. do 3 eexists. split; [done|]. split; [done|].
    by constructor. }
  destruct (checkForConflicts_spec d t Hd) as [[E Hn]|[E (i & Hin & Hch)]].
  - destruct (commit_ok d t Hd Hi Hroom E) as (d1 & -> & Hg & Hv & Hview & Hsn).
    pose proof (txn_Discard_same now d1 t) as Hs. pose proof (txn_Discard_discarded now d1 t) as Ht.
    destruct (txn_Discard now d1 t) as [d' t']. simpl in *. do 3 eexists. split; [done|].
    split; [done|]. apply commit_done; [done..| | | |].
    + eapply grows_trans; [done|]. apply same_store_grows; [apply Hg|done].
    + destruct Hs as (-> & _). done.
    + intros k. rewrite (view_same_store d1 d') by done. destruct Hs as (-> & _). apply Hview.
    + destruct Hs as (-> & -> & _). exact Hsn.
  - unfold commit. rewrite E.
    pose proof (txn_Discard_same now d t) as Hs. pose proof (txn_Discard_discarded now d t) as Ht.
    destruct (txn_Discard now d t) as [d' t']. do 3 eexists. split; [done|]. split; [done|].
    by apply (commit_conflict d t d' i).
Qed.

(** ** The store's own writes *)

Lemma newTransaction_spec now p ro d :
  ds_inv d -> ds_version d + 1 < two64 ->
  let '(t, d') := newTransaction now p ro d in
  same_store d d' /\ txn_inv d' t /\ faithful d' t /\ dsVersion t = ds_version d /\ readOnly t = ro /\
  discarded t = false /\ forall k, pend t k = None.
Proof.
  intros [_ Hr] Hroom. unfold newTransaction. split_and!; try done.
  - split; simpl; [unfold getVersion; lia|done|]. intros i. simpl. rewrite items_New. set_solver.
  - intros i. simpl. rewrite items_New. set_solver.
  - intros k. unfold pend. simpl. rewrite items_New. done.
Qed.

(** A fresh transaction sees the store's current content. *)
Lemma newTransaction_lookup now p ro d k :
  let '(t, d') := newTransaction now p ro d in txn_lookup d' t k = view d (ds_version d) k.
Proof. unfold newTransaction, txn_lookup, pend. simpl. by rewrite items_New. Qed.

(** Without a change since its snapshot, a transaction commits what it reads. *)
Lemma commit_latest now d t :
  ds_inv d -> txn_inv d t -> active d t -> readOnly t = false ->
  dsVersion t = ds_version d -> ds_version d + 1 < two64 ->
  exists d' t', txn_Commit now d t = (None, d', t') /\ grows d d' /\
    ds_version d' = ds_version d + 1 /\ forall k, view d' (ds_version d') k = txn_lookup d t k.
Proof.
  intros Hd Hi Ha Hro Hv Hroom.
  destruct (txn_Commit_outcome now d t Hd Hi Ha Hroom) as (err & d' & t' & E & _ & Ho).
  destruct Ho as [d' ? _|d' i _ _ Hch _|d' _ _ Hg Hv' Hview _]; [congruence| |].
  - exfalso. apply Hch. by rewrite Hv.
  - exists d', t'. split_and!; try done. intros k. rewrite Hview. unfold txn_lookup. by rewrite Hv.
Qed.

Lemma Set_view now now' p d k v :
  ds_inv d -> closed d = false -> bdata k <> [] -> ds_version d + 1 < two64 ->
  exists d', Set_ now now' p d k v = (None, d') /\ grows d d' /\
    ds_version d' = ds_version d + 1 /\
    forall k', view d' (ds_version d') k' =
      if bool_decide (bdata k = k') then Some v else view d (ds_version d) k'.
Proof.
  intros Hd Hc Hk Hroom. unfold Set_. rewrite Hc, blen_nonzero by done.
  pose proof (newTransaction_spec now p false d Hd Hroom) as H.
  pose proof (fun k => newTransaction_lookup now p false d k) as Hl.
  destruct (newTransaction now p false d) as [t d1]. destruct H as (Hs & Hi & Hf & Hv & Hro & Hdis & _).
  pose proof (same_store_grows d d1 Hd Hs) as Hg1. pose proof Hs as (Hv1 & _ & Hc1 & _).
  assert (active d1 t) as Ha by (split; congruence).
  destruct (txn_Set_spec d1 t k v Hi Ha Hro Hk) as (t1 & -> & Hi1 & _ & Hv' & Hro1 & Hdis1 & Hl1).
  destruct (commit_latest now' d1 t1) as (d2 & t2 & -> & Hg2 & Hv2 & Hview);
    [apply Hg1|done|by split; [congruence|]|done|congruence|congruence|].
  exists d2. split_and!; [done|by eapply grows_trans|congruence|].
  intros k'. rewrite Hview, Hl1, Hl. done.
Qed.

Lemma Delete_view now now' p d k :
  ds_inv d -> closed d = false -> bdata k <> [] -> ds_version d + 1 < two64 ->
  exists d', Delete now now' p d k = (None, d') /\ grows d d' /\
    ds_version d' = ds_version d + 1 /\
    forall k', view d' (ds_version d') k' =
      if bool_decide (bdata k = k') then None else view d (ds_version d) k'.
Proof.
  intros Hd Hc Hk Hroom. unfold Delete. rewrite Hc, blen_nonzero by done.
  pose proof (newTransaction_spec now p false d Hd Hroom) as H.
  pose proof (fun k => newTransaction_lookup now p false d k) as Hl.
  destruct (newTransaction now p false d) as [t d1]. destruct H as (Hs & Hi & Hf & Hv & Hro & Hdis & _).
  pose proof (same_store_grows d d1 Hd Hs) as Hg1. pose proof Hs as (Hv1 & _ & Hc1 & _).
  assert (active d1 t) as Ha by (split; congruence).
  destruct (txn_Delete_spec d1 t k) as (t1 & -> & Hi1 & _ & Hv' & Hro1 & Hdis1 & Hl1);
    [apply Hg1|done..|].
  destruct (commit_latest now' d1 t1) as (d2 & t2 & -> & Hg2 & Hv2 & Hview);
    [apply Hg1|done|by split; [congruence|]|done|congruence|congruence|].
  exists d2. split_and!; [done|by eapply grows_trans|congruence|].
  intros k'. rewrite Hview, Hl1, Hl. done.
Qed.

End txn.
