(* ===== verification/MemoryPurge.v ===== *)
(** Housekeeping of the memory store: [executePurge] terminates, keeps what is
    visible at the versions it spares, and leaves one item per key below them;
    [clearOldInFlightTxn] terminates and removes exactly the expired entries. *)
From S2P Require Import Prelude BTree Kv Memory MemoryView MemoryTxn.
Import Memory.

(** ** One round of the purge *)

(** An item the purge may delete: a newer one of its key is not newer than [v]. *)
Definition outdated (l : list dsItem) (v : Z) (e : dsItem) : Prop :=
  e ∈ l /\ exists i, i ∈ l /\ kd i = kd e /\ version e < version i <= v.

(** No key has two items up to version [v]. *)
Definition thinned (l : list dsItem) (v : Z) : Prop :=
  forall i j, i ∈ l -> j ∈ l -> kd i = kd j -> version i <= v -> version j <= v -> i = j.

Lemma outdated_mono l l' v e : (forall x, x ∈ l -> x ∈ l') -> outdated l v e -> outdated l' v e.
Proof. intros H [He (i & Hi & ?)]. split; eauto. Qed.

Lemma purge_for_spec v l item del n item' del' n' :
  sorted_items (item :: l) ->
  for_list (purge_body v) l (item, del, n) = (item', del', n') ->
  exists D, del' = del ++ D /\ n' = (n + length D)%nat /\
    (forall e, e ∈ D -> outdated (item :: l) v e) /\
    ((n < 1000)%nat -> D = [] ->
      (forall i, i ∈ l -> version i <= v -> kd i <> kd item) /\ thinned l v).
Proof.
  revert item del n. induction l as [|x l IH]; intros item del n Hs Hf.
  { simpl in Hf. simplify_eq. exists []. rewrite app_nil_r, Nat.add_0_r.
    split_and!; [done..|by intros ? ?%not_elem_of_nil|]. intros _ _.
    split; [by intros ? ?%not_elem_of_nil|by intros ? ? ?%not_elem_of_nil]. }
  pose proof (sorted_head_lt byKeys item (x :: l) x Hs (list_elem_of_here _ _)) as Hix.
  pose proof Hs as [Hsx _]%StronglySorted_inv.
  cbn [for_list] in Hf. unfold purge_body at 1 in Hf.
  destruct (Z.ltb_spec v (version x)) as [Hv|Hv].
  { (* newer than v: skipped *)
    assert (sorted_items (item :: l)) as Hs'.
    { apply StronglySorted_inv in Hs as [Hs1 Hs2]. apply StronglySorted_inv in Hs1 as [? _].
      constructor; [done|]. by apply Forall_cons in Hs2 as [_ ?]. }
    destruct (IH item del n Hs' Hf) as (D & -> & -> & HD & Hthin). exists D.
    split_and!; [done..| |].
    - intros e He. eapply outdated_mono; [|by apply HD]. intros y. rewrite !elem_of_cons. tauto.
    - intros Hn HD0. destruct (Hthin Hn HD0) as [H1 H2]. split.
      + intros i Hi Hvi. apply elem_of_cons in Hi as [->|Hi]; [lia|auto].
      + intros i j Hi Hj ? ? ?. apply elem_of_cons in Hi as [->|Hi]; [lia|].
        apply elem_of_cons in Hj as [->|Hj]; [lia|]. by apply H2. }
  apply byKeys_true in Hix. destruct (bytes_Equal (key item) (key x)) eqn:Ek.
  - (* the previous item is outdated *)
    apply bytes_Equal_true in Ek. change (kd item = kd x) in Ek.
    assert (outdated (item :: x :: l) v item) as Ho.
    { split; [by left|]. exists x. split; [by right; left|]. split; [done|].
      destruct Hix as [?|[_ ?]]; [|lia]. border. }
    destruct (1000 <=? S n)%nat.
    + simplify_eq. exists [item]. split_and!; [done|simpl; lia| |done].
      intros e He. by apply list_elem_of_singleton in He as ->.
    + destruct (IH x (del ++ [item]) (S n) Hsx Hf) as (D & -> & -> & HD & _).
      exists (item :: D). split_and!; [by rewrite <- (assoc_L (++))|simpl; lia| |done].
      intros e [->|He]%elem_of_cons; [done|].
      eapply outdated_mono; [|by apply HD]. intros y. rewrite !elem_of_cons. tauto.
  - apply bytes_Equal_false in Ek. change (kd item <> kd x) in Ek.
    assert (kd item ≺ kd x) as Hlt by (destruct Hix as [?|[? _]]; [done|congruence]).
    destruct (1000 <=? n)%nat eqn:E1000.
    + simplify_eq. exists []. rewrite app_nil_r, Nat.add_0_r. apply Nat.leb_le in E1000.
      split_and!; [done..|by intros ? ?%not_elem_of_nil|lia].
    + destruct (IH x del n Hsx Hf) as (D & -> & -> & HD & Hthin). exists D.
      split_and!; [done..| |].
      * intros e He. eapply outdated_mono; [|by apply HD]. intros y. rewrite !elem_of_cons. tauto.
      * intros Hn HD0. destruct (Hthin Hn HD0) as [H1 H2].
        assert (forall i, i ∈ l -> kd x ⪯ kd i) as Hxl.
        { intros i Hi. pose proof (sorted_head_lt byKeys x l i Hsx Hi) as Hxi.
          apply byKeys_true in Hxi as [?|[-> _]]; [by apply bytes_lt_le|apply bytes_le_refl]. }
        split.
        -- intros i [->|Hi]%elem_of_cons _; [border|]. specialize (Hxl i Hi). border.
        -- intros i j [->|Hi]%elem_of_cons [->|Hj]%elem_of_cons Hk Hvi Hvj; [done| | |by apply H2].
           ++ by destruct (H1 j Hj Hvj).
           ++ by destruct (H1 i Hi Hvi).
Qed.

Section purge.
Context {BI : BTreeG dsItem} {BT : BTreeG dsTxn}
  {LI : BTreeGLaws dsItem dsItem_zero byKeys} {LT : BTreeGLaws dsTxn dsTxn_zero byDSVersion}.

(** What one round of the loop finds. *)
Definition purge_round (v : Z) (vs : btree dsItem) : list dsItem * nat :=
  let '(_, c) := c_Next (bt_Iter vs) in
  let '(_, itemsToDelete, total) :=
    for_Next (S (bt_Len vs)) (purge_body v) c (c_Item c, [], 0%nat) in
  (itemsToDelete, total).

Lemma purge_round_spec v vs D n :
  purge_round v vs = (D, n) ->
  n = length D /\ (forall e, e ∈ D -> outdated (items vs) v e) /\ (D = [] -> thinned (items vs) v).
Proof.
  unfold purge_round. destruct (Iter_spec vs) as (Hi & Hp & _ & _ & Hs).
  rewrite (Next_Unseeked _ Hp). pose proof (items_sorted vs) as Hsorted.
  destruct (items vs) as [|x l] eqn:El.
  - pose proof (First_items (bt_Iter vs)) as Hi'. rewrite Hi in Hi'.
    destruct (c_First (bt_Iter vs)) as [ok c]. simpl in *.
    destruct (empty_moves c dsItem_zero Hi') as (_ & _ & Hn & _).
    destruct (c_Next c) as [ok' c']. simpl in *. subst ok'. intros [= <- <-].
    split_and!; [done|by intros ? ?%not_elem_of_nil|by intros _ ? ? ?%not_elem_of_nil].
  - destruct (cur_on_First (bt_Iter vs) Hs) as [_ Hon]; [congruence|].
    pose proof (First_items (bt_Iter vs)) as Hi'. rewrite Hi in Hi'.
    destruct (c_First (bt_Iter vs)) as [ok c]. cbn [fst snd] in *.
    pose proof (cur_on_lookup _ _ Hon) as Hit. rewrite Hi' in Hit. injection Hit as <-.
    rewrite (for_Next_on (purge_body v) _ c 0) by (done || rewrite Hi', Len_items, El; simpl; lia).
    rewrite Hi'. cbn [drop]. rewrite drop_0.
    destruct (for_list (purge_body v) l (x, [], 0%nat)) as [[item' del'] n'] eqn:Ef.
    intros Heq. injection Heq as -> ->.
    destruct (purge_for_spec v l x [] 0 item' D n Hsorted Ef) as (D' & HD' & -> & HD & Hthin).
    cbn [app] in HD'. subst D'.
    split_and!; [done|done|]. intros ->. destruct (Hthin ltac:(lia) eq_refl) as [H1 H2].
    intros i j [->|Hin]%elem_of_cons [->|Hj]%elem_of_cons Hk Hvi Hvj; [done| | |by apply H2].
    + by destruct (H1 j Hj Hvj).
    + by destruct (H1 i Hin Hvi).
Qed.

Lemma purge_loop_unfold fuel v vs :
  purge_loop (S fuel) v vs =
  let '(D, n) := purge_round v vs in
  if (n =? 0)%nat then Some vs else purge_loop fuel v (foldl bt_Delete vs D).
Proof.
  cbn [purge_loop]. unfold purge_round. destruct (c_Next _) as [ok c].
  by destruct (for_Next _ (purge_body v) c _) as [[? ?] ?].
Qed.

(** Deleting outdated items does not change what is visible from [v] on. *)
Lemma snap_delete_outdated l D v w k :
  sorted_items l -> (forall e, e ∈ D -> outdated l v e) -> v <= w ->
  snap (sl_deletes byKeys l D) w k = snap l w k.
Proof.
  intros Hs HD Hw. destruct (sl_deletes_spec byKeys l D Hs) as [Hs' _].
  pose proof (sl_deletes_subset byKeys l D Hs ltac:(intros e He; by apply HD)) as Hel.
  destruct (snap l w k) as [m|] eqn:E.
  - apply snap_Some in E as (Hm & Hk & Hv & Hmax); [|done].
    apply snap_Some; [done|]. split_and!; try done.
    + apply Hel. split; [done|]. intros HmD. destruct (HD m HmD) as (_ & i & Hi & Hki & Hvi).
      specialize (Hmax i Hi ltac:(congruence) ltac:(lia)). lia.
    + intros j Hj. apply Hel in Hj as [Hj _]. by apply Hmax.
  - apply snap_None. intros i Hi. apply Hel in Hi as [Hi _]. by apply (proj1 (snap_None l w k) E).
Qed.

Lemma sl_delete_length_le x l : (length (sl_delete byKeys x l) <= length l)%nat.
Proof. induction l as [|y l IH]; simpl; [lia|]. repeat case_match; simpl; lia. Qed.

Lemma sl_deletes_length_le l D : (length (sl_deletes byKeys l D) <= length l)%nat.
Proof.
  revert l. induction D as [|e D IH]; intros l; simpl; [lia|].
  etransitivity; [apply IH|]. apply sl_delete_length_le.
Qed.

(** The loop ends, and its result shows what the original showed from [v] on. *)
Lemma purge_loop_spec fuel v vs :
  (length (items vs) < fuel)%nat ->
  exists vs', purge_loop fuel v vs = Some vs' /\
    (forall i, i ∈ items vs' -> i ∈ items vs) /\ thinned (items vs') v /\
    forall w k, v <= w -> snap (items vs') w k = snap (items vs) w k.
Proof.
  revert vs. induction fuel as [|fuel IH]; intros vs Hf; [lia|].
  rewrite purge_loop_unfold. destruct (purge_round v vs) as [D n] eqn:E.
  apply purge_round_spec in E as (-> & HD & Hthin).
  destruct D as [|e D]; simpl.
  { exists vs. split_and!; auto. }
  pose proof (items_sorted vs) as Hs.
  destruct (IH (foldl bt_Delete vs (e :: D))) as (vs' & Hl & Hin & Ht & Hsn).
  { rewrite items_deletes. unfold sl_deletes. simpl.
    pose proof (sl_deletes_length_le (sl_delete byKeys e (items vs)) D).
    destruct (HD e ltac:(set_solver)) as [He _].
    pose proof (sl_delete_length byKeys e (items vs) Hs He). unfold sl_deletes in *. lia. }
  exists vs'. split_and!; [done| |done|].
  - intros i Hi. apply Hin in Hi. rewrite items_deletes in Hi.
    by apply (sl_deletes_spec byKeys (items vs) (e :: D) Hs) in Hi as [? _].
  - intros w k Hw. rewrite Hsn by done. rewrite items_deletes.
    by apply (snap_delete_outdated (items vs) (e :: D) v).
Qed.

(** C14: [executePurge] terminates; every key reads the same at every version
    from the purge version on (the oldest registered transaction's, or the
    store's own version), no other field of the store changes, and no key is
    left with two items up to that version. *)
Theorem executePurge_correct d :
  exists d', executePurge d = Some d' /\
    ds_version d' = ds_version d /\ closed d' = closed d /\ inFlightTxn d' = inFlightTxn d /\
    thinned (items (values d')) (purge_version d) /\
    forall w k, purge_version d <= w -> view d' w k = view d w k.
Proof.
  unfold executePurge.
  destruct (purge_loop_spec (S (bt_Len (values d))) (purge_version d) (values d))
    as (vs' & -> & _ & Ht & Hsn); [rewrite Len_items; lia|].
  eexists; split; [done|]. split_and!; try done.
  intros w k Hw. unfold view. simpl. by rewrite Hsn.
Qed.

(** ** Transactions in flight *)

Lemma expired_for now l acc n :
  for_list (expired_body now) l (acc, n) =
  (acc ++ filter (fun x => expiresAt x < now) l, (n + length (filter (fun x => (expiresAt x < now)%Z) l))%nat).
Proof.
  revert acc n. induction l as [|x l IH]; intros acc n; simpl; [by rewrite app_nil_r, Nat.add_0_r|].
  rewrite filter_cons. destruct (Z.ltb_spec (expiresAt x) now).
  - rewrite IH, decide_True by done. simpl. rewrite <- (assoc_L (++)). f_equal. lia.
  - rewrite IH, decide_False by lia. done.
Qed.

Lemma clear_loop_unfold fuel now d :
  clear_loop (S fuel) now d =
  let E := filter (fun x => expiresAt x < now) (items (inFlightTxn d)) in
  if (length E =? 0)%nat then Some d
  else clear_loop fuel now (set_inFlightTxn (foldl bt_Delete (inFlightTxn d) E) d).
Proof.
  cbn [clear_loop]. rewrite (for_Next_Iter (expired_body now)) by (rewrite Len_items; lia).
  by rewrite expired_for.
Qed.

Lemma deletes_expired now l :
  StronglySorted (fun a b => byDSVersion a b = true) l ->
  sl_deletes byDSVersion l (filter (fun x => expiresAt x < now) l) = filter (fun x => now <= expiresAt x) l.
Proof.
  intros Hs. apply (sorted_ext byDSVersion).
  - by apply (sl_deletes_spec byDSVersion).
  - clear -Hs. induction Hs as [|x l Hl IH HF]; [constructor|]. rewrite filter_cons.
    case_decide; [|done]. constructor; [done|]. apply Forall_forall. intros y Hy.
    apply list_elem_of_filter in Hy as [_ Hy]. by eapply Forall_forall in HF.
  - intros x. rewrite (sl_deletes_subset byDSVersion l _ Hs)
      by (intros e He; apply list_elem_of_filter in He; tauto).
    rewrite !list_elem_of_filter. split.
    + intros [Hx Hn]. split; [|done]. destruct (Z.le_gt_cases now (expiresAt x)); [done|].
      destruct Hn. split; [lia|done].
    + intros [? Hx]. split; [done|]. intros [? _]. lia.
Qed.

Lemma expired_none now (l : list dsTxn) :
  filter (fun x => expiresAt x < now) (filter (fun x => now <= expiresAt x) l) = [].
Proof.
  induction l as [|x l IH]; [done|]. rewrite filter_cons. case_decide; [|done].
  rewrite filter_cons, decide_False by lia. done.
Qed.

(** [clearOldInFlightTxn] terminates within the model's bound and removes
    from the transactions in flight exactly those that expired before [now];
    it changes nothing else. *)
Theorem clearOldInFlightTxn_correct now d :
  let d' := clearOldInFlightTxn now d in
  items (inFlightTxn d') = filter (fun x => now <= expiresAt x) (items (inFlightTxn d)) /\
  ds_version d' = ds_version d /\ values d' = values d /\ closed d' = closed d /\
  (bt_Height (inFlightTxn d) <> 0%nat ->
    clear_loop (S (S (bt_Len (inFlightTxn d)))) now d = Some d').
Proof.
  intros d'. destruct (clearOldInFlightTxn_same now d) as (? & ? & ? & _).
  assert (forall fuel, exists d1, clear_loop (S (S fuel)) now d = Some d1 /\
    items (inFlightTxn d1) = filter (fun x => now <= expiresAt x) (items (inFlightTxn d))) as Hloop.
  { intros fuel. rewrite clear_loop_unfold. cbv zeta.
    destruct (Nat.eqb_spec (length (filter (fun x => expiresAt x < now) (items (inFlightTxn d)))) 0) as [E|E].
    - exists d. split; [done|]. rewrite <- (deletes_expired now) by apply items_sorted.
      apply nil_length_inv in E. by rewrite E.
    - rewrite clear_loop_unfold. cbv zeta. simpl.
      rewrite items_deletes, deletes_expired by apply items_sorted.
      rewrite expired_none.
      eexists; split; [done|]. simpl. by rewrite items_deletes, deletes_expired by apply items_sorted. }
  destruct (Hloop (bt_Len (inFlightTxn d))) as (d1 & Hd1 & Hit).
  unfold d', clearOldInFlightTxn in *. destruct (Nat.eqb_spec (bt_Height (inFlightTxn d)) 0) as [E|E].
  - split_and!; try done. apply Height_items in E. by rewrite E.
  - rewrite Hd1. simpl. split_and!; try done; by rewrite Hd1 in *.
Qed.

(** ** Which transactions are in flight *)

(** Transactions in flight began at existing versions. *)
Definition inflight_ok (d : Datastore) : Prop :=
  forall x, x ∈ items (inFlightTxn d) -> d_dsVersion x <= ds_version d.

Lemma items_inflight_set d x y :
  y ∈ items (inFlightTxn (set_inFlightTxn (bt_Set (inFlightTxn d) x) d)) ->
  y = x \/ y ∈ items (inFlightTxn d).
Proof.
  simpl. rewrite items_Set, (elem_of_sl_insert byDSVersion) by apply items_sorted. tauto.
Qed.

Lemma clear_loop_inflight fuel now d d' x :
  clear_loop fuel now d = Some d' -> x ∈ items (inFlightTxn d') -> x ∈ items (inFlightTxn d).
Proof.
  revert d. induction fuel as [|fuel IH]; intros d; cbn [clear_loop]; [done|].
  destruct (for_Next _ (expired_body now) _ ([], 0%nat)) as [del total]. destruct (total =? 0)%nat.
  - by intros [= ->].
  - intros H Hx. specialize (IH _ H Hx). simpl in IH. rewrite items_deletes in IH.
    by apply (sl_deletes_spec byDSVersion _ del (items_sorted _)) in IH as [? _].
Qed.

Lemma txn_Discard_inflight now d t x :
  x ∈ items (inFlightTxn (txn_Discard now d t).1) -> x ∈ items (inFlightTxn d).
Proof.
  unfold txn_Discard. destruct (discarded t); [done|]. cbn [fst].
  unfold clearInFlightTxn, clearOldInFlightTxn.
  set (d1 := set_inFlightTxn _ d). intros Hx. enough (x ∈ items (inFlightTxn d1)) as H.
  { simpl in H. rewrite items_Delete, (elem_of_sl_delete byDSVersion) in H by apply items_sorted. tauto. }
  revert Hx. destruct (bt_Height _ =? 0)%nat; [done|].
  destruct (clear_loop _ now d1) as [d'|] eqn:E; [|done]. by apply (clear_loop_inflight _ _ _ _ _ E).
Qed.

Lemma commit_inflight d t : inFlightTxn (commit d t).2 = inFlightTxn d.
Proof. unfold commit. by destruct (checkForConflicts d t). Qed.

Lemma txn_Commit_inflight now d t x :
  x ∈ items (inFlightTxn (txn_Commit now d t).1.2) -> x ∈ items (inFlightTxn d).
Proof.
  unfold txn_Commit. destruct (closed d); [done|]. destruct (discarded t); [done|].
  pose proof (commit_inflight d t) as Hc.
  destruct (if negb (readOnly t) then commit d t else (None, d)) as [err d'] eqn:E.
  assert (inFlightTxn d' = inFlightTxn d) as <-.
  { destruct (negb (readOnly t)); [by rewrite E in Hc|by injection E as _ <-]. }
  pose proof (fun x => txn_Discard_inflight now d' t x) as Hd.
  destruct (txn_Discard now d' t) as [d'' t']. simpl in *. apply Hd.
Qed.

Lemma newTransaction_inflight now p ro d x :
  x ∈ items (inFlightTxn (newTransaction now p ro d).2) ->
  d_dsVersion x = ds_version d \/ x ∈ items (inFlightTxn d).
Proof. intros [->|?]%items_inflight_set; auto. Qed.

Lemma Set_inflight now now' p d k v :
  inflight_ok d -> ds_version d <= ds_version (Set_ now now' p d k v).2 ->
  inflight_ok (Set_ now now' p d k v).2.
Proof.
  intros Hok Hv x Hx. enough (d_dsVersion x = ds_version d \/ x ∈ items (inFlightTxn d)) as [?|H]
    by (lia || (specialize (Hok x H); lia)).
  revert Hx. clear Hv. unfold Set_. destruct (closed d); [by right|].
  destruct (blen k =? 0)%nat; [by right|].
  pose proof (newTransaction_inflight now p false d x) as Hn.
  destruct (newTransaction now p false d) as [t d1]. simpl in Hn.
  destruct (txn_Set d1 t k v) as [[e|] t'].
  - intros Hx%txn_Discard_inflight. auto.
  - pose proof (txn_Commit_inflight now' d1 t' x) as Hc.
    destruct (txn_Commit now' d1 t') as [[e d2] t2]. simpl in *. auto.
Qed.

Lemma Delete_inflight now now' p d k :
  inflight_ok d -> ds_version d <= ds_version (Delete now now' p d k).2 ->
  inflight_ok (Delete now now' p d k).2.
Proof.
  intros Hok Hv x Hx. enough (d_dsVersion x = ds_version d \/ x ∈ items (inFlightTxn d)) as [?|H]
    by (lia || (specialize (Hok x H); lia)).
  revert Hx. clear Hv. unfold Delete. destruct (closed d); [by right|].
  destruct (blen k =? 0)%nat; [by right|].
  pose proof (newTransaction_inflight now p false d x) as Hn.
  destruct (newTransaction now p false d) as [t d1]. simpl in Hn.
  destruct (txn_Delete d1 t k) as [e t'].
  pose proof (txn_Commit_inflight now' d1 t' x) as Hc.
  destruct (txn_Commit now' d1 t') as [[e' d2] t2]. simpl in *. auto.
Qed.

Lemma purge_version_le d : inflight_ok d -> purge_version d <= ds_version d.
Proof.
  intros Hok. unfold purge_version. rewrite Min_items.
  destruct (items (inFlightTxn d)) as [|x l] eqn:E; simpl; [unfold getVersion; lia|].
  apply Hok. rewrite E. by left.
Qed.

(** A purge changes no version and no read from its version on. *)
Lemma executePurge_spec d :
  ds_inv d -> exists d', executePurge d = Some d' /\ ds_inv d' /\ ds_version d' = ds_version d /\ closed d' = closed d /\
    closing d' = closing d /\ inFlightTxn d' = inFlightTxn d /\
    forall w k, purge_version d <= w -> snap (items (values d')) w k = snap (items (values d)) w k.
Proof.
  intros [Hok Hr]. unfold executePurge.
  destruct (purge_loop_spec (S (bt_Len (values d))) (purge_version d) (values d))
    as (vs' & -> & Hel & _ & Hsn); [rewrite Len_items; lia|]. eexists. split; [done|]. split_and!; try done.
  split; simpl; [|done]. apply Forall_forall. intros i Hi. apply Hel in Hi. by eapply Forall_forall in Hok.
Qed.

End purge.
