(* ===== verification/MemorySystem.v ===== *)
(** The memory store with its live transactions: the calls a program can make
    on them, and the purges, in any order, as steps of one system.  Store
    operations first look for a transaction in the context, as memory/memory.go
    does.  The system invariant holds after every sequence of calls, and a
    transaction's reads are isolated from the calls of all others, except that
    [DropAll] and some purges reach into it.

    Creating and moving an iterator changes neither the store nor a transaction
    (MemoryIter.v), so iterators are no calls here. *)
From stdpp Require Import gmap.
From S2P Require Import Prelude BTree Kv Memory MemoryView MemoryTxn MemoryPurge.
Import Memory.
From Stdlib Require Strings.String.
Import Strings.String.StringSyntax.

(** The dynamic type of the transaction of a context: a [*basicTxn], given by
    its address, or a transaction of another package. *)
Inductive dynTxn := DynBasicTxn (p : nat) | DynOther.

Definition as_basicTxn (x : dynTxn) : option nat :=
  match x with DynBasicTxn p => Some p | DynOther => None end.

Section system.
Context {BI : BTreeG dsItem} {BT : BTreeG dsTxn}.

(** The store, the transactions by address, and the next free address. *)
Record MemState := mk_MemState {
  m_ds : Datastore;
  m_txns : gmap nat basicTxn;
  m_next : nat }.

Definition set_ds (d : Datastore) (s : MemState) : MemState :=
  mk_MemState d (m_txns s) (m_next s).
Definition set_txn (p : nat) (t : basicTxn) (s : MemState) : MemState :=
  mk_MemState (m_ds s) (<[p := t]> (m_txns s)) (m_next s).
Definition bump (s : MemState) : MemState := mk_MemState (m_ds s) (m_txns s) (S (m_next s)).

Definition NewMemState : MemState := mk_MemState NewDatastore ∅ 0.

(** A call on the transaction at address [p]; a Go pointer never dangles, so
    the last case is not a behaviour of the program. *)
Definition on_txn {R} (p : nat) (f : Datastore -> basicTxn -> R * basicTxn) (r0 : R) (s : MemState)
    : R * MemState :=
  match m_txns s !! p with
  | Some t => let '(r, t') := f (m_ds s) t in (r, set_txn p t' s)
  | None => (r0, s)
  end.

Definition nilTxn : error := ErrOther "nil transaction".

Definition Txn_Get (p : nat) (k : slice) : MemState -> result slice * MemState :=
  on_txn p (fun d t => txn_Get d t k) (Err nilTxn).
Definition Txn_GetSize (p : nat) (k : slice) : MemState -> result nat * MemState :=
  on_txn p (fun d t => txn_GetSize d t k) (Err nilTxn).
Definition Txn_Has (p : nat) (k : slice) : MemState -> result bool * MemState :=
  on_txn p (fun d t => txn_Has d t k) (Err nilTxn).
Definition Txn_Set (p : nat) (k v : slice) : MemState -> option error * MemState :=
  on_txn p (fun d t => txn_Set d t k v) (Some nilTxn).
Definition Txn_Delete (p : nat) (k : slice) : MemState -> option error * MemState :=
  on_txn p (fun d t => txn_Delete d t k) (Some nilTxn).

Definition Txn_Commit (now : Z) (p : nat) (s : MemState) : option error * MemState :=
  match m_txns s !! p with
  | Some t => let '(e, d', t') := txn_Commit now (m_ds s) t in (e, set_txn p t' (set_ds d' s))
  | None => (Some nilTxn, s)
  end.

Definition Txn_Discard (now : Z) (p : nat) (s : MemState) : MemState :=
  match m_txns s !! p with
  | Some t => let '(d', t') := txn_Discard now (m_ds s) t in set_txn p t' (set_ds d' s)
  | None => s
  end.

(** [NewTxn] returns the address of the new transaction. *)
Definition NewTxn (now : Z) (ro : bool) (s : MemState) : nat * MemState :=
  let '(t, d') := newTransaction now (m_next s) ro (m_ds s) in
  (m_next s, bump (set_txn (m_next s) t (set_ds d' s))).

(** The operations of [*Datastore], with the context. *)
Definition Store_Get (ctx : Context_ dynTxn) (k : slice) (s : MemState) : result slice * MemState :=
  match TryGetCtxTxnG as_basicTxn ctx with
  | Some p => Txn_Get p k s
  | None => (Get (m_ds s) k, s)
  end.

Definition Store_Has (ctx : Context_ dynTxn) (k : slice) (s : MemState) : result bool * MemState :=
  match TryGetCtxTxnG as_basicTxn ctx with
  | Some p => Txn_Has p k s
  | None => (Has (m_ds s) k, s)
  end.

Definition Store_Set (now now' : Z) (ctx : Context_ dynTxn) (k v : slice) (s : MemState)
    : option error * MemState :=
  match TryGetCtxTxnG as_basicTxn ctx with
  | Some p => Txn_Set p k v s
  | None => let '(e, d') := Set_ now now' (m_next s) (m_ds s) k v in (e, bump (set_ds d' s))
  end.

Definition Store_Delete (now now' : Z) (ctx : Context_ dynTxn) (k : slice) (s : MemState)
    : option error * MemState :=
  match TryGetCtxTxnG as_basicTxn ctx with
  | Some p => Txn_Delete p k s
  | None => let '(e, d') := Delete now now' (m_next s) (m_ds s) k in (e, bump (set_ds d' s))
  end.

(** ** Calls and steps *)

Inductive call :=
| CallGet (ctx : Context_ dynTxn) (k : slice)
| CallHas (ctx : Context_ dynTxn) (k : slice)
| CallSet (ctx : Context_ dynTxn) (k v : slice)
| CallDelete (ctx : Context_ dynTxn) (k : slice)
| CallNewTxn (ro : bool)
| CallTxnGet (p : nat) (k : slice)
| CallTxnGetSize (p : nat) (k : slice)
| CallTxnHas (p : nat) (k : slice)
| CallTxnSet (p : nat) (k v : slice)
| CallTxnDelete (p : nat) (k : slice)
| CallTxnCommit (p : nat)
| CallTxnDiscard (p : nat)
| CallDropAll
| CallPurge
| CallClose.

(** The transaction a call acts on. *)
Definition actor (c : call) : option nat :=
  match c with
  | CallGet ctx _ | CallHas ctx _ | CallSet ctx _ _ | CallDelete ctx _ => TryGetCtxTxnG as_basicTxn ctx
  | CallTxnGet p _ | CallTxnGetSize p _ | CallTxnHas p _ | CallTxnSet p _ _
  | CallTxnDelete p _ | CallTxnCommit p | CallTxnDiscard p => Some p
  | CallNewTxn _ | CallDropAll | CallPurge | CallClose => None
  end.

Definition exec (now now' : Z) (c : call) (s : MemState) : MemState :=
  match c with
  | CallGet ctx k => (Store_Get ctx k s).2
  | CallHas ctx k => (Store_Has ctx k s).2
  | CallSet ctx k v => (Store_Set now now' ctx k v s).2
  | CallDelete ctx k => (Store_Delete now now' ctx k s).2
  | CallNewTxn ro => (NewTxn now ro s).2
  | CallTxnGet p k => (Txn_Get p k s).2
  | CallTxnGetSize p k => (Txn_GetSize p k s).2
  | CallTxnHas p k => (Txn_Has p k s).2
  | CallTxnSet p k v => (Txn_Set p k v s).2
  | CallTxnDelete p k => (Txn_Delete p k s).2
  | CallTxnCommit p => (Txn_Commit now p s).2
  | CallTxnDiscard p => Txn_Discard now p s
  | CallDropAll => set_ds (DropAll (m_ds s)) s
  | CallPurge => set_ds (default (m_ds s) (executePurge (m_ds s))) s
  | CallClose => set_ds (Close (m_ds s)) s
  end.

(** A step is a call, at some time, while the version counter has room. *)
Inductive step (c : call) (s s' : MemState) : Prop :=
| step_exec now now' :
    ds_version (m_ds s) + 1 < two64 -> s' = exec now now' c s -> step c s s'.

Definition any_step (s s' : MemState) : Prop := exists c, step c s s'.

(** A step by a call with a property that may depend on the state. *)
Definition step_if (Q : call -> MemState -> bool) (s s' : MemState) : Prop :=
  exists c, Q c s = true /\ step c s s'.

(** The calls that leave the snapshot of transaction [p] alone: [DropAll] does
    not, and neither does a purge of a version above it ([executePurge] purges
    below the oldest transaction that is registered in [inFlightTxn]). *)
Definition spares (p : nat) (c : call) (s : MemState) : bool :=
  match c with
  | CallDropAll => false
  | CallPurge => match m_txns s !! p with Some t => purge_version (m_ds s) <=? dsVersion t | None => true end
  | _ => true
  end.

(** Calls of others than the transaction [p]. *)
Definition by_other (p : nat) (c : call) : bool := bool_decide (actor c <> Some p).

Definition is_DropAll (c : call) : bool := match c with CallDropAll => true | _ => false end.

(** Steps of others that leave the snapshot of [p] alone. *)
Definition other_step (p : nat) : MemState -> MemState -> Prop := step_if (fun c s => by_other p c && spares p c s).

(** Steps of others, purges of any version among them, but no [DropAll]. *)
Definition keeping_step (p : nat) : MemState -> MemState -> Prop :=
  step_if (fun c _ => by_other p c && negb (is_DropAll c)).

(** A concrete run, all calls at time 0, and whether there is room for it. *)
Definition run (cs : list call) (s : MemState) : MemState := foldl (fun s c => exec 0 0 c s) s cs.

Fixpoint run_ok (Q : call -> MemState -> bool) (cs : list call) (s : MemState) : bool :=
  match cs with
  | [] => true
  | c :: cs' => (ds_version (m_ds s) + 1 <? two64) && Q c s && run_ok Q cs' (exec 0 0 c s)
  end.

Lemma run_steps Q cs s : run_ok Q cs s = true -> rtc (step_if Q) s (run cs s).
Proof.
  revert s. induction cs as [|c cs IH]; intros s H; simpl in *; [constructor|].
  apply andb_true_iff in H as [[H1%Z.ltb_lt HQ]%andb_true_iff H2].
  eapply rtc_l; [|by apply IH]. exists c. split; [done|]. by apply (step_exec _ _ _ 0 0).
Qed.

Lemma step_if_any Q s s' : step_if Q s s' -> any_step s s'.
Proof. intros (c & _ & Hc). by exists c. Qed.

Lemma run_any cs s : run_ok (fun _ _ => true) cs s = true -> rtc any_step s (run cs s).
Proof. intros H. eapply rtc_subrel; [|by apply run_steps]. by apply step_if_any. Qed.

Context {LI : BTreeGLaws dsItem dsItem_zero byKeys} {LT : BTreeGLaws dsTxn dsTxn_zero byDSVersion}.

Record sys_inv (s : MemState) : Prop := {
  sys_ds : ds_inv (m_ds s);
  sys_inflight : inflight_ok (m_ds s);
  sys_txns p t : m_txns s !! p = Some t -> discarded t = false -> txn_inv (m_ds s) t;
  sys_next p t : m_txns s !! p = Some t -> (p < m_next s)%nat }.

Lemma NewMemState_inv : sys_inv NewMemState.
Proof.
  split; simpl; [| |set_solver..].
  - split; simpl; [|done]. rewrite items_New. constructor.
  - intros x. simpl. rewrite items_New. set_solver.
Qed.

(** The store has moved on and at most transaction [p] has changed. *)
Lemma sys_inv_update s d' p t' :
  sys_inv s -> ds_inv d' -> ds_version (m_ds s) <= ds_version d' -> inflight_ok d' -> (p < m_next s)%nat ->
  (discarded t' = false -> txn_inv d' t') -> sys_inv (set_txn p t' (set_ds d' s)).
Proof.
  intros [Hd Hf Ht Hn] Hd' HV Hf' Hp Ht'. split; simpl; [done|done| |].
  - intros q t Hq Hdis. destruct (decide (p = q)) as [->|Hne].
    + rewrite lookup_insert_eq in Hq. injection Hq as <-. auto.
    + rewrite lookup_insert_ne in Hq by done. eapply txn_inv_later; eauto.
  - intros q t Hq. destruct (decide (p = q)) as [->|Hne]; [done|].
    rewrite lookup_insert_ne in Hq by done. eauto.
Qed.

Lemma sys_inv_ds s d' :
  sys_inv s -> ds_inv d' -> ds_version (m_ds s) <= ds_version d' -> inflight_ok d' -> sys_inv (set_ds d' s).
Proof.
  intros [Hd Hf Ht Hn] Hd' HV Hf'. split; simpl; [done..| |done].
  intros q t Hq Hdis. eapply txn_inv_later; eauto.
Qed.

Lemma sys_inv_bump s : sys_inv s -> sys_inv (bump s).
Proof. intros [? ? ? Hn]. split; simpl; [done..|]. intros q t Hq. specialize (Hn q t Hq). lia. Qed.

(** ** Every call keeps the invariant *)

(** An operation on one transaction keeps it usable or leaves it discarded, and
    its recorded reads true. *)
Definition keeps (d : Datastore) (t t' : basicTxn) : Prop :=
  (discarded t = false -> txn_inv d t) -> discarded t' = false ->
  discarded t = false /\ txn_inv d t' /\ dsVersion t' = dsVersion t /\ (faithful d t -> faithful d t').

Lemma keeps_refl d t : keeps d t t.
Proof. unfold keeps. auto. Qed.

Lemma txn_get_keeps d t k :
  ds_inv d -> bdata k <> [] -> discarded t = false -> keeps d t (txn_get d t k).2.
Proof.
  intros Hd Hk Ha H _. specialize (H Ha). pose proof (txn_get_inv d t k H Hk) as Hg.
  pose proof (fun Hf => txn_get_spec d t k Hd H Hf Hk) as Hf.
  destruct (txn_get d t k) as [r t']. destruct Hg as (Hi & (Hv & _) & _). split_and!; [done..|]. apply Hf.
Qed.

(** Walk through the guards of a transaction operation. *)
Ltac guards :=
  repeat match goal with
    | |- context [if closed ?d then _ else _] => destruct (closed d) eqn:?
    | |- context [if discarded ?t then _ else _] => destruct (discarded t) eqn:?
    | |- context [if readOnly ?t then _ else _] => destruct (readOnly t) eqn:?
    | |- context [if (blen ?k =? 0)%nat then _ else _] =>
        destruct (Nat.eqb_spec (blen k) 0) as [?|Hblen];
        [|rewrite blen_zero in Hblen]
    end; try apply keeps_refl.

Ltac read_keeps d t k Hd :=
  let H := fresh in
  pose proof (fun Hk => txn_get_keeps d t k Hd Hk) as H;
  destruct (txn_get d t k) as [r t']; destruct (_ || _); by apply H.

Lemma txn_Get_keeps d t k : ds_inv d -> keeps d t (txn_Get d t k).2.
Proof. intros Hd. unfold txn_Get. guards. read_keeps d t k Hd. Qed.

Lemma txn_GetSize_keeps d t k : ds_inv d -> keeps d t (txn_GetSize d t k).2.
Proof. intros Hd. unfold txn_GetSize. guards. read_keeps d t k Hd. Qed.

Lemma txn_Has_keeps d t k : ds_inv d -> keeps d t (txn_Has d t k).2.
Proof. intros Hd. unfold txn_Has. guards. read_keeps d t k Hd. Qed.

Lemma write_keeps d t x :
  discarded t = false -> isGet x = false -> kd x <> [] -> version x = getTxnVersion t ->
  keeps d t (set_ops (bt_Set (ops t) x) t).
Proof.
  intros Ha Hg Hk Hv H _. specialize (H Ha). rewrite (getTxnVersion_eq d) in Hv by done.
  split_and!; [done|by apply (txn_lookup_set d t _ [])|done|]. intros Hf. by apply faithful_write.
Qed.

Lemma txn_Set_keeps d t k v : ds_inv d -> keeps d t (txn_Set d t k v).2.
Proof. intros Hd. unfold txn_Set. guards. by apply write_keeps. Qed.

Lemma txn_Delete_keeps d t k : ds_inv d -> keeps d t (txn_Delete d t k).2.
Proof.
  intros Hd. unfold txn_Delete. guards.
  pose proof (txn_get_keeps d t k Hd Hblen Heqb0) as Hk.
  destruct (txn_get d t k) as [r t']. destruct (_ || _); [done|]. intros H Hdis. cbn [snd] in *.
  destruct (Hk H Hdis) as (Ha & Hi & Hv & Hf).
  destruct (write_keeps d t' (mk_dsItem k (getTxnVersion t') None true false) Hdis eq_refl Hblen eq_refl (fun _ => Hi) Hdis)
    as (_ & Hi' & Hv' & Hf').
  split_and!; [done|done|congruence|auto].
Qed.

Lemma on_txn_inv {R} p (f : Datastore -> basicTxn -> R * basicTxn) r0 s :
  (forall d t, ds_inv d -> keeps d t (f d t).2) -> sys_inv s -> sys_inv (on_txn p f r0 s).2.
Proof.
  intros Hf Hs. unfold on_txn. destruct (m_txns s !! p) as [t|] eqn:E; [|done].
  pose proof (Hf (m_ds s) t (sys_ds _ Hs)) as Hk.
  destruct (f (m_ds s) t) as [r t']. simpl.
  apply (sys_inv_update s (m_ds s) p t'); [done|apply Hs|done|apply Hs|by eapply sys_next|].
  intros Hd. apply Hk; [|done]. by apply (sys_txns _ Hs p).
Qed.

Lemma same_store_inflight d d' :
  same_store d d' -> (forall x, x ∈ items (inFlightTxn d') -> x ∈ items (inFlightTxn d)) -> inflight_ok d -> inflight_ok d'.
Proof. intros (E & _) Hx Hok x H. rewrite E. by apply Hok, Hx. Qed.

Lemma Txn_Discard_inv now p s : sys_inv s -> sys_inv (Txn_Discard now p s).
Proof.
  intros Hs. unfold Txn_Discard. destruct (m_txns s !! p) as [t|] eqn:E; [|done].
  pose proof (txn_Discard_same now (m_ds s) t) as Hsame.
  pose proof (txn_Discard_discarded now (m_ds s) t) as Hdis.
  pose proof (fun x => txn_Discard_inflight now (m_ds s) t x) as Hin.
  destruct (txn_Discard now (m_ds s) t) as [d' t']. cbn [fst snd] in *.
  pose proof (same_store_grows _ _ (sys_ds _ Hs) Hsame) as [Hd' HV _ _].
  apply sys_inv_update; [done..| |by eapply sys_next|congruence].
  apply (same_store_inflight (m_ds s)); [done..|apply Hs].
Qed.

Lemma commit_outcome_grows d t e d' : ds_inv d -> commit_outcome d t e d' -> grows d d'.
Proof. intros Hd [? _ ?|? ? _ _ _ ?|? _ _ ? _ _ _]; auto using same_store_grows. Qed.

Lemma Txn_Commit_inv now p s :
  ds_version (m_ds s) + 1 < two64 -> sys_inv s -> sys_inv (Txn_Commit now p s).2.
Proof.
  intros Hroom Hs. unfold Txn_Commit. destruct (m_txns s !! p) as [t|] eqn:E; [|done].
  pose proof (sys_next _ Hs _ _ E) as Hp. pose proof Hs as [Hd Hf Ht _].
  destruct (closed (m_ds s)) eqn:Hc; [|destruct (discarded t) eqn:Hdis].
  1, 2: unfold txn_Commit; rewrite Hc, ?Hdis; simpl; apply sys_inv_update; [done..|lia|done|done|by apply (Ht p)].
  pose proof (fun x => txn_Commit_inflight now (m_ds s) t x) as Hin.
  destruct (txn_Commit_outcome now (m_ds s) t) as (e & d' & t' & E' & Ht' & Ho); [done|by eapply Ht|done|done|].
  rewrite E' in *. cbn [fst snd] in *.
  pose proof (commit_outcome_grows _ _ _ _ Hd Ho) as [Hd' HV _ _].
  apply sys_inv_update; [done..| |done|congruence]. intros x Hx. specialize (Hf x (Hin x Hx)). lia.
Qed.

Lemma NewTxn_inv now ro s :
  ds_version (m_ds s) + 1 < two64 -> sys_inv s -> sys_inv (NewTxn now ro s).2.
Proof.
  intros Hroom Hs. unfold NewTxn.
  pose proof (newTransaction_spec now (m_next s) ro (m_ds s) (sys_ds _ Hs) Hroom) as H.
  pose proof (fun x => newTransaction_inflight now (m_next s) ro (m_ds s) x) as Hin.
  destruct (newTransaction now (m_next s) ro (m_ds s)) as [t d'].
  destruct H as (Hsame & Hi & _). cbn [fst snd] in *.
  pose proof (same_store_grows _ _ (sys_ds _ Hs) Hsame) as [Hd' HV _ _].
  assert (inflight_ok d') as Hf'.
  { intros x Hx. destruct Hsame as (Ev & _). destruct (Hin x Hx) as [?|Hx']; [lia|].
    pose proof (sys_inflight _ Hs x Hx'). lia. }
  assert (sys_inv (bump (set_ds d' s))) as Hb by (by apply sys_inv_bump, sys_inv_ds).
  apply (sys_inv_update (bump (set_ds d' s)) d' (m_next s) t Hb); simpl; [done|lia|done|lia|done].
Qed.

Lemma Set_grows now now' p d k v :
  ds_inv d -> ds_version d + 1 < two64 -> grows d (Set_ now now' p d k v).2.
Proof.
  intros Hd Hroom. destruct (closed d) eqn:Hc; [|destruct (Nat.eqb_spec (blen k) 0) as [Hb|Hb]].
  - unfold Set_. rewrite Hc. by apply grows_refl.
  - unfold Set_. rewrite Hc, Hb. by apply grows_refl.
  - rewrite blen_zero in Hb.
    by destruct (Set_view now now' p d k v Hd Hc Hb Hroom) as (d' & -> & ? & _).
Qed.

Lemma Delete_grows now now' p d k :
  ds_inv d -> ds_version d + 1 < two64 -> grows d (Delete now now' p d k).2.
Proof.
  intros Hd Hroom. destruct (closed d) eqn:Hc; [|destruct (Nat.eqb_spec (blen k) 0) as [Hb|Hb]].
  - unfold Delete. rewrite Hc. by apply grows_refl.
  - unfold Delete. rewrite Hc, Hb. by apply grows_refl.
  - rewrite blen_zero in Hb.
    by destruct (Delete_view now now' p d k Hd Hc Hb Hroom) as (d' & -> & ? & _).
Qed.

Lemma Close_inv s : sys_inv s -> sys_inv (set_ds (Close (m_ds s)) s).
Proof.
  intros Hs. pose proof Hs as [Hd Hf Ht Hn]. unfold Close. destruct (closed (m_ds s)); [by destruct s|].
  apply sys_inv_ds; [done|by destruct Hd|apply Z.le_refl|done].
Qed.

Lemma DropAll_inv s : sys_inv s -> sys_inv (set_ds (DropAll (m_ds s)) s).
Proof.
  intros Hs. pose proof Hs as [[_ Hr] Hf _ _]. apply sys_inv_ds; [done| |apply Z.le_refl|done].
  split; simpl; [rewrite items_Clear; constructor|done].
Qed.

Lemma Purge_inv s : sys_inv s -> sys_inv (set_ds (default (m_ds s) (executePurge (m_ds s))) s).
Proof.
  intros Hs. pose proof Hs as [Hd Hf _ _].
  destruct (executePurge_spec _ Hd) as (d' & -> & Hd' & HV & _ & _ & Hin & _). cbn [from_option id].
  apply sys_inv_ds; [done..|lia|]. intros x. rewrite Hin, HV. apply Hf.
Qed.

Lemma step_inv c s s' : step c s s' -> sys_inv s -> sys_inv s'.
Proof.
  intros [now now' Hroom ->] Hs.
  destruct c as [ctx k|ctx k|ctx k v|ctx k|ro|p k|p k|p k|p k v|p k|p|p| | |]; simpl.
  - unfold Store_Get. destruct (TryGetCtxTxnG _ ctx); [|done]. apply on_txn_inv; auto using txn_Get_keeps.
  - unfold Store_Has. destruct (TryGetCtxTxnG _ ctx); [|done]. apply on_txn_inv; auto using txn_Has_keeps.
  - unfold Store_Set. destruct (TryGetCtxTxnG _ ctx); [apply on_txn_inv; auto using txn_Set_keeps|].
    pose proof (Set_grows now now' (m_next s) (m_ds s) k v (sys_ds _ Hs) Hroom) as [Hd' HV _ _].
    pose proof (Set_inflight now now' (m_next s) (m_ds s) k v (sys_inflight _ Hs) HV).
    destruct (Set_ _ _ _ _ _ _) as [e d']. by apply sys_inv_bump, sys_inv_ds.
  - unfold Store_Delete. destruct (TryGetCtxTxnG _ ctx); [apply on_txn_inv; auto using txn_Delete_keeps|].
    pose proof (Delete_grows now now' (m_next s) (m_ds s) k (sys_ds _ Hs) Hroom) as [Hd' HV _ _].
    pose proof (Delete_inflight now now' (m_next s) (m_ds s) k (sys_inflight _ Hs) HV).
    destruct (Delete _ _ _ _ _) as [e d']. by apply sys_inv_bump, sys_inv_ds.
  - by apply NewTxn_inv.
  - apply on_txn_inv; auto using txn_Get_keeps.
  - apply on_txn_inv; auto using txn_GetSize_keeps.
  - apply on_txn_inv; auto using txn_Has_keeps.
  - apply on_txn_inv; auto using txn_Set_keeps.
  - apply on_txn_inv; auto using txn_Delete_keeps.
  - by apply Txn_Commit_inv.
  - by apply Txn_Discard_inv.
  - by apply DropAll_inv.
  - by apply Purge_inv.
  - by apply Close_inv.
Qed.

Lemma step_rtc_inv s s' : rtc any_step s s' -> sys_inv s -> sys_inv s'.
Proof. induction 1 as [|s1 s2 s3 [c Hc] _ IH]; eauto using step_inv. Qed.

(** ** What others leave alone *)

(** [s'] is a later state that still holds transaction [p] as it was, and
    everything [p] can see. *)
Definition undisturbed (p : nat) (s s' : MemState) : Prop :=
  m_txns s' !! p = m_txns s !! p /\
  ds_version (m_ds s) <= ds_version (m_ds s') /\
  forall t w k, m_txns s !! p = Some t -> dsVersion t <= w <= ds_version (m_ds s) ->
    snap (items (values (m_ds s'))) w k = snap (items (values (m_ds s))) w k.

Lemma undisturbed_refl p s : undisturbed p s s.
Proof. split_and!; [done|lia|done]. Qed.

Lemma undisturbed_trans p s1 s2 s3 :
  undisturbed p s1 s2 -> undisturbed p s2 s3 -> undisturbed p s1 s3.
Proof.
  intros (E1 & V1 & S1) (E2 & V2 & S2). split_and!; [congruence|lia|].
  intros t w k Ht Hw. rewrite (S2 t) by (congruence || lia). by apply (S1 t).
Qed.

Lemma undisturbed_grows p s d' q t' :
  q <> p -> grows (m_ds s) d' -> undisturbed p s (set_txn q t' (set_ds d' s)).
Proof.
  intros Hq [_ HV HS _]. split_and!; simpl; [|done|intros t w k _ Hw; apply HS; lia].
  by rewrite lookup_insert_ne.
Qed.

Lemma undisturbed_ds p s d' : grows (m_ds s) d' -> undisturbed p s (bump (set_ds d' s)).
Proof. intros [_ HV HS _]. split_and!; simpl; [done|done|intros t w k _ Hw; apply HS; lia]. Qed.

Lemma on_txn_undisturbed {R} p q (f : Datastore -> basicTxn -> R * basicTxn) r0 s :
  sys_inv s -> q <> p -> undisturbed p s (on_txn q f r0 s).2.
Proof.
  intros Hs Hq. unfold on_txn. destruct (m_txns s !! q) as [t|]; [|apply undisturbed_refl].
  destruct (f (m_ds s) t) as [r t']. simpl.
  apply (undisturbed_grows p s (m_ds s)); [done|apply grows_refl, Hs].
Qed.

Lemma Txn_Commit_undisturbed now p q s :
  ds_version (m_ds s) + 1 < two64 -> sys_inv s -> q <> p -> undisturbed p s (Txn_Commit now q s).2.
Proof.
  intros Hroom Hs Hq. unfold Txn_Commit.
  destruct (m_txns s !! q) as [t|] eqn:E; [|apply undisturbed_refl].
  destruct (closed (m_ds s)) eqn:Hc; [|destruct (discarded t) eqn:Hdis].
  1, 2: unfold txn_Commit; rewrite Hc, ?Hdis; simpl;
    apply undisturbed_grows; [done|apply grows_refl, Hs].
  destruct (txn_Commit_outcome now (m_ds s) t) as (e & d' & t' & -> & Ht' & Ho);
    [apply Hs|by eapply sys_txns|done|done|]. simpl.
  apply undisturbed_grows; [done|]. eapply commit_outcome_grows; [apply Hs|done].
Qed.

Lemma Txn_Discard_undisturbed now p q s :
  sys_inv s -> q <> p -> undisturbed p s (Txn_Discard now q s).
Proof.
  intros Hs Hq. unfold Txn_Discard.
  destruct (m_txns s !! q) as [t|] eqn:E; [|apply undisturbed_refl].
  pose proof (txn_Discard_same now (m_ds s) t) as Hsame.
  destruct (txn_Discard now (m_ds s) t) as [d' t']. simpl in *.
  apply undisturbed_grows; [done|]. apply same_store_grows; [apply Hs|done].
Qed.

Lemma NewTxn_undisturbed now ro p s :
  ds_version (m_ds s) + 1 < two64 -> sys_inv s -> is_Some (m_txns s !! p) ->
  undisturbed p s (NewTxn now ro s).2.
Proof.
  intros Hroom Hs [t Hp]. unfold NewTxn.
  pose proof (newTransaction_spec now (m_next s) ro (m_ds s) (sys_ds _ Hs) Hroom) as H.
  destruct (newTransaction now (m_next s) ro (m_ds s)) as [t0 d'].
  destruct H as (Hsame & _). pose proof (sys_next _ Hs _ _ Hp).
  apply (undisturbed_grows p s d' (m_next s) t0); [lia|].
  apply same_store_grows; [apply Hs|done].
Qed.

Lemma other_step_undisturbed p s s' :
  other_step p s s' -> sys_inv s -> is_Some (m_txns s !! p) -> undisturbed p s s'.
Proof.
  intros (c & [Ha%bool_decide_eq_true Hsp]%andb_true_iff & [now now' Hroom ->]) Hs Hp.
  destruct c as [ctx k|ctx k|ctx k v|ctx k|ro|q k|q k|q k|q k v|q k|q|q| | |]; simpl in *.
  - unfold Store_Get. destruct (TryGetCtxTxnG _ ctx); [|apply undisturbed_refl].
    apply on_txn_undisturbed; congruence.
  - unfold Store_Has. destruct (TryGetCtxTxnG _ ctx); [|apply undisturbed_refl].
    apply on_txn_undisturbed; congruence.
  - unfold Store_Set. destruct (TryGetCtxTxnG _ ctx); [apply on_txn_undisturbed; congruence|].
    pose proof (Set_grows now now' (m_next s) (m_ds s) k v (sys_ds _ Hs) Hroom).
    destruct (Set_ _ _ _ _ _ _) as [e d']. by apply undisturbed_ds.
  - unfold Store_Delete. destruct (TryGetCtxTxnG _ ctx); [apply on_txn_undisturbed; congruence|].
    pose proof (Delete_grows now now' (m_next s) (m_ds s) k (sys_ds _ Hs) Hroom).
    destruct (Delete _ _ _ _ _) as [e d']. by apply undisturbed_ds.
  - by eapply NewTxn_undisturbed.
  - apply on_txn_undisturbed; congruence.
  - apply on_txn_undisturbed; congruence.
  - apply on_txn_undisturbed; congruence.
  - apply on_txn_undisturbed; congruence.
  - apply on_txn_undisturbed; congruence.
  - apply Txn_Commit_undisturbed; congruence.
  - apply Txn_Discard_undisturbed; congruence.
  - done.
  - destruct (executePurge_spec _ (sys_ds _ Hs)) as (d' & -> & _ & HV & _ & _ & _ & Hsn). cbn [from_option id].
    split_and!; simpl; [done|lia|]. intros t w k Ht Hw. rewrite Ht in Hsp. apply Z.leb_le in Hsp. apply Hsn. lia.
  - unfold Close. destruct (closed (m_ds s)); (split_and!; simpl; [done|lia|done]).
Qed.

Lemma other_steps_undisturbed p s s' :
  rtc (other_step p) s s' -> sys_inv s -> is_Some (m_txns s !! p) -> sys_inv s' /\ undisturbed p s s'.
Proof.
  induction 1 as [s|s1 s2 s3 H12 _ IH]; intros Hs Hp; [by split; [|apply undisturbed_refl]|].
  pose proof (other_step_undisturbed p s1 s2 H12 Hs Hp) as Hu.
  assert (sys_inv s2) as Hs2 by (destruct H12 as (c & _ & Hc); by eapply step_inv).
  destruct (IH Hs2) as [Hs3 Hu']; [by destruct Hu as (-> & _)|]. eauto using undisturbed_trans.
Qed.

(** ** Recorded reads *)

(** Transaction [p] is finished, or its recorded reads are the items of its snapshot. *)
Definition reads_ok (p : nat) (s : MemState) : Prop :=
  forall t, m_txns s !! p = Some t -> discarded t = false -> faithful (m_ds s) t.

Lemma on_txn_reads_ok {R} p (f : Datastore -> basicTxn -> R * basicTxn) r0 s :
  (forall d t, ds_inv d -> keeps d t (f d t).2) -> sys_inv s -> reads_ok p s -> reads_ok p (on_txn p f r0 s).2.
Proof.
  intros Hf Hs Hr. unfold on_txn. destruct (m_txns s !! p) as [t|] eqn:E; [|by unfold reads_ok; simpl; rewrite E].
  pose proof (Hf (m_ds s) t (sys_ds _ Hs) (fun H => sys_txns _ Hs p t E H)) as Hk.
  destruct (f (m_ds s) t) as [r t']. intros t2. simpl. rewrite lookup_insert_eq. intros [= <-] Hd.
  destruct (Hk Hd) as (Ha & _ & _ & Hff). apply Hff. by apply Hr.
Qed.

Lemma finished_reads_ok p d t s : discarded t = true -> reads_ok p (set_txn p t (set_ds d s)).
Proof. intros Hd t2. simpl. rewrite lookup_insert_eq. congruence. Qed.

(** A call on [p] itself. *)
Lemma own_step_reads_ok p c now now' s :
  actor c = Some p -> sys_inv s -> ds_version (m_ds s) + 1 < two64 -> reads_ok p s -> reads_ok p (exec now now' c s).
Proof.
  intros Ha Hs Hroom Hr.
  destruct c as [ctx k|ctx k|ctx k v|ctx k|ro|q k|q k|q k|q k v|q k|q|q| | |]; simpl in *;
    unfold Store_Get, Store_Has, Store_Set, Store_Delete; try discriminate; rewrite ?Ha; try (injection Ha as ->).
  all: try (apply on_txn_reads_ok; auto using txn_Get_keeps, txn_Has_keeps, txn_GetSize_keeps, txn_Set_keeps, txn_Delete_keeps).
  - unfold Txn_Commit. destruct (m_txns s !! p) as [t|] eqn:E; [|done].
    destruct (closed (m_ds s)) eqn:Hc; [|destruct (discarded t) eqn:Hdis].
    + unfold txn_Commit. rewrite Hc. intros t2. simpl. rewrite lookup_insert_eq. intros [= <-]. by apply Hr.
    + unfold txn_Commit. rewrite Hc, Hdis. by apply finished_reads_ok.
    + destruct (txn_Commit_outcome now (m_ds s) t) as (e & d' & t' & -> & Ht' & _);
        [apply Hs|by eapply sys_txns|done|done|]. by apply finished_reads_ok.
  - unfold Txn_Discard. destruct (m_txns s !! p) as [t|] eqn:E; [|done].
    pose proof (txn_Discard_discarded now (m_ds s) t) as Hd. destruct (txn_Discard now (m_ds s) t) as [d' t'].
    by apply finished_reads_ok.
Qed.

Lemma step_reads_ok p s s' :
  step_if (spares p) s s' -> sys_inv s -> is_Some (m_txns s !! p) -> reads_ok p s ->
  is_Some (m_txns s' !! p) /\ reads_ok p s'.
Proof.
  intros (c & Hsp & Hst) Hs Hp Hr. destruct (decide (actor c = Some p)) as [Ha|Ha].
  - destruct Hst as [now now' Hroom ->]. split; [|by apply own_step_reads_ok].
    clear Hsp Hr. destruct Hp as [t Hp].
    assert (forall R (f : Datastore -> basicTxn -> R * basicTxn) r0, is_Some (m_txns (on_txn p f r0 s).2 !! p)) as Hon.
    { intros R f r0. unfold on_txn. rewrite Hp. destruct (f (m_ds s) t). simpl. by rewrite lookup_insert_eq. }
    destruct c; simpl in *; unfold Store_Get, Store_Has, Store_Set, Store_Delete; try discriminate; rewrite ?Ha;
      try (injection Ha as ->); try apply Hon.
    + unfold Txn_Commit. rewrite Hp. destruct (txn_Commit now (m_ds s) t) as [[e d'] t']. simpl. by rewrite lookup_insert_eq.
    + unfold Txn_Discard. rewrite Hp. destruct (txn_Discard now (m_ds s) t) as [d' t']. simpl. by rewrite lookup_insert_eq.
  - assert (other_step p s s') as Ho.
    { exists c. split; [|done]. apply andb_true_iff. split; [by apply bool_decide_eq_true|done]. }
    destruct (other_step_undisturbed p s s' Ho Hs Hp) as (E & _ & HS). rewrite E. split; [done|].
    intros t. rewrite E. intros Ht Hd. pose proof (sys_txns _ Hs p t Ht Hd) as [? _ _].
    apply (faithful_snap (m_ds s)); [|by apply Hr]. intros k. apply (HS t); [done|lia].
Qed.

(** C6: The system invariant holds after any sequence of calls on a new store:
    reads, writes, new transactions, calls on transactions directly or through
    the context, commits, discards, [DropAll], purges and closing, in any order
    and at any times.  Stored items have non-empty keys and versions between 1
    and the store's version; the registered transactions began at existing
    versions; every transaction that is not discarded began at an existing
    version, holds its writes at the version after it, and its recorded reads at
    versions up to it.  Moreover, as long as there is no [DropAll] and no purge
    of a version above its snapshot, a transaction's recorded reads are still
    the items of its snapshot. *)
Theorem reachable_sys_inv s :
  rtc any_step NewMemState s ->
  sys_inv s /\
  forall now ro s', ds_version (m_ds s) + 1 < two64 ->
    rtc (step_if (spares (m_next s))) (NewTxn now ro s).2 s' -> sys_inv s' /\ reads_ok (m_next s) s'.
Proof.
  intros Hreach. pose proof (step_rtc_inv _ _ Hreach NewMemState_inv) as Hs. split; [done|].
  intros now ro s' Hroom Hsteps. pose proof (NewTxn_inv now ro s Hroom Hs) as H1.
  assert (is_Some (m_txns (NewTxn now ro s).2 !! m_next s) /\ reads_ok (m_next s) (NewTxn now ro s).2) as [Hp Hr].
  { unfold NewTxn. pose proof (newTransaction_spec now (m_next s) ro (m_ds s) (sys_ds _ Hs) Hroom) as H.
    destruct (newTransaction now (m_next s) ro (m_ds s)) as [t d']. destruct H as (_ & _ & Hf & _).
    unfold reads_ok. simpl. rewrite lookup_insert_eq. split; [done|]. by intros ? [= <-]. }
  revert H1 Hp Hr. induction Hsteps as [x|x y z Hxy _ IH]; [done|]. intros H1 Hp Hr.
  destruct (step_reads_ok _ _ _ Hxy H1 Hp Hr) as [Hp' Hr']. apply IH; [|done..].
  destruct Hxy as (c & _ & Hc). by eapply step_inv.
Qed.

(** ** Isolation *)

(** Transaction [p] exists and is neither committed nor discarded. *)
Definition in_use (s : MemState) (p : nat) : bool :=
  match m_txns s !! p with Some t => negb (discarded t) | None => false end.

Lemma in_use_true s p : in_use s p = true -> exists t, m_txns s !! p = Some t /\ discarded t = false.
Proof.
  unfold in_use. destruct (m_txns s !! p) as [t|]; [|done]. intros H%negb_true_iff. eauto.
Qed.

(** What a read of the transaction at address [p] returns. *)
Definition reads (p : nat) (k : slice) (s : MemState) : result slice := (Txn_Get p k s).1.

(** The key is among the operations a transaction recorded: it wrote the key, or
    read it and found an item. *)
Definition records (t : basicTxn) (k : bytes) : bool :=
  existsb (fun i => bool_decide (kd i = k)) (items (ops t)).

Lemma records_true t k : records t k = true <-> exists i, i ∈ items (ops t) /\ kd i = k.
Proof.
  unfold records. rewrite existsb_exists. split; intros (i & Hi & Hk); exists i.
  - by rewrite list_elem_of_In, <- (bool_decide_eq_true (kd i = k)).
  - by rewrite <- list_elem_of_In, bool_decide_eq_true.
Qed.

Definition recorded (p : nat) (k : slice) (s : MemState) : bool :=
  match m_txns s !! p with Some t => records t (bdata k) | None => false end.

(** A read looks at the operations, then at the snapshot. *)
Lemma txn_Get_snap d t k :
  closed d = false -> discarded t = false -> bdata k <> [] -> txn_inv d t ->
  (txn_Get d t k).1 =
    match snap (items (ops t)) (dsVersion t + 1) (bdata k) with
    | Some i => if isDeleted i then Err ErrNotFound else Ok (val i)
    | None =>
        match snap (items (values d)) (dsVersion t) (bdata k) with
        | Some i => if isDeleted i then Err ErrNotFound else Ok (val i)
        | None => Err ErrNotFound
        end
    end.
Proof.
  intros Hc Hd Hk Hi. unfold txn_Get, txn_get. rewrite Hc, Hd, blen_nonzero by done.
  rewrite get_snap, (getTxnVersion_eq d t Hi).
  assert (forall l v i, snap l v (bdata k) = Some i -> is_nil (key i) = false) as Hn.
  { intros l v i (_ & H & _)%snap_Some_1. unfold kd in H. destruct (key i); [done|simpl in H; congruence]. }
  destruct (snap (items (ops t)) (dsVersion t + 1) (bdata k)) as [i|] eqn:E; cbn [from_option id].
  - rewrite (Hn _ _ _ E). cbn [orb]. rewrite (Hn _ _ _ E). by destruct (isDeleted i).
  - cbn [is_nil key dsItem_zero]. rewrite get_snap. change (getDSVersion t) with (dsVersion t).
    destruct (snap (items (values d)) (dsVersion t) (bdata k)) as [i|] eqn:E2; [|done]. cbn -[is_nil].
    rewrite (Hn _ _ _ E2). by destruct (isDeleted i).
Qed.

(** C2: Snapshot isolation.  Take a transaction that is in use in a reachable state
    of an open store.  Whatever other transactions, the store and the purges do
    from then on (set, delete, commit, discard, begin), every key reads inside
    the transaction as it did before, as long as the store is not closed, not
    dropped, and not purged of versions above the snapshot.  [DropAll] does
    reach into the transaction: the keys that it had recorded read as before,
    every other key is not found. *)
Theorem snapshot_isolation s0 p k :
  rtc any_step NewMemState s0 -> in_use s0 p = true -> closed (m_ds s0) = false ->
  (forall s, rtc (other_step p) s0 s -> closed (m_ds s) = false -> reads p k s = reads p k s0) /\
  (bdata k <> [] ->
    reads p k (set_ds (DropAll (m_ds s0)) s0) = if recorded p k s0 then reads p k s0 else Err ErrNotFound).
Proof.
  intros Hreach [t [Hp Hdis]]%in_use_true Hc0. pose proof (step_rtc_inv _ _ Hreach NewMemState_inv) as Hs0.
  pose proof (sys_txns _ Hs0 p t Hp Hdis) as Hi0. split.
  - intros s Hsteps Hc. destruct (other_steps_undisturbed p s0 s Hsteps Hs0 ltac:(eauto)) as [Hs (Ep & HV & HS)].
    unfold reads, Txn_Get, on_txn. rewrite Ep, Hp.
    destruct (Nat.eqb_spec (blen k) 0) as [Hb|Hb].
    { unfold txn_Get. by rewrite Hc, Hc0, Hdis, Hb. }
    rewrite blen_zero in Hb. pose proof (txn_inv_later _ (m_ds s) _ HV Hi0) as Hi.
    pose proof (txn_Get_snap (m_ds s0) t k Hc0 Hdis Hb Hi0) as E0. pose proof (txn_Get_snap (m_ds s) t k Hc Hdis Hb Hi) as E.
    rewrite (HS t) in E by (done || destruct Hi0; lia). rewrite <- E0 in E.
    destruct (txn_Get (m_ds s0) t k), (txn_Get (m_ds s) t k). exact E.
  - intros Hb. unfold reads, recorded, Txn_Get, on_txn. simpl. rewrite Hp.
    pose proof (txn_Get_snap (m_ds s0) t k Hc0 Hdis Hb Hi0) as E0.
    pose proof (txn_Get_snap (DropAll (m_ds s0)) t k Hc0 Hdis Hb (txn_inv_later (m_ds s0) (DropAll (m_ds s0)) t (Z.le_refl _) Hi0)) as E.
    destruct (txn_Get (m_ds s0) t k) as [r0 t0], (txn_Get (DropAll (m_ds s0)) t k) as [r t']. cbn [fst] in *. subst r r0.
    simpl. rewrite items_Clear. destruct (snap (items (ops t)) (dsVersion t + 1) (bdata k)) as [i|] eqn:E.
    + assert (records t (bdata k) = true) as ->; [|done]. apply records_true. apply snap_Some_1 in E as (? & ? & _). eauto.
    + assert (records t (bdata k) = false) as ->; [|done]. apply not_true_iff_false. rewrite records_true.
      intros (i & Hin & Hk). pose proof (proj1 (snap_None _ _ _) E i Hin Hk).
      destruct (txn_ops _ _ Hi0 i Hin) as [(_ & _ & ?)|[_ [?|?]]]; [lia|congruence|lia].
Qed.

End system.

(** ** Concrete runs *)

(** The trees of concrete runs. *)
Module Sample.
#[export] Instance items_tree : BTreeG dsItem := ListBTree.btreeG dsItem_zero byKeys.
#[export] Instance txns_tree : BTreeG dsTxn := ListBTree.btreeG dsTxn_zero byDSVersion.
#[export] Instance items_laws : BTreeGLaws dsItem dsItem_zero byKeys := ListBTree.laws dsItem_zero byKeys.
#[export] Instance txns_laws : BTreeGLaws dsTxn dsTxn_zero byDSVersion :=
  ListBTree.laws dsTxn_zero byDSVersion.

Definition k1 : slice := Some (bs "k1").
Definition k2 : slice := Some (bs "k2").
Definition v1 : slice := Some (bs "v1").
Definition v2 : slice := Some (bs "v2").

(** Two transactions, 1 and 2, begun on a store that holds [k1]. *)
Definition two_txns : list call :=
  [CallSet Background k1 v1; CallNewTxn false; CallTxnGet 1 k1; CallNewTxn false; CallTxnSet 2 k1 v2].
Definition s0 : MemState := run two_txns NewMemState.

(** Then the store is purged, 2 commits, and the store writes again. *)
Definition others : list call := [CallPurge; CallTxnCommit 2; CallSet Background k2 v2].
Definition s1 : MemState := run others s0.

Lemma s0_reachable : rtc any_step NewMemState s0.
Proof. apply run_any. vm_compute. reflexivity. Defined.

Lemma others_steps : rtc (other_step 1) s0 s1.
Proof. apply run_steps. vm_compute. reflexivity. Defined.

Lemma s1_reachable : rtc any_step NewMemState s1.
Proof.
  transitivity s0; [apply s0_reachable|]. apply run_any. vm_compute. reflexivity.
Defined.

(** A new transaction reads [k1]; the store is purged and written to. *)
Definition guarded_calls : list call := [CallTxnGet 3 k1; CallPurge; CallSet Background k1 v2; CallDelete Background k2].

Lemma reachable_sys_inv_witness : reads_ok 3 (run guarded_calls (NewTxn 0 false s0).2).
Proof.
  apply (reachable_sys_inv s0 s0_reachable) with (now := 0) (ro := false); [vm_compute; reflexivity|].
  apply run_steps. vm_compute. reflexivity.
Defined.

Lemma snapshot_isolation_witness :
  reads 1 k1 s1 = Ok v1 /\ Get (m_ds s1) k1 = Ok v2 /\
  reads 1 k1 (set_ds (DropAll (m_ds s0)) s0) = Ok v1 /\ reads 2 k2 (set_ds (DropAll (m_ds s0)) s0) = Err ErrNotFound.
Proof.
  destruct (snapshot_isolation s0 1 k1 s0_reachable) as [H1 H2]; [vm_compute; reflexivity..|].
  split_and!; [|vm_compute; reflexivity| |vm_compute; reflexivity].
  - rewrite (H1 s1 others_steps); vm_compute; reflexivity.
  - rewrite H2; [vm_compute; reflexivity|done].
Defined.

(** Transactions of one version share one registration in [inFlightTxn]: when
    one of them finishes, a purge takes the items the other one reads
    (memory/memory.go, [purgeOldVersions]).  This is why [spares] is needed. *)
Theorem purge_disturbs_sibling :
  let s := run [CallSet Background k1 v1; CallNewTxn false; CallNewTxn false; CallTxnSet 2 k1 v2; CallTxnCommit 2] NewMemState in
  reads 1 k1 s = Ok v1 /\ reads 1 k1 (run [CallPurge] s) = Err ErrNotFound.
Proof. vm_compute. auto. Qed.
End Sample.
