(* ===== verification/MemoryIter.v ===== *)
(** The iterators of the memory store: [iterator] of memory/iter.go over one
    tree, [txnIterator] of memory/txn.go over the operations of a transaction
    and its store, and the [Iterator] methods that create them.

    Iterators keep a pointer [d] to their store to see whether it is closed:
    that store is an argument here.  The loops of the code that move a cursor
    get as fuel one more than the number of items of the tree; [noFuel] is the
    result when a loop does not end within it, which MemoryIterSpec.v shows not
    to happen for the iterators it covers. *)
From S2P Require Import Prelude BTree Kv Memory.
Import Memory.
From Stdlib Require Strings.String.
Import Strings.String.StringSyntax.

Module MemoryIter.

Definition noFuel : error := ErrOther "no fuel".

Section iter.
Context {BI : BTreeG dsItem} {BT : BTreeG dsTxn}.

Record iterator := mk_iterator {
  i_version : Z;
  i_values : btree dsItem;
  i_it : iterG dsItem;
  i_start : slice;
  i_end : slice;
  i_reverse : bool;
  i_reset : bool;
  i_lastItem : dsItem;
  i_firstItem : dsItem }.

Definition set_it (c : iterG dsItem) (iter : iterator) : iterator :=
  mk_iterator (i_version iter) (i_values iter) c (i_start iter) (i_end iter) (i_reverse iter)
    (i_reset iter) (i_lastItem iter) (i_firstItem iter).
Definition set_reset (b : bool) (iter : iterator) : iterator :=
  mk_iterator (i_version iter) (i_values iter) (i_it iter) (i_start iter) (i_end iter)
    (i_reverse iter) b (i_lastItem iter) (i_firstItem iter).

Definition cur (iter : iterator) : dsItem := c_Item (i_it iter).

(** ** Creation *)

Definition newPrefixIter (values : btree dsItem) (prefix : slice) (reverse : bool) (version : Z)
    : iterator :=
  let it := bt_Iter values in
  let '(lastItem, firstItem, it) :=
    if reverse then
      let '(hasItems, it1) := c_Last it in
      let '(lastItem, firstItem) :=
        if hasItems then (c_Item it1, c_Item (c_First it1).2) else (dsItem_zero, dsItem_zero) in
      (lastItem, firstItem, bt_Iter values)
    else (dsItem_zero, dsItem_zero, it) in
  mk_iterator version values it prefix (bytesPrefixEnd prefix) reverse true lastItem firstItem.

Definition newRangeIter (values : btree dsItem) (start end_ : slice) (reverse : bool) (version : Z)
    : iterator :=
  mk_iterator version values (bt_Iter values) start end_ reverse true dsItem_zero dsItem_zero.

Definition Reset (iter : iterator) : iterator := set_reset true iter.

(** ** Movement *)

Definition valid (iter : iterator) : bool :=
  if (blen (key (cur iter)) =? 0)%nat then false
  else if i_version iter <? version (cur iter) then false
  else if isDeleted (cur iter) then false
  else if negb (blen (i_end iter) =? 0)%nat && negb (lt (key (cur iter)) (i_end iter)) then false
  else gte (key (cur iter)) (i_start iter).

Definition moveNext (iter : iterator) : bool * iterator :=
  if i_reverse iter then
    if negb (blen (key (i_firstItem iter)) =? 0)%nat &&
       (version (i_firstItem iter) =? version (cur iter)) &&
       bytes_Equal (key (i_firstItem iter)) (key (cur iter))
    then (false, iter)
    else let '(ok, c) := c_Prev (i_it iter) in (ok, set_it c iter)
  else let '(ok, c) := c_Next (i_it iter) in (ok, set_it c iter).

Fixpoint load_loop (fuel : nat) (ver : Z) (previousItem : dsItem) (c : iterG dsItem) : iterG dsItem :=
  match fuel with
  | O => c
  | S fuel' =>
      let '(ok, c') := c_Next c in
      if ok then
        if negb (bytes_Equal (key previousItem) (key (c_Item c'))) then (c_Prev c').2
        else if ver <? version (c_Item c') then (c_Prev c').2
        else load_loop fuel' ver previousItem c'
      else c'
  end.

Definition loadLatestItem (iter : iterator) : iterator :=
  let previousItem := cur iter in
  if i_reverse iter && negb (blen (key (i_lastItem iter)) =? 0)%nat &&
     (version (i_lastItem iter) =? version previousItem) &&
     bytes_Equal (key (i_lastItem iter)) (key previousItem)
  then iter
  else set_it (load_loop (S (bt_Len (i_values iter))) (i_version iter) previousItem (i_it iter)) iter.

(** The loop of [next]: to the next key that has an item of this version or older. *)
Fixpoint skip_loop (fuel : nat) (previousItem : dsItem) (iter : iterator) : bool * iterator :=
  match fuel with
  | O => (false, iter)
  | S fuel' =>
      let '(ok, iter') := moveNext iter in
      if ok then
        if negb (bytes_Equal (key previousItem) (key (cur iter'))) &&
           (version (cur iter') <=? i_version iter')
        then (true, iter')
        else skip_loop fuel' previousItem iter'
      else (false, iter')
  end.

(** [next] when [reset] is not set; its call of [Next] for a deleted item looks
    at [closed] again. *)
Fixpoint next_loop (fuel : nat) (d : Datastore) (iter : iterator) : result bool * iterator :=
  match fuel with
  | O => (Err noFuel, iter)
  | S fuel' =>
      let '(hasItem, iter1) := skip_loop (S (bt_Len (i_values iter))) (cur iter) iter in
      if negb hasItem then (Ok false, iter1)
      else
        let iter2 := loadLatestItem iter1 in
        if isDeleted (cur iter2) then
          if closed d then (Err ErrDBClosed, iter2) else next_loop fuel' d iter2
        else (Ok (valid iter2), iter2)
  end.

Definition next_from (d : Datastore) (iter : iterator) : result bool * iterator :=
  next_loop (S (bt_Len (i_values iter))) d iter.

(** The cursor part of a reversed [seek]. *)
Definition seek_reverse (iter : iterator) (k : slice) (ver : Z) : bool * iterG dsItem :=
  let target := if negb (is_nil (i_end iter)) && lt (i_end iter) k then i_end iter else k in
  let '(hasItem, c) := c_Seek (i_it iter) (mk_dsItem target ver None false false) in
  let '(hasItem, c) :=
    if hasItem then
      if negb (bytes_Equal target (key (c_Item c))) then c_Prev c else (hasItem, c)
    else (hasItem, c) in
  if negb hasItem then c_Last c else (hasItem, c).

Definition seek_forward (iter : iterator) (k : slice) (ver : Z) : bool * iterG dsItem :=
  let target := if negb (is_nil (i_start iter)) && lt k (i_start iter) then i_start iter else k in
  c_Seek (i_it iter) (mk_dsItem target ver None false false).

Definition seek (d : Datastore) (iter : iterator) (k : slice) : result bool * iterator :=
  let iter := set_reset false iter in
  let r := get (i_values iter) k (i_version iter) in
  let ver := if negb (is_nil (key r)) && negb (isDeleted r) then version r else i_version iter in
  let '(hasItem, c) := if i_reverse iter then seek_reverse iter k ver else seek_forward iter k ver in
  let iter := set_it c iter in
  if negb hasItem then (Ok false, iter)
  else
    let iter := loadLatestItem iter in
    if negb (valid iter) then next_from d iter else (Ok true, iter).

Definition restart (d : Datastore) (iter : iterator) : result bool * iterator :=
  let iter := set_reset false iter in
  if negb (blen (i_end iter) =? 0)%nat && i_reverse iter then seek d iter (i_end iter)
  else if negb (blen (i_start iter) =? 0)%nat && negb (i_reverse iter) then seek d iter (i_start iter)
  else
    let '(hasItem, iter) :=
      if i_reverse iter then let '(ok, c) := c_Last (i_it iter) in (ok, set_it c iter)
      else let '(ok, c) := c_First (i_it iter) in (ok, loadLatestItem (set_it c iter)) in
    if negb hasItem then (Ok false, iter)
    else if negb (valid iter) then next_from d iter
    else (Ok true, iter).

Definition next (d : Datastore) (iter : iterator) : result bool * iterator :=
  if i_reset iter then restart d iter else next_from d iter.

Definition Next (d : Datastore) (iter : iterator) : result bool * iterator :=
  if closed d then (Err ErrDBClosed, iter) else next d iter.

Definition Seek (d : Datastore) (iter : iterator) (k : slice) : result bool * iterator :=
  if closed d then (Err ErrDBClosed, iter) else seek d iter k.

Definition Key (iter : iterator) : slice := key (cur iter).
Definition Value (iter : iterator) : result slice := Ok (val (cur iter)).

Definition iter_Close (iter : iterator) : option error * iterator :=
  (None, set_it (c_Release (i_it iter)) iter).

(** ** The iterator of a transaction *)

(** [activeIter] points to one of the two iterators, or to none. *)
Inductive active_iter := NoIter | TxnIter | StoreIter.

Record txnIterator := mk_txnIterator {
  x_opts : IterOptions;
  txnIter : iterator;
  storeIter : iterator;
  pendingTxnKey : slice;
  pendingStoreKey : slice;
  activeIter : active_iter }.

Definition set_iters (t s : iterator) (x : txnIterator) : txnIterator :=
  mk_txnIterator (x_opts x) t s (pendingTxnKey x) (pendingStoreKey x) (activeIter x).
Definition set_pending (pt ps : slice) (a : active_iter) (x : txnIterator) : txnIterator :=
  mk_txnIterator (x_opts x) (txnIter x) (storeIter x) pt ps a.

Definition selectIterator (x : txnIterator) (hasPendingTxnKey hasPendingStoreKey : bool)
    : bool * txnIterator :=
  if negb hasPendingTxnKey && negb hasPendingStoreKey then (false, x)
  else if negb hasPendingTxnKey then (true, set_pending (pendingTxnKey x) None StoreIter x)
  else if negb hasPendingStoreKey then (true, set_pending None (pendingStoreKey x) TxnIter x)
  else
    let pt := Key (txnIter x) in
    let ps := Key (storeIter x) in
    if (Reverse (x_opts x) && gte pt ps) || (negb (Reverse (x_opts x)) && lt pt ps)
    then (true, set_pending None ps TxnIter x)
    else (true, set_pending pt None StoreIter x).

Definition txnIterator_Next (d : Datastore) (x : txnIterator) : result bool * txnIterator :=
  let '(rt, ti) :=
    if negb (blen (pendingTxnKey x) =? 0)%nat then (Ok true, txnIter x) else Next d (txnIter x) in
  match rt with
  | Err e => (Err e, set_iters ti (storeIter x) x)
  | Ok txnHasNext =>
      let '(rs, si) :=
        if negb (blen (pendingStoreKey x) =? 0)%nat then (Ok true, storeIter x)
        else Next d (storeIter x) in
      let x := set_iters ti si x in
      match rs with
      | Err e => (Err e, x)
      | Ok storeHasNext => let '(b, x') := selectIterator x txnHasNext storeHasNext in (Ok b, x')
      end
  end.

Definition txnIterator_Key (x : txnIterator) : slice :=
  match activeIter x with
  | NoIter => None
  | TxnIter => Key (txnIter x)
  | StoreIter => Key (storeIter x)
  end.

Definition txnIterator_Value (x : txnIterator) : result slice :=
  match activeIter x with
  | NoIter => Ok None
  | TxnIter => Value (txnIter x)
  | StoreIter => Value (storeIter x)
  end.

Definition txnIterator_Seek (d : Datastore) (x : txnIterator) (k : slice) : result bool * txnIterator :=
  let '(rt, ti) := Seek d (txnIter x) k in
  match rt with
  | Err e => (Err e, set_iters ti (storeIter x) x)
  | Ok txnSeekOk =>
      let '(rs, si) := Seek d (storeIter x) k in
      let x := set_iters ti si x in
      match rs with
      | Err e => (Err e, x)
      | Ok storeSeekOk => let '(b, x') := selectIterator x txnSeekOk storeSeekOk in (Ok b, x')
      end
  end.

Definition txnIterator_Reset (x : txnIterator) : txnIterator :=
  mk_txnIterator (x_opts x) (Reset (txnIter x)) (Reset (storeIter x)) None None NoIter.

Definition txnIterator_Close (x : txnIterator) : option error * txnIterator :=
  let '(err, ti) := iter_Close (txnIter x) in
  match err with
  | Some e => (Some e, set_iters ti (storeIter x) x)
  | None => let '(err', si) := iter_Close (storeIter x) in (err', set_iters ti si x)
  end.

(** ** The [Iterator] methods *)

Definition Iterator (d : Datastore) (opts : IterOptions) : result iterator :=
  if closed d then Err ErrDBClosed
  else if negb (is_nil (Prefix opts)) then
    Ok (newPrefixIter (values d) (Prefix opts) (Reverse opts) (getVersion d))
  else Ok (newRangeIter (values d) (Start opts) (End_ opts) (Reverse opts) (getVersion d)).

Definition txn_Iterator (d : Datastore) (t : basicTxn) (opts : IterOptions) : result txnIterator :=
  if closed d then Err ErrDBClosed
  else if negb (is_nil (Prefix opts)) then
    Ok (mk_txnIterator opts
      (newPrefixIter (ops t) (Prefix opts) (Reverse opts) (getTxnVersion t))
      (newPrefixIter (values d) (Prefix opts) (Reverse opts) (getDSVersion t)) None None NoIter)
  else
    Ok (mk_txnIterator opts
      (newRangeIter (ops t) (Start opts) (End_ opts) (Reverse opts) (getTxnVersion t))
      (newRangeIter (values d) (Start opts) (End_ opts) (Reverse opts) (getDSVersion t)) None None NoIter).

End iter.
End MemoryIter.
