(* ===== verification/MemoryCommit.v ===== *)
(** What a commit of the memory store does to everyone: all writes of the
    transaction or none become visible, a transaction whose recorded keys were
    changed meanwhile does not commit, and which calls are refused with which
    error.  The last section has concrete runs, among them one that shows which
    read the conflict check does not validate. *)
From stdpp Require Import gmap.
From S2P Require Import Prelude BTree Kv Memory MemoryView MemoryTxn MemoryPurge MemorySystem MemoryIter.
Import Memory MemoryIter.

Section commit.
Context {BI : BTreeG dsItem} {BT : BTreeG dsTxn}
  {LI : BTreeGLaws dsItem dsItem_zero byKeys} {LT : BTreeGLaws dsTxn dsTxn_zero byDSVersion}.

(** The key's newest item is newer than the transaction's snapshot. *)
Definition overtaken (d : Datastore) (t : basicTxn) (k : bytes) : bool :=
  match snap (items (values d)) (ds_version d) k with
  | Some i => dsVersion t <? version i
  | None => false
  end.

Lemma changed_overtaken d t k :
  ds_inv d -> txn_inv d t -> changed d t k <-> overtaken d t k = true.
Proof.
  intros [Hok Hr] [Hv _ _]. unfold changed, overtaken. pose proof (items_sorted (values d)) as Hs.
  destruct (snap (items (values d)) (ds_version d) k) as [i|] eqn:E.
  - apply snap_Some in E as (Hi & Hk & Hvi & Hmax); [|done]. rewrite Z.ltb_lt. split.
    + intros Hne. destruct (Z.lt_ge_cases (dsVersion t) (version i)); [done|].
      destruct Hne. symmetry. apply snap_Some; [done|]. split_and!; try done.
      intros j Hj Hkj Hvj. apply Hmax; [done..|lia].
    + intros Hlt Heq. symmetry in Heq. apply snap_Some_1 in Heq as (_ & _ & ?). lia.
  - split; [|done]. intros Hne. destruct Hne. symmetry. apply snap_None. intros i Hi Hk.
    pose proof (proj1 (snap_None _ _ _) E i Hi Hk). lia.
Qed.

Lemma overtaken_current d t k : dsVersion t = ds_version d -> overtaken d t k = false.
Proof.
  intros Hv. unfold overtaken. destruct (snap _ _ k) as [i|] eqn:E; [|done].
  apply snap_Some_1 in E as (_ & _ & ?). apply Z.ltb_ge. lia.
Qed.

(** C3: Committing a usable writing transaction.  If a key it recorded has been
    overtaken by a later commit, the commit fails with [ErrTxnConflict] and no
    key of the store changes; otherwise it succeeds, takes one new version, and
    every key then reads as the transaction wrote it, or as before when the
    transaction did not write it.  Either way the transaction is discarded and
    older snapshots read as they did. *)
Theorem commit_correct now d t :
  ds_inv d -> txn_inv d t -> active d t -> readOnly t = false -> ds_version d + 1 < two64 ->
  let '(err, d', t') := txn_Commit now d t in
  discarded t' = true /\ ds_inv d' /\
  (forall v k, v <= ds_version d -> view d' v k = view d v k) /\
  ((exists k, records t k = true /\ overtaken d t k = true) ->
    err = Some ErrTxnConflict /\ forall k, Get d' k = Get d k) /\
  (~ (exists k, records t k = true /\ overtaken d t k = true) ->
    err = None /\ ds_version d' = ds_version d + 1 /\
    forall k, bdata k <> [] -> Get d' k =
      match pend t (bdata k) with
      | Some w => if isDeleted w then Err ErrNotFound else Ok (val w)
      | None => Get d k
      end).
Proof.
  intros Hd Hi Ha Hro Hroom. pose proof Ha as [Hc _].
  destruct (txn_Commit_outcome now d t Hd Hi Ha Hroom) as (err & d' & t' & -> & Hdis & Ho).
  assert (forall v k, grows d d' -> v <= ds_version d -> view d' v k = view d v k) as Hold.
  { intros v k [_ _ HS _] Hv. unfold view. by rewrite HS. }
  destruct Ho as [d' ? _|d' i _ Hin Hch Hsame|d' _ Hn Hg Hv Hview _]; [congruence| |].
  - pose proof (same_store_grows d d' Hd Hsame) as Hg.
    assert (exists k, records t k = true /\ overtaken d t k = true) as Hex.
    { exists (kd i). rewrite records_true, <- changed_overtaken by done. eauto. }
    split_and!; [done|apply Hg|auto| |done]. intros _. split; [done|].
    destruct Hsame as (E1 & E2 & E3 & _). intros k. unfold Get, getVersion. by rewrite E1, E2, E3.
  - assert (~ (exists k, records t k = true /\ overtaken d t k = true)) as Hnex.
    { intros (k & (i & Hin & <-)%records_true & Hch). rewrite <- changed_overtaken in Hch by done.
      by apply (Hn i). }
    split_and!; [done|apply Hg|auto|done|]. intros _. split_and!; [done..|].
    intros k Hk. rewrite !Get_view by (apply Hg || rewrite ?(grows_closed _ _ Hg); done).
    rewrite Hview. destruct (pend t (bdata k)) as [w|]; [|done]. simpl. by destruct (isDeleted w).
Qed.

(** ** Lost updates *)

(** Transaction [p] of the system can write, and has written (recorded) key [k]. *)
Definition writes_key (s : MemState) (p : nat) (k : bytes) : bool :=
  match m_txns s !! p with
  | Some t => negb (readOnly t) && bool_decide (is_Some (pend t k))
  | None => false
  end.
Definition records_key (s : MemState) (p : nat) (k : bytes) : bool :=
  match m_txns s !! p with
  | Some t => negb (readOnly t) && records t k
  | None => false
  end.

(** [d'] is a later store that reads, at the version of [d], as [d] does. *)
Definition retains (d d' : Datastore) : Prop :=
  ds_version d <= ds_version d' /\
  forall k, snap (items (values d')) (ds_version d) k = snap (items (values d)) (ds_version d) k.

(** A newer item stays in the way. *)
Lemma overtaken_retained d d' t k :
  retains d d' -> overtaken d t k = true -> overtaken d' t k = true.
Proof.
  intros [HV HS]. unfold overtaken.
  destruct (snap (items (values d)) (ds_version d) k) as [i|] eqn:E; [|done]. intros Hlt%Z.ltb_lt.
  rewrite <- HS in E. apply snap_Some_1 in E as (Hi & Hk & Hvi).
  pose proof (items_sorted (values d')) as Hs'.
  destruct (snap (items (values d')) (ds_version d') k) as [j|] eqn:E'.
  - apply snap_Some in E' as (_ & _ & _ & Hmax); [|done].
    specialize (Hmax i Hi Hk ltac:(lia)). apply Z.ltb_lt. lia.
  - pose proof (proj1 (snap_None _ _ _) E' i Hi Hk). lia.
Qed.

(** No purge removes what is read at the store's version. *)
Lemma purge_retains d :
  ds_inv d -> inflight_ok d -> exists d', executePurge d = Some d' /\ retains d d' /\
    ds_version d' = ds_version d /\ closed d' = closed d.
Proof.
  intros Hd Hf. destruct (executePurge_spec d Hd) as (d' & E & _ & HV & Hc & _ & _ & Hsn).
  exists d'. split_and!; [done| |done..]. split; [lia|]. intros k. by apply Hsn, purge_version_le.
Qed.

(** Nothing but [DropAll] takes a newer item away. *)
Lemma keeping_steps_overtaken p t k s s' :
  rtc (keeping_step p) s s' -> sys_inv s -> m_txns s !! p = Some t -> discarded t = false ->
  overtaken (m_ds s) t k = true -> sys_inv s' /\ m_txns s' !! p = Some t /\ overtaken (m_ds s') t k = true.
Proof.
  induction 1 as [|s1 s2 s3 H12 _ IH]; intros Hs Hp Hd Ho; [done|]. destruct H12 as (c & Hc & Hst).
  apply andb_true_iff in Hc as [Hother Hdrop]. pose proof (step_inv _ _ _ Hst Hs) as Hs2.
  assert (m_txns s2 !! p = Some t /\ retains (m_ds s1) (m_ds s2)) as [Hp2 Hr].
  { assert (c = CallPurge \/ spares p c s1 = true) as [->|Hsp] by (destruct c; auto).
    - destruct Hst as [now now' _ ->]. simpl.
      destruct (purge_retains _ (sys_ds _ Hs) (sys_inflight _ Hs)) as (d' & -> & Hr & _). done.
    - assert (other_step p s1 s2) as Hos.
      { exists c. split; [|done]. by rewrite Hother, Hsp. }
      destruct (other_step_undisturbed p s1 s2 Hos Hs ltac:(eauto)) as (E & HV & HS).
      split; [congruence|]. split; [done|]. intros k'. apply (HS t); [done|].
      destruct (sys_txns _ Hs p t Hp Hd). lia. }
  apply IH; try done. by eapply overtaken_retained.
Qed.

(** A successful commit overtakes the transactions that are still open. *)
Lemma Txn_Commit_overtakes now p q s t k s1 :
  sys_inv s -> ds_version (m_ds s) + 1 < two64 -> q <> p ->
  m_txns s !! p = Some t -> discarded t = false ->
  writes_key s q k = true -> Txn_Commit now q s = (None, s1) ->
  sys_inv s1 /\ m_txns s1 !! p = Some t /\ overtaken (m_ds s1) t k = true.
Proof.
  intros Hs Hroom Hq Hp Hdis Hw Hcom.
  pose proof (Txn_Commit_inv now q s Hroom Hs) as Hs1.
  pose proof (Txn_Commit_undisturbed now p q s Hroom Hs Hq) as (Ep & _ & _).
  rewrite Hcom in *. cbn [fst snd] in *. split; [done|]. split; [congruence|].
  unfold writes_key in Hw. unfold Txn_Commit in Hcom.
  destruct (m_txns s !! q) as [tq|] eqn:Eq; [|done].
  apply andb_true_iff in Hw as [Hro%negb_true_iff [w Hw]%bool_decide_eq_true].
  assert (active (m_ds s) tq) as Ha.
  { unfold txn_Commit in Hcom. destruct (closed (m_ds s)) eqn:?, (discarded tq) eqn:?; done. }
  destruct (txn_Commit_outcome now (m_ds s) tq) as (e & d' & t' & E & Ht' & Ho);
    [apply Hs|by eapply (sys_txns s Hs), Ha|done|done|].
  rewrite E in Hcom. injection Hcom as -> <-. simpl.
  inversion Ho as [? ? _| |? _ _ Hg Hv Hview Hsn]; subst; [congruence|].
  unfold overtaken. rewrite (Hsn k w Hw). apply Z.ltb_lt. simpl.
  destruct (sys_txns s Hs p t Hp Hdis) as [? _ _]. lia.
Qed.


(** ** Finished transactions and closed stores *)

Lemma on_txn_txns {R} p q (f : Datastore -> basicTxn -> R * basicTxn) r0 s t :
  m_txns s !! p = Some t -> (q = p -> (f (m_ds s) t).2 = t) ->
  m_txns (on_txn q f r0 s).2 !! p = Some t.
Proof.
  intros Hp Hf. unfold on_txn. destruct (m_txns s !! q) as [tq|] eqn:E; [|done].
  destruct (f (m_ds s) tq) as [r t'] eqn:Ef. simpl. destruct (decide (q = p)) as [->|Hne].
  - rewrite lookup_insert_eq. rewrite Hp in E. injection E as ->. rewrite Ef in Hf. simpl in Hf.
    by rewrite Hf.
  - by rewrite lookup_insert_ne.
Qed.

(** Every operation refuses a discarded transaction and leaves it as it is. *)
Lemma discarded_ops d t k v now :
  discarded t = true ->
  (txn_Get d t k).2 = t /\ (txn_GetSize d t k).2 = t /\ (txn_Has d t k).2 = t /\
  (txn_Set d t k v).2 = t /\ (txn_Delete d t k).2 = t /\
  (txn_Commit now d t).2 = t /\ (txn_Commit now d t).1.2 = d /\ txn_Discard now d t = (d, t).
Proof.
  intros H. unfold txn_Get, txn_GetSize, txn_Has, txn_Set, txn_Delete, txn_Commit, txn_Discard.
  rewrite H. by destruct (closed d).
Qed.

Lemma set_txn_lookup s p q t' t :
  m_txns s !! p = Some t -> (q = p -> t' = t) -> <[q := t']> (m_txns s) !! p = Some t.
Proof.
  intros Hp Hq. destruct (decide (q = p)) as [->|Hne].
  - rewrite lookup_insert_eq. f_equal. auto.
  - by rewrite lookup_insert_ne.
Qed.

Lemma discarded_step s s' p t :
  any_step s s' -> sys_inv s -> m_txns s !! p = Some t -> discarded t = true ->
  m_txns s' !! p = Some t.
Proof.
  intros [c [now now' Hroom ->]] Hs Hp Hd.
  assert (forall q, q = p -> m_txns s !! q = Some t) as Hq by (by intros ? ->).
  destruct c as [ctx k|ctx k|ctx k v|ctx k|ro|q k|q k|q k|q k v|q k|q|q| | |]; simpl;
    unfold Store_Get, Store_Has, Store_Set, Store_Delete;
    try (destruct (TryGetCtxTxnG as_basicTxn ctx) as [q|]).
  all: try (apply on_txn_txns; [done|]; intros _; by apply (discarded_ops (m_ds s) t k None now)).
  all: try (apply on_txn_txns; [done|]; intros _; by apply (discarded_ops (m_ds s) t k v now)).
  all: try done.
  - by destruct (Set_ _ _ _ _ _ _).
  - by destruct (Delete _ _ _ _ _).
  - simpl. apply set_txn_lookup; [done|]. intros <-. pose proof (sys_next _ Hs _ _ Hp). lia.
  - unfold Txn_Commit. destruct (m_txns s !! q) as [tq|] eqn:E; [|done].
    destruct (txn_Commit now (m_ds s) tq) as [[e d'] t'] eqn:Ec. simpl.
    apply set_txn_lookup; [done|]. intros Heq. rewrite (Hq _ Heq) in E. injection E as <-.
    destruct (discarded_ops (m_ds s) t None None now Hd) as (_ & _ & _ & _ & _ & H & _).
    by rewrite Ec in H.
  - unfold Txn_Discard. destruct (m_txns s !! q) as [tq|] eqn:E; [|done].
    destruct (txn_Discard now (m_ds s) tq) as [d' t'] eqn:Ec. simpl.
    apply set_txn_lookup; [done|]. intros Heq. rewrite (Hq _ Heq) in E. injection E as <-.
    destruct (discarded_ops (m_ds s) t None None now Hd) as (_ & _ & _ & _ & _ & _ & _ & H).
    rewrite Ec in H. by injection H.
Qed.

(** Transaction [p] was committed or discarded. *)
Definition finished (s : MemState) (p : nat) : bool :=
  match m_txns s !! p with Some t => discarded t | None => false end.

(** C39: A committed or discarded transaction stays finished: after any further
    calls, [DropAll] and purges included, as long as the store is open, its
    reads, writes and commits are refused with [ErrDiscardedTxn], and neither
    those calls nor a second commit or discard changes the store or the
    transaction.  [Iterator] alone does not look at the flag and is not
    refused. *)
Theorem finished_is_final s s' p k v opts now :
  rtc any_step NewMemState s -> finished s p = true -> rtc any_step s s' ->
  closed (m_ds s') = false ->
  finished s' p = true /\
  (Txn_Get p k s').1 = Err ErrDiscardedTxn /\ (Txn_GetSize p k s').1 = Err ErrDiscardedTxn /\
  (Txn_Has p k s').1 = Err ErrDiscardedTxn /\ (Txn_Set p k v s').1 = Some ErrDiscardedTxn /\
  (Txn_Delete p k s').1 = Some ErrDiscardedTxn /\ (Txn_Commit now p s').1 = Some ErrDiscardedTxn /\
  (forall s2, s2 ∈ [(Txn_Get p k s').2; (Txn_GetSize p k s').2; (Txn_Has p k s').2; (Txn_Set p k v s').2;
      (Txn_Delete p k s').2; (Txn_Commit now p s').2; Txn_Discard now p s'] ->
    m_ds s2 = m_ds s' /\ m_txns s2 !! p = m_txns s' !! p) /\
  exists t it, m_txns s' !! p = Some t /\ txn_Iterator (m_ds s') t opts = Ok it.
Proof.
  intros Hreach Hf Hsteps Hc. unfold finished in Hf.
  destruct (m_txns s !! p) as [t|] eqn:Hp; [|done].
  assert (m_txns s' !! p = Some t) as Hp'.
  { pose proof (step_rtc_inv _ _ Hreach NewMemState_inv) as Hs. clear Hreach Hc.
    induction Hsteps as [|s1 s2 s3 H12 _ IH]; [done|]. apply IH.
    - by eapply discarded_step.
    - destruct H12 as [c Hcc]. by eapply step_inv. }
  unfold finished, Txn_Get, Txn_GetSize, Txn_Has, Txn_Set, Txn_Delete, Txn_Commit, Txn_Discard, on_txn.
  rewrite !Hp'. unfold txn_Get, txn_GetSize, txn_Has, txn_Set, txn_Delete, txn_Commit, txn_Discard.
  rewrite Hc, Hf. split_and!; [done..| |].
  - intros s2 Hs2. repeat (apply elem_of_cons in Hs2 as [->|Hs2]; [simpl; by rewrite lookup_insert_eq|]).
    by apply elem_of_nil in Hs2.
  - exists t. unfold txn_Iterator. rewrite Hc. destruct (negb _); eauto.
Qed.

(** The store is closed, at the version of [d]. *)
Definition sealed (d d' : Datastore) : Prop := closed d' = true /\ ds_version d' = ds_version d.

Lemma on_txn_ds {R} q (f : Datastore -> basicTxn -> R * basicTxn) r0 s :
  m_ds (on_txn q f r0 s).2 = m_ds s.
Proof. unfold on_txn. destruct (m_txns s !! q) as [t|]; [|done]. by destruct (f _ t). Qed.

(** What a call does to a closed store. *)
Lemma sealed_step c s s' :
  step c s s' -> sys_inv s -> closed (m_ds s) = true ->
  sealed (m_ds s) (m_ds s') /\ (is_DropAll c = false -> retains (m_ds s) (m_ds s')).
Proof.
  intros [now now' Hroom ->] Hs Hc.
  assert (forall d, sealed (m_ds s) d -> values d = values (m_ds s) ->
    sealed (m_ds s) d /\ (is_DropAll c = false -> retains (m_ds s) d)) as Hsame.
  { intros d Hd E. split; [done|]. intros _. destruct Hd as [_ Hv]. split; [lia|]. by rewrite E. }
  destruct c as [ctx k|ctx k|ctx k v|ctx k|ro|q k|q k|q k|q k v|q k|q|q| | |]; simpl;
    unfold Store_Get, Store_Has, Store_Set, Store_Delete, Txn_Get, Txn_GetSize, Txn_Has, Txn_Set,
      Txn_Delete;
    try (destruct (TryGetCtxTxnG as_basicTxn ctx) as [q|]); rewrite ?on_txn_ds; try by apply Hsame.
  - unfold Set_. rewrite Hc. by apply Hsame.
  - unfold Delete. rewrite Hc. by apply Hsame.
  - unfold Txn_Commit. destruct (m_txns s !! q) as [t|]; [|by apply Hsame]. unfold txn_Commit. rewrite Hc. by apply Hsame.
  - unfold Txn_Discard. destruct (m_txns s !! q) as [t|]; [|by apply Hsame].
    pose proof (txn_Discard_same now (m_ds s) t) as (E1 & E2 & E3 & _).
    destruct (txn_Discard now (m_ds s) t) as [d' t']. simpl in *. apply Hsame; [|done]. split; congruence.
  - done.
  - destruct (purge_retains _ (sys_ds _ Hs) (sys_inflight _ Hs)) as (d' & -> & Hr & Hv & Hc'). simpl.
    split; [|done]. split; [congruence|done].
  - unfold Close. rewrite Hc. by apply Hsame.
Qed.

Lemma retains_trans d1 d2 d3 :
  ds_version d2 = ds_version d1 -> retains d1 d2 -> retains d2 d3 -> retains d1 d3.
Proof. intros Hv [_ H1] [H3 H2]. split; [lia|]. intros k. rewrite <- H1, <- Hv. apply H2. Qed.

Lemma sealed_steps Q s s' :
  rtc (step_if Q) s s' -> sys_inv s -> closed (m_ds s) = true ->
  sealed (m_ds s) (m_ds s') /\ ((forall c x, Q c x = true -> is_DropAll c = false) -> retains (m_ds s) (m_ds s')).
Proof.
  induction 1 as [x|x y z (c & HQ & Hst) _ IH]; intros Hs Hc; [by split; [|intros _; split; [lia|]]|].
  destruct (sealed_step c x y Hst Hs Hc) as [[Hc' Hv] Hr]. destruct (IH (step_inv _ _ _ Hst Hs) Hc') as [[Hc2 Hv2] Hr2].
  split; [split; [done|congruence]|]. intros Hdrop. eapply retains_trans; eauto.
Qed.

(** C40: A closed store stays closed: after any further calls, directly or
    through a transaction, [DropAll] and purges included, its version is what it
    was when it was closed, and reads, writes, commits and iterators are refused
    with [ErrDBClosed] and change nothing.  Without a [DropAll] every key has the
    item it had.  Two calls are not refused: [NewTxn] still hands out a
    transaction, whose operations are then refused, and [DropAll] empties the
    closed store. *)
Theorem closed_is_final s s' p k v opts now now' ro :
  rtc any_step NewMemState s -> rtc any_step (set_ds (Close (m_ds s)) s) s' -> is_Some (m_txns s' !! p) ->
  (closed (m_ds s') = true /\ ds_version (m_ds s') = ds_version (m_ds s)) /\
  (Get (m_ds s') k = Err ErrDBClosed /\ Has (m_ds s') k = Err ErrDBClosed /\
   Set_ now now' p (m_ds s') k v = (Some ErrDBClosed, m_ds s') /\
   Delete now now' p (m_ds s') k = (Some ErrDBClosed, m_ds s') /\
   Iterator (m_ds s') opts = Err ErrDBClosed) /\
  ((Txn_Get p k s').1 = Err ErrDBClosed /\ (Txn_GetSize p k s').1 = Err ErrDBClosed /\
   (Txn_Has p k s').1 = Err ErrDBClosed /\ (Txn_Set p k v s').1 = Some ErrDBClosed /\
   (Txn_Delete p k s').1 = Some ErrDBClosed /\ (Txn_Commit now p s').1 = Some ErrDBClosed /\
   forall t, m_txns s' !! p = Some t -> txn_Iterator (m_ds s') t opts = Err ErrDBClosed) /\
  (rtc (step_if (fun c _ => negb (is_DropAll c))) (set_ds (Close (m_ds s)) s) s' ->
   forall key, snap (items (values (m_ds s'))) (ds_version (m_ds s)) key =
     snap (items (values (m_ds s))) (ds_version (m_ds s)) key) /\
  in_use (NewTxn now ro s').2 (NewTxn now ro s').1 = true /\
  items (values (m_ds (exec now now' CallDropAll s'))) = [].
Proof.
  intros Hreach Hsteps [t Hp]. pose proof (step_rtc_inv _ _ Hreach NewMemState_inv) as Hs.
  pose proof (Close_inv s Hs) as Hs0. set (s0 := set_ds (Close (m_ds s)) s) in *.
  assert (closed (m_ds s0) = true /\ ds_version (m_ds s0) = ds_version (m_ds s) /\ values (m_ds s0) = values (m_ds s)) as (Hc0 & Hv0 & E0).
  { unfold s0, Close. simpl. by destruct (closed (m_ds s)) eqn:E. }
  assert (rtc (step_if (fun _ _ => true)) s0 s') as Hsteps' by (eapply rtc_subrel; [|done]; intros x y [c Hc]; by exists c).
  destruct (sealed_steps _ _ _ Hsteps' Hs0 Hc0) as [[Hc Hv] _].
  unfold Txn_Get, Txn_GetSize, Txn_Has, Txn_Set, Txn_Delete, Txn_Commit, on_txn. rewrite !Hp.
  unfold Get, Has, Set_, Delete, txn_Get, txn_GetSize, txn_Has, txn_Set, txn_Delete, txn_Commit, Iterator, txn_Iterator.
  rewrite Hc. split_and!; try done; [congruence| | |].
  - intros Hno key. destruct (sealed_steps _ _ _ Hno Hs0 Hc0) as [_ Hr].
    destruct Hr as [_ Hr]; [by intros c _ Hn%negb_true_iff|]. by rewrite <- Hv0, <- E0, Hr.
  - unfold in_use, NewTxn, newTransaction. simpl. by rewrite lookup_insert_eq.
  - simpl. by rewrite items_Clear.
Qed.

End commit.

(** ** Concrete runs *)

Module CommitSample.
Import Sample.

Definition txn_at (p : nat) (s : MemState) : basicTxn :=
  default (mk_basicTxn bt_New 0 false true) (m_txns s !! p).

Lemma s0_inv : sys_inv s0.
Proof. eapply step_rtc_inv; [apply s0_reachable|apply NewMemState_inv]. Qed.

Lemma s0_txn2 : m_txns s0 !! 2%nat = Some (txn_at 2 s0).
Proof. vm_compute. reflexivity. Qed.

Lemma s0_txn2_version : dsVersion (txn_at 2 s0) = ds_version (m_ds s0).
Proof. vm_compute. reflexivity. Qed.

Lemma s0_txn2_usable :
  active (m_ds s0) (txn_at 2 s0) /\ readOnly (txn_at 2 s0) = false /\ ds_version (m_ds s0) + 1 < two64.
Proof. vm_compute. auto. Qed.

Lemma s0_txn2_inv : txn_inv (m_ds s0) (txn_at 2 s0).
Proof. apply (sys_txns _ s0_inv 2 _ s0_txn2), s0_txn2_usable. Qed.

Lemma s0_txn2_pend : pend (txn_at 2 s0) (bdata k1) = Some (mk_dsItem k1 2 v2 false false).
Proof. vm_compute. reflexivity. Qed.

Lemma commit_correct_witness :
  let '(err, d', _) := txn_Commit 0 (m_ds s0) (txn_at 2 s0) in err = None /\ Get d' k1 = Ok v2.
Proof.
  destruct s0_txn2_usable as (Ha & Hr & Hroom).
  pose proof (commit_correct 0 (m_ds s0) (txn_at 2 s0) (sys_ds _ s0_inv) s0_txn2_inv Ha Hr Hroom) as H.
  revert H. generalize (txn_Commit 0 (m_ds s0) (txn_at 2 s0)) as r. intros [[err d'] t'] H.
  destruct H as (_ & _ & _ & _ & H). destruct H as (H1 & _ & H2).
  - intros (k & _ & Ho). by rewrite (overtaken_current _ _ k s0_txn2_version) in Ho.
  - split; [done|]. rewrite H2, s0_txn2_pend by done. reflexivity.
Defined.

Lemma commit_2 : Txn_Commit 0 2 s0 = (None, (Txn_Commit 0 2 s0).2).
Proof. by apply injective_projections. Qed.


Lemma finished_is_final_witness :
  (Txn_Get 2 k1 (run [CallSet Background k2 v1; CallDropAll] s1)).1 = Err ErrDiscardedTxn.
Proof.
  apply (finished_is_final s1 (run [CallSet Background k2 v1; CallDropAll] s1) 2 k1 v1 (mkIterOptions None None None false false) 0);
    [apply s1_reachable|
     vm_compute; reflexivity|apply run_any; vm_compute; reflexivity|vm_compute; reflexivity].
Defined.

Definition after_close : list call := [CallTxnSet 1 k1 v2; CallTxnCommit 1; CallPurge; CallDropAll; CallNewTxn true].

Lemma after_close_txn : is_Some (m_txns (run after_close (set_ds (Close (m_ds s0)) s0)) !! 1%nat).
Proof. refine (bool_decide_eq_true_1 _ _). vm_compute. reflexivity. Qed.

Lemma closed_is_final_witness :
  (Txn_Commit 0 1 (run after_close (set_ds (Close (m_ds s0)) s0))).1 = Some ErrDBClosed.
Proof.
  apply (closed_is_final s0 (run after_close (set_ds (Close (m_ds s0)) s0)) 1 k1 v1
    (mkIterOptions None None None false false) 0 0 false);
    [apply s0_reachable|apply run_any; vm_compute; reflexivity|apply after_close_txn].
Defined.

(** A read that finds nothing is not validated.  A transaction reads the
    missing key [k1], another writer creates it, and the transaction, which
    also wrote [k2], still commits: the empty item recorded for the read does
    not carry the key (memory/txn.go, [basicTxn.get]). *)
Theorem missed_read_not_validated :
  let s := run [CallNewTxn false; CallTxnGet 0 k1; CallTxnSet 0 k2 v2; CallSet Background k1 v1]
    NewMemState in
  (Txn_Get 0 k1 (run [CallNewTxn false] NewMemState)).1 = Err ErrNotFound /\
  Get (m_ds s) k1 = Ok v1 /\ (Txn_Commit 0 0 s).1 = None.
Proof. vm_compute. auto. Qed.
End CommitSample.
