(* ===== verification/MemoryRefine.v ===== *)
(** The memory store is a map.  Any sequence of calls on a store, with purges
    of old versions in between, returns what the same calls return on a finite
    map; the last section shows what a purge can do to a transaction that is
    still open. *)
From stdpp Require Import gmap.
From S2P Require Import Prelude BTree Kv Memory MemoryView MemoryTxn MemorySystem MemoryPurge.
Import Memory.

#[export] Program Instance byte_countable : Countable Byte.byte :=
  inj_countable Byte.to_N Byte.of_N Byte.of_to_N.

(** ** Calls and replies *)

Inductive store_call :=
| SGet (k : slice)
| SHas (k : slice)
| SSet (k v : slice)
| SDelete (k : slice)
| SDropAll
| SPurge
| SClose.

Inductive reply :=
| RValue (r : result slice)
| RBool (r : result bool)
| RError (e : option error).

(** ** The specification *)

(** A map and whether the store is closed. *)
Definition spec_state : Type := gmap bytes slice * bool.

(** The guards every operation shares. *)
Definition spec_guard (s : spec_state) (k : slice) : option error :=
  if s.2 then Some ErrDBClosed else if (blen k =? 0)%nat then Some ErrEmptyKey else None.

Definition spec_exec (c : store_call) (s : spec_state) : reply * spec_state :=
  match c with
  | SGet k =>
      (RValue match spec_guard s k with
              | Some e => Err e
              | None => match s.1 !! bdata k with Some v => Ok v | None => Err ErrNotFound end
              end, s)
  | SHas k =>
      (RBool match spec_guard s k with
             | Some e => Err e
             | None => Ok (bool_decide (is_Some (s.1 !! bdata k)))
             end, s)
  | SSet k v =>
      match spec_guard s k with
      | Some e => (RError (Some e), s)
      | None => (RError None, (<[bdata k := v]> s.1, s.2))
      end
  | SDelete k =>
      match spec_guard s k with
      | Some e => (RError (Some e), s)
      | None => (RError None, (delete (bdata k) s.1, s.2))
      end
  | SDropAll => (RError None, (∅, s.2))
  | SPurge => (RError None, s)
  | SClose => (RError None, (s.1, true))
  end.

(** The replies to a sequence of calls. *)
Fixpoint replies {C S R} (exec : C -> S -> R * S) (cs : list C) (s : S) : list R :=
  match cs with
  | [] => []
  | c :: cs' => let '(r, s') := exec c s in r :: replies exec cs' s'
  end.

Section refine.
Context {BI : BTreeG dsItem} {BT : BTreeG dsTxn}.

(** A call at times [now] and [now'], with [p] the next free address. *)
Record timed_call := mk_timed { tc_now : Z; tc_now' : Z; tc_p : nat; tc_call : store_call }.

Definition store_exec (c : timed_call) (d : Datastore) : reply * Datastore :=
  match tc_call c with
  | SGet k => (RValue (Get d k), d)
  | SHas k => (RBool (Has d k), d)
  | SSet k v => let '(e, d') := Set_ (tc_now c) (tc_now' c) (tc_p c) d k v in (RError e, d')
  | SDelete k => let '(e, d') := Delete (tc_now c) (tc_now' c) (tc_p c) d k in (RError e, d')
  | SDropAll => (RError None, DropAll d)
  | SPurge => (RError None, default d (executePurge d))
  | SClose => (RError None, Close d)
  end.

Context {LI : BTreeGLaws dsItem dsItem_zero byKeys} {LT : BTreeGLaws dsTxn dsTxn_zero byDSVersion}.

(** ** The simulation *)

Record sim (d : Datastore) (s : spec_state) : Prop := {
  sim_inv : ds_inv d;
  sim_inflight : inflight_ok d;
  sim_closed : closed d = s.2;
  sim_view k : view d (ds_version d) k = s.1 !! k }.

Lemma sim_new : sim NewDatastore (∅, false).
Proof.
  split; simpl.
  - split; simpl; [|done]. rewrite items_New. constructor.
  - intros x. simpl. rewrite items_New. by intros ?%not_elem_of_nil.
  - done.
  - intros k. unfold view. simpl. by rewrite items_New.
Qed.

Lemma spec_guard_None s k : spec_guard s k = None <-> s.2 = false /\ bdata k <> [].
Proof.
  unfold spec_guard. destruct (s.2); [naive_solver|].
  destruct (Nat.eqb_spec (blen k) 0) as [H|H]; rewrite blen_zero in H; naive_solver.
Qed.

(** What the guards refuse is refused, and changes nothing. *)
Lemma guards_refuse now now' p d s k v e :
  sim d s -> spec_guard s k = Some e ->
  Get d k = Err e /\ Has d k = Err e /\
  Set_ now now' p d k v = (Some e, d) /\ Delete now now' p d k = (Some e, d).
Proof.
  intros [_ _ Hc _]. unfold spec_guard, Get, Has, Set_, Delete. rewrite Hc.
  destruct (s.2); [by intros [= <-]|]. destruct (blen k =? 0)%nat; [by intros [= <-]|done].
Qed.

(** *** Each call *)

Lemma sim_purge d s : sim d s -> sim (default d (executePurge d)) s.
Proof.
  intros [Hi Hin Hc Hv]. destruct (executePurge_spec d Hi) as (d' & -> & Hi' & HV & Hc' & _ & Hin' & Hsn).
  cbn [from_option id]. split; [done| |congruence|].
  - intros x. rewrite Hin', HV. apply Hin.
  - intros k. rewrite <- Hv. unfold view. by rewrite HV, Hsn by (by apply purge_version_le).
Qed.

Lemma sim_set d s d' k v :
  sim d s -> grows d d' -> inflight_ok d' ->
  (forall k', view d' (ds_version d') k' =
    if bool_decide (bdata k = k') then v else view d (ds_version d) k') ->
  sim d' (partial_alter (fun _ => v) (bdata k) s.1, s.2).
Proof.
  intros [Hi _ Hc Hv] Hg Hin Hview. split; simpl; [apply Hg|done| |].
  - by rewrite (grows_closed _ _ Hg).
  - intros k'. rewrite Hview. case_bool_decide as E.
    + subst. by rewrite lookup_partial_alter_eq.
    + by rewrite lookup_partial_alter_ne.
Qed.

(** One call: the same reply and related states. *)
Lemma sim_exec c d s :
  sim d s -> ds_version d + 1 < two64 ->
  (store_exec c d).1 = (spec_exec (tc_call c) s).1 /\
  sim (store_exec c d).2 (spec_exec (tc_call c) s).2 /\
  ds_version (store_exec c d).2 <= ds_version d + 1.
Proof.
  intros Hsim Hroom. pose proof Hsim as [Hi Hin Hc Hv].
  destruct c as [now now' p c]. unfold store_exec. destruct c as [k|k|k v|k| | |]; simpl.
  - destruct (spec_guard s k) as [e|] eqn:E.
    + destruct (guards_refuse 0 0 0 d s k None e Hsim E) as (-> & _). split_and!; [done..|lia].
    + apply spec_guard_None in E as [E Hk]. rewrite Get_view, Hv by (done || congruence).
      split_and!; [done..|lia].
  - destruct (spec_guard s k) as [e|] eqn:E.
    + destruct (guards_refuse 0 0 0 d s k None e Hsim E) as (_ & -> & _). split_and!; [done..|lia].
    + apply spec_guard_None in E as [E Hk]. rewrite Has_view, Hv by (done || congruence).
      split_and!; [done..|lia].
  - destruct (spec_guard s k) as [e|] eqn:E.
    + destruct (guards_refuse now now' p d s k v e Hsim E) as (_ & _ & -> & _).
      split_and!; [done..|simpl; lia].
    + apply spec_guard_None in E as [E Hk]. rewrite <- Hc in E.
      destruct (Set_view now now' p d k v Hi E Hk Hroom) as (d' & Hs & Hg & Hv' & Hview).
      pose proof (Set_inflight now now' p d k v Hin) as Hin'. rewrite Hs in *. simpl in *.
      split_and!; [done| |lia]. apply (sim_set d s d' k (Some v)); auto with lia.
  - destruct (spec_guard s k) as [e|] eqn:E.
    + destruct (guards_refuse now now' p d s k None e Hsim E) as (_ & _ & _ & ->).
      split_and!; [done..|simpl; lia].
    + apply spec_guard_None in E as [E Hk]. rewrite <- Hc in E.
      destruct (Delete_view now now' p d k Hi E Hk Hroom) as (d' & Hs & Hg & Hv' & Hview).
      pose proof (Delete_inflight now now' p d k Hin) as Hin'. rewrite Hs in *. simpl in *.
      split_and!; [done| |lia]. apply (sim_set d s d' k None); auto with lia.
  - split_and!; [done| |unfold DropAll; simpl; lia]. destruct Hi as [_ Hr].
    split; simpl; [split; simpl; [rewrite items_Clear; constructor|done]|done|done|].
    intros k. unfold view. simpl. by rewrite items_Clear.
  - split_and!; [done|by apply sim_purge|]. destruct (executePurge d) eqn:E; simpl; [|lia].
    unfold executePurge in E. destruct (purge_loop _ _ _); [|done]. injection E as <-. simpl. lia.
  - split_and!; [done| |unfold Close; destruct (closed d); simpl; lia].
    unfold Close. destruct (closed d) eqn:E; (split; simpl; try done); congruence.
Qed.

(** C1: The memory store refines a map.  Every sequence of calls of [Get],
    [Has], [Set], [Delete], [DropAll], [Close] and [executePurge] on a new store,
    shorter than the version counter, is answered as on a finite map: with the
    value last set and not deleted since, with [ErrNotFound] for other keys,
    with [ErrEmptyKey] for empty keys and [ErrDBClosed] once closed. *)
Theorem store_refines_map cs :
  Z.of_nat (length cs) < two64 ->
  replies store_exec cs NewDatastore = replies spec_exec (tc_call <$> cs) (∅, false).
Proof.
  intros Hlen. assert (forall d s, sim d s -> ds_version d + Z.of_nat (length cs) < two64 ->
    replies store_exec cs d = replies spec_exec (tc_call <$> cs) s) as H;
    [|by apply (H NewDatastore _ sim_new)].
  clear Hlen. induction cs as [|c cs IH]; intros d s Hsim Hroom; [done|]. simpl in *.
  destruct (sim_exec c d s Hsim) as (Hr & Hsim' & Hv); [lia|].
  destruct (store_exec c d) as [r d'], (spec_exec (tc_call c) s) as [r' s']. simpl in *. subst.
  f_equal. apply IH; [done|lia].
Qed.

End refine.

(** ** Concrete runs *)

Module RefineSample.
Import Sample.

Definition at0 (c : store_call) : timed_call := mk_timed 0 0 0 c.
Definition calls : list timed_call :=
  at0 <$> [SSet k1 v1; SSet k2 v1; SSet k1 v2; SPurge; SDelete k2; SGet k1; SHas k2; SClose; SGet k1].

Lemma store_refines_map_witness :
  replies store_exec calls NewDatastore =
  [RError None; RError None; RError None; RError None; RError None; RValue (Ok v2); RBool (Ok false);
   RError None; RValue (Err ErrDBClosed)].
Proof. rewrite (store_refines_map calls); vm_compute; reflexivity. Defined.

(** Transactions 1 and 2 begin at the same version; 1 is discarded, and [k1] is
    overwritten. *)
Definition shared_entry : MemState :=
  run [CallSet Background k1 v1; CallNewTxn true; CallNewTxn true; CallTxnDiscard 1;
       CallSet Background k1 v2] NewMemState.

(** A purge can take items away from an open transaction.  Transactions that
    begin at the same version share one entry of [inFlightTxn], and finishing
    one removes it (memory/txn.go, [clearInFlightTxn]): the purge then ignores
    the other one, whose read of [k1] turns from the value into [ErrNotFound]. *)
Theorem purge_ignores_open_transaction :
  in_use shared_entry 2 = true /\ reads 2 k1 shared_entry = Ok v1 /\
  (fun d => reads 2 k1 (set_ds d shared_entry)) <$> executePurge (m_ds shared_entry) =
    Some (Err ErrNotFound).
Proof. vm_compute. auto. Qed.
End RefineSample.
