(* ===== verification/MemoryProgress.v ===== *)
(** The memory store over time: the goroutine that purges old versions once a day
    (memory/memory.go, [purgeOldVersions]), running beside the calls of clients,
    and the progress of transactions. *)
From stdpp Require Import gmap.
From S2P Require Import Prelude BTree Kv Memory MemoryView MemoryTxn MemorySystem MemoryPurge MemoryRefine.
Import Memory.

(** ** The purging goroutine *)

(** A local time: the calendar day and the nanoseconds since its midnight. *)
Record Time := mk_Time { t_day : Z; t_ns : Z }.

Definition time_le (a b : Time) : Prop := t_day a < t_day b \/ (t_day a = t_day b /\ t_ns a <= t_ns b).

#[export] Instance time_le_dec a b : Decision (time_le a b).
Proof. unfold time_le. apply _. Defined.

(** [time.Date] of the following day at midnight. *)
Definition nextMidnight (now : Time) : Time := mk_Time (t_day now + 1) 0.

(** What wakes the goroutine: its context, the channel [closing] of the store, or
    the timer, at [fired], with [now] the time after the purge. *)
Inductive wake :=
| WakeDone
| WakeClosing
| WakeTimer (fired now : Time).

Section purge_loop.
Context {BI : BTreeG dsItem} {BT : BTreeG dsTxn}.

(** One turn of the loop; [None] once the goroutine has returned.  The channel is
    only ready when it is closed, the timer only from [nextCompression] on.
    Returns whether it purged. *)
Definition purgeOldVersions (e : wake) (w : option Time) (d : Datastore) : option Time * Datastore * bool :=
  match w with
  | None => (None, d, false)
  | Some nextCompression =>
      match e with
      | WakeDone => (None, d, false)
      | WakeClosing => if closing d then (None, d, false) else (Some nextCompression, d, false)
      | WakeTimer fired now =>
          if bool_decide (time_le nextCompression fired) then
            (Some (nextMidnight now), default d (executePurge d), true)
          else (Some nextCompression, d, false)
      end
  end.

(** Calls of clients and wakes of the goroutine in any order: the replies, and the
    times of the purges. *)
Inductive event :=
| Client (c : timed_call)
| Wake (e : wake).

Fixpoint concurrently (evs : list event) (w : option Time) (d : Datastore) : list reply * list Time :=
  match evs with
  | [] => ([], [])
  | Client c :: evs =>
      let '(r, d) := store_exec c d in
      let '(rs, ps) := concurrently evs w d in (r :: rs, ps)
  | Wake e :: evs =>
      let '(w, d, purged) := purgeOldVersions e w d in
      let '(rs, ps) := concurrently evs w d in
      (rs, match e with WakeTimer fired _ => if purged then fired :: ps else ps | _ => ps end)
  end.

Definition client_calls (evs : list event) : list store_call :=
  omap (fun e => match e with Client c => Some (tc_call c) | Wake _ => None end) evs.

(** The clock is not behind when the purge is over. *)
Definition clock_ok (e : event) : Prop :=
  match e with Wake (WakeTimer fired now) => time_le fired now | _ => True end.

Context {LI : BTreeGLaws dsItem dsItem_zero byKeys} {LT : BTreeGLaws dsTxn dsTxn_zero byDSVersion}.

(** What the clients see is a map. *)
Lemma concurrently_replies evs : forall w d s,
  sim d s -> ds_version d + Z.of_nat (length evs) < two64 ->
  (concurrently evs w d).1 = replies spec_exec (client_calls evs) s.
Proof.
  induction evs as [|[c|e] evs IH]; intros w d s Hsim Hroom; [done|..]; cbn [concurrently length client_calls omap list_omap] in *.
  - destruct (sim_exec c d s Hsim) as (Hr & Hsim' & Hv); [lia|]. cbn [replies].
    destruct (store_exec c d) as [r d'], (spec_exec (tc_call c) s) as [r' s']. cbn [fst snd] in *. subst r'.
    specialize (IH w d' s' Hsim' ltac:(lia)). destruct (concurrently evs w d') as [rs ps]. cbn [fst] in *. by rewrite IH.
  - assert (sim (purgeOldVersions e w d).1.2 s /\ ds_version (purgeOldVersions e w d).1.2 <= ds_version d) as [Hs Hv].
    { pose proof (sim_exec (mk_timed 0 0 0 SPurge) d s Hsim ltac:(lia)) as (_ & Hp & _). cbn in Hp.
      assert (ds_version (default d (executePurge d)) = ds_version d) as Hpv.
      { destruct (executePurge d) eqn:E; [|done]. unfold executePurge in E. destruct (purge_loop _ _ _); [|done].
        by injection E as <-. }
      unfold purgeOldVersions. destruct w; [|done]. destruct e; try done; [by destruct (closing d)|].
      case_bool_decide; [|done]. split; [exact Hp|]. cbn [fst snd]. lia. }
    destruct (purgeOldVersions e w d) as [[w' d'] purged]. cbn [fst snd] in *.
    specialize (IH w' d' s Hs ltac:(lia)). destruct (concurrently evs w' d') as [rs ps]. exact IH.
Qed.

(** Once it has returned it purges no more. *)
Lemma concurrently_returned evs : forall d, (concurrently evs None d).2 = [].
Proof.
  induction evs as [|[c|e] evs IH]; intros d; cbn [concurrently]; [done|..].
  - destruct (store_exec c d) as [r d']. specialize (IH d'). by destruct (concurrently evs None d').
  - cbn [purgeOldVersions]. specialize (IH d). destruct (concurrently evs None d) as [rs ps]. cbn in *. subst. by destruct e.
Qed.

(** The days of the purges, one after the other. *)
Definition before (a b : Time) : Prop := t_day a < t_day b.

Lemma concurrently_days evs : forall n d,
  Forall clock_ok evs -> t_ns n = 0 -> Forall (fun t => t_day n <= t_day t) (concurrently evs (Some n) d).2 /\
    StronglySorted before (concurrently evs (Some n) d).2.
Proof.
  pose proof concurrently_returned as Hnone.
  induction evs as [|[c|e] evs IH]; intros n d Hc Hn; cbn [concurrently]; [by repeat constructor|..];
    apply Forall_cons in Hc as [Hc Hcs].
  - destruct (store_exec c d) as [r d']. specialize (IH n d' Hcs Hn). by destruct (concurrently evs (Some n) d').
  - cbn [purgeOldVersions]. destruct e as [| |fired now].
    + specialize (Hnone evs d). destruct (concurrently evs None d) as [rs ps]. cbn in *. subst. by repeat constructor.
    + destruct (closing d).
      * specialize (Hnone evs d). destruct (concurrently evs None d) as [rs ps]. cbn in *. subst. by repeat constructor.
      * specialize (IH n d Hcs Hn). by destruct (concurrently evs (Some n) d).
    + case_bool_decide as Hf; cycle 1.
      { specialize (IH n d Hcs Hn). by destruct (concurrently evs (Some n) d). }
      specialize (IH (nextMidnight now) (default d (executePurge d)) Hcs eq_refl).
      destruct (concurrently evs (Some (nextMidnight now)) _) as [rs ps]. cbn [fst snd] in *. destruct IH as [Hd Hs].
      unfold time_le, clock_ok in *. split; constructor; [lia| |done|].
      * eapply Forall_impl; [exact Hd|]. cbn. intros t Ht. unfold time_le in Hc. lia.
      * eapply Forall_impl; [exact Hd|]. unfold before. cbn. intros t Ht. unfold time_le in Hc. lia.
Qed.

(** *** When it purges *)

(** The goroutine and the store after the events. *)
Fixpoint after (evs : list event) (w : option Time) (d : Datastore) : option Time * Datastore :=
  match evs with
  | [] => (w, d)
  | Client c :: evs => after evs w (store_exec c d).2
  | Wake e :: evs => let '(w, d, _) := purgeOldVersions e w d in after evs w d
  end.

Lemma concurrently_app evs1 evs2 : forall w d,
  (concurrently (evs1 ++ evs2) w d).2 =
    (concurrently evs1 w d).2 ++ (concurrently evs2 (after evs1 w d).1 (after evs1 w d).2).2.
Proof.
  induction evs1 as [|[c|e] evs1 IH]; intros w d; cbn [concurrently app after]; [done|..].
  - destruct (store_exec c d) as [r d']. specialize (IH w d').
    destruct (concurrently (evs1 ++ evs2) w d'), (concurrently evs1 w d'). exact IH.
  - destruct (purgeOldVersions e w d) as [[w' d'] purged]. specialize (IH w' d').
    destruct (concurrently (evs1 ++ evs2) w' d'), (concurrently evs1 w' d'). cbn [snd] in *. subst.
    by destruct e, purged.
Qed.

(** The flag and the channel are only touched by [Close]. *)
Definition flags (d : Datastore) : bool * bool := (closed d, closing d).

Lemma txn_Discard_flags now d t : flags (txn_Discard now d t).1 = flags d.
Proof. destruct (txn_Discard_same now d t) as (_ & _ & E1 & E2). unfold flags. congruence. Qed.

Lemma txn_Commit_flags now d t : flags (txn_Commit now d t).1.2 = flags d.
Proof.
  unfold txn_Commit. destruct (closed d), (discarded t); try done.
  assert (forall d', flags d' = flags d -> forall e : option error,
    flags (let '(d'', t') := txn_Discard now d' t in (e, d'', t')).1.2 = flags d) as H.
  { intros d' Hd e. pose proof (txn_Discard_flags now d' t). destruct (txn_Discard now d' t). cbn in *. congruence. }
  destruct (readOnly t); cbn [negb]; [by apply H|]. unfold commit. destruct (checkForConflicts d t); by apply H.
Qed.

Lemma executePurge_flags d : flags (default d (executePurge d)) = flags d.
Proof. unfold executePurge. by destruct (purge_loop _ _ _). Qed.

Lemma store_exec_flags c d :
  flags (store_exec c d).2 =
    match tc_call c with SClose => if closed d then flags d else (true, true) | _ => flags d end.
Proof.
  destruct c as [now now' p c]. unfold store_exec. destruct c as [k|k|k v|k| | |]; cbn [tc_call]; try done.
  - unfold Set_, newTransaction. destruct (closed d) eqn:Hc; [done|]. destruct (_ =? _)%nat; [done|].
    cbn [tc_now tc_now' tc_p]. destruct (txn_Set _ _ k v) as [[e|] t'].
    + cbn [snd]. by rewrite txn_Discard_flags.
    + match goal with |- context [txn_Commit ?n ?d1 ?t] => pose proof (txn_Commit_flags n d1 t) as H end.
      destruct (txn_Commit _ _ _) as [[e d'] t2]. exact H.
  - unfold Delete, newTransaction. destruct (closed d) eqn:Hc; [done|]. destruct (_ =? _)%nat; [done|].
    cbn [tc_now tc_now' tc_p]. destruct (txn_Delete _ _ k) as [e t'].
    match goal with |- context [txn_Commit ?n ?d1 ?t] => pose proof (txn_Commit_flags n d1 t) as H end.
    destruct (txn_Commit _ _ _) as [[e' d'] t2]. exact H.
  - exact (executePurge_flags d).
  - unfold Close. by destruct (closed d).
Qed.

Lemma purgeOldVersions_flags e w d : flags (purgeOldVersions e w d).1.2 = flags d.
Proof.
  pose proof (executePurge_flags d).
  unfold purgeOldVersions. destruct w; [|done]. destruct e; [done|by destruct (closing d)|]. by case_bool_decide.
Qed.

Lemma after_closing evs : forall w d,
  closed d = closing d -> closing d = true \/ SClose ∈ client_calls evs -> closing (after evs w d).2 = true.
Proof.
  induction evs as [|[c|e] evs IH]; intros w d Hcc Hor; cbn [after client_calls omap list_omap] in *.
  - destruct Hor as [?|[]%not_elem_of_nil]; done.
  - pose proof (store_exec_flags c d) as Hf. unfold flags in Hf. apply IH; destruct (tc_call c) eqn:Ec; try (injection Hf; congruence).
    2-7: destruct Hor as [?|[?|?]%elem_of_cons]; [left; injection Hf; congruence|done|by right].
    all: destruct (closed d) eqn:?; injection Hf as H1 H2; rewrite ?H1, ?H2; auto; left; congruence.
  - pose proof (purgeOldVersions_flags e w d) as Hf. destruct (purgeOldVersions e w d) as [[w' d'] b].
    injection Hf as H1 H2. apply IH; [congruence|]. destruct Hor; [left; congruence|by right].
Qed.

(** The goroutine is left alone and has purged on earlier days than [day] only. *)
Definition earlier (day : Z) (e : event) : Prop :=
  match e with
  | Client _ => True
  | Wake (WakeTimer _ now) => t_day now < day
  | Wake WakeDone | Wake WakeClosing => False
  end.

Lemma after_due day evs : forall n d,
  Forall (earlier day) evs -> t_day n <= day -> t_ns n = 0 ->
  exists n', (after evs (Some n) d).1 = Some n' /\ t_day n' <= day /\ t_ns n' = 0.
Proof.
  induction evs as [|[c|e] evs IH]; intros n d He Hn H0; cbn [after]; [by exists n|..]; apply Forall_cons in He as [He Hes].
  - by apply IH.
  - destruct e as [| |fired now]; [done..|]. cbn [purgeOldVersions]. cbn in He. case_bool_decide; apply IH; try done. cbn. lia.
Qed.

(** C15: The purging goroutine runs beside any calls without being noticed: whenever
    it wakes, the clients of a new store get the replies of a finite map.  It
    purges at most once on each day and not on the day on which the store was
    made.  It returns when its context is done, and when it is woken after the
    store was closed, and never purges afterwards.  As long as it has not
    returned, its timer purges on the first day after the last purge. *)
Theorem purgeOldVersions_correct start evs :
  Z.of_nat (length evs) < two64 -> Forall clock_ok evs ->
  let '(rs, ps) := concurrently evs (Some (nextMidnight start)) NewDatastore in
  rs = replies spec_exec (client_calls evs) (∅, false) /\ StronglySorted before (start :: ps) /\
  (forall evs1 e evs2, evs = evs1 ++ Wake e :: evs2 ->
    e = WakeDone \/ (e = WakeClosing /\ SClose ∈ client_calls evs1) ->
    ps = (concurrently evs1 (Some (nextMidnight start)) NewDatastore).2) /\
  (forall evs1 fired now evs2, evs = evs1 ++ Wake (WakeTimer fired now) :: evs2 ->
    t_day start < t_day fired -> 0 <= t_ns fired -> Forall (earlier (t_day fired)) evs1 -> fired ∈ ps).
Proof.
  intros Hlen Hc. pose proof (concurrently_replies evs (Some (nextMidnight start)) NewDatastore _ sim_new Hlen) as Hr.
  destruct (concurrently_days evs (nextMidnight start) NewDatastore Hc eq_refl) as [Hd Hs].
  destruct (concurrently evs _ NewDatastore) as [rs ps] eqn:E. assert (ps = (concurrently evs (Some (nextMidnight start)) NewDatastore).2) as Hps by by rewrite E.
  split_and!; [done|..].
  - constructor; [done|]. eapply Forall_impl; [exact Hd|]. unfold before. cbn. intros t Ht. lia.
  - intros evs1 e evs2 -> He. rewrite Hps, concurrently_app.
    rewrite <- (app_nil_r (concurrently evs1 _ _).2) at 2. f_equal.
    assert (closing (after evs1 (Some (nextMidnight start)) NewDatastore).2 = true \/ e = WakeDone) as Hcl.
    { destruct He as [->|[-> He]]; [by right|left]. apply after_closing; [done|by right]. }
    destruct (after evs1 _ NewDatastore) as [w d]. cbn [fst snd] in *.
    pose proof (concurrently_returned evs2 d) as Hnil. cbn [concurrently].
    assert (purgeOldVersions e w d = (None, d, false)) as ->.
    { destruct w as [n|]; [|done]. destruct He as [->|[-> _]]; [done|]. destruct Hcl as [Hcl|?]; [|done]. simpl. by rewrite Hcl. }
    destruct (concurrently evs2 None d). cbn in *. subst. by destruct e.
  - intros evs1 fired now evs2 -> Hday Hns He. rewrite Hps, concurrently_app. apply elem_of_app. right.
    destruct (after_due (t_day fired) evs1 (nextMidnight start) NewDatastore He) as (n & Hn & Hnd & Hn0); [cbn; lia|done|].
    rewrite Hn. cbn [concurrently purgeOldVersions].
    rewrite bool_decide_eq_true_2 by (unfold time_le; lia).
    destruct (concurrently evs2 _ _). cbn. constructor.
Qed.
End purge_loop.

(** ** Progress *)

Section progress.
Context {BI : BTreeG dsItem} {BT : BTreeG dsTxn}
  {LI : BTreeGLaws dsItem dsItem_zero byKeys} {LT : BTreeGLaws dsTxn dsTxn_zero byDSVersion}.

(** Calls that commit and drop nothing, do not close the store and do not discard [p]. *)
Definition quiet (p : nat) (c : call) (s : MemState) : bool :=
  match c with
  | CallSet ctx _ _ | CallDelete ctx _ => bool_decide (is_Some (TryGetCtxTxnG as_basicTxn ctx))
  | CallTxnDiscard q => negb (q =? p)%nat
  | CallTxnCommit _ | CallDropAll | CallClose => false
  | _ => true
  end.

Definition quiet_step (p : nat) : MemState -> MemState -> Prop := step_if (quiet p).

(** What decides whether a transaction can commit. *)
Definition header (t : basicTxn) : Z * bool * bool := (dsVersion t, readOnly t, discarded t).

Lemma txn_get_header d t k : header (txn_get d t k).2 = header t.
Proof. unfold txn_get. by destruct (is_nil _). Qed.

Lemma txn_header d t k v :
  header (txn_Get d t k).2 = header t /\ header (txn_GetSize d t k).2 = header t /\ header (txn_Has d t k).2 = header t /\
  header (txn_Set d t k v).2 = header t /\ header (txn_Delete d t k).2 = header t.
Proof.
  pose proof (txn_get_header d t k) as H. unfold txn_Get, txn_GetSize, txn_Has, txn_Set, txn_Delete.
  destruct (closed d), (discarded t), (readOnly t), (blen k =? 0)%nat; cbn; try done.
  all: destruct (txn_get d t k) as [r t']; by destruct (is_nil (key r) || isDeleted r).
Qed.

(** The store is at version [v], and so is the open, writing transaction [p]. *)
Definition current (p : nat) (v : Z) (s : MemState) : Prop :=
  sys_inv s /\ closed (m_ds s) = false /\ ds_version (m_ds s) = v /\
  exists t, m_txns s !! p = Some t /\ header t = (v, false, false).

Lemma on_txn_current {R} p v q (f : Datastore -> basicTxn -> R * basicTxn) r0 s :
  (forall d t, header (f d t).2 = header t) -> sys_inv (on_txn q f r0 s).2 -> current p v s -> current p v (on_txn q f r0 s).2.
Proof.
  intros Hf Hi (_ & Hc & Hv & t & Ht & Hh). unfold current. split; [done|]. unfold on_txn in *.
  destruct (m_txns s !! q) as [tq|] eqn:Eq; [|eauto]. specialize (Hf (m_ds s) tq). destruct (f (m_ds s) tq) as [r t'].
  split; [done|]. split; [done|]. cbn in *. destruct (decide (q = p)) as [->|Hne].
  - exists t'. rewrite lookup_insert_eq. split; [done|]. rewrite Ht in Eq. injection Eq as ->. congruence.
  - exists t. by rewrite lookup_insert_ne.
Qed.

Lemma quiet_current p v0 c s s' : quiet p c s = true -> step c s s' -> current p v0 s -> current p v0 s'.
Proof.
  intros Hq Hst Hcur. pose proof (step_inv c s s' Hst (proj1 Hcur)) as Hi. destruct Hst as [now now' Hroom ->].
  destruct c as [ctx k|ctx k|ctx k v|ctx k|ro|q k|q k|q k|q k v|q k|q|q| | |]; cbn [exec quiet] in *; try done.
  - unfold Store_Get in *. destruct (TryGetCtxTxnG as_basicTxn ctx) as [q|]; [|done].
    apply on_txn_current; [intros d t; by apply txn_header|done|done].
  - unfold Store_Has in *. destruct (TryGetCtxTxnG as_basicTxn ctx) as [q|]; [|done].
    apply on_txn_current; [intros d t; by apply txn_header|done|done].
  - unfold Store_Set in *. destruct (TryGetCtxTxnG as_basicTxn ctx) as [q|]; [|by apply bool_decide_eq_true in Hq as []].
    apply on_txn_current; [intros d t; by apply txn_header|done|done].
  - unfold Store_Delete in *. destruct (TryGetCtxTxnG as_basicTxn ctx) as [q|]; [|by apply bool_decide_eq_true in Hq as []].
    apply on_txn_current; [intros d t; by apply (txn_header d t k None)|done|done].
  - destruct Hcur as (Hs & Hc & Hv & t & Ht & Hh). split; [done|]. unfold NewTxn in *.
    pose proof (newTransaction_spec now (m_next s) ro (m_ds s) (sys_ds _ Hs) Hroom) as H.
    destruct (newTransaction now (m_next s) ro (m_ds s)) as [t' d']. destruct H as ((E1 & E2 & E3 & _) & _). cbn in *.
    split; [congruence|]. split; [congruence|]. exists t. pose proof (sys_next _ Hs _ _ Ht).
    by rewrite lookup_insert_ne by lia.
  - apply on_txn_current; [intros d t; by apply txn_header|done|done].
  - apply on_txn_current; [intros d t; by apply txn_header|done|done].
  - apply on_txn_current; [intros d t; by apply txn_header|done|done].
  - apply on_txn_current; [intros d t; by apply txn_header|done|done].
  - apply on_txn_current; [intros d t; by apply (txn_header d t k None)|done|done].
  - destruct Hcur as (Hs & Hc & Hv & t & Ht & Hh). split; [done|]. unfold Txn_Discard in *.
    destruct (m_txns s !! q) as [tq|] eqn:Eq; [|eauto].
    pose proof (txn_Discard_same now (m_ds s) tq) as (E1 & E2 & E3 & _). destruct (txn_Discard now (m_ds s) tq) as [d' t'].
    cbn in *. split; [congruence|]. split; [congruence|]. exists t. apply negb_true_iff, Nat.eqb_neq in Hq.
    by rewrite lookup_insert_ne.
  - destruct Hcur as (Hs & Hc & Hv & Ht). split; [done|]. destruct (executePurge_spec _ (sys_ds _ Hs)) as (d' & -> & _ & HV & Hc' & _).
    cbn. split_and!; [congruence|congruence|done].
Qed.

(** No purge reaches a transaction of the current version. *)
Lemma quiet_spares p v0 c s : quiet p c s = true -> current p v0 s -> spares p c s = true.
Proof.
  intros Hq (Hs & _ & Hv & t & Ht & Hh). destruct c; try done. cbn. rewrite Ht. apply Z.leb_le.
  pose proof (purge_version_le _ (sys_inflight _ Hs)). injection Hh. lia.
Qed.

Lemma quiet_steps p v0 s s' :
  rtc (quiet_step p) s s' -> current p v0 s -> reads_ok p s -> current p v0 s' /\ reads_ok p s'.
Proof.
  induction 1 as [|x y z (c & Hq & Hst) _ IH]; intros Hcur Hr; [done|]. apply IH; [by eapply quiet_current|].
  apply (step_reads_ok p x y); [|by destruct Hcur|destruct Hcur as (_ & _ & _ & t & -> & _); by exists t|done].
  exists c. split; [by eapply quiet_spares|done].
Qed.

Lemma new_current s :
  sys_inv s -> closed (m_ds s) = false -> ds_version (m_ds s) + 1 < two64 ->
  forall now, current (NewTxn now false s).1 (ds_version (m_ds s)) (NewTxn now false s).2 /\
    reads_ok (NewTxn now false s).1 (NewTxn now false s).2.
Proof.
  intros Hs Hc Hroom now. pose proof (NewTxn_inv now false s Hroom Hs) as Hi. unfold NewTxn in *.
  pose proof (newTransaction_spec now (m_next s) false (m_ds s) (sys_ds _ Hs) Hroom) as H.
  destruct (newTransaction now (m_next s) false (m_ds s)) as [t d'].
  destruct H as ((E1 & E2 & E3 & _) & _ & Hf & H1 & H2 & H3 & _). cbn in *. unfold reads_ok. cbn. rewrite lookup_insert_eq.
  split; [|by intros ? [= <-]]. split; [done|]. split; [cbn; congruence|]. split; [done|]. exists t. cbn.
  rewrite lookup_insert_eq. split; [done|]. unfold header. congruence.
Qed.

(** C8: Progress of transactions: a writing transaction during whose life nothing is
    committed, and the store is neither dropped nor closed, whatever else all
    transactions, the store and the purges do, commits; its commit takes one version, and then every key of the
    store reads as it read in the transaction. *)
Theorem undisturbed_transaction_commits now now' s s' p :
  sys_inv s -> closed (m_ds s) = false -> ds_version (m_ds s) + 1 < two64 ->
  p = (NewTxn now false s).1 -> rtc (quiet_step p) (NewTxn now false s).2 s' ->
  let '(err, s2) := Txn_Commit now' p s' in
  err = None /\ ds_version (m_ds s2) = ds_version (m_ds s) + 1 /\
  forall k, bdata k <> [] -> Get (m_ds s2) k = (Txn_Get p k s').1.
Proof.
  intros Hs Hc Hroom Hp Hrtc. destruct (new_current s Hs Hc Hroom now) as [Hcur Hr]. rewrite <- Hp in Hcur, Hr.
  destruct (quiet_steps _ _ _ _ Hrtc Hcur Hr) as [(Hs' & Hc' & Hv' & t & Ht & Hh) Hr'].
  injection Hh as H1 H2 H3. pose proof (sys_txns _ Hs' _ _ Ht H3) as Hi. pose proof (conj Hc' H3 : active (m_ds s') t) as Ha.
  destruct (commit_latest now' (m_ds s') t (sys_ds _ Hs') Hi Ha H2 ltac:(lia) ltac:(lia)) as (d' & t' & E & Hg & Hv & Hview).
  unfold Txn_Commit. rewrite Ht, E. split_and!; [done|cbn; lia|]. intros k Hk. cbn [m_ds set_txn set_ds].
  rewrite Get_view by (apply Hg || rewrite ?(grows_closed _ _ Hg); done). rewrite Hview.
  unfold Txn_Get, on_txn. rewrite Ht. destruct (txn_Get_spec (m_ds s') t k (sys_ds _ Hs') Hi (Hr' t Ht H3) Ha Hk) as (t2 & -> & _). done.
Qed.
End progress.

(** ** Concrete runs *)

Module ProgressSample.
Import Sample.

Definition noon (day : Z) : Time := mk_Time day (12 * 3600 * 10 ^ 9).

(** A purge on the second day; the goroutine is then stopped. *)
Definition two_days : list event :=
  [Client (mk_timed 0 0 0 (SSet k1 v1)); Client (mk_timed 0 0 0 (SSet k1 v2)); Wake (WakeTimer (noon 1) (noon 1));
   Wake (WakeTimer (mk_Time 2 0) (mk_Time 2 5)); Client (mk_timed 0 0 0 (SGet k1))].
Definition stopped : list event := [Wake (WakeTimer (noon 3) (noon 3))].

Lemma two_days_clock_ok : Forall clock_ok (two_days ++ Wake WakeDone :: stopped).
Proof.
  unfold two_days, stopped. cbn.
  do 7 (apply Forall_cons_2; [first [exact I|right; split; [reflexivity|apply Z.leb_le; reflexivity]]|]). apply Forall_nil_2.
Qed.

Lemma purgeOldVersions_correct_witness :
  let '(rs, ps) := concurrently (two_days ++ Wake WakeDone :: stopped) (Some (nextMidnight (noon 1))) NewDatastore in
  rs = [RError None; RError None; RValue (Ok v2)] /\ StronglySorted before (noon 1 :: ps) /\
  ps = (concurrently two_days (Some (nextMidnight (noon 1))) NewDatastore).2 /\ mk_Time 2 0 ∈ ps.
Proof.
  pose proof (purgeOldVersions_correct (noon 1) (two_days ++ Wake WakeDone :: stopped) eq_refl two_days_clock_ok) as H.
  destruct (concurrently (two_days ++ Wake WakeDone :: stopped) _ NewDatastore) as [rs ps]. destruct H as (H1 & H2 & H3 & H4). split_and!; [exact H1|exact H2|..].
  - apply (H3 two_days WakeDone stopped); [reflexivity|by left].
  - apply (H4 (take 3 two_days) (mk_Time 2 0) (mk_Time 2 5) [Client (mk_timed 0 0 0 (SGet k1)); Wake WakeDone; Wake (WakeTimer (noon 3) (noon 3))]);
      [reflexivity|reflexivity|done|]. by repeat constructor.
Defined.

(** Transaction 3 begins, reads and writes; 1 and 2 go on, but nobody commits. *)
Definition alone : list call := [CallTxnGet 3 k1; CallTxnSet 3 k2 v2; CallPurge; CallTxnSet 1 k1 v2; CallGet Background k1; CallTxnDiscard 2].

Lemma alone_quiet : rtc (quiet_step 3) (NewTxn 0 false s0).2 (run alone (NewTxn 0 false s0).2).
Proof.
  apply run_steps. vm_compute. reflexivity.
Qed.

Lemma undisturbed_transaction_commits_witness :
  let '(err, s2) := Txn_Commit 0 3 (run alone (NewTxn 0 false s0).2) in
  err = None /\ ds_version (m_ds s2) = ds_version (m_ds s0) + 1 /\
  forall k, bdata k <> [] -> Get (m_ds s2) k = (Txn_Get 3 k (run alone (NewTxn 0 false s0).2)).1.
Proof.
  apply (undisturbed_transaction_commits 0 0 s0 (run alone (NewTxn 0 false s0).2) 3).
  - apply (step_rtc_inv NewMemState); [apply s0_reachable|apply NewMemState_inv].
  - vm_compute. reflexivity.
  - vm_compute. reflexivity.
  - vm_compute. reflexivity.
  - apply alone_quiet.
Defined.
End ProgressSample.
