(* ===== verification/MemoryIterSpec.v ===== *)
(** What the memory store's iterators yield: from its creation or a [Reset] on,
    an iterator enumerates the entries visible at its version, in range and in
    order, and [Seek] moves to the right one. *)
From S2P Require Import Prelude BTree Kv Memory MemoryView MemoryIter.
Import Memory MemoryIter.

#[export] Instance dsItem_eq_decision : EqDecision dsItem.
Proof. solve_decision. Defined.

(** ** The visible items *)

(** The items a reader at version [V] sees: the newest of their key, not deleted. *)
Definition visible (l : list dsItem) (V : Z) : list dsItem :=
  filter (fun i => snap l V (kd i) = Some i /\ isDeleted i = false) l.

Abbreviation ksorted := (StronglySorted (fun a b : dsItem => kd a ≺ kd b)).

Lemma elem_of_visible l V y : y ∈ visible l V <-> snap l V (kd y) = Some y /\ isDeleted y = false.
Proof.
  unfold visible. rewrite list_elem_of_filter. split; [tauto|]. intros [H ?].
  split; [done|]. by apply snap_Some_1 in H as [? _].
Qed.

Lemma ksorted_filter (P : dsItem -> Prop) `{!forall x, Decision (P x)} l :
  ksorted l -> ksorted (filter P l).
Proof.
  induction 1 as [|x l Hl IH HF]; [constructor|]. rewrite filter_cons. case_decide; [|done].
  constructor; [done|]. apply Forall_forall. intros y [_ Hy]%list_elem_of_filter.
  by eapply Forall_forall in HF.
Qed.

Lemma visible_ksorted l V : sorted_items l -> ksorted (visible l V).
Proof.
  intros Hs. assert (forall l0, sorted_items l0 -> (forall i, i ∈ l0 -> i ∈ l) ->
    ksorted (filter (fun i => snap l V (kd i) = Some i /\ isDeleted i = false) l0)) as H;
    [|by apply H].
  intros l0 Hs0. induction Hs0 as [|x l0 Hl IH HF]; intros Hin; [constructor|].
  rewrite filter_cons. case_decide as Hx; [|apply IH; intros i Hi; apply Hin; by right].
  constructor; [apply IH; intros i Hi; apply Hin; by right|].
  apply Forall_forall. intros y [[Hy _] Hyl]%list_elem_of_filter.
  rewrite Forall_forall in HF. specialize (HF y Hyl). apply byKeys_true in HF as [?|[Hk ?]]; [done|].
  destruct Hx as [Hx _]. rewrite Hk in Hx. assert (x = y) by congruence. subst. lia.
Qed.

Lemma filter_nil_iff (P : dsItem -> Prop) `{!forall x, Decision (P x)} l :
  filter P l = [] <-> forall y, y ∈ l -> ~ P y.
Proof.
  split.
  - intros E y Hy HP. assert (y ∈ filter P l) as Hf by (by apply list_elem_of_filter).
    rewrite E in Hf. by apply not_elem_of_nil in Hf.
  - intros HP. destruct (filter P l) as [|y r] eqn:E; [done|].
    assert (y ∈ filter P l) as [Hy Hyl]%list_elem_of_filter by (rewrite E; by left).
    by destruct (HP y Hyl).
Qed.

(** The visible item of one key. *)
Lemma visible_key l V b :
  sorted_items l ->
  filter (fun i => kd i = b) (visible l V) =
  match snap l V b with
  | Some y => if isDeleted y then [] else [y]
  | None => []
  end.
Proof.
  intros Hs. pose proof (ksorted_filter (fun i => kd i = b) _ (visible_ksorted l V Hs)) as Hk.
  assert (forall y, y ∈ filter (fun i => kd i = b) (visible l V) <->
    snap l V b = Some y /\ isDeleted y = false) as He.
  { intros y. rewrite list_elem_of_filter, elem_of_visible. split; [by intros [<- ?]|].
    intros [H ?]. pose proof H as (_ & <- & _)%snap_Some_1. done. }
  destruct (filter _ (visible l V)) as [|y [|z r]].
  - destruct (snap l V b) as [y|] eqn:E; [|done]. destruct (isDeleted y) eqn:Ed; [done|].
    assert (y ∈ @nil dsItem) as Hy by (by apply He). by apply not_elem_of_nil in Hy.
  - destruct (proj1 (He y) ltac:(by left)) as [-> ->]. done.
  - exfalso. destruct (proj1 (He y) ltac:(by left)) as [Hy _].
    destruct (proj1 (He z) ltac:(by right; left)) as [Hz _]. assert (y = z) as -> by congruence.
    apply StronglySorted_inv in Hk as [_ HF%Forall_cons]. destruct HF as [HF _]. border.
Qed.

Lemma filter_ext_elem (P Q : dsItem -> Prop) `{!forall x, Decision (P x), !forall x, Decision (Q x)} (l : list dsItem) :
  (forall x, x ∈ l -> P x <-> Q x) -> filter P l = filter Q l.
Proof.
  induction l as [|x l IH]; intros HPQ; [done|]. rewrite !filter_cons, IH by (intros y Hy; apply HPQ; by right).
  pose proof (HPQ x ltac:(by left)). repeat case_decide; tauto.
Qed.

(** Splitting a sorted list at [p]. *)
Lemma split_at p l :
  sorted_items l -> exists l1 l2, l = l1 ++ l2 /\
    (forall z, z ∈ l1 -> byKeys z p = true) /\ (forall z, z ∈ l2 -> byKeys z p = false).
Proof.
  induction 1 as [|x l Hl IH HF].
  { exists [], []. split_and!; [done|by intros ? ?%not_elem_of_nil..]. }
  destruct (byKeys x p) eqn:E.
  - destruct IH as (l1 & l2 & -> & H1 & H2). exists (x :: l1), l2. split_and!; [done| |done].
    intros z [->|Hz]%elem_of_cons; auto.
  - exists [], (x :: l). split_and!; [done|by intros ? ?%not_elem_of_nil|].
    intros z [->|Hz]%elem_of_cons; [done|]. rewrite Forall_forall in HF. specialize (HF z Hz).
    apply not_true_iff_false. intros Hzp. pose proof (less_trans _ _ _ HF Hzp). congruence.
Qed.

Section split.
Context (vis : list dsItem) (Hvis : ksorted vis).

(** The entries behind [a] begin with those of the next key. *)
Lemma split_fwd a b :
  a ≺ b -> (forall z, z ∈ vis -> a ≺ kd z -> b ⪯ kd z) ->
  filter (fun i => a ≺ kd i) vis = filter (fun i => kd i = b) vis ++ filter (fun i => b ≺ kd i) vis.
Proof.
  intros Hab. induction Hvis as [|z r Hr IH HF]; intros H; [done|].
  rewrite !filter_cons. specialize (IH Hr ltac:(intros y Hy; apply H; by right)).
  pose proof (H z ltac:(by left)) as Hz. rewrite Forall_forall in HF.
  destruct (decide (a ≺ kd z)) as [Ha|Ha].
  - specialize (Hz Ha). destruct (decide (kd z = b)) as [Hb|Hb].
    + rewrite (decide_False (P := b ≺ kd z)) by border. simpl. by rewrite IH.
    + rewrite decide_True by border. rewrite IH.
      rewrite (proj2 (filter_nil_iff (fun i => kd i = b) r)); [done|].
      intros y Hy. specialize (HF y Hy). border.
  - rewrite !decide_False by border. done.
Qed.

Lemma split_ge b :
  filter (fun i => b ⪯ kd i) vis = filter (fun i => kd i = b) vis ++ filter (fun i => b ≺ kd i) vis.
Proof.
  induction Hvis as [|z r Hr IH HF]; [done|]. rewrite !filter_cons. specialize (IH Hr).
  rewrite Forall_forall in HF. destruct (decide (kd z = b)) as [Hb|Hb].
  - rewrite decide_True by border. rewrite (decide_False (P := b ≺ kd z)) by border. simpl. by rewrite IH.
  - destruct (decide (b ⪯ kd z)) as [Hz|Hz]; [|by rewrite decide_False by border].
    rewrite decide_True by border. rewrite IH.
    rewrite (proj2 (filter_nil_iff (fun i => kd i = b) r)); [done|].
    intros y Hy. specialize (HF y Hy). border.
Qed.

Lemma split_le b :
  filter (fun i => kd i ⪯ b) vis = filter (fun i => kd i ≺ b) vis ++ filter (fun i => kd i = b) vis.
Proof.
  induction Hvis as [|z r Hr IH HF]; [done|]. rewrite !filter_cons. specialize (IH Hr).
  rewrite Forall_forall in HF. destruct (decide (kd z = b)) as [Hb|Hb].
  - rewrite decide_True by border. rewrite (decide_False (P := kd z ≺ b)) by border. rewrite IH.
    rewrite (proj2 (filter_nil_iff (fun i => kd i ≺ b) r)); [done|].
    intros y Hy. specialize (HF y Hy). border.
  - destruct (decide (kd z ⪯ b)) as [Hz|Hz]; [|by rewrite decide_False by border].
    rewrite decide_True by border. simpl. by rewrite IH.
Qed.

Lemma split_bwd a b :
  b ≺ a -> (forall z, z ∈ vis -> kd z ≺ a -> kd z ⪯ b) ->
  filter (fun i => kd i ≺ a) vis = filter (fun i => kd i ≺ b) vis ++ filter (fun i => kd i = b) vis.
Proof.
  intros Hab. induction Hvis as [|z r Hr IH HF]; intros H; [done|].
  rewrite !filter_cons. specialize (IH Hr ltac:(intros y Hy; apply H; by right)).
  pose proof (H z ltac:(by left)) as Hz. rewrite Forall_forall in HF.
  destruct (decide (kd z ≺ a)) as [Ha|Ha].
  - specialize (Hz Ha). destruct (decide (kd z = b)) as [Hb|Hb].
    + rewrite (decide_False (P := kd z ≺ b)) by border. rewrite IH.
      rewrite (proj2 (filter_nil_iff (fun i => kd i ≺ b) r)); [done|].
      intros y Hy. specialize (HF y Hy). border.
    + rewrite decide_True by border. simpl. by rewrite IH.
  - rewrite !decide_False by border. rewrite IH. done.
Qed.

(** The first of a filtered sorted list is its least element. *)
Lemma ksorted_head (P : dsItem -> Prop) `{!forall x, Decision (P x)} y ys :
  filter P vis = y :: ys -> y ∈ vis /\ P y /\ forall z, z ∈ ys -> kd y ≺ kd z.
Proof.
  intros E. assert (y ∈ filter P vis) as [? ?]%list_elem_of_filter by (rewrite E; by left).
  split_and!; [done..|]. pose proof (ksorted_filter P vis Hvis) as Hk. rewrite E in Hk.
  intros z Hz. apply StronglySorted_inv in Hk as [_ HF]. by eapply Forall_forall in HF.
Qed.
End split.

(** ** Movement *)

Section iter.
Context {BI : BTreeG dsItem} {BT : BTreeG dsTxn}
  {LI : BTreeGLaws dsItem dsItem_zero byKeys}.

(** The keys between the iterator's bounds; the empty key, which the operations
    of a transaction hold after a read that found nothing, is not one. *)
Definition rng (iter : iterator) (k : bytes) : bool :=
  ((blen (i_end iter) =? 0)%nat || bool_decide (k ≺ bdata (i_end iter))) &&
  bool_decide (bdata (i_start iter) ⪯ k) && bool_decide (k <> []).

Lemma rng_true iter k :
  rng iter k = true <->
  ((blen (i_end iter) = 0%nat \/ k ≺ bdata (i_end iter)) /\ bdata (i_start iter) ⪯ k) /\ k <> [].
Proof.
  unfold rng. rewrite !andb_true_iff, orb_true_iff, Nat.eqb_eq, !bool_decide_eq_true. done.
Qed.

Lemma valid_rng iter :
  valid iter = (version (cur iter) <=? i_version iter) && negb (isDeleted (cur iter)) && rng iter (kd (cur iter)).
Proof.
  unfold valid, rng.
  assert ((blen (key (cur iter)) =? 0)%nat = negb (bool_decide (kd (cur iter) <> []))) as ->.
  { apply eq_true_iff_eq. rewrite Nat.eqb_eq, blen_zero, negb_true_iff, bool_decide_eq_false.
    change (bdata (key (cur iter))) with (kd (cur iter)). destruct (kd (cur iter)); split; done || naive_solver. }
  rewrite (Z.leb_antisym (i_version iter)).
  assert (lt (key (cur iter)) (i_end iter) = bool_decide (kd (cur iter) ≺ bdata (i_end iter))) as ->.
  { apply eq_true_iff_eq. by rewrite lt_true, bool_decide_eq_true. }
  assert (gte (key (cur iter)) (i_start iter) = bool_decide (bdata (i_start iter) ⪯ kd (cur iter))) as ->.
  { apply eq_true_iff_eq. by rewrite gte_true, bool_decide_eq_true. }
  destruct (bool_decide (kd (cur iter) <> [])), (i_version iter <? version (cur iter)),
    (isDeleted (cur iter)), (blen (i_end iter) =? 0)%nat, (bool_decide (kd (cur iter) ≺ _)),
    (bool_decide (_ ⪯ kd (cur iter))); done.
Qed.

(** [loadLatestItem] moves to the newest item of the key up to the version. *)
Lemma load_loop_spec V fuel p c l1 x l2 :
  sorted_items (l1 ++ x :: l2) -> kd p = kd x -> zip_at c l1 x l2 -> (length l2 < fuel)%nat ->
  exists l1' x' l2', zip (load_loop fuel V p c) l1' x' l2' /\
    l1' ++ x' :: l2' = l1 ++ x :: l2 /\ kd x' = kd x /\
    ran_start (load_loop fuel V p c) = ran_start c /\
    (version x <= V -> snap (l1 ++ x :: l2) V (kd x) = Some x') /\
    (V < version x -> x' = x) /\
    ((forall y, head l2 = Some y -> kd y <> kd x) -> x' = x /\ l1' = l1 /\ l2' = l2).
Proof.
  revert c l1 x l2. induction fuel as [|fuel IH]; intros c l1 x l2 Hs Hp Hz Hf; [lia|].
  assert (forall y, y ∈ l1 -> kd y = kd x -> version y <= version x) as Hl1.
  { intros y Hy Hk. apply StronglySorted_app in Hs as (Hs & _ & _).
    specialize (Hs y x Hy ltac:(by left)). apply byKeys_true in Hs as [?|[_ ?]]; [border|lia]. }
  assert ((forall y, y ∈ l2 -> kd y = kd x -> V < version y) ->
    version x <= V -> snap (l1 ++ x :: l2) V (kd x) = Some x) as Hsnap.
  { intros H2 Hv. apply snap_Some; [done|]. split_and!; [apply elem_of_app; right; by left|done..|].
    intros y Hy Hk Hvy. apply elem_of_app in Hy as [Hy|Hy]; [by apply Hl1|].
    apply elem_of_cons in Hy as [->|Hy]; [lia|]. specialize (H2 y Hy Hk). lia. }
  assert (forall y, y ∈ l2 -> kd x ⪯ kd y /\ (kd y = kd x -> version x < version y)) as Hl2.
  { intros y Hy. apply StronglySorted_app in Hs as (_ & _ & Hs).
    pose proof (sorted_head_lt byKeys x l2 y Hs Hy) as H. apply byKeys_true in H as [H|[E ?]].
    - split; [by apply bytes_lt_le|]. intros E. border.
    - rewrite E. split; [apply bytes_le_refl|done]. }
  cbn [load_loop]. destruct l2 as [|y l2].
  - destruct (zip_at_Next_nil c l1 x Hz) as (Hok & Hz' & Hr). destruct (c_Next c) as [ok c'].
    simpl in *. subst ok. exists l1, x, []. split_and!; try done.
    intros Hv. apply Hsnap; [|done]. by intros y ?%not_elem_of_nil.
  - destruct (zip_Next c l1 x y l2 (zip_at_zip _ _ _ _ Hz)) as (Hok & Hz' & Hr).
    destruct (c_Next c) as [ok c']. cbn [fst snd] in *. subst ok.
    assert (c_Item c' = y) as -> by apply Hz'.
    destruct (zip_Prev c' l1 x y l2 (zip_at_zip _ _ _ _ Hz')) as (_ & Hzp & Hrp).
    pose proof (Hl2 y ltac:(by left)) as [Hky Hvy].
    assert (forall z, z ∈ y :: l2 -> kd z = kd x -> V < version y \/ kd y <> kd x -> V < version z) as Hz2.
    { intros z [->|Hzl]%elem_of_cons Hk [Hgt|Hne]; [done|done| |].
      - apply StronglySorted_app in Hs as (_ & _ & [Hs _]%StronglySorted_inv).
        pose proof (sorted_head_lt byKeys y l2 z Hs Hzl) as Hyz. apply byKeys_true in Hyz as [?|[_ ?]]; [border|lia].
      - apply StronglySorted_app in Hs as (_ & _ & [Hs _]%StronglySorted_inv).
        pose proof (sorted_head_lt byKeys y l2 z Hs Hzl) as Hyz. apply byKeys_true in Hyz as [?|[? _]]; border. }
    destruct (bytes_Equal (key p) (key y)) eqn:Ek; cbn [negb].
    + apply bytes_Equal_true in Ek. change (kd p = kd y) in Ek.
      destruct (Z.ltb_spec V (version y)) as [Hv|Hv].
      * exists l1, x, (y :: l2). split_and!; try done; [by apply zip_at_zip|congruence|].
        intros Hx. apply Hsnap; [|done]. intros z Hzl Hk. apply (Hz2 z Hzl Hk). by left.
      * destruct (IH c' (l1 ++ [x]) y l2) as (l1' & x' & l2' & Hzl & El & Ekx & Er & Hsn & Hgt & _);
          [by rewrite <- (assoc_L (++))|done|done|simpl in Hf; lia|].
        rewrite <- (assoc_L (++)) in El, Hsn. simpl in El, Hsn.
        exists l1', x', l2'. split_and!; [done..|congruence|congruence| | |].
        -- intros _. replace (kd x) with (kd y) by congruence. by apply Hsn.
        -- intros Hx. specialize (Hvy ltac:(congruence)). lia.
        -- intros H. destruct (H y eq_refl). congruence.
    + apply bytes_Equal_false in Ek. change (kd p <> kd y) in Ek.
      exists l1, x, (y :: l2). split_and!; try done; [by apply zip_at_zip|congruence|].
      intros Hx. apply Hsnap; [|done]. intros z Hzl Hk. apply (Hz2 z Hzl Hk). right. congruence.
Qed.

(** A later key is further back in the list. *)
Lemma zip_behind l1 x l2 l1' y l2' :
  sorted_items (l1 ++ x :: l2) -> l1 ++ x :: l2 = l1' ++ y :: l2' -> kd x ≺ kd y ->
  (length l2' < length l2)%nat /\ (length l1 < length l1')%nat.
Proof.
  intros Hs E Hk. pose proof (f_equal length E) as Hlen. rewrite !length_app in Hlen. simpl in Hlen.
  enough (length l1 < length l1')%nat by lia.
  destruct (decide (length l1' = length l1)) as [Heq|Hne].
  { apply app_inj_1 in E as [_ [= -> _]]; [|done]. by destruct (bytes_lt_irrefl (kd y)). }
  destruct (Nat.lt_ge_cases (length l1) (length l1')); [done|exfalso].
  assert (y ∈ l1) as Hy.
  { apply (list_elem_of_lookup_2 _ (length l1')). rewrite <- (lookup_app_l l1 (x :: l2)) by lia.
    by rewrite E, list_lookup_middle. }
  apply StronglySorted_app in Hs as (Hs & _ & _). specialize (Hs y x Hy ltac:(by left)).
  apply byKeys_true in Hs as [?|[? _]]; border.
Qed.

(** ** One iterator

    [iter] fixes the iterator's tree, version and bounds; the cursor varies. *)

Section moves.
Context (iter : iterator).
Notation l := (items (i_values iter)).
Notation V := (i_version iter).
Notation vis := (visible l V).

(** What [newPrefixIter] stored for the work-around of the cursor's defect. *)
Definition bounds_ok : Prop :=
  (kd (i_lastItem iter) = [] \/ last l = Some (i_lastItem iter)) /\
  (kd (i_firstItem iter) = [] \/ head l = Some (i_firstItem iter)).

Context (Hbounds : bounds_ok).

Lemma l_sorted : sorted_items l.
Proof. apply items_sorted. Qed.
Lemma vis_sorted : ksorted vis.
Proof. apply visible_ksorted, l_sorted. Qed.
Hint Resolve l_sorted vis_sorted : core.

Lemma vis_elem y : y ∈ vis -> y ∈ l /\ version y <= V /\ isDeleted y = false.
Proof.
  intros [Hy ?]%elem_of_visible. apply snap_Some_1 in Hy as (Hy & _ & ?). auto.
Qed.

Lemma zip_elem c l1 x l2 : cur_items c = l -> zip c l1 x l2 -> x ∈ l /\ l = l1 ++ x :: l2.
Proof.
  intros Hl (Hi & _). rewrite <- Hl, Hi. split; [|done]. apply elem_of_app. right. by left.
Qed.

Lemma loadLatestItem_spec c l1 x l2 :
  cur_items c = l -> zip_at c l1 x l2 ->
  exists c' l1' x' l2', loadLatestItem (set_it c iter) = set_it c' iter /\
    zip c' l1' x' l2' /\ cur_items c' = l /\ kd x' = kd x /\ ran_start c' = ran_start c /\
    (version x <= V -> snap l V (kd x) = Some x') /\ (V < version x -> x' = x) /\
    ((forall y, head l2 = Some y -> kd y <> kd x) -> x' = x /\ l1' = l1 /\ l2' = l2).
Proof.
  intros Hl Hz. pose proof (zip_elem c l1 x l2 Hl (zip_at_zip _ _ _ _ Hz)) as [Hx El].
  unfold loadLatestItem, cur. cbn [set_it i_it i_reverse i_lastItem i_version i_values].
  assert (c_Item c = x) as -> by apply Hz. destruct (_ && _) eqn:E.
  - rewrite !andb_true_iff in E. destruct E as [[[_ Hk] Hv%Z.eqb_eq] Hkx%bytes_Equal_true].
    apply negb_true_iff, Nat.eqb_neq in Hk. rewrite blen_zero in Hk.
    destruct Hbounds as [[?|Hlast] _]; [done|].
    assert (i_lastItem iter = x) as Ex.
    { apply (sorted_items_inj l); [done|by eapply last_Some_elem_of|done..]. }
    rewrite Ex in Hlast.
    assert (l2 = []) as ->.
    { destruct l2 as [|y l2] using rev_ind; [done|]. exfalso. clear IHl2.
      rewrite El, app_comm_cons, (assoc_L (++)), last_snoc in Hlast. injection Hlast as ->.
      pose proof l_sorted as Hs. rewrite El in Hs. apply StronglySorted_app in Hs as (_ & _ & Hs).
      pose proof (sorted_head_lt byKeys x _ x Hs ltac:(apply elem_of_app; right; by left)) as H.
      by rewrite less_irrefl in H. }
    exists c, l1, x, []. split_and!; try done; [by apply zip_at_zip|].
    intros Hvx. apply snap_Some; [done|]. split_and!; try done. intros y Hy Hky _.
    rewrite El in Hy. apply elem_of_app in Hy as [Hy|[->|Hy]%elem_of_cons]; [|lia|by apply not_elem_of_nil in Hy].
    pose proof l_sorted as Hs. rewrite El in Hs. apply StronglySorted_app in Hs as (Hs & _ & _).
    specialize (Hs y x Hy ltac:(by left)). apply byKeys_true in Hs as [?|[_ ?]]; [border|lia].
  - clear E. pose proof l_sorted as Hs. rewrite El in Hs.
    destruct (load_loop_spec V (S (bt_Len (i_values iter))) x c l1 x l2 Hs eq_refl Hz)
      as (l1' & x' & l2' & Hz' & El' & Hk & Hr & Hsn & Hgt & Hst).
    { rewrite Len_items, El, length_app. simpl. lia. }
    rewrite <- El in Hsn, El'.
    do 4 eexists. split; [done|]. split_and!; try done. destruct Hz' as (E & _). by rewrite E.
Qed.

Lemma loadLatestItem_items c :
  exists c', loadLatestItem (set_it c iter) = set_it c' iter /\ cur_items c' = cur_items c.
Proof.
  unfold loadLatestItem. destruct (_ && _); [by exists c|]. eexists; split; [reflexivity|].
  change (i_it (set_it c iter)) with c. change (i_version (set_it c iter)) with V.
  generalize (cur (set_it c iter)) as p. intros p.
  generalize (S (bt_Len (i_values (set_it c iter)))) as fuel. intros fuel.
  revert c. induction fuel as [|fuel IH]; intros c; [done|]. cbn [load_loop].
  pose proof (Next_items c) as Hn. destruct (c_Next c) as [ok c']. cbn [snd] in Hn.
  pose proof (Prev_items c') as Hp. destruct ok; [|done].
  destruct (negb _); [congruence|]. destruct (_ <? _); [congruence|]. by rewrite IH.
Qed.

(** The result of a movement after which the entries [E] are to come: its
    first one, if any, becomes the current item; else the cursor is in a state [fin]. *)
Definition yields (rem : iterG dsItem -> list dsItem -> Prop) (fin : iterG dsItem -> Prop)
    (E : list dsItem) (r : result bool * iterator) : Prop :=
  exists c, match E with
    | [] => r = (Ok false, set_it c iter) /\ fin c
    | e :: E' => r = (Ok true, set_it c iter) /\ c_Item c = e /\ rem c E'
    end.

(** *** Forward *)

Section forward.
Context (Hfwd : i_reverse iter = false).

(** The cursor stands before the entries [ys]. *)
Definition fwd_pos (c : iterG dsItem) (ys : list dsItem) : Prop :=
  cur_items c = l /\
  ((exists l1 x l2, zip c l1 x l2 /\ ran_start c = false /\
     ys = filter (fun i => kd x ≺ kd i) vis) \/
   (dead c /\ ys = [])).

Lemma moveNext_fwd c : moveNext (set_it c iter) = ((c_Next c).1, set_it (c_Next c).2 iter).
Proof. unfold moveNext. simpl. rewrite Hfwd. by destruct (c_Next c). Qed.

Lemma dead_skip fuel p c :
  cur_items c = l -> dead c -> exists c', skip_loop (S fuel) p (set_it c iter) = (false, set_it c' iter) /\
    cur_items c' = l /\ dead c'.
Proof.
  intros Hl Hd. destruct (dead_Next c Hd) as [Hok Hd']. exists (c_Next c).2.
  cbn [skip_loop]. rewrite moveNext_fwd, Hok. split_and!; try done. by rewrite Next_items.
Qed.

(** The search for the next key. *)
Lemma skip_fwd fuel p c l1 x l2 :
  cur_items c = l -> zip c l1 x l2 -> ran_start c = false -> kd p ⪯ kd x ->
  (kd p <> kd x -> V < version x) -> (length l2 < fuel)%nat ->
  exists c', cur_items c' = l /\ ran_start c' = false /\
  ((skip_loop fuel p (set_it c iter) = (false, set_it c' iter) /\
     (exists l1' x', zip c' l1' x' []) /\
     forall y, y ∈ l2 -> kd y = kd p \/ V < version y) \/
   (skip_loop fuel p (set_it c iter) = (true, set_it c' iter) /\
     exists l1' y l2', zip_at c' l1' y l2' /\ kd p ≺ kd y /\ version y <= V /\
       forall z, z ∈ l2 -> version z <= V -> kd p ≺ kd z -> kd y ⪯ kd z)).
Proof.
  revert c l1 x l2. induction fuel as [|fuel IH]; intros c l1 x l2 Hl Hz Hr Hpx Hvx Hf; [lia|].
  cbn [skip_loop]. rewrite moveNext_fwd. pose proof (zip_elem c l1 x l2 Hl Hz) as [_ El].
  pose proof l_sorted as Hs. rewrite El in Hs. apply StronglySorted_app in Hs as (_ & _ & Hs).
  destruct l2 as [|y l2].
  - destruct (zip_Next_nil c l1 x Hz Hr) as (-> & Hz' & Hr').
    exists (c_Next c).2. rewrite Next_items. split_and!; try done. left.
    split_and!; [done|eauto|]. by intros y ?%not_elem_of_nil.
  - destruct (zip_Next c l1 x y l2 Hz) as (-> & Hz' & Hr').
    assert (cur (set_it (c_Next c).2 iter) = y) as -> by apply Hz'. cbn [i_version set_it].
    rewrite Hr in Hr'.
    assert (cur_items (c_Next c).2 = l) as Hl' by (by rewrite Next_items).
    pose proof (sorted_head_lt byKeys x (y :: l2) y Hs ltac:(by left)) as Hxy.
    apply byKeys_true in Hxy.
    assert (kd p ⪯ kd y) as Hpy by (destruct Hxy as [?|[<- _]]; [border|done]).
    destruct (bytes_Equal (key p) (key y)) eqn:Ek; cbn [negb andb].
    + apply bytes_Equal_true in Ek. change (kd p = kd y) in Ek.
      destruct (IH (c_Next c).2 (l1 ++ [x]) y l2) as (c' & Hc' & Hrc & H);
        [done|by apply zip_at_zip|done|done|done|simpl in Hf; lia|].
      exists c'. split_and!; try done. destruct H as [(E & Hn & H)|(E & l1' & w & l2' & ? & ? & ? & H)].
      * left. split_and!; try done. intros z [->|Hz2]%elem_of_cons; [by left|auto].
      * right. split; [done|]. exists l1', w, l2'. split_and!; try done.
        intros z [->|Hz2]%elem_of_cons ? ?; [border|auto].
    + apply bytes_Equal_false in Ek. change (kd p <> kd y) in Ek.
      destruct (Z.leb_spec (version y) V) as [Hv|Hv].
      * exists (c_Next c).2. split_and!; try done. right. split; [done|].
        exists (l1 ++ [x]), y, l2. split_and!; try done; [border|].
        intros z [->|Hz2]%elem_of_cons _ _; [apply bytes_le_refl|].
        apply StronglySorted_inv in Hs as [Hs _].
        pose proof (sorted_head_lt byKeys y l2 z Hs Hz2) as Hyz. apply byKeys_true in Hyz as [?|[-> _]];
          [by apply bytes_lt_le|apply bytes_le_refl].
      * destruct (IH (c_Next c).2 (l1 ++ [x]) y l2) as (c' & Hc' & Hrc & H);
          [done|by apply zip_at_zip|done|done|done|simpl in Hf; lia|].
        exists c'. split_and!; try done. destruct H as [(E & Hn & H)|(E & l1' & w & l2' & ? & ? & ? & H)].
        -- left. split_and!; try done. intros z [->|Hz2]%elem_of_cons; [by right|auto].
        -- right. split; [done|]. exists l1', w, l2'. split_and!; try done.
           intros z [->|Hz2]%elem_of_cons ? ?; [lia|auto].
Qed.

(** After [x], the visible entries with larger keys are the ones behind it. *)
Lemma vis_behind l1 x l2 z : l = l1 ++ x :: l2 -> z ∈ vis -> kd x ≺ kd z -> z ∈ l2.
Proof.
  intros El (Hz & _)%vis_elem Hk. pose proof l_sorted as Hs. rewrite El in Hz, Hs.
  apply elem_of_app in Hz as [Hz|[->|Hz]%elem_of_cons]; [|by destruct (bytes_lt_irrefl (kd x))|done].
  apply StronglySorted_app in Hs as (Hs & _ & _). specialize (Hs z x Hz ltac:(by left)).
  apply byKeys_true in Hs as [?|[? _]]; border.
Qed.

(** What a step of the iterator does when the entries [ys] are ahead. *)
Definition fwd_post (ys : list dsItem) (r : result bool * iterator) : Prop :=
  exists c b, r = (Ok b, set_it c iter) /\
    match ys with
    | [] => b = false /\ fwd_pos c []
    | y :: ys' => b = rng iter (kd y) /\ c_Item c = y /\ fwd_pos c ys'
    end.

Lemma next_fwd_zip fuel d c l1 x l2 :
  closed d = false -> cur_items c = l -> zip c l1 x l2 -> ran_start c = false ->
  (length l2 < fuel)%nat ->
  fwd_post (filter (fun i => kd x ≺ kd i) vis) (next_loop fuel d (set_it c iter)).
Proof.
  intros Hc. revert c l1 x l2. induction fuel as [|fuel IH]; intros c l1 x l2 Hl Hz Hr Hf; [lia|].
  cbn [next_loop]. assert (cur (set_it c iter) = x) as -> by apply Hz. cbn [i_values set_it].
  pose proof (zip_elem c l1 x l2 Hl Hz) as [_ El].
  destruct (skip_fwd (S (bt_Len (i_values iter))) x c l1 x l2) as (c1 & Hl1 & Hr1 & H);
    [done|done|done|apply bytes_le_refl|done|rewrite Len_items, El, length_app; simpl; lia|].
  destruct H as [(-> & (l1' & x' & Hz1) & Hn)|(-> & l1' & y & l2' & Hz1 & Hk & Hv & Hmin)]; cbn [negb].
  - assert (filter (fun i => kd x ≺ kd i) vis = []) as ->.
    { apply filter_nil_iff. intros z Hzv Hkz. pose proof (vis_behind _ _ _ z El Hzv Hkz) as Hz2.
      apply vis_elem in Hzv as (_ & ? & _). destruct (Hn z Hz2); [border|lia]. }
    exists c1, false. split_and!; try done. split; [done|left]. exists l1', x', []. split_and!; try done.
    symmetry. apply filter_nil_iff. intros z Hzv Hkz.
    pose proof (zip_elem c1 l1' x' [] Hl1 Hz1) as [_ El1].
    pose proof (vis_behind _ _ _ z El1 Hzv Hkz) as Hz2. by apply not_elem_of_nil in Hz2.
  - destruct (loadLatestItem_spec c1 l1' y l2' Hl1 Hz1)
      as (c2 & l1'' & y' & l2'' & -> & Hz2 & Hl2 & Hky & Hr2 & Hsn & _ & _).
    specialize (Hsn Hv). rewrite Hr1 in Hr2.
    assert (cur (set_it c2 iter) = y') as Hcur by apply Hz2. rewrite Hcur.
    pose proof (zip_elem _ _ _ _ Hl2 Hz2) as [Hy' El2].
    rewrite (split_fwd vis vis_sorted (kd x) (kd y')).
    2: { by rewrite Hky. }
    2: { intros z Hzv Hkz. rewrite Hky. apply Hmin; [by eapply vis_behind|by apply vis_elem|done]. }
    rewrite visible_key, Hky, Hsn by done. destruct (isDeleted y') eqn:Ed.
    + rewrite Hc. cbn [app]. rewrite <- Hky. apply (IH c2 l1'' y' l2''); try done.
      enough (length l2'' < length l2)%nat by lia. pose proof l_sorted as Hs. rewrite El in Hs.
      eapply (zip_behind l1 x l2 l1'' y'); [done|congruence|by rewrite Hky].
    + exists c2, (rng iter (kd y')). split.
      * f_equal. rewrite valid_rng, Hcur, Ed.
        apply snap_Some_1 in Hsn as (_ & _ & Hle). cbn [i_version set_it].
        rewrite (proj2 (Z.leb_le _ _) Hle). done.
      * split_and!; [done|apply Hz2|]. split; [done|left]. exists l1'', y', l2''. by rewrite Hky.
Qed.

Lemma next_fwd d c ys : closed d = false -> fwd_pos c ys -> fwd_post ys (next_from d (set_it c iter)).
Proof.
  intros Hc [Hl [(l1 & x & l2 & Hz & Hr & ->)|[Hd ->]]].
  - apply (next_fwd_zip _ d c l1 x l2); try done. pose proof (zip_elem _ _ _ _ Hl Hz) as [_ El].
    cbn [i_values set_it]. rewrite Len_items, El, length_app. simpl. lia.
  - unfold next_from. cbn [next_loop].
    destruct (dead_skip (bt_Len (i_values iter)) (cur (set_it c iter)) c Hl Hd) as (c' & E & Hl' & Hd').
    cbn [i_values set_it]. rewrite E. cbn [negb]. exists c', false. split_and!; try done. split; [done|by right].
Qed.

(** The iterator will yield the entries [E]. *)
Definition fwd_rem (c : iterG dsItem) (E : list dsItem) : Prop :=
  exists ys, fwd_pos c ys /\ ksorted ys /\ (forall y, y ∈ ys -> bdata (i_start iter) ⪯ kd y /\ kd y <> []) /\
    E = filter (fun i => rng iter (kd i) = true) ys.

(** It has nothing more to yield. *)
Definition fwd_done (c : iterG dsItem) : Prop := fwd_rem c [].

Lemma fwd_post_yields ys r :
  ksorted ys -> (forall y, y ∈ ys -> bdata (i_start iter) ⪯ kd y /\ kd y <> []) -> fwd_post ys r ->
  yields fwd_rem fwd_done (filter (fun i => rng iter (kd i) = true) ys) r.
Proof.
  intros Hs Hst (c & b & -> & H). exists c. destruct ys as [|y ys].
  { destruct H as [-> H]. split; [done|]. by exists []. }
  destruct H as (-> & Hi & H). pose proof Hs as [Hs' HF]%StronglySorted_inv.
  rewrite Forall_forall in HF.
  assert (fwd_rem c (filter (fun i => rng iter (kd i) = true) ys)) as Hrem.
  { exists ys. split_and!; try done. intros z Hz. apply Hst. by right. }
  rewrite filter_cons. destruct (rng iter (kd y)) eqn:E; [by rewrite decide_True|].
  rewrite decide_False by done.
  assert (filter (fun i => rng iter (kd i) = true) ys = []) as E0; [|by rewrite E0 in *].
  apply filter_nil_iff. intros z Hz Hr. apply not_true_iff_false in E. apply E.
  specialize (HF z Hz). destruct (Hst y ltac:(by left)). apply rng_true.
  apply rng_true in Hr as [[Hr _] _]. split_and!; [|done..].
  destruct Hr as [?|Hr]; [by left|right]. border.
Qed.

Context (Hreset : i_reset iter = false).

(** The second half of [seek] and [restart], once the cursor has landed on [x]. *)
Lemma land_fwd d c l1 x l2 (Q : dsItem -> Prop) {HQd : forall y, Decision (Q y)} :
  closed d = false -> cur_items c = l -> zip_at c l1 x l2 -> ran_start c = false ->
  bdata (i_start iter) ⪯ kd x -> (forall z, z ∈ vis -> kd z <> [] -> Q z <-> z ∈ x :: l2) ->
  yields fwd_rem fwd_done (filter (fun i => rng iter (kd i) = true) (filter Q vis))
    (let it := loadLatestItem (set_it c iter) in
     if negb (valid it) then next_from d it else (Ok true, it)).
Proof.
  intros Hc Hl Hz Hr Hst HQ.
  pose proof (zip_elem c l1 x l2 Hl (zip_at_zip _ _ _ _ Hz)) as [Hx El].
  pose proof l_sorted as Hs. rewrite El in Hs. apply StronglySorted_app in Hs as (_ & _ & Hs).
  assert (forall z, z ∈ l2 -> kd x ≺ kd z \/ (kd z = kd x /\ version x < version z)) as Hgt2.
  { intros z Hz2. pose proof (sorted_head_lt byKeys x l2 z Hs Hz2) as H. apply byKeys_true in H as [?|[-> ?]]; auto. }
  destruct (loadLatestItem_spec c l1 x l2 Hl Hz)
    as (c' & l1' & x' & l2' & -> & Hz' & Hl' & Hkd & Hr' & Hsn & Hgt & _).
  rewrite Hr in Hr'. cbv zeta. assert (cur (set_it c' iter) = x') as Hcur by apply Hz'.
  assert (filter (fun i => rng iter (kd i) = true) (filter Q vis) =
    (if version x <=? V then filter (fun i => rng iter (kd i) = true) (filter (fun i => kd i = kd x) vis) else []) ++
    filter (fun i => rng iter (kd i) = true) (filter (fun i => kd x ≺ kd i) vis)) as ->.
  { destruct (Z.leb_spec (version x) V) as [Hv|Hv].
    - rewrite <- filter_app, <- split_ge by apply vis_sorted. rewrite !list_filter_filter. apply filter_ext_elem.
      intros z Hzv. split; intros [Hrz Hk]; (split; [done|]); apply rng_true in Hrz as [_ Hne].
      + apply HQ in Hk as [->|Hz2]%elem_of_cons; [apply bytes_le_refl| |done..].
        destruct (Hgt2 z Hz2) as [?|[-> _]]; [by apply bytes_lt_le|apply bytes_le_refl].
      + apply HQ; [done..|]. destruct (decide (kd z = kd x)) as [E|E]; [|right; eapply vis_behind; [done..|border]].
        destruct (decide (z = x)) as [->|Hzx]; [by left|right].
        apply elem_of_visible in Hzv as [Hzs _]. pose proof Hzs as (Hzl & _)%snap_Some_1. rewrite El in Hzl.
        apply elem_of_app in Hzl as [Hzl|[?|?]%elem_of_cons]; [exfalso|done..].
        apply (snap_Some _ _ _ _ l_sorted) in Hzs as (_ & _ & _ & Hmax).
        specialize (Hmax x Hx (eq_sym E) Hv). pose proof l_sorted as Hs0. rewrite El in Hs0.
        apply StronglySorted_app in Hs0 as (H & _ & _). specialize (H z x Hzl ltac:(by left)).
        apply byKeys_true in H as [?|[_ ?]]; [border|lia].
    - rewrite !list_filter_filter. apply filter_ext_elem.
      intros z Hzv. split; intros [Hrz Hk]; (split; [done|]); apply rng_true in Hrz as [_ Hne].
      + apply HQ in Hk as [->|Hz2]%elem_of_cons; [|destruct (Hgt2 z Hz2) as [?|[? ?]]; [done|]|done..];
          apply vis_elem in Hzv as (_ & ? & _); lia.
      + apply HQ; [done..|]. right. by eapply vis_behind. }
  assert (forall z, z ∈ filter (fun i => kd x ≺ kd i) vis -> bdata (i_start iter) ⪯ kd z /\ kd z <> []) as Hst'.
  { intros z [? _]%list_elem_of_filter. split; [border|]. intros E. rewrite E in *.
    by apply (bytes_lt_nil (kd x)). }
  assert (ksorted (filter (fun i => kd x ≺ kd i) vis)) as Hks by (by apply ksorted_filter).
  assert (fwd_pos c' (filter (fun i => kd x ≺ kd i) vis)) as Hpos.
  { split; [done|left]. exists l1', x', l2'. by rewrite Hkd. }
  pose proof (fwd_post_yields _ _ Hks Hst' (next_fwd d c' _ Hc Hpos)) as Hnext.
  rewrite valid_rng, Hcur, Hkd.
  change (i_version (set_it c' iter)) with V. change (rng (set_it c' iter)) with (rng iter).
  destruct (Z.leb_spec (version x) V) as [Hv|Hv].
  - rewrite visible_key, (Hsn Hv) by done. pose proof (Hsn Hv) as (_ & _ & Hv')%snap_Some_1.
    rewrite (proj2 (Z.leb_le _ _) Hv'). destruct (isDeleted x') eqn:Ed; [done|]. simpl.
    rewrite filter_cons, filter_nil, Hkd. destruct (rng iter (kd x)) eqn:Er; [|done]. simpl.
    exists c'. split_and!; [done..|]. by eexists.
  - rewrite (Hgt Hv), (proj2 (Z.leb_gt _ _) Hv). done.
Qed.

(** The version [seek] looks for, [iter.version] unless the key is there. *)
Definition seek_version (k : slice) : Z :=
  let r := get (i_values iter) k V in
  if negb (is_nil (key r)) && negb (isDeleted r) then version r else V.

Lemma seek_version_spec k z :
  z ∈ vis -> kd z = bdata k -> kd z <> [] -> version z = seek_version k.
Proof.
  unfold seek_version. intros [Hz Hd]%elem_of_visible Hk Hne. rewrite get_snap, <- Hk, Hz. simpl.
  unfold kd in Hne. rewrite Hd. by destruct (key z).
Qed.

Definition fresh_cur (c : iterG dsItem) : Prop :=
  cur_items c = l /\ (l = [] \/ ran_start c = false).

Lemma fwd_rem_dead c : cur_items c = l -> dead c -> fwd_rem c [].
Proof.
  intros Hl Hd. exists []. split_and!; [|constructor|by intros ? ?%not_elem_of_nil|done].
  split; [done|by right].
Qed.

(** A forward [seek] goes to the key, or to [start] when that is larger, and
    there to the version it looked up for the key: an older entry of [start] is
    passed over. *)
Lemma seek_fwd_at d c k :
  closed d = false -> fresh_cur c ->
  yields fwd_rem fwd_done
    (filter (fun i => rng iter (kd i) = true)
      (filter (fun i => bdata k ⪯ kd i /\
        (bdata k ≺ bdata (i_start iter) -> kd i = bdata (i_start iter) -> seek_version k <= version i)) vis))
    (seek d (set_it c iter) k).
Proof.
  intros Hc [Hl Hr]. unfold seek.
  assert (set_reset false (set_it c iter) = set_it c iter) as -> by (unfold set_reset, set_it; by rewrite <- Hreset).
  cbv zeta. change (i_values (set_it c iter)) with (i_values iter).
  change (i_version (set_it c iter)) with V. change (i_reverse (set_it c iter)) with (i_reverse iter).
  rewrite Hfwd. change (if negb _ && negb _ then _ else _) with (seek_version k).
  unfold seek_forward. change (i_start (set_it c iter)) with (i_start iter).
  change (i_it (set_it c iter)) with c.
  set (t := if _ && lt k _ then _ else _).
  assert (bdata (i_start iter) ⪯ bdata t /\ bdata k ⪯ bdata t /\
    (bdata t = bdata k /\ bdata (i_start iter) ⪯ bdata k \/ bdata t = bdata (i_start iter) /\ bdata k ≺ bdata (i_start iter)))
    as (Hst & Htk & Ht).
  { unfold t. destruct (negb (is_nil (i_start iter)) && lt k (i_start iter)) eqn:E.
    - apply andb_true_iff in E as [_ E%lt_true]. split_and!; [apply bytes_le_refl|by apply bytes_lt_le|by right].
    - assert (bdata (i_start iter) ⪯ bdata k) as H; [|split_and!; [done|apply bytes_le_refl|by left]].
      apply andb_false_iff in E as [E|E%lt_false]; [|done]. destruct (i_start iter); [done|apply bytes_nil_le]. }
  clearbody t. set (p := mk_dsItem t (seek_version k) None false false).
  assert (filter (fun i => rng iter (kd i) = true) (filter (fun i => bdata k ⪯ kd i /\
        (bdata k ≺ bdata (i_start iter) -> kd i = bdata (i_start iter) -> seek_version k <= version i)) vis) =
      filter (fun i => rng iter (kd i) = true) (filter (fun i => byKeys i p = false) vis)) as ->.
  { rewrite !list_filter_filter. apply filter_ext_elem. intros z Hz. rewrite byKeys_false.
    change (kd p) with (bdata t). change (version p) with (seek_version k).
    assert (rng iter (kd z) = true -> kd z = bdata k -> version z = seek_version k) as Hver.
    { intros [_ Hne]%rng_true E. by apply seek_version_spec. }
    split; (intros [Hrz H]; split; [done|]; pose proof Hrz as [[_ Hzs] Hne]%rng_true).
    - destruct H as [Hkz Hv]. destruct (decide (kd z = bdata t)) as [E|E].
      + right. split; [done|]. destruct Ht as [[Ht _]|[Ht Hlt]]; [rewrite Hver; [lia|done|congruence]|].
        apply Hv; [done|congruence].
      + left. destruct Ht as [[Ht _]|[Ht _]]; border.
    - split; [destruct H as [H|[H _]]; border|]. intros Hks E. destruct H as [H|[_ ?]]; [|done].
      destruct Ht as [[Ht ?]|[Ht _]]; border. }
  assert (forall l1 l2, l = l1 ++ l2 -> (forall z, z ∈ l1 -> byKeys z p = true) -> (forall z, z ∈ l2 -> byKeys z p = false) ->
    forall z, z ∈ vis -> kd z <> [] -> byKeys z p = false <-> z ∈ l2) as Hin.
  { intros l1 l2 E H1 H2 z (Hz & _)%vis_elem _. split; [|by apply H2]. intros Hp. rewrite E in Hz.
    apply elem_of_app in Hz as [Hz|?]; [|done]. rewrite (H1 z Hz) in Hp. done. }
  destruct (split_at p l l_sorted) as (l1 & [|x l2] & El & H1 & H2).
  - rewrite (proj2 (filter_nil_iff (fun i => rng iter (kd i) = true) (filter _ vis))).
    2: { intros z [Hk Hz]%list_elem_of_filter [_ Hne]%rng_true.
      apply (Hin l1 [] El H1 H2 z Hz Hne) in Hk. by apply not_elem_of_nil in Hk. }
    rewrite app_nil_r in El.
    assert ((c_Seek c p).1 = false /\ dead (c_Seek c p).2) as [Hok Hd].
    { destruct Hr as [Hr|Hr].
      - split; [apply (empty_moves c p); congruence|]. left. rewrite Seek_items. congruence.
      - apply Seek_dead; [done|]. rewrite Hl, El. done. }
    pose proof (Seek_items c p) as Hl'.
    destruct (c_Seek c p) as [ok c']. cbn [fst snd] in *. subst ok. cbn [negb].
    exists c'. split; [done|]. apply fwd_rem_dead; congruence.
  - destruct Hr as [Hr|Hr]; [by rewrite Hr in El; destruct l1|].
    destruct (zip_Seek c p l1 x l2) as (Hok & Hz & Hr'); [congruence|done|apply H2; by left|].
    pose proof (Seek_items c p) as Hl'.
    destruct (c_Seek c p) as [ok c']. cbn [fst snd] in *. subst ok. cbn [negb].
    change (set_it c' (set_it c iter)) with (set_it c' iter).
    apply (land_fwd d c' l1 x l2); try done; try congruence; [|by eapply Hin].
    pose proof (H2 x ltac:(by left)) as [H|[-> _]]%byKeys_false; [|done]. change (bdata t ≺ kd x) in H. border.
Qed.

Lemma seek_fwd d c k :
  closed d = false -> fresh_cur c -> bdata (i_start iter) ⪯ bdata k ->
  yields fwd_rem fwd_done (filter (fun i => rng iter (kd i) = true) (filter (fun i => bdata k ⪯ kd i) vis))
    (seek d (set_it c iter) k).
Proof.
  intros Hc Hf Hst. pose proof (seek_fwd_at d c k Hc Hf) as H.
  erewrite (filter_ext_elem (fun i => bdata k ⪯ kd i)); [exact H|]. intros z _. split; [|tauto].
  intros ?. split; [done|]. intros ?. border.
Qed.

Lemma restart_fwd d c :
  closed d = false -> fresh_cur c ->
  yields fwd_rem fwd_done (filter (fun i => rng iter (kd i) = true) vis) (restart d (set_it c iter)).
Proof.
  intros Hc Hf. unfold restart.
  assert (set_reset false (set_it c iter) = set_it c iter) as -> by (unfold set_reset, set_it; by rewrite <- Hreset).
  cbv zeta. change (i_reverse (set_it c iter)) with (i_reverse iter).
  change (i_start (set_it c iter)) with (i_start iter). rewrite Hfwd, andb_false_r, andb_true_r.
  destruct (Nat.eqb_spec (blen (i_start iter)) 0) as [Hst|Hst]; cbn [negb].
  - apply blen_zero in Hst. change (i_it (set_it c iter)) with c. destruct Hf as [Hl Hr].
    pose proof (First_items c) as Hl'.
    assert (l = [] \/ exists x l2, l = x :: l2) as [El|(x & l2 & El)] by (destruct l; eauto).
    + destruct (empty_moves c dsItem_zero) as (Hok & _); [congruence|].
      destruct (c_First c) as [ok c1]. cbn [fst snd] in *. subst ok. cbn [negb].
      change (set_it c1 (set_it c iter)) with (set_it c1 iter).
      destruct (loadLatestItem_items c1) as (c2 & -> & Hl2).
      assert (vis = []) as -> by (rewrite El; done). exists c2. split; [done|].
      apply fwd_rem_dead; [congruence|left; congruence].
    + destruct Hr as [Hr|Hr]; [congruence|].
      destruct (zip_First c x l2) as (Hok & Hz & Hr'); [congruence|done|].
      destruct (c_First c) as [ok c1]. cbn [fst snd] in *. subst ok. cbn [negb].
      change (set_it c1 (set_it c iter)) with (set_it c1 iter).
      rewrite (filter_ext_elem (fun i => rng iter (kd i) = true)
        (fun i => rng iter (kd i) = true /\ i ∈ l)), <- list_filter_filter.
      2: { intros z (Hzl & _)%vis_elem. tauto. }
      apply (land_fwd d c1 [] x l2); try done; try congruence; [rewrite Hst; apply bytes_nil_le|].
      intros z _ _. by rewrite El.
  - pose proof (seek_fwd d c (i_start iter) Hc Hf (bytes_le_refl _)) as Hseek.
    rewrite (filter_ext_elem (fun i => rng iter (kd i) = true)
      (fun i => rng iter (kd i) = true /\ bdata (i_start iter) ⪯ kd i)), <- list_filter_filter; [done|].
    intros z _. split; [|tauto]. intros Hz. split; [done|]. by apply rng_true in Hz as [[_ ?] _].
Qed.

End forward.

(** *** Backward, over items that are all old enough *)

Section backward.
Context (Hrev : i_reverse iter = true) (Hle : forall i, i ∈ l -> version i <= V).

Lemma moveNext_rev_nil c x l2 :
  cur_items c = l -> zip c [] x l2 ->
  exists c', moveNext (set_it c iter) = (false, set_it c' iter) /\ cur_items c' = l.
Proof.
  intros Hl Hz. unfold moveNext. change (i_reverse (set_it c iter)) with (i_reverse iter). rewrite Hrev.
  destruct (_ && _); [by exists c|]. change (i_it (set_it c iter)) with c.
  pose proof (zip_Prev_nil c x l2 Hz) as Hok. pose proof (Prev_items c) as Hp.
  destruct (c_Prev c) as [ok c']. cbn [fst snd] in *. subst ok. exists c'. by rewrite Hp.
Qed.

Lemma moveNext_rev c l1 w x l2 :
  cur_items c = l -> zip c (l1 ++ [w]) x l2 ->
  exists c', moveNext (set_it c iter) = (true, set_it c' iter) /\ cur_items c' = l /\
    zip_at c' l1 w (x :: l2).
Proof.
  intros Hl Hz. unfold moveNext. change (i_reverse (set_it c iter)) with (i_reverse iter). rewrite Hrev.
  pose proof (zip_elem c _ x l2 Hl Hz) as [Hx El].
  change (i_firstItem (set_it c iter)) with (i_firstItem iter).
  assert (cur (set_it c iter) = x) as -> by apply Hz. destruct (_ && _) eqn:E.
  - exfalso. rewrite !andb_true_iff in E. destruct E as [[Hk Hv%Z.eqb_eq] Hkx%bytes_Equal_true].
    apply negb_true_iff, Nat.eqb_neq in Hk. rewrite blen_zero in Hk.
    destruct Hbounds as [_ [?|Hhead]]; [done|].
    assert (i_firstItem iter = x) as Ex.
    { apply (sorted_items_inj l); [done|by eapply head_Some_elem_of|done..]. }
    rewrite Ex in Hhead. pose proof l_sorted as Hs. rewrite El in Hs, Hhead.
    apply StronglySorted_app in Hs as (Hs & _ & _).
    assert (x ∈ l1 ++ [w]) as Hxl by (destruct l1; simpl in Hhead; injection Hhead as ->; by left).
    specialize (Hs x x Hxl ltac:(by left)). by rewrite less_irrefl in Hs.
  - change (i_it (set_it c iter)) with c. destruct (zip_Prev c l1 w x l2 Hz) as (Hok & Hz' & _).
    pose proof (Prev_items c) as Hp. destruct (c_Prev c) as [ok c']. cbn [fst snd] in *. subst ok.
    exists c'. split_and!; [done|congruence|done].
Qed.

(** The search for the previous key. *)
Lemma skip_rev fuel p c l1 x l2 :
  cur_items c = l -> zip c l1 x l2 -> kd p = kd x -> (length l1 < fuel)%nat ->
  exists c', cur_items c' = l /\
  ((skip_loop fuel p (set_it c iter) = (false, set_it c' iter) /\ forall y, y ∈ l1 -> kd y = kd p) \/
   (skip_loop fuel p (set_it c iter) = (true, set_it c' iter) /\
     exists l1' w l2', zip_at c' l1' w l2' /\ kd w ≺ kd p /\
       (forall y, head l2' = Some y -> kd y <> kd w) /\
       forall z, z ∈ l1 -> kd z ≺ kd p -> kd z ⪯ kd w)).
Proof.
  revert c l1 x l2. induction fuel as [|fuel IH]; intros c l1 x l2 Hl Hz Hp Hf; [lia|].
  cbn [skip_loop]. destruct l1 as [|w l1 _] using rev_ind.
  - destruct (moveNext_rev_nil c x l2 Hl Hz) as (c' & -> & Hl'). exists c'. split; [done|]. left.
    split; [done|]. by intros y ?%not_elem_of_nil.
  - pose proof (zip_elem c _ x l2 Hl Hz) as [_ El].
    pose proof l_sorted as Hs. rewrite El in Hs. apply StronglySorted_app in Hs as (Hs & Hs1 & _).
    destruct (moveNext_rev c l1 w x l2 Hl Hz) as (c1 & -> & Hl1 & Hz1).
    assert (cur (set_it c1 iter) = w) as -> by apply Hz1.
    assert (w ∈ l) as Hw by (rewrite El; apply elem_of_app; left; apply elem_of_app; right; by left).
    change (i_version (set_it c1 iter)) with V. rewrite (proj2 (Z.leb_le _ _) (Hle w Hw)), andb_true_r.
    destruct (bytes_Equal (key p) (key w)) eqn:Ek; cbn [negb].
    + apply bytes_Equal_true in Ek. change (kd p = kd w) in Ek.
      destruct (IH c1 l1 w (x :: l2)) as (c' & Hl' & H);
        [done|by apply zip_at_zip|done|rewrite length_app in Hf; simpl in Hf; lia|].
      exists c'. split; [done|]. destruct H as [(E & H)|(E & l1' & u & l2' & ? & ? & ? & H)].
      * left. split; [done|]. intros y [Hy|Hy]%elem_of_app; [auto|].
        by apply list_elem_of_singleton in Hy as ->.
      * right. split; [done|]. exists l1', u, l2'. split_and!; try done.
        intros z [Hy|Hy]%elem_of_app; [auto|]. apply list_elem_of_singleton in Hy as ->. intros. border.
    + apply bytes_Equal_false in Ek. change (kd p <> kd w) in Ek.
      specialize (Hs w x ltac:(apply elem_of_app; right; by left) ltac:(by left)).
      apply byKeys_true in Hs as [Hs|[? _]]; [|congruence].
      exists c1. split; [done|]. right. split; [done|]. exists l1, w, (x :: l2).
      split_and!; [done|by rewrite Hp| |].
      * intros y [= <-]. border.
      * intros z [Hy|Hy]%elem_of_app _; [|apply list_elem_of_singleton in Hy as ->; apply bytes_le_refl].
        apply sorted_items_snoc in Hs1 as [_ Hs1]. specialize (Hs1 z Hy).
        apply byKeys_true in Hs1 as [?|[-> _]]; [by apply bytes_lt_le|apply bytes_le_refl].
Qed.

Lemma vis_before l1 x l2 z : l = l1 ++ x :: l2 -> z ∈ vis -> kd z ≺ kd x -> z ∈ l1.
Proof.
  intros El (Hz & _)%vis_elem Hk. pose proof l_sorted as Hs. rewrite El in Hz, Hs.
  apply elem_of_app in Hz as [Hz|[->|Hz]%elem_of_cons]; [done|by destruct (bytes_lt_irrefl (kd x))|].
  apply StronglySorted_app in Hs as (_ & _ & Hs). pose proof (sorted_head_lt byKeys x l2 z Hs Hz) as H.
  apply byKeys_true in H as [?|[? _]]; border.
Qed.

(** What a step does from an item of key [k]. *)
Definition rev_post (k : bytes) (r : result bool * iterator) : Prop :=
  exists c b, r = (Ok b, set_it c iter) /\ cur_items c = l /\
    ((filter (fun i => kd i ≺ k) vis = [] /\ b = false) \/
     exists y l1 l2, zip c l1 y l2 /\ b = rng iter (kd y) /\
       filter (fun i => kd i ≺ k) vis = filter (fun i => kd i ≺ kd y) vis ++ [y]).

Lemma next_rev_zip fuel d c l1 x l2 :
  closed d = false -> cur_items c = l -> zip c l1 x l2 -> (length l1 < fuel)%nat ->
  rev_post (kd x) (next_loop fuel d (set_it c iter)).
Proof.
  intros Hc. revert c l1 x l2. induction fuel as [|fuel IH]; intros c l1 x l2 Hl Hz Hf; [lia|].
  cbn [next_loop]. assert (cur (set_it c iter) = x) as -> by apply Hz.
  change (i_values (set_it c iter)) with (i_values iter).
  pose proof (zip_elem c l1 x l2 Hl Hz) as [_ El].
  destruct (skip_rev (S (bt_Len (i_values iter))) x c l1 x l2) as (c1 & Hl1 & H);
    [done|done|done|rewrite Len_items, El, length_app; simpl; lia|].
  destruct H as [(-> & Hn)|(-> & l1' & w & l2' & Hz1 & Hk & Hhd & Hmax)]; cbn [negb].
  - exists c1, false. split_and!; [done..|]. left. split; [|done]. apply filter_nil_iff.
    intros z Hzv Hkz. pose proof (vis_before _ _ _ z El Hzv Hkz) as Hz1. specialize (Hn z Hz1). border.
  - destruct (loadLatestItem_spec c1 l1' w l2' Hl1 Hz1)
      as (c2 & l1'' & w' & l2'' & -> & Hz2 & Hl2 & _ & _ & Hsn & _ & Hst).
    destruct (Hst Hhd) as (-> & -> & ->). pose proof (zip_elem _ _ _ _ Hl2 Hz2) as [Hw El2].
    specialize (Hsn (Hle w Hw)). assert (cur (set_it c2 iter) = w) as Hcur by apply Hz2. rewrite Hcur.
    assert (filter (fun i => kd i ≺ kd x) vis =
      filter (fun i => kd i ≺ kd w) vis ++ filter (fun i => kd i = kd w) vis) as Esplit.
    { apply (split_bwd vis vis_sorted); [done|]. intros z Hzv Hkz. apply Hmax; [by eapply vis_before|done]. }
    rewrite visible_key, Hsn in Esplit by done. destruct (isDeleted w) eqn:Ed.
    + rewrite Hc. rewrite app_nil_r in Esplit. unfold rev_post. rewrite Esplit.
      apply (IH c2 l1' w l2'); try done. enough (length l1' < length l1)%nat by lia.
      pose proof l_sorted as Hs. rewrite El2 in Hs.
      eapply (zip_behind l1' w l2' l1 x l2); [done|congruence|done].
    + exists c2, (rng iter (kd w)). split_and!; [|done|right; by exists w, l1', l2'].
      f_equal. rewrite valid_rng, Hcur, Ed.
      change (i_version (set_it c2 iter)) with V. by rewrite (proj2 (Z.leb_le _ _) (Hle w Hw)).
Qed.

Definition below_end (k : bytes) : Prop := blen (i_end iter) = 0%nat \/ k ≺ bdata (i_end iter).

(** The iterator will yield the entries [E]. *)
Definition rev_rem (c : iterG dsItem) (E : list dsItem) : Prop :=
  cur_items c = l /\ exists l1 x l2, zip c l1 x l2 /\
    E = reverse (filter (fun i => rng iter (kd i) = true) (filter (fun i => kd i ≺ kd x) vis)) /\
    ((forall y, y ∈ vis -> kd y ≺ kd x -> below_end (kd y)) \/ E = []).

Definition rev_done (c : iterG dsItem) : Prop := cur_items c = l.

Lemma filter_snoc_rng ys (y : dsItem) :
  reverse (filter (fun i => rng iter (kd i) = true) (ys ++ [y])) =
  (if rng iter (kd y) then [y] else []) ++ reverse (filter (fun i => rng iter (kd i) = true) ys).
Proof.
  rewrite filter_app, reverse_app, filter_cons, filter_nil.
  destruct (rng iter (kd y)); [by rewrite decide_True|by rewrite decide_False].
Qed.

Lemma rev_post_yields k r :
  rev_post k r ->
  let E := reverse (filter (fun i => rng iter (kd i) = true) (filter (fun i => kd i ≺ k) vis)) in
  ((forall y, y ∈ vis -> kd y ≺ k -> below_end (kd y)) \/ E = []) -> yields rev_rem rev_done E r.
Proof.
  intros (c & b & -> & Hl & H). cbv zeta. intros Hend.
  destruct H as [[E ->]|(y & l1 & l2 & Hz & -> & E)].
  { rewrite E. exists c. done. }
  assert (y ∈ filter (fun i => kd i ≺ k) vis) as [Hy Hyv]%list_elem_of_filter.
  { rewrite E. apply elem_of_app. right. by left. }
  rewrite E, filter_snoc_rng in *. exists c. destruct (rng iter (kd y)) eqn:Er; simpl in *.
  - split_and!; [done|apply Hz|]. split; [done|]. exists l1, y, l2. split_and!; [done..|]. left.
    destruct Hend as [Hend|]; [|done]. intros z Hz' Hk. apply Hend; [done|border].
  - assert (filter (fun i => rng iter (kd i) = true) (filter (fun i => kd i ≺ kd y) vis) = []) as ->.
    { destruct Hend as [Hend|Hend]; [|by apply (f_equal reverse) in Hend; rewrite reverse_involutive in Hend].
      apply filter_nil_iff. intros z [Hk Hz']%list_elem_of_filter [[_ Hr] _]%rng_true.
      apply not_true_iff_false in Er. apply Er. apply rng_true. split_and!; [by apply Hend|border|].
      intros E0. rewrite E0 in Hk. by apply bytes_lt_nil in Hk. }
    done.
Qed.

Lemma next_rev d c E : closed d = false -> rev_rem c E -> yields rev_rem rev_done E (next_from d (set_it c iter)).
Proof.
  intros Hc (Hl & l1 & x & l2 & Hz & -> & Hend). apply rev_post_yields; [|done].
  apply (next_rev_zip _ d c l1 x l2); try done. pose proof (zip_elem _ _ _ _ Hl Hz) as [_ El].
  change (i_values (set_it c iter)) with (i_values iter). rewrite Len_items, El, length_app. simpl. lia.
Qed.

Context (Hreset : i_reset iter = false).

(** The end of [seek] and [restart], with the cursor on the newest item of its key. *)
Lemma land_rev d c l1 x l2 (Q : dsItem -> Prop) `{!forall y, Decision (Q y)} :
  closed d = false -> cur_items c = l -> zip c l1 x l2 -> snap l V (kd x) = Some x ->
  let E := reverse (filter (fun i => rng iter (kd i) = true) (filter Q vis)) in
  (forall y, y ∈ vis -> rng iter (kd y) = true -> Q y <-> kd y ⪯ kd x) ->
  ((forall y, y ∈ vis -> kd y ≺ kd x -> below_end (kd y)) \/ E = []) ->
  yields rev_rem rev_done E
    (let it := set_it c iter in if negb (valid it) then next_from d it else (Ok true, it)).
Proof.
  intros Hc Hl Hz Hsn. cbv zeta. intros HQ Hend.
  pose proof (zip_elem c l1 x l2 Hl Hz) as [Hx El]. assert (cur (set_it c iter) = x) as Hcur by apply Hz.
  rewrite valid_rng, Hcur.
  change (i_version (set_it c iter)) with V. change (rng (set_it c iter)) with (rng iter).
  rewrite (proj2 (Z.leb_le _ _) (Hle x Hx)). cbn [andb].
  assert (filter (fun i => rng iter (kd i) = true) (filter Q vis) =
    filter (fun i => rng iter (kd i) = true) (filter (fun i => kd i ⪯ kd x) vis)) as EQ.
  { rewrite !list_filter_filter. apply filter_ext_elem. intros y Hy. specialize (HQ y Hy). tauto. }
  rewrite EQ, (split_le vis vis_sorted), visible_key, Hsn in * by done.
  assert (forall E, E = reverse (filter (fun i => rng iter (kd i) = true) (filter (fun i => kd i ≺ kd x) vis)) ->
    ((forall y, y ∈ vis -> kd y ≺ kd x -> below_end (kd y)) \/ E = []) -> rev_rem c E) as Hrem.
  { intros E HE HE'. split; [done|]. exists l1, x, l2. done. }
  destruct (isDeleted x); cbn [negb andb].
  - rewrite app_nil_r in *. apply next_rev; [done|]. by apply Hrem.
  - rewrite filter_snoc_rng in *. destruct (rng iter (kd x)) eqn:Er; cbn [negb app] in *.
    + exists c. split_and!; [done|apply Hz|]. apply Hrem; [done|]. left. by destruct Hend.
    + apply next_rev; [done|]. by apply Hrem.
Qed.

Lemma land_load_rev d c l1 x l2 (Q : dsItem -> Prop) `{!forall y, Decision (Q y)} :
  closed d = false -> cur_items c = l -> zip_at c l1 x l2 ->
  let E := reverse (filter (fun i => rng iter (kd i) = true) (filter Q vis)) in
  (forall y, y ∈ vis -> rng iter (kd y) = true -> Q y <-> kd y ⪯ kd x) ->
  ((forall y, y ∈ vis -> kd y ≺ kd x -> below_end (kd y)) \/ E = []) ->
  yields rev_rem rev_done E
    (let it := loadLatestItem (set_it c iter) in
     if negb (valid it) then next_from d it else (Ok true, it)).
Proof.
  intros Hc Hl Hz. cbv zeta. intros HQ Hend.
  pose proof (zip_elem c l1 x l2 Hl (zip_at_zip _ _ _ _ Hz)) as [Hx _].
  destruct (loadLatestItem_spec c l1 x l2 Hl Hz)
    as (c' & l1' & x' & l2' & -> & Hz' & Hl' & Hkd & _ & Hsn & _).
  specialize (Hsn (Hle x Hx)). rewrite <- Hkd in *.
  by apply (land_rev d c' l1' x' l2' Q).
Qed.

(** The key a reversed [seek] looks for. *)
Definition rev_target (k : slice) : slice :=
  if negb (is_nil (i_end iter)) && lt (i_end iter) k then i_end iter else k.

(** An upper bound that is there is not empty. *)
Definition end_ok : Prop := i_end iter = None \/ blen (i_end iter) <> 0%nat.

Lemma rev_target_spec k :
  end_ok ->
  bdata (rev_target k) ⪯ bdata k /\ (forall b, b ≺ bdata (rev_target k) -> below_end b) /\
  forall b, rng iter b = true -> b ⪯ bdata k -> b ⪯ bdata (rev_target k).
Proof.
  intros Hok. unfold rev_target, below_end. destruct (negb (is_nil (i_end iter)) && lt (i_end iter) k) eqn:E.
  - apply andb_true_iff in E as [Hn E%lt_true]. split_and!; [by apply bytes_lt_le|by right|].
    intros b [[[Hb|Hb] _] _]%rng_true _; [|by apply bytes_lt_le].
    destruct Hok as [Hok|Hok]; [by rewrite Hok in Hn|done].
  - split_and!; [apply bytes_le_refl| |done]. intros b Hb. destruct Hok as [->|Hok]; [by left|right].
    apply andb_false_iff in E as [E|E%lt_false].
    + apply negb_false_iff in E. destruct (i_end iter); [done|]. by destruct Hok.
    + border.
Qed.

(** When all items are above the target, none is in range, or none is at or below [k]. *)
Lemma seek_none_in_range k b :
  end_ok -> bdata (rev_target k) ≺ b -> below_end b ->
  (exists u, u ⪯ bdata k /\ bdata (rev_target k) ≺ u) \/
    (blen (i_end iter) <> 0%nat /\ bdata (i_end iter) ⪯ bdata k) -> False.
Proof.
  unfold rev_target, below_end. intros Hok Hb Hend Hs.
  destruct (negb (is_nil (i_end iter)) && lt (i_end iter) k) eqn:E.
  - apply andb_true_iff in E as [Hn E]. destruct Hok as [Hok|Hok]; [by rewrite Hok in Hn|].
    destruct Hend as [?|?]; [done|border].
  - destruct Hs as [(u & Hu & Hku)|[Hs1 Hs2]]; [border|]. destruct Hend as [?|?]; [done|border].
Qed.

Lemma seek_rev d c k :
  closed d = false -> cur_items c = l -> end_ok ->
  ((exists y, y ∈ l /\ kd y ⪯ bdata k) \/ l = [] \/ (blen (i_end iter) <> 0%nat /\ bdata (i_end iter) ⪯ bdata k)) ->
  yields rev_rem rev_done
    (reverse (filter (fun i => rng iter (kd i) = true) (filter (fun i => kd i ⪯ bdata k) vis)))
    (seek d (set_it c iter) k).
Proof.
  intros Hc Hl Hok Hsome. destruct (rev_target_spec k Hok) as (Htk & Hbelow & Hrt). unfold seek.
  assert (set_reset false (set_it c iter) = set_it c iter) as -> by (unfold set_reset, set_it; by rewrite <- Hreset).
  cbv zeta. change (i_reverse (set_it c iter)) with (i_reverse iter). rewrite Hrev.
  generalize (if negb (is_nil (key (get (i_values (set_it c iter)) k (i_version (set_it c iter))))) &&
    negb (isDeleted (get (i_values (set_it c iter)) k (i_version (set_it c iter))))
    then version (get (i_values (set_it c iter)) k (i_version (set_it c iter)))
    else i_version (set_it c iter)) as ver. intros ver.
  unfold seek_reverse. change (if _ && lt _ k then _ else k) with (rev_target k).
  change (i_it (set_it c iter)) with c. set (t := rev_target k) in *.
  set (p := mk_dsItem t ver None false false).
  (* the cursor stands on an item at or below the target, and all larger ones are above it *)
  assert (forall c' l1 x l2, cur_items c' = l -> zip_at c' l1 x l2 -> kd x ⪯ bdata t ->
    (forall y, y ∈ l2 -> kd y ⪯ bdata t -> kd y ⪯ kd x) ->
    yields rev_rem rev_done
      (reverse (filter (fun i => rng iter (kd i) = true) (filter (fun i => kd i ⪯ bdata k) vis)))
      (let it := loadLatestItem (set_it c' iter) in
       if negb (valid it) then next_from d it else (Ok true, it))) as Hland.
  { intros c' l1 x l2 Hl' Hz Hx Hup. apply (land_load_rev d c' l1 x l2); try done.
    - intros y Hy Hr. split; [|intros; border]. intros Hyk. specialize (Hrt _ Hr Hyk).
      destruct (bytes_lt_dec (kd x) (kd y)) as [Hxy|]; [|done]. apply Hup; [|done].
      eapply vis_behind; [|done..]. by apply (zip_elem c' l1 x l2 Hl' (zip_at_zip _ _ _ _ Hz)).
    - left. intros y _ Hyx. apply Hbelow. border. }
  destruct (split_at p l l_sorted) as (l1 & [|x l2] & El & H1 & H2).
  - (* nothing at or above the target: to the last item *)
    rewrite app_nil_r in El.
    assert ((c_Seek c p).1 = false) as Hok1.
    { destruct (decide (l = [])) as [E|E]; [apply (empty_moves c p); congruence|].
      apply (Seek_none c p); [congruence|]. rewrite Hl, El. done. }
    pose proof (Seek_items c p) as Hl1. destruct (c_Seek c p) as [ok c1]. cbn [fst snd] in *. subst ok.
    cbn [negb]. pose proof (Last_items c1) as Hl2.
    destruct l1 as [|z l1 _] using rev_ind.
    + assert ((c_Last c1).1 = false) as Hok2 by (apply (empty_moves c1 p); congruence).
      destruct (c_Last c1) as [ok c2]. cbn [fst snd] in *. subst ok. cbn [negb].
      assert (vis = []) as -> by (rewrite El; done). exists c2. split; [done|].
      unfold rev_done. congruence.
    + destruct (zip_Last c1 l1 z) as [Hok2 Hz]; [congruence|].
      destruct (c_Last c1) as [ok c2]. cbn [fst snd] in *. subst ok. cbn [negb].
      change (set_it c2 (set_it c iter)) with (set_it c2 iter).
      apply (Hland c2 l1 z []); [congruence|done| |by intros y ?%not_elem_of_nil].
      specialize (H1 z ltac:(apply elem_of_app; right; by left)).
      apply byKeys_true in H1 as [?|[-> _]]; [by apply bytes_lt_le|apply bytes_le_refl].
  - destruct (zip_Seek c p l1 x l2) as (Hok1 & Hz & _); [congruence|done|apply H2; by left|].
    pose proof (Seek_items c p) as Hl1. destruct (c_Seek c p) as [ok c1]. cbn [fst snd] in *. subst ok.
    assert (c_Item c1 = x) as -> by apply Hz.
    assert (forall y, y ∈ x :: l2 -> bdata t ⪯ kd y) as Hge.
    { intros y Hy. specialize (H2 y Hy). apply byKeys_false in H2 as [?|[-> _]];
        [by apply bytes_lt_le|apply bytes_le_refl]. }
    destruct (bytes_Equal t (key x)) eqn:Ek; cbn [negb].
    + apply bytes_Equal_true in Ek. change (set_it c1 (set_it c iter)) with (set_it c1 iter).
      change (bdata t = kd x) in Ek. apply (Hland c1 l1 x l2); [congruence|done|border|]. intros. border.
    + apply bytes_Equal_false in Ek. change (bdata t <> kd x) in Ek.
      pose proof (Hge x ltac:(by left)) as Hx. pose proof (Prev_items c1) as Hl2.
      assert (forall y, y ∈ x :: l2 -> bdata t ≺ kd y) as Hgt.
      { intros y [->|Hy]%elem_of_cons; [border|]. pose proof l_sorted as Hs. rewrite El in Hs.
        apply StronglySorted_app in Hs as (_ & _ & Hs). pose proof (sorted_head_lt byKeys x l2 y Hs Hy) as H.
        apply byKeys_true in H as [?|[? _]]; border. }
      destruct l1 as [|w l1 _] using rev_ind.
      * (* everything is above the target: to the last item *)
        pose proof (zip_Prev_nil c1 x l2 (zip_at_zip _ _ _ _ Hz)) as Hok2.
        destruct (c_Prev c1) as [ok c2]. cbn [fst snd] in *. subst ok. cbn [negb].
        assert (forall y, y ∈ vis -> rng iter (kd y) <> true) as Hno.
        { intros y (Hy & _)%vis_elem [[Hend _] _]%rng_true. rewrite El in Hy, Hsome.
          apply (seek_none_in_range k (kd y) Hok (Hgt y Hy) Hend). destruct Hsome as [(u & Hu & Huk)|[?|?]];
            [left|done|by right]. exists (kd u). split; [done|by apply Hgt]. }
        destruct (exists_last (l := l)) as (a & z & Ez); [by rewrite El|].
        pose proof (Last_items c2) as Hl3. destruct (zip_Last c2 a z) as [Hok3 Hz3]; [congruence|].
        destruct (c_Last c2) as [ok c3]. cbn [fst snd] in *. subst ok. cbn [negb].
        change (set_it c3 (set_it c iter)) with (set_it c3 iter).
        apply (land_load_rev d c3 a z []); [done|congruence|done| |].
        -- intros y Hy Hr. by destruct (Hno y Hy).
        -- right. rewrite (proj2 (filter_nil_iff (fun i => rng iter (kd i) = true) _)); [done|].
           intros y [_ Hy]%list_elem_of_filter. by apply Hno.
      * destruct (zip_Prev c1 l1 w x l2 (zip_at_zip _ _ _ _ Hz)) as (Hok2 & Hz2 & _).
        destruct (c_Prev c1) as [ok c2]. cbn [fst snd] in *. subst ok. cbn [negb].
        change (set_it c2 (set_it c iter)) with (set_it c2 iter).
        apply (Hland c2 l1 w (x :: l2)); [congruence|done| |].
        -- specialize (H1 w ltac:(apply elem_of_app; right; by left)).
           apply byKeys_true in H1 as [?|[-> _]]; [by apply bytes_lt_le|apply bytes_le_refl].
        -- intros y Hy Hyt. specialize (Hgt y Hy). border.
Qed.

(** Without an upper bound, a reversed [seek] for a key below all items goes to
    the last item. *)
Lemma seek_rev_below d c k :
  closed d = false -> cur_items c = l -> i_end iter = None -> (forall y, y ∈ l -> bdata k ≺ kd y) ->
  yields rev_rem rev_done (reverse (filter (fun i => rng iter (kd i) = true) vis)) (seek d (set_it c iter) k).
Proof.
  intros Hc Hl He Hall. destruct (decide (l = [])) as [El|Hne].
  { assert (vis = []) as E by (rewrite El; done). rewrite E.
    pose proof (seek_rev d c k Hc Hl ltac:(by left) ltac:(auto)) as H. by rewrite E in H. }
  unfold seek.
  assert (set_reset false (set_it c iter) = set_it c iter) as -> by (unfold set_reset, set_it; by rewrite <- Hreset).
  cbv zeta. change (i_reverse (set_it c iter)) with (i_reverse iter). rewrite Hrev.
  change (if negb _ && negb _ then _ else _) with (seek_version k).
  unfold seek_reverse. change (i_end (set_it c iter)) with (i_end iter). rewrite He. cbn [is_nil negb andb].
  change (i_it (set_it c iter)) with c. set (p := mk_dsItem k (seek_version k) None false false).
  assert (exists x l2, l = x :: l2) as (x & l2 & El) by (destruct l; eauto; done).
  destruct (zip_Seek c p [] x l2) as (Hok1 & Hz & _);
    [by rewrite Hl, El|by intros ? ?%not_elem_of_nil|apply byKeys_false; left; apply Hall; rewrite El; by left|].
  pose proof (Seek_items c p) as Hl1. destruct (c_Seek c p) as [ok c1]. cbn [fst snd] in *. subst ok.
  assert (c_Item c1 = x) as -> by apply Hz.
  assert (bytes_Equal k (key x) = false) as ->.
  { apply bytes_Equal_false. specialize (Hall x ltac:(rewrite El; by left)). unfold kd in Hall. border. }
  cbn [negb]. pose proof (Prev_items c1) as Hl2. pose proof (zip_Prev_nil c1 x l2 (zip_at_zip _ _ _ _ Hz)) as Hok2.
  destruct (c_Prev c1) as [ok c2]. cbn [fst snd] in *. subst ok. cbn [negb].
  destruct (exists_last (l := l)) as (a & z & Ez); [done|].
  pose proof (Last_items c2) as Hl3. destruct (zip_Last c2 a z) as [Hok3 Hz3]; [congruence|].
  destruct (c_Last c2) as [ok c3]. cbn [fst snd] in *. subst ok. cbn [negb].
  change (set_it c3 (set_it c iter)) with (set_it c3 iter).
  rewrite (filter_ext_elem (fun i => rng iter (kd i) = true)
    (fun i => rng iter (kd i) = true /\ i ∈ l)), <- list_filter_filter by (intros y (Hy & _)%vis_elem; tauto).
  apply (land_load_rev d c3 a z []); [done|congruence|done| |left; intros ? _ _; left; by rewrite He].
  intros y Hy _. split; [intros _|intros _; by apply vis_elem in Hy as (? & _)].
  apply vis_elem in Hy as (Hy & _). pose proof l_sorted as Hs. rewrite Ez in Hs, Hy. apply sorted_items_snoc in Hs as [_ Hs].
  apply elem_of_app in Hy as [Hy|Hy]; [|apply list_elem_of_singleton in Hy as ->; apply bytes_le_refl].
  specialize (Hs y Hy). apply byKeys_true in Hs as [?|[-> _]]; [by apply bytes_lt_le|apply bytes_le_refl].
Qed.

Lemma restart_rev d c :
  closed d = false -> cur_items c = l ->
  yields rev_rem rev_done (reverse (filter (fun i => rng iter (kd i) = true) vis))
    (restart d (set_it c iter)).
Proof.
  intros Hc Hl. unfold restart.
  assert (set_reset false (set_it c iter) = set_it c iter) as -> by (unfold set_reset, set_it; by rewrite <- Hreset).
  cbv zeta. change (i_reverse (set_it c iter)) with (i_reverse iter).
  change (i_end (set_it c iter)) with (i_end iter). rewrite Hrev, andb_false_r, andb_true_r.
  destruct (Nat.eqb_spec (blen (i_end iter)) 0) as [He|He]; cbn [negb].
  - change (i_it (set_it c iter)) with c. pose proof (Last_items c) as Hl'.
    assert (l = [] \/ exists a z, l = a ++ [z]) as [El|(a & z & El)].
    { destruct (decide (l = [])) as [|Hne]; [by left|right].
      destruct (exists_last Hne) as (a & z & Ez). eauto. }
    + assert ((c_Last c).1 = false) as Hok1 by (apply (empty_moves c dsItem_zero); congruence).
      destruct (c_Last c) as [ok c1]. cbn [fst snd] in *. subst ok. cbn [negb].
      assert (vis = []) as -> by (rewrite El; done). exists c1. split; [done|]. unfold rev_done. congruence.
    + destruct (zip_Last c a z) as [Hok1 Hz]; [congruence|].
      destruct (c_Last c) as [ok c1]. cbn [fst snd] in *. subst ok. cbn [negb].
      change (set_it c1 (set_it c iter)) with (set_it c1 iter).
      pose proof l_sorted as Hs. rewrite El in Hs. apply sorted_items_snoc in Hs as [_ Hs].
      rewrite (filter_ext_elem (fun i => rng iter (kd i) = true)
        (fun i => rng iter (kd i) = true /\ kd i ⪯ kd z)), <- list_filter_filter.
      2: { intros y (Hy & _)%vis_elem. split; [|tauto]. intros Hr. split; [done|]. rewrite El in Hy.
        apply elem_of_app in Hy as [Hy|Hy]; [|apply list_elem_of_singleton in Hy as ->; apply bytes_le_refl].
        specialize (Hs y Hy). apply byKeys_true in Hs as [?|[-> _]]; [by apply bytes_lt_le|apply bytes_le_refl]. }
      apply (land_rev d c1 a z []); [done|congruence|by apply zip_at_zip| |done|left; by left].
      apply snap_Some; [done|]. assert (z ∈ l) as Hzl by (rewrite El; apply elem_of_app; right; by left).
      split_and!; [done|done|by apply Hle|]. intros y Hy Hk _. rewrite El in Hy.
      apply elem_of_app in Hy as [Hy|Hy]; [|apply list_elem_of_singleton in Hy as ->; lia].
      specialize (Hs y Hy). apply byKeys_true in Hs as [?|[_ ?]]; [border|lia].
  - rewrite (filter_ext_elem (fun i => rng iter (kd i) = true)
      (fun i => rng iter (kd i) = true /\ kd i ⪯ bdata (i_end iter))), <- list_filter_filter.
    2: { intros z _. split; [|tauto]. intros Hz. split; [done|]. apply rng_true in Hz as [[[?|Hz] _] _]; [done|].
      by apply bytes_lt_le. }
    apply seek_rev; [done|done|by right|]. right. right. split; [done|apply bytes_le_refl].
Qed.

End backward.
End moves.

End iter.
