(* ===== verification/MemoryIterCorrect.v ===== *)
(** The properties of the memory store's iterators: a new iterator, or one that
    was reset, yields exactly the selected entries of its version in order;
    [Seek] goes to the first of them at or beyond a key.  The last section
    shows, on concrete stores, where the code does something else. *)
From S2P Require Import Prelude BTree Kv Memory MemoryView MemoryTxn MemorySystem MemoryIter MemoryIterSpec.
Import Memory MemoryIter.
From Stdlib Require Strings.String.
Import Strings.String.StringSyntax.

Section correct.
Context {BI : BTreeG dsItem} {BT : BTreeG dsTxn}
  {LI : BTreeGLaws dsItem dsItem_zero byKeys} {LT : BTreeGLaws dsTxn dsTxn_zero byDSVersion}.

(** ** The state of an iterator *)

Record iter_ok (iter : iterator) : Prop := {
  ok_items : cur_items (i_it iter) = items (i_values iter);
  ok_bounds : bounds_ok iter;
  ok_fwd : i_reverse iter = false -> items (i_values iter) = [] \/ ran_start (i_it iter) = false;
  ok_rev : i_reverse iter = true -> forall i, i ∈ items (i_values iter) -> version i <= i_version iter }.

(** All entries the iterator ranges over, in its order. *)
Definition iter_sel (iter : iterator) : list dsItem :=
  let sel := filter (fun i => rng iter (kd i) = true) (visible (items (i_values iter)) (i_version iter)) in
  if i_reverse iter then reverse sel else sel.

(** The entries [E] are still to come. *)
Definition iter_rem (iter : iterator) (E : list dsItem) : Prop :=
  iter_ok iter /\
  if i_reset iter then E = iter_sel iter
  else if i_reverse iter then rev_rem iter (i_it iter) E else fwd_rem iter (i_it iter) E.

(** [iter'] iterates over the same entries as [iter]. *)
Definition same_range (iter iter' : iterator) : Prop := exists c b, iter' = set_it c (set_reset b iter).

Lemma same_range_sel iter iter' : same_range iter iter' -> iter_sel iter' = iter_sel iter.
Proof. by intros (c & b & ->). Qed.

Lemma same_range_trans i1 i2 i3 : same_range i1 i2 -> same_range i2 i3 -> same_range i1 i3.
Proof. intros (c & b & ->) (c' & b' & ->). by exists c', b'. Qed.

(** After a movement: what it returns and what is left. *)
Definition moved (iter : iterator) (E : list dsItem) (r : result bool * iterator) : Prop :=
  exists iter', same_range iter iter' /\
    match E with
    | [] => r = (Ok false, iter') /\ iter_ok iter' /\ (i_reverse iter = false -> iter_rem iter' [])
    | e :: E' => r = (Ok true, iter') /\ cur iter' = e /\ iter_rem iter' E'
    end.

Lemma fwd_rem_fresh iter c E : fwd_rem iter c E -> fresh_cur iter c.
Proof.
  intros (ys & [Hl H] & _). split; [done|]. destruct H as [(? & ? & ? & _ & ? & _)|[[?|[_ ?]] _]];
    [by right|left; congruence|by right].
Qed.

Lemma fwd_ok iter c E :
  iter_ok iter -> i_reverse iter = false -> i_reset iter = false -> fwd_rem iter c E ->
  iter_rem (set_it c iter) E.
Proof.
  intros [_ ? _ _] Hr Hs Hrem. pose proof (fwd_rem_fresh _ _ _ Hrem) as [? ?].
  split; [split; simpl; try done; congruence|]. simpl. by rewrite Hr, Hs.
Qed.

Lemma rev_ok iter c :
  iter_ok iter -> i_reverse iter = true -> cur_items c = items (i_values iter) -> iter_ok (set_it c iter).
Proof. intros [_ ? _ ?] Hr Hl. split; simpl; try done; congruence. Qed.

Lemma yields_moved_fwd iter E r :
  iter_ok iter -> i_reverse iter = false -> i_reset iter = false ->
  yields iter (fwd_rem iter) (fwd_done iter) E r -> moved iter E r.
Proof.
  intros Hok Hr Hs (c & H). exists (set_it c iter).
  split; [exists c, false; by destruct iter; simpl in *; subst|]. destruct E as [|e E].
  - destruct H as [-> H]. apply (fwd_ok _ _ _ Hok Hr Hs) in H. split_and!; [done|apply H|done].
  - destruct H as (-> & Hi & H). apply (fwd_ok _ _ _ Hok Hr Hs) in H. done.
Qed.

Lemma yields_moved_rev iter E r :
  iter_ok iter -> i_reverse iter = true -> i_reset iter = false ->
  yields iter (rev_rem iter) (rev_done iter) E r -> moved iter E r.
Proof.
  intros Hok Hr Hs (c & H). exists (set_it c iter).
  split; [exists c, false; by destruct iter; simpl in *; subst|]. destruct E as [|e E].
  - destruct H as [-> H]. split_and!; [done|by apply rev_ok|congruence].
  - destruct H as (-> & Hi & H). split_and!; [done|done|]. split; [apply rev_ok; try done; apply H|].
    simpl. by rewrite Hr, Hs.
Qed.

Lemma set_it_id iter : set_it (i_it iter) iter = iter.
Proof. by destruct iter. Qed.

Lemma set_reset_id iter b : i_reset iter = b -> set_reset b iter = iter.
Proof. by destruct iter; simpl; intros ->. Qed.

Lemma iter_ok_reset iter b : iter_ok iter -> iter_ok (set_reset b iter).
Proof. intros []. by split. Qed.

Lemma moved_reset iter b E r : moved (set_reset b iter) E r -> moved iter E r.
Proof.
  intros (iter' & Hs & H). exists iter'. split; [|done].
  eapply same_range_trans; [|done]. by exists (i_it iter), b.
Qed.

(** ** Next *)

Lemma next_moved d iter E : closed d = false -> iter_rem iter E -> moved iter E (next d iter).
Proof.
  intros Hc [Hok Hrem]. unfold next. destruct (i_reset iter) eqn:Hs.
  - subst E. apply (moved_reset iter false).
    assert (restart d iter = restart d (set_it (i_it iter) (set_reset false iter))) as ->.
    { rewrite <- (set_it_id iter) at 1. by destruct iter. }
    pose proof (iter_ok_reset iter false Hok) as Hok'. pose proof Hok' as [Hl Hb Hf Hv].
    unfold iter_sel. destruct (i_reverse iter) eqn:Hr.
    + apply yields_moved_rev; try done. apply (restart_rev (set_reset false iter)); auto.
    + apply yields_moved_fwd; try done. apply (restart_fwd (set_reset false iter)); try done.
      split; [done|by apply Hf].
  - rewrite <- (set_it_id iter) at 2. pose proof Hok as [Hl Hb Hf Hv].
    destruct (i_reverse iter) eqn:Hr.
    + apply yields_moved_rev; try done. apply next_rev; auto.
    + apply yields_moved_fwd; try done. destruct Hrem as (ys & Hpos & Hks & Hst & ->).
      apply fwd_post_yields; try done. by apply next_fwd.
Qed.

Lemma Next_moved d iter E : closed d = false -> iter_rem iter E -> moved iter E (Next d iter).
Proof. intros Hc H. unfold Next. rewrite Hc. by apply next_moved. Qed.

Lemma Reset_rem iter : iter_ok iter -> iter_rem (Reset iter) (iter_sel iter).
Proof. intros H. split; [by apply iter_ok_reset|]. done. Qed.

(** ** The content of a store *)

Definition entry_of (i : dsItem) : entry := (kd i, bdata (val i)).

(** The entries visible at version [v], in order. *)
Definition content (d : Datastore) (v : Z) : list entry := entry_of <$> visible (items (values d)) v.

Lemma content_sorted d v : kv_sorted (content d v).
Proof.
  unfold content, kv_sorted. pose proof (visible_ksorted _ v (items_sorted (values d))) as H.
  induction H as [|x l Hl IH HF]; [constructor|]. simpl. constructor; [done|].
  apply Forall_fmap. done.
Qed.

Lemma content_lookup d v k : kv_lookup k (content d v) = bdata <$> view d v k.
Proof.
  apply option_eq. intros b. rewrite kv_lookup_elem by apply content_sorted.
  unfold content, view. rewrite list_elem_of_fmap. split.
  - intros (i & [= -> ->] & [Hi Hd]%elem_of_visible). by rewrite Hi; simpl; rewrite Hd.
  - destruct (snap (items (values d)) v k) as [i|] eqn:E; [|done]. simpl.
    destruct (isDeleted i) eqn:Ed; [done|]. simpl. intros [= <-]. exists i.
    pose proof E as (_ & <- & _)%snap_Some_1. split; [done|]. by apply elem_of_visible.
Qed.

(** ** Creation *)

Lemma new_iter_ok d c start end_ rev last first :
  ds_inv d -> (exists t : btree dsItem, t = values d /\ c = bt_Iter t) ->
  bounds_ok (mk_iterator (ds_version d) (values d) c start end_ rev true last first) ->
  iter_ok (mk_iterator (ds_version d) (values d) c start end_ rev true last first).
Proof.
  intros [Hok _] (t & -> & ->) Hb. destruct (Iter_spec (values d)) as (Hl & _ & _ & _ & Hs).
  split; simpl; try done.
  - by right.
  - intros _ i Hi. by eapply Forall_forall in Hok as (_ & _ & _ & ?).
Qed.

Lemma newRangeIter_ok d start end_ rev :
  ds_inv d -> iter_ok (newRangeIter (values d) start end_ rev (ds_version d)).
Proof. intros Hd. apply new_iter_ok; [done|eauto|]. by split; left. Qed.

Lemma newPrefixIter_ok d p rev :
  ds_inv d -> iter_ok (newPrefixIter (values d) p rev (ds_version d)).
Proof.
  intros Hd. unfold newPrefixIter. destruct rev; [|apply new_iter_ok; [done|eauto|by split; left]].
  destruct (Iter_spec (values d)) as (Hl & _ & _ & _ & Hs).
  set (l := items (values d)) in *.
  assert (l = [] \/ exists a z, l = a ++ [z]) as [El|(a & z & El)].
  { destruct (decide (l = [])) as [|Hne]; [by left|right].
    destruct (exists_last Hne) as (a & z & Ez). eauto. }
  - destruct (empty_moves (bt_Iter (values d)) dsItem_zero) as (_ & Hlast & _); [congruence|].
    destruct (c_Last _) as [ok c1]. simpl in Hlast. subst ok.
    apply new_iter_ok; [done|eauto|by split; left].
  - destruct (zip_Last (bt_Iter (values d)) a z) as [Hok Hz]; [congruence|].
    destruct (Last_spec (bt_Iter (values d))) as (_ & _ & Hr & _); [rewrite Hl, El; by destruct a|].
    pose proof (Last_items (bt_Iter (values d))) as Hl1.
    destruct (c_Last _) as [ok c1]. cbn [fst snd] in *. subst ok.
    apply new_iter_ok; [done|eauto|]. split; right; simpl.
    + assert (c_Item c1 = z) as -> by apply Hz. fold l. by rewrite El, last_snoc.
    + fold l. destruct l as [|x l2] eqn:E; [by destruct a|].
      destruct (zip_First c1 x l2) as (_ & Hz' & _); [congruence..|].
      simpl. f_equal. symmetry. apply Hz'.
Qed.

(** The bounds of a new iterator are those the options ask for. *)
Lemma rng_prefix p iter k :
  (length p =? 0)%nat || negb (all_xff p) = true ->
  i_start iter = Some p -> i_end iter = bytesPrefixEnd (Some p) ->
  k <> [] -> rng iter k = bool_decide (p `prefix_of` k).
Proof.
  intros Hp Hs He Hne. apply eq_true_iff_eq. rewrite rng_true, bool_decide_eq_true, Hs, He. simpl.
  destruct (Nat.eqb_spec (length p) 0) as [H0|_].
  - apply nil_length_inv in H0 as ->. split; intros _; [apply prefix_nil|].
    split_and!; [by left|apply bytes_nil_le|done].
  - simpl in Hp. apply negb_true_iff in Hp.
    destruct (bytesPrefixEnd_spec (Some p) Hp) as (e & -> & Hne_e & Hk). simpl in *. rewrite (Hk k).
    assert (blen (Some e) <> 0%nat) by (by rewrite blen_zero). tauto.
Qed.

Lemma Iterator_rem d opts :
  ds_inv d -> closed d = false -> wf_opts opts = true ->
  exists iter, Iterator d opts = Ok iter /\ iter_rem iter (iter_sel iter) /\
    i_reverse iter = Reverse opts /\ i_reset iter = true /\
    (forall k, k <> [] -> rng iter k = in_opts opts k) /\
    entry_of <$> iter_sel iter = select opts (content d (ds_version d)).
Proof.
  intros Hd Hc Hwf. unfold Iterator. rewrite Hc. change (getVersion d) with (ds_version d).
  assert (forall iter, (forall k, k <> [] -> rng iter k = in_opts opts k) -> i_values iter = values d ->
    i_version iter = ds_version d -> i_reverse iter = Reverse opts ->
    entry_of <$> iter_sel iter = select opts (content d (ds_version d))) as Hsel.
  { intros iter Hr Hv HV Hrev. unfold iter_sel, select, content. rewrite Hv, HV, Hrev.
    assert (entry_of <$> filter (fun i => rng iter (kd i) = true) (visible (items (values d)) (ds_version d)) =
      filter (fun e => in_opts opts e.1 = true) (entry_of <$> visible (items (values d)) (ds_version d))) as E.
    { assert (forall x, x ∈ visible (items (values d)) (ds_version d) -> kd x <> []) as Hne.
      { intros x [Hx _]%elem_of_visible. apply snap_Some_1 in Hx as [Hx _]. destruct Hd as [Hok _].
        by eapply Forall_forall in Hok as [? _]. }
      induction (visible _ _) as [|x l IH]; [done|]. rewrite fmap_cons, !filter_cons.
      change (entry_of x).1 with (kd x). rewrite Hr by (apply Hne; by left).
      specialize (IH ltac:(intros y Hy; apply Hne; by right)).
      destruct (in_opts opts (kd x)); [|by rewrite !decide_False by done].
      by rewrite !decide_True, fmap_cons, IH by done. }
    destruct (Reverse opts); [|done]. by rewrite fmap_reverse, E. }
  unfold wf_opts in Hwf. destruct (Prefix opts) as [p|] eqn:Ep; cbn [is_nil negb].
  - pose proof (newPrefixIter_ok d (Some p) (Reverse opts) Hd) as Hok.
    set (iter := newPrefixIter _ _ _ _) in *. exists iter.
    assert (exists c a b, iter = mk_iterator (ds_version d) (values d) c (Some p) (bytesPrefixEnd (Some p))
      (Reverse opts) true a b) as (c & a & b & E).
    { unfold iter, newPrefixIter. destruct (Reverse opts); [|by eexists _, _, _].
      destruct (c_Last _) as [[] c1]; by eexists _, _, _. }
    rewrite E in *. assert (forall k, k <> [] -> rng iter k = in_opts opts k) as Hr.
    { intros k Hk. unfold in_opts. rewrite Ep, E. by apply rng_prefix. }
    rewrite E in Hr. split_and!; try done. by apply Hsel.
  - pose proof (newRangeIter_ok d (Start opts) (End_ opts) (Reverse opts) Hd) as Hok.
    eexists; split; [done|]. assert (forall k, k <> [] ->
      rng (newRangeIter (values d) (Start opts) (End_ opts) (Reverse opts) (ds_version d)) k = in_opts opts k) as Hr.
    { intros k Hk. unfold rng, in_opts. rewrite Ep. simpl. rewrite (bool_decide_true (k <> [])) by done.
      rewrite andb_true_r. apply andb_comm. }
    split_and!; try done. by apply Hsel.
Qed.

(** ** Consuming an iterator *)

(** The loop of a caller: [Next] until it returns false, reading each entry. *)
Fixpoint consume (fuel : nat) (d : Datastore) (iter : iterator) : result (list entry) * iterator :=
  match fuel with
  | O => (Err noFuel, iter)
  | S fuel' =>
      let '(r, iter') := Next d iter in
      match r, Value iter' with
      | Err e, _ | Ok true, Err e => (Err e, iter')
      | Ok false, _ => (Ok [], iter')
      | Ok true, Ok v =>
          let '(rest, iter'') := consume fuel' d iter' in
          (match rest with Ok l => Ok ((bdata (Key iter'), bdata v) :: l) | Err e => Err e end, iter'')
      end
  end.

Lemma consume_rem fuel d iter E :
  closed d = false -> iter_rem iter E -> (length E < fuel)%nat ->
  exists iter', consume fuel d iter = (Ok (entry_of <$> E), iter') /\ same_range iter iter' /\ iter_ok iter'.
Proof.
  intros Hc. revert iter E. induction fuel as [|fuel IH]; intros iter E Hrem Hf; [lia|].
  cbn [consume]. destruct (Next_moved d iter E Hc Hrem) as (iter1 & Hs & H). destruct E as [|e E].
  - destruct H as (-> & Hok & _). eexists. split_and!; done.
  - destruct H as (-> & Hcur & H). unfold Value.
    destruct (IH iter1 E H) as (iter2 & -> & Hs2 & Hok2); [simpl in Hf; lia|].
    exists iter2. split_and!; [|by eapply same_range_trans|done].
    unfold Key. rewrite Hcur. done.
Qed.

(** C9: Iteration is complete, sound and ordered.  On a well-formed open store,
    [Iterator] with any options (a prefix that is a run of 255 excepted) returns
    an iterator from which a caller's loop reads exactly the entries the
    options select, in order, or in reverse order if asked, and reads them
    again after a [Reset].  The entries are sorted by key, and hold for each
    key the value [Get] returns, and no other key. *)
Theorem iterator_enumerates d opts fuel :
  ds_inv d -> closed d = false -> wf_opts opts = true ->
  (length (content d (ds_version d)) < fuel)%nat ->
  (kv_sorted (content d (ds_version d)) /\
   forall k, k <> [] -> kv_lookup k (content d (ds_version d)) =
     match Get d (Some k) with Ok v => Some (bdata v) | Err _ => None end) /\
  exists iter iter', Iterator d opts = Ok iter /\
    consume fuel d iter = (Ok (select opts (content d (ds_version d))), iter') /\
    (consume fuel d (Reset iter')).1 = Ok (select opts (content d (ds_version d))).
Proof.
  intros Hd Hc Hwf Hf. split.
  { split; [apply content_sorted|]. intros k Hk. rewrite content_lookup, (Get_view d (Some k)) by done.
    simpl. by destruct (view d (ds_version d) k). }
  destruct (Iterator_rem d opts Hd Hc Hwf) as (iter & HI & Hrem & _ & _ & _ & Hsel).
  assert (length (iter_sel iter) < fuel)%nat as Hlen.
  { rewrite <- (length_fmap entry_of), Hsel. eapply Nat.le_lt_trans; [|done].
    unfold select. destruct (Reverse opts); rewrite ?length_reverse; apply length_filter. }
  destruct (consume_rem fuel d iter _ Hc Hrem Hlen) as (iter' & Hcon & Hs & Hok).
  exists iter, iter'. rewrite <- Hsel. split_and!; [done..|].
  pose proof (Reset_rem iter' Hok) as Hrem'. rewrite (same_range_sel _ _ Hs) in Hrem'.
  by destruct (consume_rem fuel d (Reset iter') _ Hc Hrem' Hlen) as (? & -> & _).
Qed.

(** The first of [E] is the iterator's current entry, and the others follow. *)
Definition delivers (fuel : nat) (d : Datastore) (r : result bool * iterator) (E : list dsItem) : Prop :=
  match E with
  | [] => r.1 = Ok false
  | e :: E' => r.1 = Ok true /\ cur r.2 = e /\ (consume fuel d r.2).1 = Ok (entry_of <$> E')
  end.

Lemma moved_delivers fuel d iter E r :
  closed d = false -> moved iter E r -> (length E <= fuel)%nat -> delivers fuel d r E.
Proof.
  intros Hc (iter' & Hs & H) Hf. destruct E as [|e E].
  - by destruct H as (-> & _).
  - destruct H as (-> & Hcur & H). split_and!; [done..|].
    destruct (consume_rem fuel d iter' E Hc H) as (? & E1 & _); [simpl in Hf; lia|].
    cbn [snd]. by rewrite E1.
Qed.

Lemma Seek_reset d iter k b : closed d = false -> Seek d (set_reset b iter) k = Seek d iter k.
Proof. intros Hc. unfold Seek. by rewrite Hc. Qed.

(** The entry is at or above [k], and when [k] is below the lower bound, it is
    not an entry of the bound that is older than the version looked for. *)
Definition seek_reaches (iter : iterator) (k : slice) (i : dsItem) : Prop :=
  bdata k ⪯ kd i /\
  (bdata k ≺ bdata (i_start iter) -> kd i = bdata (i_start iter) -> seek_version iter k <= version i).

#[export] Instance seek_reaches_dec iter k i : Decision (seek_reaches iter k i).
Proof. unfold seek_reaches. apply _. Defined.

Lemma Seek_moved_fwd_at d iter k :
  closed d = false -> iter_ok iter -> i_reverse iter = false ->
  moved iter (filter (seek_reaches iter k) (iter_sel iter)) (Seek d iter k).
Proof.
  intros Hc Hok Hr.
  rewrite <- (Seek_reset d iter k false Hc). apply (moved_reset iter false).
  rewrite <- (set_it_id (set_reset false iter)). pose proof (iter_ok_reset iter false Hok) as Hok'.
  pose proof Hok' as [Hl Hb Hfw Hv]. unfold Seek. rewrite Hc.
  apply yields_moved_fwd; try done. unfold iter_sel. rewrite Hr, list_filter_filter.
  pose proof (seek_fwd_at (set_reset false iter) Hb Hr eq_refl d (i_it iter) k Hc
    (conj Hl (Hfw Hr))) as H. rewrite list_filter_filter in H.
  erewrite (filter_ext_elem (fun i => seek_reaches iter k i /\ rng iter (kd i) = true)); [exact H|].
  intros i _. unfold seek_reaches. simpl. tauto.
Qed.

Lemma Seek_moved_fwd d iter k :
  closed d = false -> iter_ok iter -> i_reverse iter = false -> bdata (i_start iter) ⪯ bdata k ->
  moved iter (filter (fun i => bdata k ⪯ kd i) (iter_sel iter)) (Seek d iter k).
Proof.
  intros Hc Hok Hr Hst. rewrite (filter_ext_elem _ (seek_reaches iter k)); [by apply Seek_moved_fwd_at|].
  intros i _. unfold seek_reaches. split; [|tauto]. intros H. split; [done|]. intros ?. border.
Qed.

Lemma Seek_moved_rev d iter k :
  closed d = false -> iter_ok iter -> i_reverse iter = true -> end_ok iter ->
  (exists i, i ∈ items (i_values iter) /\ kd i ⪯ bdata k) \/
    (blen (i_end iter) <> 0%nat /\ bdata (i_end iter) ⪯ bdata k) ->
  moved iter (filter (fun i => kd i ⪯ bdata k) (iter_sel iter)) (Seek d iter k).
Proof.
  intros Hc Hok Hr He Hsome.
  rewrite <- (Seek_reset d iter k false Hc). apply (moved_reset iter false).
  rewrite <- (set_it_id (set_reset false iter)). pose proof (iter_ok_reset iter false Hok) as Hok'.
  pose proof Hok' as [Hl Hb Hfw Hv]. unfold Seek. rewrite Hc.
  apply yields_moved_rev; try done. unfold iter_sel. rewrite Hr, filter_reverse, list_filter_filter.
  pose proof (seek_rev (set_reset false iter) Hb Hr (Hv Hr) eq_refl d (i_it iter) k Hc Hl He) as H.
  rewrite list_filter_filter in H.
  erewrite (filter_ext_elem (fun i => kd i ⪯ bdata k /\ rng iter (kd i) = true)); [apply H; tauto|].
  intros i _. simpl. tauto.
Qed.

(** There is something for a reversed [Seek] to step back to: an item at or
    below the key, or an upper bound at or below it. *)
Definition seek_back (iter : iterator) (k : slice) : bool :=
  existsb (fun i => bool_decide (kd i ⪯ bdata k)) (items (i_values iter)) ||
  (negb (blen (i_end iter) =? 0)%nat && bool_decide (bdata (i_end iter) ⪯ bdata k)).

Lemma seek_back_true iter k :
  seek_back iter k = true ->
  (exists i, i ∈ items (i_values iter) /\ kd i ⪯ bdata k) \/
    (blen (i_end iter) <> 0%nat /\ bdata (i_end iter) ⪯ bdata k).
Proof.
  unfold seek_back. intros [(i & Hi & Hk)%existsb_exists|[Hn Hk]%andb_true_iff]%orb_true_iff;
    apply bool_decide_eq_true in Hk; [left; exists i; by rewrite list_elem_of_In|right].
  split; [|done]. by apply negb_true_iff, Nat.eqb_neq in Hn.
Qed.

Lemma seek_back_false iter k :
  seek_back iter k = false -> forall i, i ∈ items (i_values iter) -> bdata k ≺ kd i.
Proof.
  unfold seek_back. intros [H _]%orb_false_iff i Hi. destruct (bytes_lt_dec (bdata k) (kd i)) as [?|Hn]; [done|].
  apply not_true_iff_false in H. destruct H. apply existsb_exists. exists i. rewrite <- list_elem_of_In.
  split; [done|]. apply bool_decide_eq_true. border.
Qed.

Lemma Seek_moved_rev_below d iter k :
  closed d = false -> iter_ok iter -> i_reverse iter = true -> i_end iter = None -> seek_back iter k = false ->
  moved iter (iter_sel iter) (Seek d iter k).
Proof.
  intros Hc Hok Hr He Hsome.
  rewrite <- (Seek_reset d iter k false Hc). apply (moved_reset iter false).
  rewrite <- (set_it_id (set_reset false iter)). pose proof (iter_ok_reset iter false Hok) as Hok'.
  pose proof Hok' as [Hl Hb Hfw Hv]. unfold Seek. rewrite Hc.
  apply yields_moved_rev; try done. unfold iter_sel. rewrite Hr.
  apply (seek_rev_below (set_reset false iter) Hb Hr (Hv Hr) eq_refl d (i_it iter) k Hc Hl He).
  by apply seek_back_false.
Qed.

(** C17: A forward [Seek], at any time in the life of the iterator: it reports
    whether there is an entry in range whose key is not below the given one,
    stands on the first such entry, and the following calls of [Next] yield the
    others in order.  For a key below the lower bound it goes to the bound, and
    there passes over an entry that is older than the version at which it looked
    for the key, which is the version of the iterator unless the key exists. *)
Theorem Seek_forward_correct d iter k fuel :
  closed d = false -> iter_ok iter -> i_reverse iter = false -> (length (iter_sel iter) <= fuel)%nat ->
  delivers fuel d (Seek d iter k) (filter (seek_reaches iter k) (iter_sel iter)) /\
  (bdata (i_start iter) ⪯ bdata k ->
   delivers fuel d (Seek d iter k) (filter (fun i => bdata k ⪯ kd i) (iter_sel iter))).
Proof.
  intros Hc Hok Hr Hf. split; [|intros Hst]; (apply (moved_delivers fuel d iter); [done| |]).
  - by apply Seek_moved_fwd_at.
  - etransitivity; [apply length_filter|done].
  - by apply Seek_moved_fwd.
  - etransitivity; [apply length_filter|done].
Qed.

(** C18: A reversed [Seek] of an iterator at a version that no stored item is
    newer than, and whose upper bound, if it has one, is not empty.  When some
    item of the store, in range or not, is at or below the key, or the upper
    bound is: it reports whether there is an entry in range whose key is not
    above the given one, stands on the largest such entry, and [Next] goes on
    downwards from it.  When all items are above the key and there is no upper
    bound: it goes to the last entry instead and [Next] yields all others. *)
Theorem Seek_reverse_correct d iter k fuel :
  closed d = false -> iter_ok iter -> i_reverse iter = true -> end_ok iter ->
  seek_back iter k = true \/ i_end iter = None -> (length (iter_sel iter) <= fuel)%nat ->
  delivers fuel d (Seek d iter k)
    (if seek_back iter k then filter (fun i => kd i ⪯ bdata k) (iter_sel iter) else iter_sel iter).
Proof.
  intros Hc Hok Hr He Hor Hf. apply (moved_delivers fuel d iter); [done|..]; destruct (seek_back iter k) eqn:E.
  - apply Seek_moved_rev; try done. by apply seek_back_true.
  - destruct Hor; [done|]. by apply Seek_moved_rev_below.
  - etransitivity; [apply length_filter|done].
  - done.
Qed.

End correct.

(** ** Concrete stores *)

Module IterSample.
Import Sample.

Definition kx (s : String.string) : slice := Some (bs s).
Arguments kx s%_string_scope.

(** A store that holds [k1] and [k3] after some overwriting and deleting. *)
Definition d0 : Datastore :=
  m_ds (run [CallSet Background (kx "k1") v1; CallSet Background (kx "k2") v1;
    CallSet Background (kx "k3") v1; CallSet Background (kx "k1") v2; CallDelete Background (kx "k2")]
    NewMemState).

Lemma d0_inv : ds_inv d0.
Proof. eapply sys_ds, step_rtc_inv, NewMemState_inv. apply run_any. vm_compute. reflexivity. Qed.

Definition everything (rev : bool) : IterOptions := mkIterOptions None None None rev false.

Lemma iterator_enumerates_witness :
  exists iter iter', Iterator d0 (everything true) = Ok iter /\
    consume 3 d0 iter = (Ok [(bs "k3", bs "v1"); (bs "k1", bs "v2")], iter').
Proof.
  destruct (iterator_enumerates d0 (everything true) 3 d0_inv) as [_ (iter & iter' & HI & Hcon & _)];
    [vm_compute; reflexivity|vm_compute; reflexivity|vm_compute; lia|].
  exists iter, iter'. split; [exact HI|]. rewrite Hcon. f_equal; vm_compute; reflexivity.
Defined.

(** An iterator over all of [d0]. *)
Definition it0 (rev : bool) : iterator := newRangeIter (values d0) None None rev (ds_version d0).

Lemma it0_ok rev : iter_ok (it0 rev).
Proof. apply newRangeIter_ok, d0_inv. Qed.

(** From [k1] on. *)
Definition it1 : iterator := newRangeIter (values d0) (kx "k1") None false (ds_version d0).

Lemma it1_ok : iter_ok it1.
Proof. apply newRangeIter_ok, d0_inv. Qed.

Lemma d0_open : closed d0 = false.
Proof. vm_compute. reflexivity. Qed.

Lemma it1_reaches : filter (seek_reaches it1 (kx "a")) (iter_sel it1) = filter (fun i => kd i = bs "k3") (iter_sel it1).
Proof. vm_compute. reflexivity. Qed.

Lemma Seek_forward_correct_witness :
  delivers 2 d0 (Seek d0 (it0 false) (kx "k2"))
    (filter (fun i => bs "k2" ⪯ kd i) (iter_sel (it0 false))) /\
  delivers 2 d0 (Seek d0 it1 (kx "a")) (filter (fun i => kd i = bs "k3") (iter_sel it1)).
Proof.
  assert (length (iter_sel (it0 false)) <= 2)%nat as L0 by (vm_compute; lia).
  assert (length (iter_sel it1) <= 2)%nat as L1 by (vm_compute; lia).
  pose proof (Seek_forward_correct d0 (it0 false) (kx "k2") 2 d0_open (it0_ok false) eq_refl L0) as [_ H0].
  pose proof (Seek_forward_correct d0 it1 (kx "a") 2 d0_open it1_ok eq_refl L1) as [H1 _].
  rewrite it1_reaches in H1. split; [exact (H0 (bytes_nil_le _))|exact H1].
Defined.

Lemma it0_back : seek_back (it0 true) (kx "k2") = true /\ seek_back (it0 true) (kx "a") = false.
Proof. vm_compute. auto. Qed.

Lemma Seek_reverse_correct_witness :
  delivers 2 d0 (Seek d0 (it0 true) (kx "k2"))
    (filter (fun i => kd i ⪯ bs "k2") (iter_sel (it0 true))) /\
  delivers 2 d0 (Seek d0 (it0 true) (kx "a")) (iter_sel (it0 true)).
Proof.
  destruct it0_back as [E1 E2]. assert (length (iter_sel (it0 true)) <= 2)%nat as Hlen by (vm_compute; lia).
  pose proof (Seek_reverse_correct d0 (it0 true) (kx "k2") 2 d0_open (it0_ok true) eq_refl (or_introl eq_refl) (or_introl E1) Hlen) as H1.
  pose proof (Seek_reverse_correct d0 (it0 true) (kx "a") 2 d0_open (it0_ok true) eq_refl (or_introl eq_refl) (or_intror eq_refl) Hlen) as H2.
  rewrite E1 in H1. rewrite E2 in H2. split; [exact H1|exact H2].
Defined.

(** The key of the item a movement stands on, if it found one. *)
Definition found (r : result bool * iterator) : option bytes :=
  match r with (Ok true, iter) => Some (bdata (Key iter)) | _ => None end.

(** A reversed [Seek] for a key below all items of the store reports success
    and stands on the largest key, instead of finding nothing: the fallback to
    the last item in [seek] also runs when the step back from the first item
    fails (memory/iter.go). *)
Theorem reverse_seek_below_all :
  found (Seek d0 (it0 true) (kx "a")) = Some (bs "k3") /\
  filter (fun i => kd i ⪯ bs "a") (iter_sel (it0 true)) = [].
Proof. vm_compute. auto. Qed.

(** A forward [Seek] for an absent key below the iterator's start skips the
    start key, although it is there and in range: [seek] looks for the start
    key at a version it computed for the given key (memory/iter.go). *)
Theorem forward_seek_below_start :
  found (Next d0 it1) = Some (bs "k1") /\ found (Seek d0 it1 (kx "a")) = Some (bs "k3").
Proof. vm_compute. auto. Qed.

(** A reversed iterator at an older version misses a key that was
    overwritten since: it lands on the newer item, and then skips all items of
    that key (memory/iter.go, [restart] and [next]). *)
Theorem reverse_misses_older_version :
  view d0 1 (bs "k1") = Some v1 /\
  found (Next d0 (newRangeIter (values d0) None (kx "k11") true 1)) = None /\
  found (Next d0 (newRangeIter (values d0) None (kx "k11") false 1)) = Some (bs "k1").
Proof. vm_compute. auto. Qed.

(** The iterator after [n] calls of [Next]. *)
Fixpoint nexts (n : nat) (d : Datastore) (iter : iterator) : list (option bytes) :=
  match n with
  | O => []
  | S n' => let r := Next d iter in found r :: nexts n' d r.2
  end.

(** A reversed range iterator starts over after its end: once [Next] has
    returned false, the next call returns true again with an entry that was
    already yielded.  Only prefix iterators carry the work-around for the
    cursor's defect (memory/iter.go, [newRangeIter]). *)
Theorem reverse_range_starts_over :
  nexts 4 d0 (newRangeIter (values d0) None (kx "z") true (ds_version d0)) =
    [Some (bs "k3"); Some (bs "k1"); None; Some (bs "k1")] /\
  nexts 4 d0 (newPrefixIter (values d0) (kx "k") true (ds_version d0)) =
    [Some (bs "k3"); Some (bs "k1"); None; None].
Proof. vm_compute. auto. Qed.

(** A prefix that is a run of 255 selects nothing: [bytesPrefixEnd] returns
    the prefix itself as its own end (memory/iter.go). *)
Theorem prefix_of_255_selects_nothing :
  let d := m_ds (run [CallSet Background (Some [Byte.xff; Byte.x01]) v1] NewMemState) in
  bytesPrefixEnd (Some [Byte.xff]) = Some [Byte.xff] /\
  (consume 2 d (newPrefixIter (values d) (Some [Byte.xff]) false (ds_version d))).1 = Ok [] /\
  Has d (Some [Byte.xff; Byte.x01]) = Ok true.
Proof. vm_compute. auto. Qed.

End IterSample.
