(* ===== verification/MemoryTxnIter.v ===== *)
(** Iterating inside a transaction of the memory store: forward, the iterator
    merges the transaction's own visible operations with the entries of its
    snapshot, and yields a key twice that is in both; when these have no key in
    common, the entries are what the transaction reads.  The last section shows
    concrete transactions. *)
From S2P Require Import Prelude BTree Kv Memory MemoryView MemoryTxn MemorySystem MemoryIter MemoryIterSpec MemoryIterCorrect.
Import Memory MemoryIter.
From Stdlib Require Strings.String.
Import Strings.String.StringSyntax.

(** The order in which [txnIterator] picks from its two iterators. *)
Fixpoint merge (T S : list dsItem) : list dsItem :=
  match T with
  | [] => S
  | t :: T' =>
      (fix merge_S (S : list dsItem) : list dsItem :=
         match S with
         | [] => T
         | s :: S' => if lt (key t) (key s) then t :: merge T' S else s :: merge_S S'
         end) S
  end.

Lemma merge_nil_r T : merge T [] = T.
Proof. by destruct T. Qed.

Lemma merge_cons t T s S :
  merge (t :: T) (s :: S) = if lt (key t) (key s) then t :: merge T (s :: S) else s :: merge (t :: T) S.
Proof. done. Qed.

Lemma elem_of_merge e T S : e ∈ merge T S <-> e ∈ T \/ e ∈ S.
Proof.
  revert S. induction T as [|t T IHT]; intros S; [simpl; set_solver|].
  induction S as [|s S IHS]; [rewrite merge_nil_r; set_solver|].
  rewrite merge_cons. destruct (lt (key t) (key s)); rewrite elem_of_cons, ?IHT, ?IHS; set_solver.
Qed.

Lemma merge_ksorted T S :
  ksorted T -> ksorted S -> (forall t s, t ∈ T -> s ∈ S -> kd t <> kd s) -> ksorted (merge T S).
Proof.
  revert S. induction T as [|t T IHT]; intros S HT HS Hd; [done|].
  induction S as [|s S IHS]; [by rewrite merge_nil_r|].
  pose proof HT as [HT' FT]%StronglySorted_inv. pose proof HS as [HS' FS]%StronglySorted_inv.
  rewrite Forall_forall in FT, FS. rewrite merge_cons. destruct (lt (key t) (key s)) eqn:E.
  - apply lt_true in E. change (kd t ≺ kd s) in E. constructor.
    + apply IHT; [done..|]. intros t' s' Ht Hs. apply Hd; [by right|done].
    + apply Forall_forall. intros y [Hy|[->|Hy]%elem_of_cons]%elem_of_merge; [auto|done|].
      specialize (FS y Hy). border.
  - apply lt_false in E. change (kd s ⪯ kd t) in E.
    pose proof (Hd t s ltac:(by left) ltac:(by left)) as Hne. constructor.
    + apply IHS; [done|]. intros t' s' Ht Hs. apply Hd; [done|by right].
    + apply Forall_forall. intros y [[->|Hy]%elem_of_cons|Hy]%elem_of_merge; [border| |auto].
      specialize (FT y Hy). border.
Qed.

(** The merge keeps the order of the keys, and of one key the store's entry first. *)
Lemma merge_sorted T S :
  ksorted T -> ksorted S -> StronglySorted (fun a b => kd a ⪯ kd b) (merge T S).
Proof.
  assert (forall l, ksorted l -> StronglySorted (fun a b : dsItem => kd a ⪯ kd b) l) as Hw.
  { induction 1 as [|y l _ IH HF]; [constructor|]. constructor; [done|].
    eapply Forall_impl; [done|]. intros z. by apply bytes_lt_le. }
  revert S. induction T as [|t T IHT]; intros S HT HS; [by apply Hw|].
  induction S as [|s S IHS]; [by rewrite merge_nil_r; apply Hw|].
  pose proof HT as [HT' FT]%StronglySorted_inv. pose proof HS as [HS' FS]%StronglySorted_inv.
  rewrite Forall_forall in FT, FS. rewrite merge_cons. destruct (lt (key t) (key s)) eqn:E.
  - apply lt_true in E. change (kd t ≺ kd s) in E. constructor; [by apply IHT|].
    apply Forall_forall. intros y [Hy|[->|Hy]%elem_of_cons]%elem_of_merge;
      [by apply bytes_lt_le, FT|by apply bytes_lt_le|]. specialize (FS y Hy). border.
  - apply lt_false in E. change (kd s ⪯ kd t) in E. constructor; [by apply IHS|].
    apply Forall_forall. intros y [[->|Hy]%elem_of_cons|Hy]%elem_of_merge;
      [done| |by apply bytes_lt_le, FS]. specialize (FT y Hy). border.
Qed.

Lemma merge_key k T S :
  ksorted T -> ksorted S ->
  filter (fun i => kd i = k) (merge T S) = filter (fun i => kd i = k) S ++ filter (fun i => kd i = k) T.
Proof.
  revert S. induction T as [|t T IHT]; intros S HT HS; [by rewrite app_nil_r|].
  induction S as [|s S IHS]; [by rewrite merge_nil_r|].
  pose proof HT as [HT' _]%StronglySorted_inv. pose proof HS as [HS' FS]%StronglySorted_inv.
  rewrite merge_cons. destruct (lt (key t) (key s)) eqn:E.
  - rewrite (filter_cons _ t), (filter_cons _ t T), IHT by done. case_decide as Ek; [|done].
    assert (filter (fun i => kd i = k) (s :: S) = []) as ->; [|done].
    apply lt_true in E. change (kd t ≺ kd s) in E. apply filter_nil_iff. rewrite Forall_forall in FS.
    intros y [->|Hy]%elem_of_cons Hk; [border|]. specialize (FS y Hy). border.
  - rewrite (filter_cons _ s), (filter_cons _ s S), IHS by done. by case_decide.
Qed.

Lemma length_merge T S : length (merge T S) = (length T + length S)%nat.
Proof.
  revert S. induction T as [|t T IHT]; intros S; [done|].
  induction S as [|s S IHS]; [rewrite merge_nil_r; simpl; lia|].
  rewrite merge_cons. destruct (lt (key t) (key s)); cbn [length]; rewrite ?IHT, ?IHS; simpl; lia.
Qed.

Section txn_iter.
Context {BI : BTreeG dsItem} {BT : BTreeG dsTxn}
  {LI : BTreeGLaws dsItem dsItem_zero byKeys} {LT : BTreeGLaws dsTxn dsTxn_zero byDSVersion}.

(** ** One step *)

(** One of the two iterators, with the key it has pending: the entries [E] are
    to come. *)
Definition side (pending : slice) (it : iterator) (E : list dsItem) : Prop :=
  i_reverse it = false /\
  if (blen pending =? 0)%nat then iter_rem it E
  else exists E', E = cur it :: E' /\ iter_rem it E'.

Lemma iter_rem_keys it E : i_reverse it = false -> iter_rem it E -> forall e, e ∈ E -> kd e <> [].
Proof.
  intros Hr [_ H] e He. assert (rng it (kd e) = true) as [_ ?]%rng_true; [|done].
  rewrite Hr in H. destruct (i_reset it).
  - subst E. unfold iter_sel in He. rewrite Hr in He. by apply list_elem_of_filter in He as [? _].
  - destruct H as (ys & _ & _ & _ & ->). by apply list_elem_of_filter in He as [? _].
Qed.

(** The iterator has been moved to the head of [E], if there is one. *)
Definition fetched (it : iterator) (b : bool) (E : list dsItem) : Prop :=
  i_reverse it = false /\
  match E with
  | [] => b = false /\ iter_rem it []
  | e :: E' => b = true /\ cur it = e /\ kd e <> [] /\ iter_rem it E'
  end.

Lemma side_fetch d pending it E :
  closed d = false -> side pending it E -> (blen pending <> 0%nat -> kd (cur it) <> []) ->
  exists b it', (if negb (blen pending =? 0)%nat then (Ok true, it) else Next d it) = (Ok b, it') /\
    fetched it' b E.
Proof.
  intros Hc [Hr H] Hk. destruct (Nat.eqb_spec (blen pending) 0) as [Hp|Hp]; cbn [negb].
  - destruct (Next_moved d it E Hc H) as (it' & (c & b & Hs) & Hm).
    assert (i_reverse it' = false) as Hr' by (by subst it').
    pose proof (iter_rem_keys it E Hr H) as Hkeys. destruct E as [|e E].
    + destruct Hm as (-> & _ & Hrem). exists false, it'. split; [done|]. split_and!; auto.
    + destruct Hm as (-> & Hcur & Hrem). exists true, it'. split; [done|]. split_and!; try done.
      apply Hkeys. by left.
  - destruct H as (E' & -> & Hrem). exists true, it. split; [done|]. split_and!; auto.
Qed.

(** The entries still to come from the iterator of a transaction. *)
Definition txn_rem (x : txnIterator) (M : list dsItem) : Prop :=
  Reverse (x_opts x) = false /\
  exists T S, M = merge T S /\
    side (pendingTxnKey x) (txnIter x) T /\ side (pendingStoreKey x) (storeIter x) S /\
    (blen (pendingTxnKey x) <> 0%nat -> kd (cur (txnIter x)) <> []) /\
    (blen (pendingStoreKey x) <> 0%nat -> kd (cur (storeIter x)) <> []).

Definition cur_txn (x : txnIterator) : dsItem :=
  match activeIter x with
  | NoIter => dsItem_zero
  | TxnIter => cur (txnIter x)
  | StoreIter => cur (storeIter x)
  end.

Lemma side_none it E : i_reverse it = false -> iter_rem it E -> side None it E.
Proof. by split. Qed.

Lemma side_some it e E :
  i_reverse it = false -> cur it = e -> kd e <> [] -> iter_rem it E -> side (key e) it (e :: E).
Proof.
  intros Hr Hc Hk Hrem. split; [done|]. assert (blen (key e) <> 0%nat) as Hb by (by rewrite blen_zero).
  apply Nat.eqb_neq in Hb. rewrite Hb. exists E. by rewrite Hc.
Qed.

Lemma txnIterator_Next_rem d x M :
  closed d = false -> txn_rem x M ->
  exists x', match M with
    | [] => txnIterator_Next d x = (Ok false, x') /\ txn_rem x' []
    | e :: M' =>
        txnIterator_Next d x = (Ok true, x') /\ cur_txn x' = e /\
        activeIter x' <> NoIter /\ txn_rem x' M'
    end.
Proof.
  intros Hc (Hrev & T & S & -> & HT & HS & KT & KS). unfold txnIterator_Next.
  destruct (side_fetch d _ _ T Hc HT KT) as (bt & ti & -> & HrT & FT).
  destruct (side_fetch d _ _ S Hc HS KS) as (bs & si & -> & HrS & FS).
  assert (T = [] -> blen (pendingTxnKey x) = 0%nat) as ET.
  { intros ->. destruct HT as [_ HT]. destruct (Nat.eqb_spec (blen (pendingTxnKey x)) 0); [done|].
    by destruct HT as (? & ? & _). }
  assert (S = [] -> blen (pendingStoreKey x) = 0%nat) as ES.
  { intros ->. destruct HS as [_ HS]. destruct (Nat.eqb_spec (blen (pendingStoreKey x)) 0); [done|].
    by destruct HS as (? & ? & _). }
  unfold selectIterator. destruct T as [|t T], S as [|s S].
  - destruct FT as [-> HTr], FS as [-> HSr]. cbn [negb andb merge]. eexists. split; [done|].
    split; [done|]. exists [], []. specialize (ET eq_refl). specialize (ES eq_refl). cbn.
    unfold side. rewrite ET, ES. split_and!; done.
  - destruct FT as [-> HTr], FS as (-> & Hcs & Hks & HSr). cbn [negb andb merge]. eexists.
    split_and!; [done|done|done|]. split; [done|]. exists [], S. specialize (ET eq_refl). cbn.
    unfold side. rewrite ET. split_and!; done.
  - destruct FT as (-> & Hct & Hkt & HTr), FS as [-> HSr]. cbn [negb andb]. rewrite merge_nil_r.
    eexists. split_and!; [done|done|done|]. split; [done|]. exists T, []. specialize (ES eq_refl). cbn.
    rewrite merge_nil_r. unfold side. rewrite ES. split_and!; done.
  - destruct FT as (-> & Hct & Hkt & HTr), FS as (-> & Hcs & Hks & HSr). cbn [negb andb].
    cbn [txnIter storeIter x_opts set_iters]. unfold Key. rewrite Hct, Hcs, Hrev, merge_cons. cbn [andb negb orb].
    destruct (lt (key t) (key s)).
    + eexists. split_and!; [done|done|done|]. split; [done|]. exists T, (s :: S). cbn.
      split_and!; [done|by apply side_none|by apply side_some|done|by rewrite Hcs].
    + eexists. split_and!; [done|done|done|]. split; [done|]. exists (t :: T), S. cbn.
      split_and!; [done|by apply side_some|by apply side_none|by rewrite Hct|done].
Qed.

(** The loop of a caller. *)
Fixpoint consume_txn (fuel : nat) (d : Datastore) (x : txnIterator) : result (list entry) :=
  match fuel with
  | O => Err noFuel
  | S fuel' =>
      let '(r, x') := txnIterator_Next d x in
      match r, txnIterator_Value x' with
      | Err e, _ | Ok true, Err e => Err e
      | Ok false, _ => Ok []
      | Ok true, Ok v =>
          match consume_txn fuel' d x' with
          | Ok l => Ok ((bdata (txnIterator_Key x'), bdata v) :: l)
          | Err e => Err e
          end
      end
  end.

Lemma consume_txn_rem fuel d x M :
  closed d = false -> txn_rem x M -> (length M < fuel)%nat ->
  consume_txn fuel d x = Ok (entry_of <$> M).
Proof.
  intros Hc. revert x M. induction fuel as [|fuel IH]; intros x M Hrem Hf; [lia|]. cbn [consume_txn].
  destruct (txnIterator_Next_rem d x M Hc Hrem) as (x' & H). destruct M as [|e M].
  - by destruct H as [-> _].
  - destruct H as (-> & Hcur & Ha & H). rewrite (IH x' M H) by (simpl in Hf; lia).
    unfold txnIterator_Value, txnIterator_Key, cur_txn in *. unfold Value, Key.
    destruct (activeIter x'); [done| |]; rewrite Hcur; done.
Qed.

(** ** What a transaction's iterator yields *)

(** The visible items of a tree that the options ask for. *)
Definition picks (opts : IterOptions) (vs : btree dsItem) (v : Z) : list dsItem :=
  filter (fun i => in_opts opts (kd i) = true /\ kd i <> []) (visible (items vs) v).

Lemma new_forward_rem (vs : btree dsItem) (opts : IterOptions) v :
  Reverse opts = false -> wf_opts opts = true ->
  (forall p, Prefix opts = Some p ->
    iter_rem (newPrefixIter vs (Some p) (Reverse opts) v) (picks opts vs v)) /\
  (Prefix opts = None -> iter_rem (newRangeIter vs (Start opts) (End_ opts) (Reverse opts) v) (picks opts vs v)).
Proof.
  intros Hr Hwf. rewrite Hr. destruct (Iter_spec vs) as (Hl & _ & _ & _ & Hs).
  assert (forall start end_, (forall k, k <> [] ->
      rng (mk_iterator v vs (bt_Iter vs) start end_ false true dsItem_zero dsItem_zero) k = in_opts opts k) ->
    iter_rem (mk_iterator v vs (bt_Iter vs) start end_ false true dsItem_zero dsItem_zero) (picks opts vs v)) as Hnew.
  { intros start end_ Hrng. split; [split; simpl; [done|by split; left|by right|done]|]. simpl.
    unfold iter_sel, picks. simpl. apply filter_ext_elem. intros i _.
    destruct (decide (kd i = [])) as [E|E].
    - split; [tauto|]. intros [_ ?]%rng_true. done.
    - rewrite (Hrng _ E). tauto. }
  unfold wf_opts in Hwf. split.
  - intros p Hp. rewrite Hp in Hwf. unfold newPrefixIter. apply Hnew. intros k Hk.
    unfold in_opts. rewrite Hp. by apply rng_prefix.
  - intros Hp. apply Hnew. intros k Hk. unfold rng, in_opts. rewrite Hp. simpl.
    rewrite (bool_decide_true (k <> [])), andb_true_r by done. apply andb_comm.
Qed.

Lemma txn_Iterator_rem d t opts :
  closed d = false -> Reverse opts = false -> wf_opts opts = true ->
  exists x, txn_Iterator d t opts = Ok x /\
    txn_rem x (merge (picks opts (ops t) (getTxnVersion t)) (picks opts (values d) (dsVersion t))).
Proof.
  intros Hc Hr Hwf. unfold txn_Iterator. rewrite Hc.
  destruct (new_forward_rem (ops t) opts (getTxnVersion t) Hr Hwf) as [HT1 HT2].
  destruct (new_forward_rem (values d) opts (getDSVersion t) Hr Hwf) as [HS1 HS2].
  destruct (Prefix opts) as [p|] eqn:Ep; cbn [is_nil negb]; (eexists; split; [done|]);
    (split; [done|]); eexists _, _; cbn; (split; [done|]); rewrite Hr in *.
  - split_and!; try done; (split; [done|]); [exact (HT1 p eq_refl)|exact (HS1 p eq_refl)].
  - split_and!; try done; (split; [done|]); [exact (HT2 eq_refl)|exact (HS2 eq_refl)].
Qed.

Lemma picks_ksorted opts vs v : ksorted (picks opts vs v).
Proof. apply ksorted_filter, visible_ksorted, items_sorted. Qed.

Lemma elem_of_picks opts vs v i :
  i ∈ picks opts vs v <->
  snap (items vs) v (kd i) = Some i /\ isDeleted i = false /\ in_opts opts (kd i) = true /\ kd i <> [].
Proof. unfold picks. rewrite list_elem_of_filter, elem_of_visible. tauto. Qed.

(** The transaction recorded no key that is in its snapshot. *)
Definition records_new_keys (d : Datastore) (t : basicTxn) : Prop :=
  forall i, i ∈ items (ops t) -> view d (dsVersion t) (kd i) = None.

(** The value a tree holds for a key at a version, if it is there and not deleted. *)
Definition live_value (vs : btree dsItem) (v : Z) (k : bytes) : option bytes :=
  match snap (items vs) v k with
  | Some i => if isDeleted i then None else Some (bdata (val i))
  | None => None
  end.

(** The values listed for a key. *)
Definition values_of (k : bytes) (l : list entry) : list bytes := snd <$> filter (fun e => e.1 = k) l.

Lemma values_of_entries k l : values_of k (entry_of <$> l) = bdata ∘ val <$> filter (fun i => kd i = k) l.
Proof.
  unfold values_of. induction l as [|i l IH]; [done|]. rewrite fmap_cons, !filter_cons.
  change (entry_of i).1 with (kd i). case_decide; [|done]. by rewrite !fmap_cons, IH.
Qed.

Lemma picks_key opts vs v k :
  k <> [] ->
  bdata ∘ val <$> filter (fun i => kd i = k) (picks opts vs v) =
    if in_opts opts k then option_list (live_value vs v k) else [].
Proof.
  intros Hk. unfold picks. rewrite list_filter_filter.
  assert (forall l, filter (fun i => kd i = k /\ in_opts opts (kd i) = true /\ kd i <> []) l =
    if in_opts opts k then filter (fun i => kd i = k) l else []) as ->.
  { intros l. destruct (in_opts opts k) eqn:E.
    - apply filter_ext_elem. intros i _. split; [tauto|]. intros Hi. by rewrite Hi.
    - apply filter_nil_iff. intros y _ (-> & Hy & _). congruence. }
  destruct (in_opts opts k); [|done]. rewrite visible_key by apply items_sorted. unfold live_value.
  destruct (snap (items vs) v k) as [i|]; [|done]. by destruct (isDeleted i).
Qed.

(** What a transaction reads, in terms of its tree and the snapshot. *)
Lemma txn_Get_live d t k :
  closed d = false -> discarded t = false -> txn_inv d t -> records_new_keys d t -> k <> [] ->
  match (txn_Get d t (Some k)).1 with Ok v => Some (bdata v) | Err _ => None end =
    match live_value (ops t) (getTxnVersion t) k with
    | Some v => Some v
    | None => live_value (values d) (dsVersion t) k
    end /\
  (is_Some (live_value (ops t) (getTxnVersion t) k) -> live_value (values d) (dsVersion t) k = None).
Proof.
  intros Hc Hd Hi Hnew Hk. rewrite (txn_Get_snap d t (Some k)) by done.
  rewrite (getTxnVersion_eq d t Hi). unfold live_value. simpl.
  destruct (snap (items (ops t)) (dsVersion t + 1) k) as [i|] eqn:E.
  - pose proof E as (Hin & Hki & _)%snap_Some_1. specialize (Hnew i Hin). rewrite Hki in Hnew. unfold view in Hnew.
    destruct (snap (items (values d)) (dsVersion t) k) as [j|]; simpl in Hnew; [|by destruct (isDeleted i)].
    destruct (isDeleted j); [|done]. by destruct (isDeleted i).
  - destruct (snap (items (values d)) (dsVersion t) k) as [j|]; [|by split; [|intros []]].
    destruct (isDeleted j); (split; [done|by intros []]).
Qed.

Lemma fmap_entry_sorted (R : bytes -> bytes -> Prop) l :
  StronglySorted (fun a b => R (kd a) (kd b)) l -> StronglySorted (fun a b : entry => R a.1 b.1) (entry_of <$> l).
Proof. induction 1 as [|y l Hl IH HF]; [constructor|]. simpl. constructor; [done|]. by apply Forall_fmap. Qed.

Lemma kv_lookup_values k l : kv_lookup k l = head (values_of k l).
Proof.
  unfold values_of. induction l as [|[k' v] l IH]; [done|]. cbn [kv_lookup]. rewrite filter_cons. cbn [fst].
  case_bool_decide as E; case_decide as E2; congruence || done.
Qed.

(** C16: Forward iteration in any transaction, whatever it has recorded: the
    iterator yields keys in order, no key before a smaller one, and for each key
    the options ask for, first the value in the snapshot if there is one, then
    the value the transaction recorded if it recorded one that is not a
    deletion.  So a key that the transaction overwrote or read is yielded twice,
    and a key of the snapshot that it deleted is still yielded.  When none of the
    recorded keys is in the snapshot, the keys are strictly increasing, and
    exactly those the options ask for that the transaction can read, with the
    values it reads. *)
Theorem txn_iterator_enumerates d t opts fuel :
  closed d = false -> Reverse opts = false -> wf_opts opts = true ->
  (length (items (ops t)) + length (items (values d)) < fuel)%nat ->
  exists x l, txn_Iterator d t opts = Ok x /\ consume_txn fuel d x = Ok l /\
    StronglySorted (fun a b : entry => a.1 ⪯ b.1) l /\
    (forall k, k <> [] -> values_of k l =
      if in_opts opts k then
        option_list (live_value (values d) (dsVersion t) k) ++ option_list (live_value (ops t) (getTxnVersion t) k)
      else []) /\
    (txn_inv d t -> discarded t = false -> records_new_keys d t ->
     kv_sorted l /\
     forall k, k <> [] -> kv_lookup k l =
       if in_opts opts k then match (txn_Get d t (Some k)).1 with Ok v => Some (bdata v) | Err _ => None end else None).
Proof.
  intros Hc Hr Hwf Hf.
  destruct (txn_Iterator_rem d t opts Hc Hr Hwf) as (x & HI & Hrem).
  assert (forall vs v, (length (picks opts vs v) <= length (items vs))%nat) as Hlen.
  { intros vs v. unfold picks, visible. etransitivity; apply length_filter. }
  pose proof (Hlen (ops t) (getTxnVersion t)). pose proof (Hlen (values d) (dsVersion t)).
  set (M := merge _ _) in Hrem. assert (forall k, k <> [] -> values_of k (entry_of <$> M) = if in_opts opts k then
    option_list (live_value (values d) (dsVersion t) k) ++ option_list (live_value (ops t) (getTxnVersion t) k) else []) as Hvals.
  { intros k Hk. rewrite values_of_entries. unfold M. rewrite merge_key by apply picks_ksorted.
    rewrite fmap_app, !picks_key by done. by destruct (in_opts opts k). }
  exists x, (entry_of <$> M). split; [done|]. split; [apply consume_txn_rem; [done..|unfold M; rewrite length_merge; lia]|].
  split; [apply fmap_entry_sorted, merge_sorted; apply picks_ksorted|]. split; [done|]. intros Hi Hdis Hnew.
  assert (kv_sorted (entry_of <$> M)) as Hs.
  { apply fmap_entry_sorted, merge_ksorted; [apply picks_ksorted..|]. intros u w Hu Hw Hk.
    apply elem_of_picks in Hu as (Hu & _ & _), Hw as (Hw & Hd & _).
    apply snap_Some_1 in Hu as (Hu & _). specialize (Hnew u Hu). rewrite Hk in Hnew.
    unfold view in Hnew. rewrite Hw in Hnew. simpl in Hnew. by rewrite Hd in Hnew. }
  split; [done|]. intros k Hk. rewrite kv_lookup_values, Hvals by done.
  destruct (in_opts opts k); [|done]. destruct (txn_Get_live d t k Hc Hdis Hi Hnew Hk) as [-> Hex].
  destruct (live_value (ops t) _ k); [|by destruct (live_value (values d) _ k)]. by rewrite Hex.
Qed.

End txn_iter.

(** ** Concrete transactions *)

Module TxnIterSample.
Import Sample IterSample.

(** A transaction on the store that holds [k1] and [k3]. *)
Definition d1 : Datastore := (newTransaction 0 0 false d0).2.
Definition t1 : basicTxn := (newTransaction 0 0 false d0).1.

(** It wrote the new key [k2]. *)
Definition t2 : basicTxn := (txn_Set d1 t1 (kx "k2") v2).2.

Lemma t2_inv : txn_inv d1 t2.
Proof.
  pose proof (newTransaction_spec 0 0 false d0 d0_inv ltac:(vm_compute; reflexivity)) as H.
  destruct H as (Hs & Hi & _).
  destruct (txn_Set_spec d1 t1 (kx "k2") v2) as (t' & E & Hi' & _);
    [exact Hi|split; vm_compute; reflexivity|vm_compute; reflexivity|done|].
  unfold t2. by rewrite E.
Qed.

Lemma t2_ops : items (ops t2) = [mk_dsItem (kx "k2") 6 v2 false false].
Proof. vm_compute. reflexivity. Qed.

Lemma t2_new : records_new_keys d1 t2.
Proof.
  intros i Hi. rewrite t2_ops in Hi. apply list_elem_of_singleton in Hi as ->. vm_compute. reflexivity.
Qed.

(** It overwrote [k1]. *)
Definition t3 : basicTxn := (txn_Set d1 t1 (kx "k1") v1).2.

Lemma t3_values :
  option_list (live_value (values d1) (dsVersion t3) (bs "k1")) ++ option_list (live_value (ops t3) (getTxnVersion t3) (bs "k1")) =
    [bs "v2"; bs "v1"].
Proof. vm_compute. reflexivity. Qed.

Lemma d1_open : closed d1 = false.
Proof. vm_compute. reflexivity. Qed.

Lemma t2_reads : (txn_Get d1 t2 (Some (bs "k2"))).1 = Ok v2.
Proof. vm_compute. reflexivity. Qed.

Lemma txn_iterator_enumerates_witness :
  (exists x l, txn_Iterator d1 t2 (everything false) = Ok x /\ consume_txn 7 d1 x = Ok l /\
    kv_lookup (bs "k2") l = Some (bs "v2")) /\
  (exists x l, txn_Iterator d1 t3 (everything false) = Ok x /\ consume_txn 7 d1 x = Ok l /\
    values_of (bs "k1") l = [bs "v2"; bs "v1"]).
Proof.
  split.
  - destruct (txn_iterator_enumerates d1 t2 (everything false) 7 d1_open eq_refl eq_refl) as (x & l & HI & Hcon & _ & _ & Hl);
      [vm_compute; lia|]. destruct (Hl t2_inv) as [_ Hl2]; [vm_compute; reflexivity|apply t2_new|].
    exists x, l. split_and!; [exact HI|exact Hcon|]. rewrite Hl2, t2_reads by done. reflexivity.
  - destruct (txn_iterator_enumerates d1 t3 (everything false) 7 d1_open eq_refl eq_refl) as (x & l & HI & Hcon & _ & Hl & _);
      [vm_compute; lia|]. exists x, l. split_and!; [exact HI|exact Hcon|]. rewrite Hl by done. exact t3_values.
Defined.

(** What the iterator of a transaction yields. *)
Definition yielded (d : Datastore) (t : basicTxn) (opts : IterOptions) : result (list entry) :=
  match txn_Iterator d t opts with Ok x => consume_txn 10 d x | Err e => Err e end.

(** Inside a transaction, iteration does not agree with [Get] on keys of the
    snapshot: an overwritten key is yielded twice, first with the stale value of
    the store, a deleted key is still yielded, and a key that was only read is
    yielded twice (memory/txn.go, [selectIterator] never drops an equal key). *)
Theorem txn_iterator_repeats_keys :
  yielded d1 (txn_Set d1 t1 (kx "k1") v1).2 (everything false) =
    Ok [(bs "k1", bs "v2"); (bs "k1", bs "v1"); (bs "k3", bs "v1")] /\
  (txn_Get d1 (txn_Set d1 t1 (kx "k1") v1).2 (kx "k1")).1 = Ok v1 /\
  yielded d1 (txn_Delete d1 t1 (kx "k1")).2 (everything false) =
    Ok [(bs "k1", bs "v2"); (bs "k3", bs "v1")] /\
  (txn_Get d1 (txn_Delete d1 t1 (kx "k1")).2 (kx "k1")).1 = Err ErrNotFound /\
  yielded d1 (txn_Get d1 t1 (kx "k1")).2 (everything false) =
    Ok [(bs "k1", bs "v2"); (bs "k1", bs "v2"); (bs "k3", bs "v1")].
Proof. vm_compute. auto. Qed.

End TxnIterSample.
