(* ===== verification/MemoryStore.v ===== *)
(** The memory store keeps the contract of the store interface: [Datastore] of
    memory/memory.go, outside of transactions, as an instance of [ReaderWriter]
    that satisfies [RWLaws]. *)
From S2P Require Import Prelude BTree Kv Memory MemoryView MemoryTxn MemoryIter MemoryIterSpec MemoryIterCorrect MemorySystem.
Import Memory MemoryIter.

Section memory_store.
Context {BI : BTreeG dsItem} {BT : BTreeG dsTxn}.

(** The time of the [n]-th look at the clock. *)
Context (clock : nat -> Z).

(** The store, with the number of looks at the clock so far; that number also
    serves as the address of the next internal transaction. *)
Record MemStore := mk_MemStore { ms_ds : Datastore; ms_tick : nat }.

(** The store after a write, which looked at the clock twice unless it was
    refused at once. *)
Definition with_ds (s : MemStore) (r : option error * Datastore) : option error * MemStore :=
  (r.1, match r.1 with
        | Some ErrEmptyKey | Some ErrDBClosed => s
        | _ => mk_MemStore r.2 (S (S (ms_tick s)))
        end).

#[export] Instance memory_rw : ReaderWriter := {
  store := MemStore;
  iter := iterator;
  rw_Get s k := (Get (ms_ds s) k, s);
  rw_Has s k := (Has (ms_ds s) k, s);
  rw_Set s k v :=
    with_ds s (Set_ (clock (ms_tick s)) (clock (S (ms_tick s))) (ms_tick s) (ms_ds s) k v);
  rw_Delete s k :=
    with_ds s (Delete (clock (ms_tick s)) (clock (S (ms_tick s))) (ms_tick s) (ms_ds s) k);
  rw_Iterator s o := (Iterator (ms_ds s) o, s);
  it_Next s := Next (ms_ds s);
  it_Key := Key;
  it_Value := Value;
  it_Seek s := Seek (ms_ds s);
  it_Reset := Reset;
  it_Close := iter_Close }.

Context {LI : BTreeGLaws dsItem dsItem_zero byKeys} {LT : BTreeGLaws dsTxn dsTxn_zero byDSVersion}.

Definition memory_entries (d : Datastore) : list entry := content d (ds_version d).

(** The iterator ranges over the store's entries as the options ask. *)
Record memory_live (d : Datastore) (it : iterator) (o : IterOptions) : Prop := {
  live_ok : iter_ok it;
  live_open : closed d = false;
  live_reverse : i_reverse it = Reverse o;
  live_rng k : k <> [] -> rng it k = in_opts o k;
  live_sel : entry_of <$> iter_sel it = select o (memory_entries d) }.

#[export] Instance memory_model : RWModel memory_rw := {
  usable s n := ds_inv (ms_ds s) /\ closed (ms_ds s) = false /\
    ds_version (ms_ds s) + Z.of_nat n < two64;
  entries s := memory_entries (ms_ds s);
  it_live s := memory_live (ms_ds s);
  it_rem s it o E := memory_live (ms_ds s) it o /\ exists I, iter_rem it I /\ E = entry_of <$> I }.

Lemma memory_live_range d it it' o :
  memory_live d it o -> same_range it it' -> iter_ok it' -> memory_live d it' o.
Proof.
  intros [? ? ? ? Hs] Hr Hok. pose proof (same_range_sel _ _ Hr) as E. destruct Hr as (c & b & ->).
  by split.
Qed.

Lemma moved_finds s it o I r :
  memory_live (ms_ds s) it o -> moved it I r -> it_finds s o (entry_of <$> I) r.
Proof.
  intros Hl (it' & Hs & H). destruct I as [|e I]; simpl.
  - destruct H as (-> & Hok & Hrem). assert (memory_live (ms_ds s) it' o) as Hl'
      by (by eapply memory_live_range). split; [done|]. split; [done|]. intros Hr. split; [done|].
    exists []. split; [|done]. apply Hrem. by rewrite (live_reverse _ _ _ Hl).
  - destruct H as (-> & Hcur & Hrem). assert (memory_live (ms_ds s) it' o) as Hl'.
    { eapply memory_live_range; [done..|]. apply Hrem. }
    split; [done|]. split; [done|]. split_and!; simpl.
    + unfold Key. by rewrite Hcur.
    + intros _. unfold Value. rewrite Hcur. eauto.
    + split; [done|]. eauto.
Qed.

Lemma memory_update d d' k v :
  (forall k', view d' (ds_version d') k' =
    if bool_decide (bdata k = k') then v else view d (ds_version d) k') ->
  kv_update (bdata k) (bdata <$> v) (memory_entries d) (memory_entries d').
Proof.
  intros H k'. unfold memory_entries. rewrite !content_lookup, H. by case_bool_decide.
Qed.

#[export] Instance memory_laws : RWLaws memory_rw memory_model.
Proof.
  split; simpl.
  - intros s n m (? & ? & ?) ?. split_and!; [done..|lia].
  - intros s n _. apply content_sorted.
  - intros s n k (Hd & Hc & Hr) Hk. eexists _, s. split; [done|]. split_and!; [done..|].
    rewrite Get_view by done. unfold memory_entries. rewrite content_lookup.
    destruct (view _ _ _); simpl; eauto.
  - intros s n k (Hd & Hc & Hr) Hk. exists s. rewrite Has_view by done. split_and!; [|done..].
    unfold memory_entries. rewrite content_lookup. do 2 f_equal. apply bool_decide_ext.
    by rewrite fmap_is_Some.
  - intros s n k v (Hd & Hc & Hr) Hk.
    destruct (Set_view (clock (ms_tick s)) (clock (S (ms_tick s))) (ms_tick s) (ms_ds s) k v)
      as (d' & -> & Hg & Hv & Hview); [done..|lia|].
    eexists; split; [reflexivity|]. simpl. split; [|exact (memory_update _ _ _ (Some v) Hview)].
    split_and!; [apply Hg|by rewrite (grows_closed _ _ Hg)|lia].
  - intros s n k (Hd & Hc & Hr) Hk.
    destruct (Delete_view (clock (ms_tick s)) (clock (S (ms_tick s))) (ms_tick s) (ms_ds s) k)
      as (d' & -> & Hg & Hv & Hview); [done..|lia|].
    eexists; split; [reflexivity|]. simpl. split; [|exact (memory_update _ _ _ None Hview)].
    split_and!; [apply Hg|by rewrite (grows_closed _ _ Hg)|lia].
  - intros s n o (Hd & Hc & Hr) Hwf.
    destruct (Iterator_rem (ms_ds s) o Hd Hc Hwf) as (it & -> & Hrem & Hrev & _ & Hrng & Hsel).
    assert (memory_live (ms_ds s) it o) as Hl by (split; try done; apply Hrem).
    eexists it, s. split_and!; try done. eexists. split; [exact Hrem|]. by rewrite Hsel.
  - by intros s it o E [? _].
  - intros s it o E [Hl (I & Hrem & ->)]. apply (moved_finds s it); [done|].
    apply Next_moved; [apply Hl|done].
  - intros s it o Hl. split.
    + eapply memory_live_range; [done|by exists (i_it it), true|]. by apply iter_ok_reset, Hl.
    + exists (iter_sel it). split; [apply Reset_rem, Hl|]. by rewrite (live_sel _ _ _ Hl).
  - done.
  - intros s it o k Hl Hrev Ho Hk. rewrite <- (live_sel _ _ _ Hl).
    replace (filter (fun e : entry => bdata k ⪯ e.1) (entry_of <$> iter_sel it))
      with (entry_of <$> filter (fun i => bdata k ⪯ kd i) (iter_sel it)).
    2: { induction (iter_sel it) as [|i l IH]; [done|]. rewrite fmap_cons, !filter_cons.
      change (entry_of i).1 with (kd i). case_decide; [by rewrite fmap_cons, IH|done]. }
    apply (moved_finds s it); [done|]. apply Seek_moved_fwd; [apply Hl..|by rewrite (live_reverse _ _ _ Hl)|].
    rewrite <- (live_rng _ _ _ Hl) in Ho by done. by apply rng_true in Ho as [[_ ?] _].
Qed.

#[export] Instance memory_empty : EmptyKeys memory_rw memory_model.
Proof.
  split. simpl. intros s n k v (Hd & Hc & Hr) Hk. apply blen_zero in Hk.
  unfold Get, Has, Set_, Delete. by rewrite Hc, Hk.
Qed.

(** C10: The memory store keeps the contract of the store interface: as long as it
    is open and its version counter has room, reads and writes act on a map of
    its entries, empty keys are refused, and iterators with any defined options
    yield the selected entries in order, forwards and backwards, and are reset
    and positioned accordingly. *)
Theorem memory_keeps_contract : RWLaws memory_rw memory_model /\ EmptyKeys memory_rw memory_model.
Proof. split; [exact memory_laws|exact memory_empty]. Qed.

End memory_store.
