(* ===== verification/Namespace.v ===== *)
(** Namespaces: namespace/namespace.go.  [Wrap] presents the keys of a store
    that begin with a prefix as a store of their own.  Proved against the
    store interface: over any store that keeps the contract of [RWLaws], the
    namespaced store keeps it too, and namespaces that are not nested do not
    see each other. *)
From S2P Require Import Prelude BTree Kv Memory MemoryView MemorySystem MemoryStore.
From Stdlib Require Strings.String.
Import Strings.String.StringSyntax.

Module Namespace.

(** ** The code *)

(** [cp] and [append] always return a non-nil slice. *)
Definition cp (bz : slice) : slice := Some (bdata bz).
Definition prefixed (prefix k : slice) : slice := Some (bdata (cp prefix) ++ bdata k).

Section namespace.
Context {RW : ReaderWriter}.

Record Datastore := mk_Datastore { namespace : slice; ns_store : store RW }.

Definition Wrap (s : store RW) (prefix : slice) : Datastore := mk_Datastore prefix s.

Definition set_store (n : Datastore) (s : store RW) : Datastore := mk_Datastore (namespace n) s.

Definition Get (n : Datastore) (k : slice) : result slice * Datastore :=
  if (blen k =? 0)%nat then (Err ErrEmptyKey, n)
  else let '(r, s) := rw_Get (ns_store n) (prefixed (namespace n) k) in (r, set_store n s).

Definition Has (n : Datastore) (k : slice) : result bool * Datastore :=
  if (blen k =? 0)%nat then (Err ErrEmptyKey, n)
  else let '(r, s) := rw_Has (ns_store n) (prefixed (namespace n) k) in (r, set_store n s).

Definition Set_ (n : Datastore) (k v : slice) : option error * Datastore :=
  if (blen k =? 0)%nat then (Some ErrEmptyKey, n)
  else let '(e, s) := rw_Set (ns_store n) (prefixed (namespace n) k) v in (e, set_store n s).

Definition Delete (n : Datastore) (k : slice) : option error * Datastore :=
  if (blen k =? 0)%nat then (Some ErrEmptyKey, n)
  else let '(e, s) := rw_Delete (ns_store n) (prefixed (namespace n) k) in (e, set_store n s).

(** The options for the wrapped store. *)
Definition ns_opts (ns : slice) (o : IterOptions) : IterOptions :=
  if negb (is_nil (Prefix o)) then
    mkIterOptions (prefixed ns (Prefix o)) (Start o) (End_ o) (Reverse o) (KeysOnly o)
  else if negb (is_nil (Start o)) || negb (is_nil (End_ o)) then
    mkIterOptions (Prefix o) (prefixed ns (Start o))
      (if negb (is_nil (End_ o)) then prefixed ns (End_ o) else bytesPrefixEnd ns)
      (Reverse o) (KeysOnly o)
  else mkIterOptions (prefixed ns (Prefix o)) (Start o) (End_ o) (Reverse o) (KeysOnly o).

Record namespaceIterator := mk_nsIter { ni_namespace : slice; ni_it : iter RW }.

Definition Iterator (n : Datastore) (o : IterOptions) : result namespaceIterator * Datastore :=
  let '(r, s) := rw_Iterator (ns_store n) (ns_opts (namespace n) o) in
  (match r with
   | Err e => Err e
   | Ok it => Ok (mk_nsIter (namespace n) it)
   end, set_store n s).

Definition on_it (ni : namespaceIterator) (it : iter RW) : namespaceIterator :=
  mk_nsIter (ni_namespace ni) it.

Definition Reset (ni : namespaceIterator) : namespaceIterator := on_it ni (it_Reset (ni_it ni)).

Definition Next (n : Datastore) (ni : namespaceIterator) : result bool * namespaceIterator :=
  let '(r, it) := it_Next (ns_store n) (ni_it ni) in (r, on_it ni it).

(** [key[len(namespace):]]: a key shorter than the namespace would panic; the
    iterator never returns one. *)
Definition Key (ni : namespaceIterator) : slice :=
  Some (drop (blen (ni_namespace ni)) (bdata (it_Key (ni_it ni)))).

Definition Value (ni : namespaceIterator) : result slice := it_Value (ni_it ni).

Definition Seek (n : Datastore) (ni : namespaceIterator) (k : slice) : result bool * namespaceIterator :=
  let '(r, it) := it_Seek (ns_store n) (ni_it ni) (prefixed (ni_namespace ni) k) in (r, on_it ni it).

Definition Close (ni : namespaceIterator) : option error * namespaceIterator :=
  let '(e, it) := it_Close (ni_it ni) in (e, on_it ni it).

(** The namespaced store as a store. *)
Definition namespace_rw : ReaderWriter := {|
  store := Datastore;
  iter := namespaceIterator;
  rw_Get := Get; rw_Has := Has; rw_Set := Set_; rw_Delete := Delete; rw_Iterator := Iterator;
  it_Next := Next; it_Key := Key; it_Value := Value; it_Seek := Seek; it_Reset := Reset;
  it_Close := Close |}.

(** ** Transactions of a namespace (namespace/txn.go) *)

(** The embedded [Datastore] and the field [txn] are the same transaction, the
    one [ns_store] holds. *)
Definition WrapTxn (txn : store RW) (prefix : slice) : Datastore := Wrap txn prefix.

(** ** What it stands for *)

Context {M : RWModel RW}.

(** The entries in the namespace, without it. *)
Definition in_ns (ns : bytes) (e : entry) : bool := bool_decide (ns `prefix_of` e.1).
Definition strip (ns : bytes) (l : list entry) : list entry :=
  (fun e => (drop (length ns) e.1, e.2)) <$> filter (fun e => in_ns ns e = true) l.

(** The namespaces with an end: nil, or a non-empty string that is not a run of 255. *)
Definition ns_ok (ns : slice) : bool := is_nil ns || negb (all_xff (bdata ns)).

Lemma ns_ok_cases ns : ns_ok ns = true -> ns = None \/ all_xff (bdata ns) = false.
Proof. unfold ns_ok. rewrite orb_true_iff, negb_true_iff. destruct ns; naive_solver. Qed.

Definition ns_live (n : Datastore) (ni : namespaceIterator) (o : IterOptions) : Prop :=
  ni_namespace ni = namespace n /\ ns_ok (namespace n) = true /\ wf_opts o = true /\
  (exists m, usable (ns_store n) m) /\ it_live (ns_store n) (ni_it ni) (ns_opts (namespace n) o).

Definition namespace_model : RWModel namespace_rw := {|
  usable (n : store namespace_rw) m := ns_ok (namespace n) = true /\ usable (ns_store n) m;
  entries (n : store namespace_rw) := strip (bdata (namespace n)) (entries (ns_store n));
  it_live := ns_live : store namespace_rw -> iter namespace_rw -> IterOptions -> Prop;
  it_rem (n : store namespace_rw) (ni : iter namespace_rw) o E := ns_live n ni o /\
    exists E0, it_rem (ns_store n) (ni_it ni) (ns_opts (namespace n) o) E0 /\
      Forall (fun e => in_ns (bdata (namespace n)) e = true) E0 /\
      E = strip (bdata (namespace n)) E0 |}.

(** *** Stripping the namespace *)

Lemma in_ns_true ns (e : entry) : in_ns ns e = true <-> exists k, e.1 = ns ++ k.
Proof. unfold in_ns. rewrite bool_decide_eq_true. done. Qed.

Lemma strip_cons ns (e : entry) l :
  strip ns (e :: l) = if in_ns ns e then (drop (length ns) e.1, e.2) :: strip ns l else strip ns l.
Proof. unfold strip. rewrite filter_cons. destruct (in_ns ns e); done. Qed.

Lemma elem_of_strip ns l k v : (k, v) ∈ strip ns l <-> (ns ++ k, v) ∈ l.
Proof.
  induction l as [|[k' v'] l IH]; [set_solver|]. rewrite strip_cons.
  destruct (in_ns ns (k', v')) eqn:E.
  - apply in_ns_true in E as [k0 E]. simpl in E. subst k'. cbn [fst snd]. rewrite drop_app_length.
    rewrite !elem_of_cons, IH. split; (intros [H|H]; [left|by right]); [congruence|].
    injection H as ->%app_inv_head ->. done.
  - rewrite IH, elem_of_cons. split; [by right|]. intros [[= <- <-]|H]; [|done].
    apply not_true_iff_false in E. destruct E. apply in_ns_true. by exists k.
Qed.

Lemma strip_sorted ns l : kv_sorted l -> kv_sorted (strip ns l).
Proof.
  unfold kv_sorted. induction 1 as [|[k v] l Hl IH HF]; [constructor|]. rewrite strip_cons.
  destruct (in_ns ns (k, v)) eqn:E; [|done]. apply in_ns_true in E as [k0 E]. simpl in E. subst k.
  constructor; [done|]. apply Forall_forall. intros [k' v'] Hin%elem_of_strip.
  rewrite Forall_forall in HF. specialize (HF _ Hin). cbn [fst] in *.
  by rewrite bytes_lt_app, drop_app_length in *.
Qed.

Lemma strip_lookup ns l k : kv_sorted l -> kv_lookup k (strip ns l) = kv_lookup (ns ++ k) l.
Proof.
  intros Hs. apply option_eq. intros v.
  by rewrite !kv_lookup_elem, elem_of_strip by auto using strip_sorted.
Qed.

Lemma strip_app ns l1 l2 : strip ns (l1 ++ l2) = strip ns l1 ++ strip ns l2.
Proof. unfold strip. by rewrite filter_app, fmap_app. Qed.

Lemma strip_reverse ns l : strip ns (reverse l) = reverse (strip ns l).
Proof. unfold strip. by rewrite filter_reverse, fmap_reverse. Qed.

(** Filters that agree on the keys of the namespace. *)
Lemma strip_filter ns (P Q : entry -> Prop) `{!forall e, Decision (P e), !forall e, Decision (Q e)} l :
  (forall k v, P (ns ++ k, v) <-> Q (k, v)) -> strip ns (filter P l) = filter Q (strip ns l).
Proof.
  intros HPQ. induction l as [|[k v] l IH]; [done|]. rewrite filter_cons, (strip_cons ns (k, v) l).
  destruct (in_ns ns (k, v)) eqn:E.
  - pose proof E as [k0 E']%in_ns_true. cbn [fst] in *. subst k. rewrite filter_cons. cbn [fst snd].
    rewrite drop_app_length. specialize (HPQ k0 v). repeat case_decide; try tauto.
    rewrite strip_cons, E. cbn [fst snd]. by rewrite drop_app_length, IH.
  - cbn [fst]. case_decide; [|done]. by rewrite strip_cons, E.
Qed.

(** *** The options *)

Lemma ns_opts_reverse ns o : Reverse (ns_opts ns o) = Reverse o /\ KeysOnly (ns_opts ns o) = KeysOnly o.
Proof. unfold ns_opts. by repeat case_match. Qed.

Lemma all_xff_app p q : all_xff (p ++ q) = all_xff p && all_xff q.
Proof. apply forallb_app. Qed.

(** The wrapped options select exactly the selected keys of the namespace. *)
Lemma in_ns_opts ns o k' :
  ns_ok ns = true -> wf_opts o = true ->
  in_opts (ns_opts ns o) k' = true <-> exists k, k' = bdata ns ++ k /\ in_opts o k = true.
Proof.
  intros Hns%ns_ok_cases Hwf. unfold ns_opts, wf_opts in *.
  destruct (Prefix o) as [p|] eqn:Ep; cbn [is_nil negb].
  { unfold in_opts. cbn. rewrite Ep, bool_decide_eq_true. split.
    - intros [r ->]. exists (p ++ r). rewrite bool_decide_eq_true, (assoc_L (++)). split; [done|by exists r].
    - intros (k & -> & Hk%bool_decide_eq_true). by apply prefix_app. }
  destruct (negb (is_nil (Start o)) || negb (is_nil (End_ o))) eqn:Ese.
  - unfold in_opts. cbn. rewrite Ep, andb_true_iff, orb_true_iff, !bool_decide_eq_true, Nat.eqb_eq.
    setoid_rewrite andb_true_iff. setoid_rewrite orb_true_iff.
    setoid_rewrite bool_decide_eq_true. setoid_rewrite Nat.eqb_eq.
    destruct (End_ o) as [e|] eqn:Ee; cbn [is_nil negb] in *.
    + unfold blen in *. cbn [bdata default] in *. apply negb_true_iff, Nat.eqb_neq in Hwf.
      cbn. split.
      * intros [Hl [H0|Hr]]; [by destruct (bdata ns), e|].
        destruct (bytes_between (bdata ns) _ _ k' Hl Hr) as (k & -> & ? & ?). exists k. auto.
      * intros (k & -> & Hl & [?|Hr]); [done|]. rewrite bytes_le_app, bytes_lt_app. auto.
    + destruct Hns as [->|Hns].
      * cbn. split; [intros [? _]; exists k'; auto|intros (k & -> & ? & _); auto].
      * destruct (bytesPrefixEnd_spec ns Hns) as (e & -> & Hne & Hk). split.
        -- intros [Hl Hr]. assert (bdata ns `prefix_of` k') as [k ->].
           { apply Hk. split; [|destruct Hr as [Hr|Hr]; [by apply blen_zero in Hr|done]].
             eapply bytes_le_trans; [|exact Hl]. cbn. rewrite <- (app_nil_r (bdata ns)) at 1.
             apply bytes_le_app, bytes_nil_le. }
           exists k. split; [done|]. split; [by apply bytes_le_app in Hl|by left].
        -- intros (k & -> & Hl & _). split; [by apply bytes_le_app|right]. apply Hk. by exists k.
  - apply orb_false_iff in Ese as [Es Ee]. apply negb_false_iff in Es, Ee.
    destruct (Start o) eqn:EStart, (End_ o) eqn:EEnd; try done.
    unfold in_opts. cbn. rewrite Ep, EStart, EEnd. cbn. rewrite app_nil_r, bool_decide_eq_true. split.
    + intros [k ->]. exists k. split; [done|]. rewrite andb_true_r, bool_decide_eq_true. apply bytes_nil_le.
    + intros (k & -> & _). by exists k.
Qed.

Lemma wf_ns_opts ns o : ns_ok ns = true -> wf_opts o = true -> wf_opts (ns_opts ns o) = true.
Proof.
  intros Hns%ns_ok_cases Hwf. unfold ns_opts, wf_opts in *.
  assert (forall p, (length p =? 0)%nat || negb (all_xff p) = true ->
    (length (bdata ns ++ p) =? 0)%nat || negb (all_xff (bdata ns ++ p)) = true) as Hpre.
  { intros p Hp. rewrite all_xff_app, length_app. destruct Hns as [->|Hns]; [done|].
    rewrite Hns. apply orb_true_r. }
  destruct (Prefix o) as [p|] eqn:Ep; cbn [is_nil negb]; [by apply Hpre|].
  destruct (negb (is_nil (Start o)) || negb (is_nil (End_ o))) eqn:Ese; [|by apply Hpre].
  cbn [Prefix End_]. destruct (End_ o) as [e|] eqn:Ee; cbn [is_nil negb] in *.
  - destruct e; [done|]. unfold prefixed, blen. cbn. by destruct (bdata ns).
  - destruct Hns as [->|Hns]; [done|]. destruct (bytesPrefixEnd_spec ns Hns) as (e & -> & Hne & _).
    by destruct e.
Qed.

Lemma strip_select ns o l :
  ns_ok ns = true -> wf_opts o = true ->
  strip (bdata ns) (select (ns_opts ns o) l) = select o (strip (bdata ns) l) /\
  Forall (fun e => in_ns (bdata ns) e = true) (select (ns_opts ns o) l).
Proof.
  intros Hns Hwf. destruct (ns_opts_reverse ns o) as [Hr _]. unfold select. rewrite Hr.
  assert (forall k, in_opts (ns_opts ns o) (bdata ns ++ k) = true <-> in_opts o k = true) as Hin.
  { intros k. rewrite in_ns_opts by done. split; [|eauto]. by intros (k0 & ->%app_inv_head & ?). }
  assert (strip (bdata ns) (filter (fun e => in_opts (ns_opts ns o) e.1 = true) l) =
    filter (fun e => in_opts o e.1 = true) (strip (bdata ns) l)) as E.
  { apply strip_filter. intros k v. apply Hin. }
  split.
  - destruct (Reverse o); [|done]. by rewrite strip_reverse, E.
  - apply Forall_forall. intros e He.
    assert (e ∈ filter (fun e => in_opts (ns_opts ns o) e.1 = true) l) as [Ho _]%list_elem_of_filter.
    { destruct (Reverse o); [|done]. by rewrite elem_of_reverse in He. }
    rewrite in_ns_opts in Ho by done. destruct Ho as (k & Hk & _). apply in_ns_true. eauto.
Qed.

(** *** The laws *)

Context {L : RWLaws RW M}.

Lemma prefixed_data ns k : bdata (prefixed ns k) = bdata ns ++ bdata k.
Proof. done. Qed.

Lemma prefixed_nonempty ns k : bdata k <> [] -> bdata (prefixed ns k) <> [].
Proof. rewrite prefixed_data. intros H E. by apply app_eq_nil in E as [_ ?]. Qed.

(** An update of the wrapped store is one of the namespace. *)
Lemma strip_update ns k v l l' :
  kv_sorted l -> kv_sorted l' ->
  kv_update (ns ++ k) v l l' -> kv_update k v (strip ns l) (strip ns l').
Proof.
  intros Hs Hs' Hu k'. rewrite !strip_lookup by done. rewrite Hu.
  repeat case_bool_decide; naive_solver.
Qed.

Existing Instance namespace_rw.
Existing Instance namespace_model.

(** A movement of the inner iterator is one of the namespace's. *)
Lemma finds_strip (n : Datastore) (ni : namespaceIterator) o E r :
  ns_live n ni o -> it_finds (ns_store n) (ns_opts (namespace n) o) E r ->
  Forall (fun e => in_ns (bdata (namespace n)) e = true) E ->
  it_finds (RW := namespace_rw) (n : store namespace_rw) o (strip (bdata (namespace n)) E) (r.1, on_it ni r.2).
Proof.
  intros (Hns & Hok & Hwf & Hus & _) [Hl H] HF.
  assert (ns_live n (on_it ni r.2) o) as Hlive by (split_and!; try done; by rewrite Hns).
  destruct (ns_opts_reverse (namespace n) o) as [Hrev Hko].
  split; [done|]. destruct E as [|e E].
  { destruct H as [Hr H]. split; [done|]. intros Hr'. split; [done|]. exists []. rewrite Hrev in H. auto. }
  destruct H as (Hr & Hk & Hv & Hrem).
  apply Forall_cons in HF as [He HF]. rewrite strip_cons, He. split; [done|]. split_and!.
  - cbn. unfold Key. cbn. by rewrite Hk, Hns.
  - intros Hko'. apply Hv. by rewrite Hko.
  - split; [done|]. exists E. done.
Qed.

Lemma namespace_laws : RWLaws namespace_rw namespace_model.
Proof.
  split.
  - intros n a b [? ?] ?. split; [done|]. by eapply usable_le.
  - intros n a [? Hu]. apply strip_sorted. by eapply entries_sorted.
  - intros n a k [Hok Hu] Hk. cbn. unfold Get. rewrite blen_nonzero by done.
    destruct (Get_spec (ns_store n) a (prefixed (namespace n) k) Hu) as (r & s' & -> & Hu' & He & Hr);
      [by apply prefixed_nonempty|].
    eexists r, _. split; [done|]. cbn. rewrite He. split_and!; try done.
    rewrite strip_lookup by (by eapply entries_sorted). done.
  - intros n a k [Hok Hu] Hk. cbn. unfold Has. rewrite blen_nonzero by done.
    destruct (Has_spec (ns_store n) a (prefixed (namespace n) k) Hu) as (s' & -> & Hu' & He);
      [by apply prefixed_nonempty|].
    eexists. rewrite strip_lookup by (by eapply entries_sorted). split; [done|]. cbn. by rewrite He.
  - intros n a k v [Hok Hu] Hk. cbn. unfold Set_. rewrite blen_nonzero by done.
    destruct (Set_spec (ns_store n) a (prefixed (namespace n) k) v Hu) as (s' & -> & Hu' & He);
      [by apply prefixed_nonempty|].
    eexists. split; [done|]. cbn. split; [done|]. apply strip_update; [by eapply entries_sorted..|done].
  - intros n a k [Hok Hu] Hk. cbn. unfold Delete. rewrite blen_nonzero by done.
    destruct (Delete_spec (ns_store n) a (prefixed (namespace n) k) Hu) as (s' & -> & Hu' & He);
      [by apply prefixed_nonempty|].
    eexists. split; [done|]. cbn. split; [done|]. apply strip_update; [by eapply entries_sorted..|done].
  - intros n a o [Hok Hu] Hwf. cbn. unfold Iterator.
    destruct (Iterator_spec (ns_store n) a (ns_opts (namespace n) o) Hu) as (it & s' & -> & Hu' & He & Hl & Hrem);
      [by apply wf_ns_opts|].
    destruct (strip_select (namespace n) o (entries (ns_store n)) Hok Hwf) as [Esel HF].
    eexists _, _. split; [done|]. cbn. rewrite He.
    assert (ns_live (set_store n s') (mk_nsIter (namespace n) it) o) as Hlive
      by (split_and!; eauto).
    split_and!; try done. eexists. split; [exact Hrem|]. split; [exact HF|]. symmetry. exact Esel.
  - by intros n ni o E [? _].
  - intros n ni o E [Hl (E0 & Hrem & HF & ->)]. pose proof Hl as (Hns & _).
    pose proof (finds_strip n ni o E0 _ Hl (Next_spec _ _ _ _ Hrem) HF) as H. cbn in *. unfold Next.
    by destruct (it_Next (ns_store n) (ni_it ni)).
  - intros n ni o (Hns & Hok & Hwf & Hus & Hl).
    destruct (strip_select (namespace n) o (entries (ns_store n)) Hok Hwf) as [Esel HF].
    split.
    + split_and!; try done. eapply rem_live. by apply Reset_spec.
    + eexists. split; [by apply Reset_spec|]. split; [exact HF|]. symmetry. exact Esel.
  - intros n ni o (Hns & Hok & Hwf & Hus & Hl). cbn. unfold Close.
    pose proof (Close_spec _ _ _ Hl) as H. by destruct (it_Close (ni_it ni)).
  - intros n ni o k Hl Hr Ho Hk. pose proof Hl as (Hns & Hok & Hwf & Hus & Hl').
    destruct (ns_opts_reverse (namespace n) o) as [Hrev _].
    destruct (strip_select (namespace n) o (entries (ns_store n)) Hok Hwf) as [Esel HF].
    assert (in_opts (ns_opts (namespace n) o) (bdata (prefixed (namespace n) k)) = true) as Ho'.
    { rewrite in_ns_opts by done. exists (bdata k). done. }
    pose proof (Seek_spec _ _ _ (prefixed (namespace n) k) Hl' ltac:(congruence) Ho'
      ltac:(by apply prefixed_nonempty)) as Hf.
    assert (Forall (fun e => in_ns (bdata (namespace n)) e = true)
      (filter (fun e => bdata (prefixed (namespace n) k) ⪯ e.1)
        (select (ns_opts (namespace n) o) (entries (ns_store n))))) as HF'.
    { apply Forall_forall. intros e [_ He]%list_elem_of_filter. by eapply Forall_forall in HF. }
    pose proof (finds_strip n ni o _ _ Hl Hf HF') as H.
    rewrite (strip_filter (bdata (namespace n)) (fun e => bdata (prefixed (namespace n) k) ⪯ e.1)
      (fun e => bdata k ⪯ e.1)), Esel in H by (intros k' v'; apply bytes_le_app).
    cbn in *. unfold Seek. rewrite Hns. by destruct (it_Seek (ns_store n) (ni_it ni) _).
Qed.

Lemma namespace_empty : EmptyKeys namespace_rw namespace_model.
Proof.
  split. intros n a k v _ Hk. apply blen_zero in Hk. cbn. unfold Get, Has, Set_, Delete. by rewrite Hk.
Qed.

(** Namespaces neither of which extends the other. *)
Definition apart (ns1 ns2 : bytes) : Prop := ~ ns1 `prefix_of` ns2 /\ ~ ns2 `prefix_of` ns1.

Lemma apart_neq ns1 ns2 k1 k2 : apart ns1 ns2 -> ns1 ++ k1 <> ns2 ++ k2.
Proof.
  intros [H1 H2] E.
  destruct (prefix_weak_total ns1 ns2 (ns1 ++ k1)) as [?|?]; [by exists k1|by exists k2|done..].
Qed.

(** C11: A namespace over a store that keeps the store contract keeps it too: the
    operations act on the keys under the prefix as on a map of their own,
    iterators with any defined options yield its selected keys without the
    prefix, in order, and are reset and positioned accordingly.  (For a prefix
    that is nil, or non-empty and not a run of 255.)  Empty keys are refused,
    whatever the inner store does with them. *)
Theorem namespace_keeps_contract : RWLaws namespace_rw namespace_model /\ EmptyKeys namespace_rw namespace_model.
Proof. split; [exact namespace_laws|exact namespace_empty]. Qed.

(** C35: Namespaces neither of which extends the other are isolated: setting or
    deleting a key in one succeeds and leaves every entry of the other as it
    is. *)
Theorem namespace_isolation (n : Datastore) ns2 m k v :
  usable (ns_store n) (S m) -> bdata k <> [] -> apart (bdata (namespace n)) ns2 ->
  (Set_ n k v).1 = None /\ (Delete n k).1 = None /\
  strip ns2 (entries (ns_store (Set_ n k v).2)) = strip ns2 (entries (ns_store n)) /\
  strip ns2 (entries (ns_store (Delete n k).2)) = strip ns2 (entries (ns_store n)).
Proof.
  intros Hu Hk Ha. unfold Set_, Delete. rewrite blen_nonzero by done.
  destruct (Set_spec (ns_store n) m (prefixed (namespace n) k) v Hu) as (s1 & -> & Hu1 & H1);
    [by apply prefixed_nonempty|].
  destruct (Delete_spec (ns_store n) m (prefixed (namespace n) k) Hu) as (s2 & -> & Hu2 & H2);
    [by apply prefixed_nonempty|]. cbn.
  assert (forall w (s' : store RW), usable s' m -> kv_update (bdata (prefixed (namespace n) k)) w (entries (ns_store n)) (entries s') ->
    strip ns2 (entries s') = strip ns2 (entries (ns_store n))) as Hsame;
    [|split_and!; [done..|by apply (Hsame _ _ Hu1 H1)|by apply (Hsame _ _ Hu2 H2)]].
  intros w s' Hu' Hupd. pose proof (entries_sorted _ _ Hu) as Hs. pose proof (entries_sorted _ _ Hu') as Hs'.
  apply kv_ext; [by apply strip_sorted..|]. intros k'. rewrite !strip_lookup by done.
  rewrite Hupd, bool_decide_false; [done|]. by apply apart_neq.
Qed.

End namespace.

(** *** Transaction stores *)

Section txn.
Context {T : Txn}.

Definition Commit (ntxn : Datastore (RW := txn_rw)) : option error * Datastore (RW := txn_rw) :=
  let '(e, s) := tx_Commit (ns_store ntxn) in (e, set_store ntxn s).

Definition Discard (ntxn : Datastore (RW := txn_rw)) : Datastore (RW := txn_rw) :=
  set_store ntxn (tx_Discard (ns_store ntxn)).

Context {TS : TxnReaderWriter T}.

(** [WrapTS]: the embedded [Datastore] and the field [store] are the same store. *)
Definition WrapTS (s : store ts_rw) (prefix : slice) : Datastore (RW := ts_rw) := Wrap s prefix.

Definition NewTxn (ntxn : Datastore (RW := ts_rw)) (readonly : bool)
    : Datastore (RW := txn_rw) * Datastore (RW := ts_rw) :=
  let '(txn, s) := ts_NewTxn (ns_store ntxn) readonly in
  (WrapTxn txn (namespace ntxn), set_store ntxn s).
End txn.
End Namespace.

(** ** Two namespaces of a memory store *)

Module NamespaceSample.
Import Sample Namespace.

Definition clock0 (n : nat) : Z := 0.
#[local] Existing Instance memory_rw | 10.

Definition mem0 : store (memory_rw clock0) := mk_MemStore Memory.NewDatastore 0.

Lemma mem0_usable n : Z.of_nat n < two64 -> usable mem0 n.
Proof.
  intros Hn. split; [|split; [done|simpl; lia]]. split; [|done]. cbn. constructor.
Qed.

Definition ns0 : Datastore (RW := memory_rw clock0) := Wrap mem0 (Some (bs "a/")).

Lemma namespace_keeps_contract_witness :
  RWLaws (namespace_rw (RW := memory_rw clock0)) namespace_model /\
  EmptyKeys (namespace_rw (RW := memory_rw clock0)) namespace_model.
Proof. apply (namespace_keeps_contract (RW := memory_rw clock0) (M := memory_model clock0)). Defined.

Lemma namespace_isolation_witness :
  strip (bs "b/") (entries (ns_store (Set_ ns0 k1 v1).2)) = strip (bs "b/") (entries (ns_store ns0)).
Proof.
  apply (namespace_isolation ns0 (bs "b/") 0 k1 v1);
    [apply mem0_usable; reflexivity|done|split; vm_compute; intros [? ?]; done].
Defined.

(** The first key an iterator over the namespace yields. *)
Definition first_key (n : Datastore (RW := memory_rw clock0)) (o : IterOptions) : option bytes :=
  match Iterator n o with
  | (Ok ni, n') => match Next n' ni with (Ok true, ni') => Some (bdata (Key ni')) | _ => None end
  | _ => None
  end.

(** A namespace that is a run of 255 cannot be iterated: the key that was
    set in it is read back, but neither the unbounded iterator nor one with a
    [Start] yields it (namespace/namespace.go, [bytesPrefixEnd]). *)
Theorem namespace_of_255_not_iterable :
  let n := (Set_ (Wrap mem0 (Some [Byte.xff])) k1 v1).2 in
  (Get n k1).1 = Ok v1 /\ first_key n DefaultIterOptions = None /\
  first_key n (mkIterOptions None k1 None false false) = None /\
  first_key (Set_ ns0 k1 v1).2 (mkIterOptions None k1 None false false) = Some (bs "k1").
Proof. vm_compute. auto. Qed.
End NamespaceSample.
