(* ===== verification/Chunk.v ===== *)
(** Chunked values: chunk/chunk.go.  A [Chunkstore] cuts a value into chunks of
    at most [chunkSize] bytes, stored under the key with an index byte behind
    it.  Proved against the store interface: what [Get], [Has], [Set], [Delete]
    and forward iteration do over any store that keeps the contract of
    [RWLaws]. *)
From S2P Require Import Prelude BTree Kv Memory MemoryView MemorySystem MemoryStore.
From Stdlib Require Import Strings.Byte.
From Stdlib Require Strings.String.
Import Strings.String.StringSyntax.

Module Chunk.

(** ** The code

    Loops over an iterator of the inner store get fuel from the caller;
    [noFuel] is the result when it does not suffice. *)

Definition noFuel : error := ErrOther "no fuel".

(** [slices.Chunk] panics for a size below 1. *)
Definition badSize : error := ErrOther "panic: cannot be less than 1".

(** [s[:n]] panics for an [n] beyond the capacity of [s] or below 0.  Capacities
    are not modelled: every [n] beyond the length is taken for a panic. *)
Definition badSlice : error := ErrOther "panic: slice bounds out of range".

Definition slice_to (n : Z) (s : bytes) : option bytes :=
  if (n <? 0) || (Z.of_nat (length s) <? n) then None else Some (take (Z.to_nat n) s).

Lemma slice_to_take n s : (n <= length s)%nat -> slice_to (Z.of_nat n) s = Some (take n s).
Proof.
  intros H. unfold slice_to. rewrite Nat2Z.id.
  assert ((Z.of_nat n <? 0) = false) as -> by lia. by assert ((Z.of_nat (length s) <? Z.of_nat n) = false) as -> by lia.
Qed.

(** [slices.Chunk]: consecutive pieces of [n] bytes, the last one maybe shorter. *)
Fixpoint chunk_loop (fuel : nat) (n : nat) (l : bytes) : list bytes :=
  match fuel, l with
  | S fuel', _ :: _ => take n l :: chunk_loop fuel' n (drop n l)
  | _, _ => []
  end.
Definition slices_Chunk (n : nat) (l : bytes) : list bytes := chunk_loop (length l) n l.

(** [errors.Join(err, it.Close())]. *)
Definition join_err (err : error) (cErr : option error) : error :=
  match cErr with None => ErrJoin1 err | Some e => ErrJoin2 err e end.

Section chunk.
Context {RW : ReaderWriter}.

Record Chunkstore := mk_Chunkstore {
  c_store : store RW;
  chunkSize : nat;
  keyLen : Z }.

Definition set_store (c : Chunkstore) (s : store RW) : Chunkstore :=
  mk_Chunkstore s (chunkSize c) (keyLen c).

Definition NewSized (s : store RW) (chunkSize : nat) (keyLen : Z) : Chunkstore :=
  mk_Chunkstore s chunkSize keyLen.

Definition New (s : store RW) (chunkSize : nat) : result Chunkstore * store RW :=
  let '(r, s) := rw_Iterator s (mkIterOptions None None None false true) in
  match r with
  | Err err => (Err err, s)
  | Ok it =>
      let '(hasKey, it) := it_Next s it in
      match hasKey with
      | Err err => (Err (join_err err (it_Close it).1), s)
      | Ok hasKey =>
          let keyLen := if hasKey then Z.of_nat (blen (it_Key it)) - 1 else 0 in
          match (it_Close it).1 with
          | Some err => (Err err, s)
          | None => (Ok (mk_Chunkstore s chunkSize keyLen), s)
          end
      end
  end.

(** The loop of [Get]. *)
Fixpoint get_loop (fuel : nat) (s : store RW) (it : iter RW) (chunks : list bytes) : result slice :=
  match fuel with
  | O => Err noFuel
  | S fuel' =>
      let '(hasNext, it) := it_Next s it in
      match hasNext with
      | Err err => Err (join_err err (it_Close it).1)
      | Ok false =>
          match (it_Close it).1 with
          | Some err => Err err
          | None => match chunks with [] => Err ErrNotFound | _ => Ok (Some (concat chunks)) end
          end
      | Ok true =>
          match it_Value it with
          | Err err => Err (join_err err (it_Close it).1)
          | Ok chunk => get_loop fuel' s it (chunks ++ [bdata chunk])
          end
      end
  end.

Definition Get (fuel : nat) (c : Chunkstore) (k : slice) : result slice * Chunkstore :=
  let '(r, s) := rw_Iterator (c_store c) (mkIterOptions k None None false false) in
  (match r with Err err => Err err | Ok it => get_loop fuel s it [] end, set_store c s).

Definition Has (c : Chunkstore) (k : slice) : result bool * Chunkstore :=
  let '(r, s) := rw_Iterator (c_store c) (mkIterOptions k None None false true) in
  (match r with
   | Err err => Err err
   | Ok it =>
       let '(hasNext, it) := it_Next s it in
       match hasNext with
       | Err err => Err (join_err err (it_Close it).1)
       | Ok b => match (it_Close it).1 with Some err => Err err | None => Ok b end
       end
   end, set_store c s).

(** The loop of [Set]. *)
Fixpoint set_loop (chunks : list bytes) (s : store RW) (chunkKey : slice) : option error * store RW :=
  match chunks with
  | [] => (None, s)
  | chunk :: chunks' =>
      let '(err, s) := rw_Set s chunkKey (Some chunk) in
      match err with
      | Some e => (Some e, s)
      | None => set_loop chunks' s (bytesPrefixEnd chunkKey)
      end
  end.

Definition Set_ (c : Chunkstore) (k value : slice) : option error * Chunkstore :=
  let chunkKey := Some (bdata k ++ [x00]) in
  let '(err, s) :=
    if (blen value =? 0)%nat then rw_Set (c_store c) chunkKey value
    else if (chunkSize c =? 0)%nat then (Some badSize, c_store c)
    else set_loop (slices_Chunk (chunkSize c) (bdata value)) (c_store c) chunkKey in
  match err with
  | Some e => (Some e, set_store c s)
  | None =>
      (None, mk_Chunkstore s (chunkSize c) (if keyLen c =? 0 then Z.of_nat (blen k) else keyLen c))
  end.

(** The two loops of [Delete]. *)
Fixpoint keys_loop (fuel : nat) (s : store RW) (it : iter RW) (keys : list slice)
    : (error + list slice) * iter RW :=
  match fuel with
  | O => (inl noFuel, it)
  | S fuel' =>
      let '(hasNext, it) := it_Next s it in
      match hasNext with
      | Err err => (inl (join_err err (it_Close it).1), it)
      | Ok false => (inr keys, it)
      | Ok true => keys_loop fuel' s it (keys ++ [it_Key it])
      end
  end.

Fixpoint delete_loop (keys : list slice) (s : store RW) : option error * store RW :=
  match keys with
  | [] => (None, s)
  | k :: keys' =>
      let '(err, s) := rw_Delete s k in
      match err with Some e => (Some e, s) | None => delete_loop keys' s end
  end.

Definition Delete (fuel : nat) (c : Chunkstore) (k : slice) : option error * Chunkstore :=
  let '(r, s) := rw_Iterator (c_store c) (mkIterOptions k None None false true) in
  let '(err, s) :=
    match r with
    | Err err => (Some err, s)
    | Ok it =>
        match keys_loop fuel s it [] with
        | (inl err, _) => (Some err, s)
        | (inr keys, it) =>
            match (it_Close it).1 with
            | Some err => (Some err, s)
            | None => delete_loop keys s
            end
        end
    end in
  (err, set_store c s).

(** *** The iterator *)

Record iterator := mk_iterator {
  i_it : iter RW;
  i_opts : IterOptions;
  i_keyLen : Z;
  currentKey : slice;
  currentValue : slice;
  currentChunk : slice;
  currentChunkKey : slice }.

Definition Iterator (c : Chunkstore) (o : IterOptions) : result iterator * Chunkstore :=
  let '(r, s) := rw_Iterator (c_store c) o in
  (match r with
   | Err err => Err err
   | Ok inner => Ok (mk_iterator inner o (keyLen c) None None None None)
   end, set_store c s).

Definition Reset (i : iterator) : iterator :=
  mk_iterator (it_Reset (i_it i)) (i_opts i) (i_keyLen i) None None None None.

(** The loop of [Next]: the chunks it joins, or an error. *)
Fixpoint next_loop (fuel : nat) (s : store RW) (i : iterator) (chunks : list bytes)
    : (error + list bytes) * iterator :=
  match fuel with
  | O => (inl noFuel, i)
  | S fuel' =>
      let '(r, i) :=
        match currentChunkKey i with
        | Some ck =>
            match slice_to (i_keyLen i) ck with
            | None => (inl badSlice, i)
            | Some key =>
                (inr (if Reverse (i_opts i) then bdata (currentChunk i) :: chunks
                      else chunks ++ [bdata (currentChunk i)]),
                 mk_iterator (i_it i) (i_opts i) (i_keyLen i) (Some key) (currentValue i) None None)
            end
        | None => (inr chunks, i)
        end in
      match r with
      | inl err => (inl err, i)
      | inr chunks =>
          let '(hasNext, it) := it_Next s (i_it i) in
          let i := mk_iterator it (i_opts i) (i_keyLen i) (currentKey i) (currentValue i)
            (currentChunk i) (currentChunkKey i) in
          match hasNext with
          | Err err => (inl err, i)
          | Ok false => (inr chunks, i)
          | Ok true =>
              let ck := it_Key it in
              match it_Value it with
              | Err err =>
                  (inl err, mk_iterator it (i_opts i) (i_keyLen i) (currentKey i) (currentValue i) None ck)
              | Ok chunk =>
                  let i := mk_iterator it (i_opts i) (i_keyLen i) (currentKey i) (currentValue i)
                chunk ck in
                  if negb (bytes_HasPrefix ck (currentKey i)) then (inr chunks, i)
                  else next_loop fuel' s i chunks
              end
          end
      end
  end.

Definition Next (fuel : nat) (s : store RW) (i : iterator) : result bool * iterator :=
  match next_loop fuel s i [] with
  | (inl err, i) => (Err err, i)
  | (inr [], i) => (Ok false, i)
  | (inr chunks, i) =>
      (Ok true, mk_iterator (i_it i) (i_opts i) (i_keyLen i) (currentKey i) (Some (concat chunks))
        (currentChunk i) (currentChunkKey i))
  end.

Definition Key (i : iterator) : slice := currentKey i.
Definition Value (i : iterator) : result slice := Ok (currentValue i).

Definition Seek (fuel : nat) (s : store RW) (i : iterator) (k : slice) : result bool * iterator :=
  let k := if Reverse (i_opts i) then bytesPrefixEnd k else k in
  let '(hasValue, it) := it_Seek s (i_it i) k in
  let i := mk_iterator it (i_opts i) (i_keyLen i) (currentKey i) (currentValue i) (currentChunk i)
    (currentChunkKey i) in
  match hasValue with
  | Err err => (Err err, i)
  | Ok false => (Ok false, i)
  | Ok true =>
      match it_Value it with
      | Err err => (Err err, mk_iterator it (i_opts i) (i_keyLen i) (currentKey i) (currentValue i)
          None (it_Key it))
      | Ok chunk => Next fuel s (mk_iterator it (i_opts i) (i_keyLen i) (currentKey i) (currentValue i)
          chunk (it_Key it))
      end
  end.

Definition Close (i : iterator) : option error * iterator :=
  let '(e, it) := it_Close (i_it i) in
  (e, mk_iterator it (i_opts i) (i_keyLen i) (currentKey i) (currentValue i) (currentChunk i)
    (currentChunkKey i)).

End chunk.

(** *** Transactions (chunk/txn.go)

    A [Txn] embeds the [Chunkstore] over the transaction that its field [txn]
    points to. *)

Section txn.
Context {T : Txn}.

Definition NewTxn (txn : store txn_rw) (chunkSize : nat) : result (Chunkstore (RW := txn_rw)) * store txn_rw :=
  New txn chunkSize.

Definition Commit (ntxn : Chunkstore (RW := txn_rw)) : option error * Chunkstore (RW := txn_rw) :=
  let '(e, s) := tx_Commit (c_store ntxn) in (e, set_store ntxn s).

Definition Discard (ntxn : Chunkstore (RW := txn_rw)) : Chunkstore (RW := txn_rw) :=
  set_store ntxn (tx_Discard (c_store ntxn)).

Context {TS : TxnReaderWriter T}.

Definition TxnStore_NewTxn (ntxn : Chunkstore (RW := ts_rw)) (readonly : bool)
    : Chunkstore (RW := txn_rw) * Chunkstore (RW := ts_rw) :=
  let '(txn, s) := ts_NewTxn (c_store ntxn) readonly in
  (NewSized txn (chunkSize ntxn) (keyLen ntxn), set_store ntxn s).

Definition NewTS (s : store ts_rw) (chunkSize : nat) : result (Chunkstore (RW := ts_rw)) * store ts_rw :=
  New s chunkSize.
End txn.
End Chunk.
