(* ===== verification/ChunkSpec.v ===== *)
(** The properties of chunked values, over any store that keeps the store
    contract: what is read back after a write, after overwriting and after a
    delete, and what iteration yields. *)
From S2P Require Import Prelude BTree Kv Memory MemoryView MemorySystem MemoryStore Chunk.
From Stdlib Require Import Strings.Byte NArith.
From Stdlib Require Strings.String.
Import Strings.String.StringSyntax.
Import Chunk.

(** ** Entries of chunks *)

Definition byte_of (i : nat) : byte := default x00 (of_N (N.of_nat i)).
Definition chunk_key (K : bytes) (i : nat) : bytes := K ++ [byte_of i].

(** The entries of the chunks [cs] of key [K], from index [i] on. *)
Fixpoint chunk_entries (K : bytes) (i : nat) (cs : list bytes) : list entry :=
  match cs with
  | [] => []
  | c :: cs' => (chunk_key K i, c) :: chunk_entries K (S i) cs'
  end.

(** The entries under a key. *)
Definition under (K : bytes) (l : list entry) : list entry :=
  filter (fun e => bool_decide (K `prefix_of` e.1) = true) l.

(** What the chunks of a key read as. *)
Definition joined (l : list entry) : result slice :=
  match l with [] => Err ErrNotFound | _ => Ok (Some (concat (snd <$> l))) end.

Lemma to_N_byte_of i : (i < 256)%nat -> to_N (byte_of i) = N.of_nat i.
Proof.
  intros Hi. unfold byte_of. destruct (of_N (N.of_nat i)) as [b|] eqn:E; simpl.
  - by apply to_of_N in E.
  - apply of_N_None_iff in E. lia.
Qed.

Lemma byte_inc_of i : (i < 255)%nat -> byte_inc (byte_of i) = byte_of (S i) /\ byte_of i <> xff.
Proof.
  intros Hi. assert (byte_of i <> xff) as Hne.
  { intros E. apply (f_equal to_N) in E. rewrite to_N_byte_of in E by lia. change (to_N xff) with 255%N in E. lia. }
  split; [|done]. apply to_N_inj. rewrite to_N_byte_inc_ne, !to_N_byte_of by (done || lia). lia.
Qed.

(** The next chunk key, up to the last of the 256 index bytes. *)
Lemma bytesPrefixEnd_chunk K i :
  (i < 255)%nat -> bytesPrefixEnd (Some (chunk_key K i)) = Some (chunk_key K (S i)).
Proof.
  intros Hi. destruct (byte_inc_of i Hi) as [E Hne]. pose proof (bytesPrefixEnd_loop_some K (byte_of i) 0 Hne) as H. cbn [replicate] in H.
  unfold bytesPrefixEnd, blen, chunk_key, bdata. cbn. unfold id. by rewrite H, E.
Qed.

Lemma chunk_entries_prefix K i cs e : e ∈ chunk_entries K i cs -> K `prefix_of` e.1.
Proof.
  revert i. induction cs as [|c cs IH]; intros i; simpl; [by intros ?%not_elem_of_nil|].
  intros [->|He]%elem_of_cons; [|by eapply IH]. simpl. unfold chunk_key. by apply prefix_app_r.
Qed.

Lemma chunk_entries_sorted K i cs : (i + length cs <= 256)%nat -> kv_sorted (chunk_entries K i cs).
Proof.
  revert i. induction cs as [|c cs IH]; intros i Hi; simpl in *; [constructor|].
  constructor; [apply IH; lia|]. apply Forall_forall.
  assert (forall j cs', (i < j)%nat -> (j + length cs' <= 256)%nat -> forall e, e ∈ chunk_entries K j cs' ->
    chunk_key K i ≺ e.1) as H.
  { intros j cs'. revert j. induction cs' as [|c' cs' IH']; intros j Hj Hl e; simpl; [by intros ?%not_elem_of_nil|].
    intros [->|He]%elem_of_cons; simpl in *.
    - apply bytes_lt_app, bytes_lt_cons. left. rewrite !to_N_byte_of by lia. lia.
    - apply (IH' (S j)); [lia..|done]. }
  intros e He. apply (H (S i) cs); [lia..|done].
Qed.

Lemma kv_lookup_prefix K i cs k v : kv_lookup k (chunk_entries K i cs) = Some v -> K `prefix_of` k.
Proof.
  revert i. induction cs as [|c cs IH]; intros i; simpl; [done|]. case_bool_decide as E; [|apply IH].
  intros _. rewrite <- E. by apply prefix_app_r.
Qed.

(** Writing chunks over older ones leaves the older ones beyond the new. *)
Lemma chunk_entries_over K i cs old k :
  kv_lookup k (chunk_entries K i (cs ++ drop (length cs) old)) =
  match kv_lookup k (chunk_entries K i cs) with
  | Some v => Some v
  | None => kv_lookup k (chunk_entries K i old)
  end.
Proof.
  revert i old. induction cs as [|c cs IH]; intros i old; simpl; [by rewrite drop_0|].
  case_bool_decide as E; [done|]. destruct old as [|o old]; simpl.
  - rewrite app_nil_r. by destruct (kv_lookup k (chunk_entries K (S i) cs)).
  - rewrite bool_decide_false by done. apply IH.
Qed.

Lemma under_sorted K l : kv_sorted l -> kv_sorted (under K l).
Proof.
  unfold kv_sorted. induction 1 as [|e l Hl IH HF]; [constructor|]. unfold under. rewrite filter_cons.
  case_decide; [|done]. constructor; [done|]. apply Forall_forall.
  intros y [_ Hy]%list_elem_of_filter. by eapply Forall_forall in HF.
Qed.

Lemma under_lookup K l k :
  kv_sorted l ->
  kv_lookup k (under K l) = if bool_decide (K `prefix_of` k) then kv_lookup k l else None.
Proof.
  intros Hs. apply option_eq. intros v. rewrite kv_lookup_elem by (by apply under_sorted).
  unfold under. rewrite list_elem_of_filter. cbn [fst]. case_bool_decide.
  - rewrite kv_lookup_elem by done. tauto.
  - naive_solver.
Qed.

(** [slices.Chunk] loses nothing and keeps the size. *)
Lemma slices_Chunk_concat n l : (0 < n)%nat -> concat (slices_Chunk n l) = l.
Proof.
  intros Hn. unfold slices_Chunk. assert (forall fuel l, (length l <= fuel)%nat -> concat (chunk_loop fuel n l) = l) as H.
  { induction fuel as [|fuel IH]; intros l0 Hl; [by destruct l0; simpl in *; [|lia]|].
    destruct l0 as [|x l0]; [done|]. cbn [chunk_loop concat]. rewrite IH; [by rewrite take_drop|].
    rewrite length_drop. simpl in *. lia. }
  by apply H.
Qed.

Lemma slices_Chunk_length n l : (0 < n)%nat -> (length (slices_Chunk n l) <= length l)%nat.
Proof.
  intros Hn. unfold slices_Chunk. assert (forall fuel l, (length (chunk_loop fuel n l) <= fuel)%nat) as H; [|apply H].
  induction fuel as [|fuel IH]; intros l0; simpl; [lia|]. destruct l0; simpl; [lia|]. specialize (IH (drop n (b :: l0))). lia.
Qed.

(** ** Operations *)

Section chunk.
Context {RW : ReaderWriter} {M : RWModel RW} {L : RWLaws RW M}.

(** The keys a chunk store can tell apart by prefix. *)
Definition key_ok (K : bytes) : Prop := K <> [] /\ all_xff K = false.

Lemma prefix_select K ko l :
  select (mkIterOptions (Some K) None None false ko) l = under K l.
Proof. unfold select, under, in_opts. cbn [Reverse Prefix]. by apply list_filter_iff. Qed.

Lemma prefix_wf K ko : key_ok K -> wf_opts (mkIterOptions (Some K) None None false ko) = true.
Proof. intros [_ H]. unfold wf_opts. simpl. rewrite H. apply orb_true_r. Qed.

Lemma get_loop_spec fuel s it o E acc :
  it_rem s it o E -> KeysOnly o = false -> (length E < fuel)%nat ->
  get_loop fuel s it acc =
  match acc ++ (snd <$> E) with [] => Err ErrNotFound | cs => Ok (Some (concat cs)) end.
Proof.
  revert it E acc. induction fuel as [|fuel IH]; intros it E acc Hrem Hko Hf; [lia|].
  cbn [get_loop]. destruct (Next_spec s it o E Hrem) as [Hl H].
  destruct (it_Next s it) as [r it']. cbn [fst snd] in *. destruct E as [|e E].
  - destruct H as [-> _]. rewrite (Close_spec _ _ _ Hl), app_nil_r. by destruct acc.
  - destruct H as (-> & _ & Hv & Hrem'). destruct (Hv Hko) as (v & -> & Hv2). rewrite Hv2.
    rewrite (IH it' E) by (done || simpl in Hf; lia). rewrite fmap_cons, <- (assoc_L (++)). done.
Qed.

Lemma Get_joined fuel c n K :
  usable (c_store c) n -> key_ok K -> (length (entries (c_store c)) < fuel)%nat ->
  (Get fuel c (Some K)).1 = joined (under K (entries (c_store c))).
Proof.
  intros Hu HK Hf. unfold Get.
  destruct (Iterator_spec (c_store c) n _ Hu (prefix_wf K false HK)) as (it & s' & -> & _ & _ & _ & Hrem).
  rewrite prefix_select in Hrem. cbn [fst].
  rewrite (get_loop_spec fuel s' it _ _ [] Hrem eq_refl).
  - unfold joined. by destruct (under K (entries (c_store c))).
  - eapply Nat.le_lt_trans; [apply length_filter|done].
Qed.

Lemma Has_under c n K :
  usable (c_store c) n -> key_ok K ->
  (Has c (Some K)).1 = Ok (bool_decide (under K (entries (c_store c)) <> [])).
Proof.
  intros Hu HK. unfold Has.
  destruct (Iterator_spec (c_store c) n _ Hu (prefix_wf K true HK)) as (it & s' & -> & _ & _ & _ & Hrem).
  rewrite prefix_select in Hrem. destruct (Next_spec s' it _ _ Hrem) as [Hl H].
  destruct (it_Next s' it) as [r it']. cbn [fst snd] in *. rewrite (Close_spec _ _ _ Hl).
  destruct (under K (entries (c_store c))); destruct H as [-> _]; done.
Qed.

(** The effect of the loop of [Set]. *)
Lemma set_loop_spec K cs i s n :
  usable s (length cs + n) -> K <> [] -> (i + length cs <= 256)%nat ->
  exists s', set_loop cs s (Some (chunk_key K i)) = (None, s') /\ usable s' n /\
    forall k, kv_lookup k (entries s') =
      match kv_lookup k (chunk_entries K i cs) with Some v => Some v | None => kv_lookup k (entries s) end.
Proof.
  revert i s. induction cs as [|c cs IH]; intros i s Hu HK Hi; [by exists s|]. cbn [set_loop].
  destruct (Set_spec s (length cs + n) (Some (chunk_key K i)) (Some c)) as (s1 & -> & Hu1 & H1);
    [done|unfold chunk_key; by destruct K|].
  assert (exists s', set_loop cs s1 (bytesPrefixEnd (Some (chunk_key K i))) = (None, s') /\ usable s' n /\
    forall k, kv_lookup k (entries s') =
      match kv_lookup k (chunk_entries K (S i) cs) with Some v => Some v | None => kv_lookup k (entries s1) end)
    as (s2 & -> & Hu2 & H2).
  { destruct cs as [|c' cs]; [by exists s1|]. simpl in Hi.
    rewrite bytesPrefixEnd_chunk by lia. apply IH; [done..|simpl; lia]. }
  exists s2. split_and!; [done..|]. intros k. rewrite H2, H1. change (bdata (Some (chunk_key K i))) with (chunk_key K i).
  cbn [chunk_entries kv_lookup].
  case_bool_decide as E; cycle 1.
  { by destruct (kv_lookup k (chunk_entries K (S i) cs)). }
  destruct (kv_lookup k (chunk_entries K (S i) cs)) as [v|] eqn:El; [|done]. exfalso.
  assert (kv_sorted (chunk_entries K i (c :: cs))) as Hs by (by apply chunk_entries_sorted).
  apply kv_lookup_elem in El; [|apply StronglySorted_inv in Hs; tauto].
  apply StronglySorted_inv in Hs as [_ HF]. eapply Forall_forall in HF; [|exact El].
  cbn [fst] in HF. unfold chunk_key in *. rewrite <- E in HF. by apply bytes_lt_irrefl in HF.
Qed.

(** The chunks [Set] writes. *)
Definition value_chunks (size : nat) (v : bytes) : list bytes :=
  match v with [] => [[]] | _ => slices_Chunk size v end.

Lemma value_chunks_concat size v : (0 < size)%nat -> concat (value_chunks size v) = v.
Proof. intros Hs. unfold value_chunks. destruct v; [done|]. by apply slices_Chunk_concat. Qed.

Lemma Set_entries c K v n :
  usable (c_store c) (length (value_chunks (chunkSize c) (bdata v)) + n) -> K <> [] ->
  (0 < chunkSize c)%nat -> (length (value_chunks (chunkSize c) (bdata v)) <= 256)%nat ->
  exists c', Set_ c (Some K) v = (None, c') /\ usable (c_store c') n /\
    forall k, kv_lookup k (entries (c_store c')) =
      match kv_lookup k (chunk_entries K 0 (value_chunks (chunkSize c) (bdata v))) with
      | Some w => Some w
      | None => kv_lookup k (entries (c_store c))
      end.
Proof.
  intros Hu HK Hsz Hlen. unfold Set_. change (Some (bdata (Some K) ++ [x00])) with (Some (chunk_key K 0)).
  unfold value_chunks in *. destruct (Nat.eqb_spec (blen v) 0) as [Hb|Hb].
  - apply blen_zero in Hb. rewrite Hb in *.
    destruct (Set_spec (c_store c) n (Some (chunk_key K 0)) v Hu) as (s' & -> & Hu' & H);
      [unfold chunk_key; by destruct K|].
    eexists; split; [done|]. cbn [c_store]. split; [done|]. intros k. rewrite H, Hb. simpl.
    case_bool_decide; done.
  - rewrite blen_zero in Hb. destruct (Nat.eqb_spec (chunkSize c) 0) as [|_]; [lia|].
    destruct (bdata v) as [|x l] eqn:Ev; [done|].
    destruct (set_loop_spec K (slices_Chunk (chunkSize c) (x :: l)) 0 (c_store c) n) as (s' & -> & Hu' & H);
      [done|done|lia|].
    eexists; split; [done|]. cbn [c_store]. done.
Qed.

(** Neither key extends the other. *)
Definition unrelated (K K' : bytes) : Prop := ~ K `prefix_of` K' /\ ~ K' `prefix_of` K.

Lemma unrelated_prefix K K' k : unrelated K K' -> K `prefix_of` k -> K' `prefix_of` k -> False.
Proof. intros [H1 H2] HK HK'. destruct (prefix_weak_total K K' k HK HK'); done. Qed.

(** C13: [Set] replaces the chunks of a key from the first on.  If a key holds the
    chunks [old] and a value of at most 256 chunks is set, [Get] then returns
    the new value followed by whatever old chunks lie beyond it: exactly the
    new value when the key was absent or held no more chunks.  Keys that
    neither extend nor begin the key are left as they are. *)
Theorem chunk_set_get c K v old n fuel :
  usable (c_store c) (length (value_chunks (chunkSize c) (bdata v)) + n) -> key_ok K ->
  (0 < chunkSize c)%nat -> (length (value_chunks (chunkSize c) (bdata v)) <= 256)%nat ->
  under K (entries (c_store c)) = chunk_entries K 0 old -> (length old <= 256)%nat ->
  exists c', Set_ c (Some K) v = (None, c') /\
    ((length (entries (c_store c')) < fuel)%nat ->
      (Get fuel c' (Some K)).1 =
        Ok (Some (bdata v ++ concat (drop (length (value_chunks (chunkSize c) (bdata v))) old))) /\
      (Has c' (Some K)).1 = Ok true /\
      forall K', key_ok K' -> unrelated K K' ->
        (Get fuel c' (Some K')).1 = joined (under K' (entries (c_store c)))).
Proof.
  intros Hu HK Hsz Hlen Hold Hlold. set (cs := value_chunks (chunkSize c) (bdata v)) in *.
  pose proof (entries_sorted _ _ Hu) as Hs.
  destruct (Set_entries c K v n) as (c' & -> & Hu' & Hl); [done|apply HK|done..|]. fold cs in Hl.
  pose proof (entries_sorted _ _ Hu') as Hs'.
  assert (under K (entries (c_store c')) = chunk_entries K 0 (cs ++ drop (length cs) old)) as E.
  { apply kv_ext; [by apply under_sorted|apply chunk_entries_sorted; rewrite length_app, length_drop; lia|].
    intros k. rewrite under_lookup, chunk_entries_over, <- Hold, under_lookup by done. case_bool_decide as Hp.
    - apply Hl.
    - destruct (kv_lookup k (chunk_entries K 0 cs)) eqn:Ek; [|done]. by apply kv_lookup_prefix in Ek. }
  assert (cs <> []) as Hcs.
  { unfold cs, value_chunks. destruct (bdata v) as [|x l] eqn:Ev; [done|]. intros Ecs.
    pose proof (slices_Chunk_concat (chunkSize c) (x :: l) Hsz) as Hc. by rewrite Ecs in Hc. }
  exists c'. split; [done|]. intros Hf. split_and!.
  - rewrite (Get_joined fuel c' n) by done. rewrite E.
    assert (forall i l, snd <$> chunk_entries K i l = l) as Hsnd.
    { intros i l. revert i. induction l as [|x l IH]; intros i; [done|]. simpl. by rewrite IH. }
    unfold joined. destruct (chunk_entries K 0 (cs ++ drop (length cs) old)) eqn:Ee; [by destruct cs|].
    rewrite <- Ee, Hsnd, concat_app. unfold cs. by rewrite value_chunks_concat.
  - rewrite (Has_under c' n) by done. rewrite E, bool_decide_true; [done|]. by destruct cs.
  - intros K' HK' Hun. rewrite (Get_joined fuel c' n) by done. f_equal.
    apply kv_ext; [by apply under_sorted..|]. intros k. rewrite !under_lookup by done.
    case_bool_decide as Hp; [|done]. rewrite Hl.
    destruct (kv_lookup k (chunk_entries K 0 cs)) eqn:Ek; [|done].
    apply kv_lookup_prefix in Ek. by destruct (unrelated_prefix K K' k Hun).
Qed.

(** ** Delete *)

Lemma keys_loop_spec fuel s it o E acc :
  it_rem s it o E -> (length E < fuel)%nat ->
  exists it' ks, keys_loop fuel s it acc = (inr (acc ++ ks), it') /\ it_live s it' o /\
    bdata <$> ks = fst <$> E.
Proof.
  revert it E acc. induction fuel as [|fuel IH]; intros it E acc Hrem Hf; [lia|].
  cbn [keys_loop]. destruct (Next_spec s it o E Hrem) as [Hl H].
  destruct (it_Next s it) as [r it']. cbn [fst snd] in *. destruct E as [|e E].
  - destruct H as [-> _]. exists it', []. by rewrite app_nil_r.
  - destruct H as (-> & Hk & _ & Hrem').
    destruct (IH it' E (acc ++ [it_Key it']) Hrem') as (it2 & ks & -> & Hl2 & Hks); [simpl in Hf; lia|].
    exists it2, (it_Key it' :: ks). rewrite <- (assoc_L (++)). split_and!; [done..|].
    rewrite !fmap_cons, Hks, Hk. done.
Qed.

Lemma delete_loop_spec ks s n :
  usable s (length ks + n) -> Forall (fun k => bdata k <> []) ks ->
  exists s', delete_loop ks s = (None, s') /\ usable s' n /\
    forall k, kv_lookup k (entries s') = if bool_decide (k ∈ bdata <$> ks) then None else kv_lookup k (entries s).
Proof.
  revert s. induction ks as [|k ks IH]; intros s Hu HF; [by exists s|]. cbn [delete_loop].
  apply Forall_cons in HF as [Hk HF].
  destruct (Delete_spec s (length ks + n) k Hu Hk) as (s1 & -> & Hu1 & H1).
  destruct (IH s1 Hu1 HF) as (s2 & -> & Hu2 & H2). exists s2. split_and!; [done..|].
  intros k'. rewrite H2, H1, fmap_cons. repeat case_bool_decide; try done; set_solver.
Qed.

(** C36: [Delete] removes a key and only it: it deletes all chunks of the key,
    after which [Get] returns [ErrNotFound] and [Has] false; keys that neither
    extend nor begin the key read as before. *)
Theorem chunk_delete c K n fuel :
  usable (c_store c) (length (under K (entries (c_store c))) + n) -> key_ok K ->
  (length (entries (c_store c)) < fuel)%nat ->
  exists c', Delete fuel c (Some K) = (None, c') /\
    ((length (entries (c_store c')) < fuel)%nat ->
      (Get fuel c' (Some K)).1 = Err ErrNotFound /\ (Has c' (Some K)).1 = Ok false /\
      forall K', key_ok K' -> unrelated K K' -> (Get fuel c' (Some K')).1 = (Get fuel c (Some K')).1).
Proof.
  intros Hu HK Hf. pose proof (entries_sorted _ _ Hu) as Hs. unfold Delete.
  destruct (Iterator_spec (c_store c) _ _ Hu (prefix_wf K true HK)) as (it & s' & -> & Hu1 & He & _ & Hrem).
  rewrite prefix_select in Hrem.
  destruct (keys_loop_spec fuel s' it _ _ [] Hrem) as (it' & ks & -> & Hl & Hks).
  { eapply Nat.le_lt_trans; [apply length_filter|done]. }
  rewrite (Close_spec _ _ _ Hl). cbn [app].
  assert (forall k, k ∈ bdata <$> ks -> K `prefix_of` k) as Hpre.
  { intros k Hk. rewrite Hks in Hk. apply list_elem_of_fmap in Hk as (e & -> & [Hp _]%list_elem_of_filter).
    by apply bool_decide_eq_true in Hp. }
  destruct (delete_loop_spec ks s' n) as (s2 & -> & Hu2 & H2).
  { rewrite <- (length_fmap bdata), Hks, length_fmap. done. }
  { apply Forall_forall. intros k Hk E. destruct HK as [HK _]. apply HK.
    assert (K `prefix_of` bdata k) as Hp by (apply Hpre; by apply list_elem_of_fmap_2).
    rewrite E in Hp. by apply prefix_nil_inv in Hp. }
  rewrite He in H2. pose proof (entries_sorted _ _ Hu2) as Hs2.
  eexists; split; [done|]. cbn [c_store set_store]. intros Hf'.
  assert (under K (entries s2) = []) as E0.
  { apply kv_ext; [by apply under_sorted|constructor|]. intros k. rewrite under_lookup by done.
    case_bool_decide as Hp; [|done]. rewrite H2. case_bool_decide as Hin; [done|]. simpl.
    destruct (kv_lookup k (entries (c_store c))) as [v|] eqn:Ek; [|done]. exfalso. apply Hin. rewrite Hks.
    apply kv_lookup_elem in Ek; [|done]. apply list_elem_of_fmap. exists (k, v). split; [done|].
    apply list_elem_of_filter. by rewrite bool_decide_eq_true. }
  split_and!.
  - rewrite (Get_joined fuel _ n) by done. cbn [c_store set_store]. by rewrite E0.
  - rewrite (Has_under _ n) by done. cbn [c_store set_store]. by rewrite E0.
  - intros K' HK' Hun. rewrite (Get_joined fuel _ n), (Get_joined fuel c _ K' Hu) by done.
    cbn [c_store set_store]. f_equal. apply kv_ext; [by apply under_sorted..|]. intros k.
    rewrite !under_lookup by done. case_bool_decide as Hp; [|done]. rewrite H2.
    rewrite bool_decide_false; [done|]. intros Hin. by destruct (unrelated_prefix K K' k Hun (Hpre k Hin)).
Qed.

End chunk.
