(* ===== verification/ChunkIter.v ===== *)
(** Iteration over chunked values: the entries of a chunk store with keys of one
    length, grouped by key, and the iterator of chunk/chunk.go that yields
    them, in both directions. *)
From S2P Require Import Prelude BTree Kv Memory MemoryView MemorySystem MemoryStore Namespace Chunk ChunkSpec.
From Stdlib Require Strings.String.
Import Strings.String.StringSyntax.
From Stdlib Require Import Strings.Byte.
Import Chunk.

(** ** Grouping chunks by key *)

Section blocks.
Context (kl : nat).

(** The key a chunk belongs to. *)
Definition ckey (e : entry) : bytes := take kl e.1.

(** Consecutive chunks of one key. *)
Fixpoint blocks (l : list entry) : list (list entry) :=
  match l with
  | [] => []
  | e :: l' =>
      match blocks l' with
      | (e' :: b) :: bs =>
          if bool_decide (ckey e' = ckey e) then (e :: e' :: b) :: bs else [e] :: (e' :: b) :: bs
      | _ => [[e]]
      end
  end.

Definition bkey (b : list entry) : bytes := match b with [] => [] | e :: _ => ckey e end.

(** What a chunk store holds: every key with its chunks joined. *)
Definition logical (l : list entry) : list entry :=
  (fun b => (bkey b, concat (snd <$> b))) <$> blocks l.

(** All keys of the inner store are a key of length [kl] and an index byte. *)
Definition keys_sized (l : list entry) : Prop := Forall (fun e => length e.1 = S kl) l.

(** A non-empty block of chunks of one key. *)
Definition uniform (b : list entry) : Prop := b <> [] /\ Forall (fun e => ckey e = bkey b) b.

Lemma blocks_cons e l :
  blocks (e :: l) =
  match blocks l with
  | (e' :: b) :: bs =>
      if bool_decide (ckey e' = ckey e) then (e :: e' :: b) :: bs else [e] :: (e' :: b) :: bs
  | _ => [[e]]
  end.
Proof. done. Qed.

Lemma blocks_uniform l : Forall uniform (blocks l) /\ concat (blocks l) = l.
Proof.
  induction l as [|e l [IHu IHc]]; [by split|]. rewrite blocks_cons.
  destruct (blocks l) as [|[|e' b] bs].
  - simpl in *. subst l. split; [|done]. repeat constructor; done.
  - inversion_clear IHu as [|? ? [? _]]. done.
  - simpl in IHc. inversion_clear IHu as [|? ? [Hn Hf] Hbs]. case_bool_decide as E; simpl.
    + split; [|by rewrite IHc]. constructor; [|done]. split; [done|]. constructor; [done|].
      eapply Forall_impl; [exact Hf|]. intros ? Hx; simpl in *; congruence.
    + split; [|by rewrite IHc]. constructor; [by split; [|repeat constructor]|]. by constructor.
Qed.

Lemma ckey_length e l : keys_sized l -> e ∈ l -> length (ckey e) = kl.
Proof.
  intros Hl He. eapply Forall_forall in Hl; [|done]. unfold ckey. simpl in Hl.
  rewrite length_take. lia.
Qed.

Lemma ckey_prefix e l K : keys_sized l -> e ∈ l -> length K = kl -> K `prefix_of` e.1 <-> ckey e = K.
Proof.
  intros Hl He HK. eapply Forall_forall in Hl; [|done]. unfold ckey. split.
  - intros [z Hz]. rewrite Hz. rewrite <- HK. by rewrite take_app_length.
  - intros <-. by apply prefix_take.
Qed.

(** Cutting keys keeps their order. *)
Lemma take_le n a b : a ⪯ b -> take n a ⪯ take n b.
Proof.
  revert a b. induction n as [|n IH]; intros [|x a] [|y b]; simpl; intros H; auto with corekv.
  apply bytes_le_cons in H. apply bytes_le_cons. destruct H as [H|[? H]]; auto.
Qed.

Lemma logical_sorted l : keys_sized l -> kv_sorted l -> kv_sorted (logical l).
Proof.
  unfold keys_sized, kv_sorted, logical. induction l as [|e l IH]; intros Hl Hs; [constructor|].
  apply Forall_cons in Hl as [He Hl]. apply StronglySorted_inv in Hs as [Hs HF]. specialize (IH Hl Hs).
  pose proof (blocks_uniform l) as [Hu Hc]. rewrite blocks_cons.
  destruct (blocks l) as [|[|e' b] bs]; [repeat constructor..|].
  assert (e.1 ≺ e'.1) as Hlt.
  { eapply Forall_forall in HF; [exact HF|]. rewrite <- Hc. simpl. left. }
  rewrite fmap_cons in IH. pose proof IH as [IH' HF']%StronglySorted_inv. case_bool_decide as E; rewrite ?fmap_cons.
  - constructor; [done|]. eapply Forall_impl; [exact HF'|]. simpl. intros ?. by rewrite E.
  - constructor; [done|]. assert (ckey e ≺ ckey e') as Hk.
    { pose proof (take_le kl _ _ (bytes_lt_le _ _ Hlt)) as [|]%bytes_le_lteq; [done|]. by destruct E. }
    constructor; [done|]. eapply Forall_impl; [exact HF'|]. simpl. intros ? Hx. border.
Qed.

(** The chunks of a key, joined. *)
Definition join (l : list entry) : option bytes :=
  match l with [] => None | _ => Some (concat (snd <$> l)) end.

Lemma under_cons K e l :
  under K (e :: l) = if bool_decide (K `prefix_of` e.1) then e :: under K l else under K l.
Proof.
  unfold under. rewrite filter_cons. destruct (bool_decide (K `prefix_of` e.1)); done.
Qed.

Lemma logical_lookup l K :
  keys_sized l -> kv_sorted l -> length K = kl -> kv_lookup K (logical l) = join (under K l).
Proof.
  unfold keys_sized. induction l as [|e l IH]; intros Hl Hs HK; [done|].
  pose proof (logical_sorted _ Hl Hs) as Hls. pose proof (ckey_prefix e _ K Hl) as Hp.
  apply Forall_cons in Hl as [He Hl]. apply StronglySorted_inv in Hs as [Hs _].
  specialize (IH Hl Hs HK). specialize (Hp ltac:(left) HK). rewrite under_cons.
  pose proof (blocks_uniform l) as [Hu Hc]. revert Hls IH. unfold logical. rewrite blocks_cons.
  destruct (blocks l) as [|[|e' b] bs].
  - simpl in Hc. subst l. intros _ _. simpl. case_bool_decide as E.
    + rewrite bool_decide_true by (by apply Hp). done.
    + rewrite bool_decide_false by (by rewrite Hp). done.
  - inversion_clear Hu as [|? ? [? _]]. done.
  - case_bool_decide as E; rewrite !fmap_cons; cbn [kv_lookup bkey]; intros Hls IH.
    + rewrite E in IH. case_bool_decide as EK.
      * rewrite bool_decide_true by (by apply Hp). destruct (under K l) as [|x u]; [done|].
        injection IH as IH. simpl in *. by rewrite IH.
      * rewrite bool_decide_false by (by rewrite Hp). done.
    + destruct (decide (ckey e = K)) as [EK|EK].
      * rewrite (bool_decide_true (ckey e = K)), bool_decide_true by tauto. destruct (under K l) as [|x u]; [done|]. exfalso.
        apply StronglySorted_inv in Hls as [Hls HF].
        apply (proj1 (kv_lookup_elem _ K (concat (snd <$> x :: u)) Hls)) in IH. eapply Forall_forall in HF; [|exact IH].
        simpl in HF. rewrite EK in HF. by apply bytes_lt_irrefl in HF.
      * rewrite (bool_decide_false (ckey e = K)) by done. by rewrite (bool_decide_false (K `prefix_of` e.1)) by (by rewrite Hp).
Qed.

Lemma logical_key_length l K v : keys_sized l -> (K, v) ∈ logical l -> length K = kl.
Proof.
  intros Hl (b & [= -> ->] & Hb)%list_elem_of_fmap. pose proof (blocks_uniform l) as [Hu Hc].
  eapply Forall_forall in Hu as [Hn _]; [|done]. destruct b as [|e b]; [done|].
  eapply ckey_length; [done|]. rewrite <- Hc. apply list_elem_of_In, in_concat.
  exists (e :: b). split; [by apply list_elem_of_In|by left].
Qed.
End blocks.

(** ** Options that do not cut through a key *)

Definition bounds_sized (kl : nat) (o : IterOptions) : Prop :=
  (blen (Prefix o) <= kl)%nat /\ (blen (Start o) <= kl)%nat /\ (blen (End_ o) <= kl)%nat.

Lemma le_snoc a k b : (length a <= length k)%nat -> a ⪯ k ++ [b] <-> a ⪯ k.
Proof.
  revert a. induction k as [|x k IH]; intros [|y a] Hl; simpl in *; try lia; [done|..].
  - split; auto with corekv.
  - rewrite !bytes_le_cons, IH by lia. done.
Qed.

Lemma lt_snoc a k b : (length a <= length k)%nat -> (k ++ [b]) ≺ a <-> k ≺ a.
Proof.
  intros Hl. destruct (bytes_lt_dec (k ++ [b]) a) as [H|H], (bytes_lt_dec k a) as [H'|H']; try done.
  - exfalso. apply le_snoc with (b := b) in H'; [|done]. border.
  - exfalso. apply le_snoc in H; [|done]. border.
Qed.

Lemma in_opts_ckey kl o k :
  bounds_sized kl o -> length k = S kl -> in_opts o k = in_opts o (take kl k).
Proof.
  intros (HP & HS & HE) Hk. assert (exists b, k = take kl k ++ [b]) as [b Hb].
  { pose proof (take_drop kl k) as E. destruct (drop kl k) as [|b [|? ?]] eqn:Ed;
      apply (f_equal length) in Ed; rewrite length_drop in Ed; simpl in Ed; try lia. by exists b. }
  assert (length (take kl k) = kl) as Hl by (rewrite length_take; lia).
  revert Hb Hl. generalize (take kl k). intros k' -> Hl. unfold in_opts.
  destruct (Prefix o) as [p|].
  - apply bool_decide_ext. unfold blen in HP. simpl in HP. split.
    + intros [z Hz]. apply (f_equal (take kl)) in Hz. rewrite <- Hl, take_app_length in Hz.
      rewrite Hz, take_app_ge by (unfold id in *; lia). by apply prefix_app_r.
    + intros. by apply prefix_app_r.
  - unfold blen in *. f_equal; [|f_equal]; apply bool_decide_ext; [apply le_snoc; lia|apply lt_snoc; lia].
Qed.

(** Selecting chunks by their keys selects whole values. *)
Lemma logical_filter kl o l :
  keys_sized kl l -> kv_sorted l -> bounds_sized kl o ->
  logical kl (filter (fun e => in_opts o e.1 = true) l) =
  filter (fun e => in_opts o e.1 = true) (logical kl l).
Proof.
  intros Hl Hs Hb. set (f := filter (fun e : entry => in_opts o e.1 = true) l).
  assert (kv_sorted f) as Hsf by (by apply filter_sorted).
  assert (keys_sized kl f) as Hlf.
  { apply Forall_forall. intros e [_ He]%list_elem_of_filter. by eapply Forall_forall in Hl. }
  assert (forall K, length K <> kl -> forall l', keys_sized kl l' -> kv_lookup K (logical kl l') = None) as Hno.
  { intros K HK l' Hl'. apply kv_lookup_none. intros v Hv. by eapply logical_key_length in Hv. }
  apply kv_ext; [by apply logical_sorted|by apply filter_sorted, logical_sorted|].
  intros K. rewrite kv_lookup_filter by (by apply logical_sorted).
  destruct (decide (length K = kl)) as [HK|HK].
  2: { rewrite !Hno by done. by destruct (in_opts o K). }
  rewrite !logical_lookup by done. assert (under K f = if in_opts o K then under K l else []) as ->; [|by destruct (in_opts o K)].
  unfold f. clear Hno f Hsf Hlf. induction l as [|e l IH]; [by destruct (in_opts o K)|].
  pose proof (ckey_prefix kl e _ K Hl) as Hp. apply Forall_cons in Hl as [He Hl].
  apply StronglySorted_inv in Hs as [Hs _]. specialize (IH Hl Hs). specialize (Hp ltac:(left) HK).
  rewrite filter_cons, (under_cons K e l). case_bool_decide as E.
  - apply Hp in E. rewrite (in_opts_ckey kl) by done. fold (ckey kl e). rewrite E.
    destruct (in_opts o K); simpl; [|done]. by rewrite under_cons, bool_decide_true, IH by (by apply Hp).
  - destruct (decide (in_opts o e.1 = true)); [|done]. by rewrite under_cons, bool_decide_false, IH.
Qed.

(** ** The iterator *)

Section iter.
Context {RW : ReaderWriter} {M : RWModel RW} {L : RWLaws RW M}.
Context (s : store RW) (o : IterOptions) (kl : nat) (Hko : KeysOnly o = false).

(** A block's value: chunks come in the direction of the iterator. *)
Definition dir (l : list bytes) : list bytes := if Reverse o then reverse l else l.
Definition bval (b : list entry) : bytes := concat (dir (snd <$> b)).

(** Blocks in iteration order. *)
Definition chunked (B : list (list entry)) : Prop :=
  Forall (uniform kl) B /\ Forall (keys_sized kl) B /\ NoDup (bkey kl <$> B).

(** [holds i oe]: the chunk [i] has read ahead. *)
Definition holds (i : iterator) (oe : option entry) : Prop :=
  match oe with
  | None => currentChunkKey i = None
  | Some e => currentChunkKey i = Some e.1 /\ bdata (currentChunk i) = e.2
  end.

(** [i] stands before the blocks [B]. *)
Record before (i : iterator) (B : list (list entry)) : Prop := {
  bf_opts : i_opts i = o;
  bf_len : i_keyLen i = Z.of_nat kl;
  bf_state :
    (holds i None /\ (B <> [] -> bdata (currentKey i) = []) /\
      (B <> [] \/ Reverse o = false -> it_rem s (i_it i) o (concat B))) \/
    exists e b B', B = (e :: b) :: B' /\ holds i (Some e) /\ it_rem s (i_it i) o (b ++ concat B') }.

(** Reading ahead one chunk. *)
Lemma it_Next_entry it e E :
  it_rem s it o (e :: E) -> e.1 <> [] ->
  exists it' v, it_Next s it = (Ok true, it') /\ it_Key it' = Some e.1 /\ it_Value it' = Ok v /\ bdata v = e.2 /\
    it_rem s it' o E.
Proof.
  intros Hrem He. destruct (Next_spec s it o _ Hrem) as [_ H]. destruct (it_Next s it) as [r it'].
  cbn [fst snd] in *. destruct H as (-> & Hk & Hv & Hrem'). destruct (Hv Hko) as (v & Hv1 & Hv2).
  exists it', v. split_and!; try done. destruct (it_Key it') as [k|]; simpl in *; congruence.
Qed.

Lemma it_Next_end it :
  it_rem s it o [] -> exists it', it_Next s it = (Ok false, it') /\ (Reverse o = false -> it_rem s it' o []).
Proof.
  intros Hrem. destruct (Next_spec s it o _ Hrem) as [_ H]. destruct (it_Next s it) as [r it'].
  destruct H as [? ?]. simpl in *. subst. eauto.
Qed.

Definition extend (acc : list bytes) (b : list entry) : list bytes :=
  if Reverse o then reverse (snd <$> b) ++ acc else acc ++ (snd <$> b).

(** The loop of [Next], from a chunk read ahead to the end of its block. *)
Lemma next_loop_block fuel i e b B acc :
  i_opts i = o -> i_keyLen i = Z.of_nat kl -> holds i (Some e) -> keys_sized kl (e :: b) -> Forall (keys_sized kl) B ->
  Forall (uniform kl) B -> Forall (fun x => ckey kl x = ckey kl e) b -> ckey kl e ∉ bkey kl <$> B ->
  it_rem s (i_it i) o (b ++ concat B) -> (S (length b) < fuel)%nat ->
  exists i', next_loop fuel s i acc = (inr (extend acc (e :: b)), i') /\ before i' B /\
    currentKey i' = Some (ckey kl e).
Proof.
  revert i e acc fuel. induction b as [|e' b IH]; intros i e acc fuel Ho Hkl [Hck Hcc] Hsz HB Hu Hb Hnot Hrem Hf;
    assert (length e.1 = S kl) as Hle by (by apply Forall_cons in Hsz as [? _]);
    (destruct fuel as [|fuel]; [simpl in Hf; lia|]); cbn [next_loop];
    rewrite Hck, Hkl, Ho, Hcc, slice_to_take by lia; cbn [i_it].
  - change (extend acc [e]) with (if Reverse o then e.2 :: acc else acc ++ [e.2]).
    destruct B as [|[|e' b] B].
    + destruct (it_Next_end _ Hrem) as (it' & -> & Hrem'). eexists; split_and!; [done| |done].
      split; try done. left. split_and!; [done..|]. intros [|]; [done|auto].
    + inversion_clear Hu as [|? ? [? _]]. done.
    + assert (length e'.1 = S kl) as Hl. { apply Forall_cons in HB as [HB _]. by apply Forall_cons in HB as [HB _]. }
      destruct (it_Next_entry _ e' _ Hrem) as (it' & v & -> & Hk & -> & Hv & Hrem'); [by intros E; rewrite E in Hl|].
      cbn [currentKey i_opts i_keyLen currentValue]. rewrite Hk.
      assert (bytes_HasPrefix (Some e'.1) (Some (ckey kl e)) = false) as Hp.
      { apply not_true_iff_false. rewrite bytes_HasPrefix_true. simpl. intros Hp. apply Hnot.
        rewrite fmap_cons. apply elem_of_cons. left. symmetry. simpl.
        apply (ckey_prefix kl e' [e']); [by repeat constructor|by left| |done].
        eapply ckey_length; [done|by left]. }
      fold (ckey kl e). rewrite Hp. cbn [negb]. eexists; split_and!; [done| |done].
      split; try done. right. by exists e', b, B.
  - pose proof Hsz as [He [He' Hsz']%Forall_cons]%Forall_cons. apply Forall_cons in Hb as [Hb1 Hb].
    destruct (it_Next_entry _ e' _ Hrem) as (it' & v & -> & Hk & -> & Hv & Hrem'); [by intros E; rewrite E in He'|].
    cbn [currentKey i_opts i_keyLen currentValue]. rewrite Hk.
    assert (bytes_HasPrefix (Some e'.1) (Some (ckey kl e)) = true) as Hp.
    { apply bytes_HasPrefix_true. simpl. rewrite <- Hb1. apply prefix_take. }
    fold (ckey kl e). rewrite Hp. cbn [negb].
    destruct (IH (mk_iterator it' (i_opts i) (i_keyLen i) (Some (ckey kl e)) (currentValue i) v (Some e'.1)) e'
      (if Reverse o then e.2 :: acc else acc ++ [e.2]) fuel) as (i' & Hn & Hbf & Hck'); try done.
    + by constructor.
    + eapply Forall_impl; [exact Hb|]. intros ? ->. done.
    + by rewrite Hb1.
    + simpl in Hf. lia.
    + rewrite Ho, Hkl in Hn. exists i'. split_and!; [|done|by rewrite Hck', Hb1]. rewrite Hn. do 2 f_equal.
      unfold extend. rewrite !fmap_cons. destruct (Reverse o).
      * rewrite (reverse_cons (e'.2 :: _) e.2), <- (assoc_L (++)). done.
      * by rewrite <- (assoc_L (++)).
Qed.

Lemma Next_block fuel i b0 B :
  chunked (b0 :: B) -> before i (b0 :: B) -> (S (length b0) < fuel)%nat ->
  exists i', Next fuel s i = (Ok true, i') /\ Key i' = Some (bkey kl b0) /\ Value i' = Ok (Some (bval b0)) /\
    before i' B.
Proof.
  intros (Hu & Hsz & Hnd) [Ho Hkl Hst] Hf. apply Forall_cons in Hu as [[Hne Hb0] Hu].
  apply Forall_cons in Hsz as [Hsz0 Hsz]. rewrite fmap_cons in Hnd. apply NoDup_cons in Hnd as [Hnot _].
  destruct b0 as [|e b]; [done|]. apply Forall_cons in Hb0 as [_ Hb]. cbn [bkey] in *.
  assert (exists i', next_loop fuel s i [] = (inr (extend [] (e :: b)), i') /\ before i' B /\
    currentKey i' = Some (ckey kl e)) as (i' & Hn & Hbf & Hck).
  { destruct Hst as [(Hh & Hck & Hrem)|(? & ? & ? & [= <- <- <-] & Hh & Hrem)].
    - specialize (Hck ltac:(done)). specialize (Hrem ltac:(by left)). destruct fuel as [|fuel]; [lia|].
      cbn [next_loop]. rewrite Hh. pose proof Hsz0 as [He _]%Forall_cons.
      destruct (it_Next_entry _ e _ Hrem) as (it' & v & -> & Hk & -> & Hv & Hrem'); [by intros E; rewrite E in He|].
      rewrite Hk. cbn [currentKey]. assert (bytes_HasPrefix (Some e.1) (currentKey i) = true) as ->.
      { apply bytes_HasPrefix_true. rewrite Hck. apply prefix_nil. }
      eapply next_loop_block; simpl in *; eauto with lia.
    - eapply next_loop_block; simpl in *; eauto with lia. }
  unfold Next. rewrite Hn. assert (extend [] (e :: b) = dir (snd <$> e :: b)) as Hext.
  { unfold extend, dir. destruct (Reverse o); [by rewrite app_nil_r|done]. }
  assert (dir (snd <$> e :: b) <> []) as Hd.
  { unfold dir. rewrite fmap_cons. destruct (Reverse o); [|done]. rewrite reverse_cons. by destruct (reverse _). }
  rewrite Hext. destruct (dir (snd <$> e :: b)) as [|x l] eqn:Ed; [done|].
  eexists; split; [reflexivity|]. split; [done|]. split; [unfold bval; by rewrite Ed|]. destruct Hbf. by split.
Qed.

Lemma Next_end fuel i :
  before i [] -> Reverse o = false -> (0 < fuel)%nat ->
  exists i', Next fuel s i = (Ok false, i') /\ before i' [].
Proof.
  intros [Ho Hkl Hst] Hrev Hf. destruct fuel as [|fuel]; [lia|].
  destruct Hst as [(Hh & Hck & Hrem)|(? & ? & ? & [=] & _)]. unfold Next. cbn [next_loop]. rewrite Hh.
  destruct (it_Next_end _ (Hrem ltac:(by right))) as (it' & -> & Hrem'). eexists; split; [done|].
  split; try done. left. split_and!; try done. auto.
Qed.

(** [i] yields the entries [l]; afterwards a forward iterator keeps returning
    false.  (What reverse iterators of the inner store do after their end is
    not part of the contract.) *)
Fixpoint yields (fuel : nat) (i : iterator) (l : list entry) : Prop :=
  match l with
  | [] => Reverse o = false -> (Next fuel s i).1 = Ok false
  | e :: l' =>
      exists i', Next fuel s i = (Ok true, i') /\ Key i' = Some e.1 /\ Value i' = Ok (Some e.2) /\ yields fuel i' l'
  end.

Lemma before_yields fuel i B :
  chunked B -> before i B -> (S (length (concat B)) < fuel)%nat ->
  yields fuel i ((fun b => (bkey kl b, bval b)) <$> B).
Proof.
  revert i. induction B as [|b B IH]; intros i HB Hbf Hf.
  - intros Hrev. destruct (Next_end fuel i Hbf Hrev) as (? & -> & _); [lia|done].
  - simpl in Hf. rewrite length_app in Hf.
    destruct (Next_block fuel i b B HB Hbf) as (i' & ? & ? & ? & ?); [lia|]. exists i'. split_and!; try done.
    apply IH; [|done|lia]. destruct HB as (Hu & Hs & Hn). apply Forall_cons in Hu as [_ Hu].
    apply Forall_cons in Hs as [_ Hs]. by apply NoDup_cons in Hn as [_ Hn].
Qed.
End iter.

Lemma concat_sized kl B : keys_sized kl (concat B) -> Forall (keys_sized kl) B.
Proof. unfold keys_sized. by rewrite Forall_concat. Qed.

Lemma uniform_reverse kl b : uniform kl b -> bkey kl (reverse b) = bkey kl b /\ uniform kl (reverse b).
Proof.
  intros [Hne Hf]. assert (bkey kl (reverse b) = bkey kl b) as E.
  { destruct (reverse b) as [|x r] eqn:E.
    - by apply (f_equal reverse) in E; rewrite reverse_involutive in E.
    - simpl. eapply Forall_forall in Hf; [exact Hf|]. apply elem_of_reverse. rewrite E. left. }
  split; [done|]. split; [|by rewrite E; apply Forall_reverse].
  intros E'. by apply (f_equal reverse) in E'; rewrite reverse_involutive in E'.
Qed.

Lemma concat_reverse (B : list (list entry)) : concat (reverse (reverse <$> B)) = reverse (concat B).
Proof.
  induction B as [|b B IH]; [done|]. rewrite fmap_cons, reverse_cons, concat_app, IH. simpl.
  by rewrite reverse_app, app_nil_r.
Qed.

(** Sorted blocks have distinct keys. *)
Lemma logical_NoDup kl l : kv_sorted (logical kl l) -> NoDup (bkey kl <$> blocks kl l).
Proof.
  unfold logical. generalize (blocks kl l). intros B. induction B as [|b B IH]; [constructor|].
  rewrite !fmap_cons. intros [HB HF]%StronglySorted_inv. constructor; [|by apply IH].
  intros (b' & E & Hb')%list_elem_of_fmap. eapply Forall_forall in HF; [|by apply list_elem_of_fmap_2].
  simpl in HF. rewrite E in HF. by apply bytes_lt_irrefl in HF.
Qed.

(** The blocks of sorted entries, in the direction of the iterator. *)
Definition dir_blocks (o : IterOptions) (B : list (list entry)) : list (list entry) :=
  if Reverse o then reverse (reverse <$> B) else B.

Lemma blocks_chunked kl o l :
  keys_sized kl l -> kv_sorted l ->
  chunked kl (dir_blocks o (blocks kl l)) /\
  concat (dir_blocks o (blocks kl l)) = (if Reverse o then reverse l else l) /\
  (fun b => (bkey kl b, bval o b)) <$> dir_blocks o (blocks kl l) =
    (if Reverse o then reverse (logical kl l) else logical kl l).
Proof.
  intros Hl Hs. pose proof (logical_NoDup kl l (logical_sorted kl l Hl Hs)) as Hnd.
  pose proof (blocks_uniform kl l) as [Hu Hc].
  assert (Forall (keys_sized kl) (blocks kl l)) as Hsz by (apply concat_sized; by rewrite Hc).
  unfold chunked, logical, bval, dir, dir_blocks. destruct (Reverse o); [|done].
  assert (forall b, b ∈ blocks kl l -> bkey kl (reverse b) = bkey kl b /\ uniform kl (reverse b)) as Hr.
  { intros b Hb. apply uniform_reverse. by eapply Forall_forall in Hu. }
  split_and!.
  - apply Forall_reverse, Forall_fmap, Forall_forall. intros b Hb. by apply Hr.
  - apply Forall_reverse, Forall_fmap. eapply Forall_impl; [exact Hsz|]. intros b Hb. by apply Forall_reverse.
  - rewrite fmap_reverse. apply (NoDup_Permutation_proper _ (bkey kl <$> (reverse <$> blocks kl l)));
      [apply reverse_Permutation|].
    replace (bkey kl <$> (reverse <$> blocks kl l)) with (bkey kl <$> blocks kl l); [done|].
    rewrite <- list_fmap_compose. apply list_fmap_ext. intros i b Hb%list_elem_of_lookup_2. simpl.
    by rewrite (proj1 (Hr b Hb)).
  - by rewrite concat_reverse, Hc.
  - rewrite fmap_reverse. f_equal. rewrite <- list_fmap_compose. apply list_fmap_ext.
    intros i b Hb%list_elem_of_lookup_2. simpl. rewrite (proj1 (Hr b Hb)), fmap_reverse.
    by rewrite reverse_involutive.
Qed.

Section spec.
Context {RW : ReaderWriter} {M : RWModel RW} {L : RWLaws RW M}.

(** C12: The iterator of a chunk store yields whole values: over a store all of
    whose keys have one length, and for bounds that are no longer than a key,
    it yields the keys the options select, each once, with its chunks joined
    in order, ascending or (Reverse) descending; a forward iterator then
    returns false.  The yielded pairs are exactly what [Get] returns for the
    keys of that length. *)
Theorem chunk_iterator_enumerates c n kl o fuel :
  usable (c_store c) n -> keys_sized kl (entries (c_store c)) -> keyLen c = Z.of_nat kl ->
  wf_opts o = true -> KeysOnly o = false -> bounds_sized kl o ->
  (S (length (entries (c_store c))) < fuel)%nat ->
  (exists i c', Iterator c o = (Ok i, c') /\ entries (c_store c') = entries (c_store c) /\
    yields (c_store c') o fuel i (select o (logical kl (entries (c_store c))))) /\
  forall K, length K = kl -> key_ok K ->
    (Get fuel c (Some K)).1 =
      match kv_lookup K (logical kl (entries (c_store c))) with
      | Some v => Ok (Some v)
      | None => Err ErrNotFound
      end.
Proof.
  intros Hu Hsz Hkl Hwf Hko Hb Hf. pose proof (entries_sorted _ _ Hu) as Hs. split.
  - unfold Iterator. destruct (Iterator_spec _ _ _ Hu Hwf) as (it & s' & -> & _ & He & _ & Hrem).
    eexists _, _. split; [reflexivity|]. cbn [c_store set_store]. split; [done|].
    set (l := filter (fun e : entry => in_opts o e.1 = true) (entries (c_store c))) in *.
    assert (keys_sized kl l) as Hl.
    { apply Forall_forall. intros e [_ Hi]%list_elem_of_filter. by eapply Forall_forall in Hsz. }
    assert (kv_sorted l) as Hsl by (by apply filter_sorted).
    destruct (blocks_chunked kl o l Hl Hsl) as (HB & HcB & HvB).
    assert (select o (logical kl (entries (c_store c))) =
      (if Reverse o then reverse (logical kl l) else logical kl l)) as ->.
    { unfold select. rewrite <- logical_filter by done. done. }
    rewrite <- HvB. apply before_yields; [done|done| |].
    + split; [done..|]. left. split_and!; [done..|]. intros _. rewrite HcB. done.
    + rewrite HcB. assert (length l <= length (entries (c_store c)))%nat by apply length_filter.
      destruct (Reverse o); rewrite ?length_reverse; lia.
  - intros K HK HKok. rewrite (Get_joined fuel c n) by (done || lia). rewrite logical_lookup by done.
    unfold joined, join. by destruct (under K (entries (c_store c))).
Qed.

(** Without options everything is selected. *)
Lemma select_all ko l : select (mkIterOptions None None None false ko) l = l.
Proof.
  unfold select. cbn [Reverse]. induction l as [|e l IH]; [done|]. rewrite filter_cons, decide_True; [by rewrite IH|].
  unfold in_opts. simpl. by rewrite bool_decide_true by apply bytes_nil_le.
Qed.

Lemma Set_keyLen c k v c' :
  Set_ c k v = (None, c') ->
  keyLen c' = (if keyLen c =? 0 then Z.of_nat (blen k) else keyLen c) /\ chunkSize c' = chunkSize c.
Proof.
  unfold Set_. destruct (blen v =? 0)%nat;
    [destruct (rw_Set _ _ _) as [[e|] s']|destruct (chunkSize c =? 0)%nat; [|destruct (set_loop _ _ _) as [[e|] s']]];
    intros [=]; by subst.
Qed.

(** C37: [New] finds the key length of a store that already holds chunks: over a
    store all of whose keys are a key of length [kl] and an index byte it
    returns a chunk store of that key length, and of length 0 over an empty
    store, where the first successful [Set] fixes the length to that of its
    key and later ones keep it.  The entries are untouched. *)
Theorem chunk_new_key_length s n kl size :
  usable s n -> keys_sized kl (entries s) ->
  exists c : Chunkstore, New s size = (Ok c, c_store c) /\ usable (c_store c) n /\ entries (c_store c) = entries s /\
    chunkSize c = size /\ keyLen c = (if bool_decide (entries s = []) then 0 else Z.of_nat kl) /\
    forall k v c', Set_ c k v = (None, c') ->
      keyLen c' = (if keyLen c =? 0 then Z.of_nat (blen k) else keyLen c).
Proof.
  intros Hu Hsz. unfold New.
  destruct (Iterator_spec s _ (mkIterOptions None None None false true) Hu eq_refl)
    as (it & s' & -> & Hu' & He & _ & Hrem).
  destruct (Next_spec s' it _ _ Hrem) as [Hl H]. destruct (it_Next s' it) as [r it']. cbn [fst snd] in *.
  rewrite select_all in H.
  exists (mk_Chunkstore s' size (if bool_decide (entries s = []) then 0 else Z.of_nat kl)).
  split; [|split_and!; try done; intros; by eapply Set_keyLen].
  rewrite (Close_spec _ _ _ Hl). cbn [c_store]. destruct (entries s) as [|e l]; destruct H as [-> H]; [done|].
  destruct H as (Hke & _). apply Forall_cons in Hsz as [He1 _].
  rewrite bool_decide_false by done. unfold blen. rewrite Hke, He1. repeat f_equal. lia.
Qed.
End spec.

(** ** A chunk store over the memory store *)

Module ChunkSample.
Import Sample NamespaceSample.
#[local] Existing Instance memory_rw | 10.

Definition c0 : Chunkstore (RW := memory_rw clock0) := NewSized mem0 2 0.
Definition K1 : bytes := bs "k1".
Definition K2 : bytes := bs "k2".
Definition abcde : slice := Some (bs "abcde").
Definition xy : slice := Some (bs "xy").

(** [k1] holds "abcde" in three chunks, [k2] "xy" in one. *)
Definition c2 : Chunkstore (RW := memory_rw clock0) := (Set_ (Set_ c0 (Some K1) abcde).2 (Some K2) xy).2.

Lemma c2_usable : usable (c_store c2) 9.
Proof.
  destruct (Set_entries c0 K1 abcde 10) as (c' & E & Hu & _); [by apply mem0_usable|done|vm_compute; lia..|].
  pose proof (Set_keyLen _ _ _ _ E) as [_ Hc].
  destruct (Set_entries c' K2 xy 9) as (c'' & E' & Hu' & _); rewrite ?Hc; [done|done|vm_compute; lia..|].
  unfold c2. rewrite E. cbn [snd]. by rewrite E'.
Qed.

Lemma c2_entries : entries (c_store c2) =
  chunk_entries K1 0 [bs "ab"; bs "cd"; bs "e"] ++ chunk_entries K2 0 [bs "xy"].
Proof. vm_compute. reflexivity. Qed.

Lemma c2_keyLen : keyLen c2 = 2. Proof. vm_compute. reflexivity. Qed.
Lemma c2_chunkSize : chunkSize c2 = 2%nat. Proof. vm_compute. reflexivity. Qed.


Lemma c2_under_K1 : under K1 (entries (c_store c2)) = chunk_entries K1 0 [bs "ab"; bs "cd"; bs "e"].
Proof. rewrite c2_entries. vm_compute. reflexivity. Qed.

Lemma c2_sized : keys_sized 2 (entries (c_store c2)).
Proof. rewrite c2_entries. repeat constructor. Qed.

Lemma chunk_set_get_witness :
  exists c', Set_ c2 (Some K1) xy = (None, c') /\
    ((length (entries (c_store c')) < 9)%nat -> (Get 9 c' (Some K1)).1 = Ok (Some (bs "xycde"))).
Proof.
  destruct (chunk_set_get c2 K1 xy [bs "ab"; bs "cd"; bs "e"] 8 9) as (c' & E & H).
  - rewrite c2_chunkSize. exact c2_usable.
  - done.
  - rewrite c2_chunkSize. lia.
  - rewrite c2_chunkSize. vm_compute. lia.
  - exact c2_under_K1.
  - simpl. lia.
  - exists c'. split; [exact E|]. intros Hl. destruct (H Hl) as [H1 _]. rewrite c2_chunkSize in H1. exact H1.
Defined.

Lemma chunk_delete_witness :
  exists c', Delete 9 c2 (Some K1) = (None, c') /\
    ((length (entries (c_store c')) < 9)%nat -> (Get 9 c' (Some K1)).1 = Err ErrNotFound).
Proof.
  destruct (chunk_delete c2 K1 6 9) as (c' & E & H).
  - rewrite c2_under_K1. exact c2_usable.
  - done.
  - rewrite c2_entries. simpl. lia.
  - exists c'. split; [exact E|]. intros Hl. exact (proj1 (H Hl)).
Defined.

Definition reversed : IterOptions := mkIterOptions None (Some K1) None true false.

Lemma chunk_iterator_enumerates_witness :
  exists i c', Iterator c2 reversed = (Ok i, c') /\ yields (c_store c') reversed 9 i
    [(K2, bs "xy"); (K1, bs "abcde")].
Proof.
  destruct (chunk_iterator_enumerates c2 9 2 reversed 9) as [(i & c' & E & _ & H) _].
  - exact c2_usable.
  - exact c2_sized.
  - exact c2_keyLen.
  - reflexivity.
  - reflexivity.
  - repeat split; vm_compute; lia.
  - rewrite c2_entries. simpl. lia.
  - rewrite c2_entries in H. exists i, c'. split; [exact E|exact H].
Defined.

Lemma chunk_new_key_length_witness :
  exists c : Chunkstore (RW := memory_rw clock0), New (c_store c2) 2 = (Ok c, c_store c) /\ keyLen c = 2.
Proof.
  destruct (chunk_new_key_length (c_store c2) 9 2 2 c2_usable c2_sized) as (c & E & _ & _ & _ & Hk & _).
  rewrite bool_decide_false in Hk by (rewrite c2_entries; discriminate).
  exists c. split; [exact E|exact Hk].
Defined.

(** Overwriting a value with a shorter one leaves the chunks of the old one
    behind: [Set] of "xy" over "abcde" reads back as "xycde" (chunk/chunk.go,
    [Set], writes the new chunks and deletes none). *)
Theorem chunk_overwrite_keeps_tail :
  (Get 9 c2 (Some K1)).1 = Ok abcde /\
  (Set_ c2 (Some K1) xy).1 = None /\ (Get 9 (Set_ c2 (Some K1) xy).2 (Some K1)).1 = Ok (Some (bs "xycde")).
Proof. vm_compute. auto. Qed.
End ChunkSample.
