(* ===== verification/Blockstore.v ===== *)
(** Blocks by content identifier: blockstore/blockstore.go over any store that
    keeps the store contract.  Content identifiers and blocks come from
    go-cid and go-block-format and are the class [CidLib]; [CidLaws] is what
    their documentation says.  Proved: what reading, writing and listing blocks
    do in terms of a map from identifiers to data, and the effect of rehashing. *)
From S2P Require Import Prelude BTree Kv Memory MemoryView MemorySystem MemoryStore Namespace ChunkSpec ChunkIter.
From Stdlib Require Import Strings.Byte.
From Stdlib Require Strings.String.
Import Strings.String.StringSyntax.

(** go-cid ([cid.Cid] with [Defined], [Bytes], [Prefix().Sum], [Equals] and
    [cid.Cast]) and go-block-format ([blocks.Block] with [Cid], [RawData] and
    [blocks.NewBlockWithCid]). *)
Class CidLib := {
  Cid : Type;
  Block : Type;
  cid_Defined : Cid -> bool;
  cid_Bytes : Cid -> slice;
  cid_Prefix_Sum : Cid -> slice -> result Cid;
  cid_Equals : Cid -> Cid -> bool;
  cid_Cast : slice -> result Cid;
  block_Cid : Block -> Cid;
  block_RawData : Block -> slice;
  NewBlockWithCid : slice -> Cid -> result Block }.

(** A defined identifier has a non-empty binary form that [Cast] reads back;
    [NewBlockWithCid] pairs data with an identifier; [Cast] and the
    hash depend on the bytes of their argument only. *)
Class CidLaws (C : CidLib) : Prop := {
  Bytes_defined c : cid_Defined c = true -> bdata (cid_Bytes c) <> [];
  Bytes_undefined c : cid_Defined c = false -> bdata (cid_Bytes c) = [];
  Cast_Bytes c : cid_Defined c = true -> cid_Cast (cid_Bytes c) = Ok c;
  Cast_bytes k k' : bdata k = bdata k' -> cid_Cast k = cid_Cast k';
  Sum_bytes c d d' : bdata d = bdata d' -> cid_Prefix_Sum c d = cid_Prefix_Sum c d';
  Equals_spec c c' : cid_Equals c c' = true <-> c = c';
  NewBlock_spec d c : exists b, NewBlockWithCid d c = Ok b /\ block_Cid b = c /\ block_RawData b = d }.

Module Blockstore.
Section blockstore.
Context {C : CidLib} {RW : ReaderWriter}.

(** The errors of the store, [ipld.ErrNotFound] and [ErrHashMismatch]. *)
Inductive bs_error :=
| StoreErr (e : error)
| ipld_ErrNotFound (k : Cid)
| ErrHashMismatch.

Record Blockstore := mk_Blockstore { bs_store : store RW; rehash : bool }.

Definition NewBlockstore (s : store RW) : Blockstore := mk_Blockstore s false.
Definition HashOnRead (b : Blockstore) (enabled : bool) : Blockstore := mk_Blockstore (bs_store b) enabled.
Definition set_store (b : Blockstore) (s : store RW) : Blockstore := mk_Blockstore s (rehash b).

Definition new_block (d : slice) (k : Cid) : Block + bs_error :=
  match NewBlockWithCid d k with Ok b => inl b | Err e => inr (StoreErr e) end.

Definition Get (b : Blockstore) (k : Cid) : (Block + bs_error) * Blockstore :=
  if negb (cid_Defined k) then (inr (ipld_ErrNotFound k), b)
  else
    let '(r, s) := rw_Get (bs_store b) (cid_Bytes k) in
    (match r with
     | Err err => if errors_Is err ErrNotFound then inr (ipld_ErrNotFound k) else inr (StoreErr err)
     | Ok data =>
         if rehash b then
           match cid_Prefix_Sum k data with
           | Err err => inr (StoreErr err)
           | Ok rbcid => if negb (cid_Equals rbcid k) then inr ErrHashMismatch else new_block data rbcid
           end
         else new_block data k
     end, set_store b s).

(** [Put], and the body of the loop of [PutMany]. *)
Definition Put (b : Blockstore) (block : Block) : option error * Blockstore :=
  let k := cid_Bytes (block_Cid block) in
  let '(r, s) := rw_Has (bs_store b) k in
  match r with
  | Ok true => (None, set_store b s)
  | _ => let '(e, s) := rw_Set s k (block_RawData block) in (e, set_store b s)
  end.

Fixpoint PutMany (b : Blockstore) (blocks : list Block) : option error * Blockstore :=
  match blocks with
  | [] => (None, b)
  | x :: blocks' =>
      let k := cid_Bytes (block_Cid x) in
      let '(r, s) := rw_Has (bs_store b) k in
      match r with
      | Ok true => PutMany (set_store b s) blocks'
      | _ =>
          let '(e, s) := rw_Set s k (block_RawData x) in
          match e with
          | Some e => (Some e, set_store b s)
          | None => PutMany (set_store b s) blocks'
          end
      end
  end.

Definition Has (b : Blockstore) (k : Cid) : result bool * Blockstore :=
  let '(r, s) := rw_Has (bs_store b) (cid_Bytes k) in (r, set_store b s).

(** The size and the error; an error of the store comes with size 0 (of a nil buffer). *)
Definition GetSize (b : Blockstore) (k : Cid) : (Z * option bs_error) * Blockstore :=
  let '(r, s) := rw_Get (bs_store b) (cid_Bytes k) in
  (match r with
   | Err err => if errors_Is err ErrNotFound then (-1, Some (ipld_ErrNotFound k)) else (0, Some (StoreErr err))
   | Ok buf => (Z.of_nat (blen buf), None)
   end, set_store b s).

Definition DeleteBlock (b : Blockstore) (k : Cid) : option error * Blockstore :=
  let '(e, s) := rw_Delete (bs_store b) (cid_Bytes k) in (e, set_store b s).

(** The goroutine of [AllKeysChan]: the identifiers it sends until it closes the
    channel.  [cancelled n] says that the [n]-th select takes the branch of the
    cancelled context. *)
Fixpoint send_keys (fuel : nat) (s : store RW) (it : iter RW) (cancelled : nat -> bool) (n : nat) : list Cid :=
  match fuel with
  | O => []
  | S fuel' =>
      let '(hasNext, it) := it_Next s it in
      match hasNext with
      | Ok true =>
          match cid_Cast (it_Key it) with
          | Err _ => send_keys fuel' s it cancelled n
          | Ok k => if cancelled n then [] else k :: send_keys fuel' s it cancelled (S n)
          end
      | _ => []
      end
  end.

Definition AllKeysChan (fuel : nat) (cancelled : nat -> bool) (b : Blockstore) : result (list Cid) * Blockstore :=
  let '(r, s) := rw_Iterator (bs_store b) (mkIterOptions None None None false true) in
  (match r with
   | Err err => Err err
   | Ok it => Ok (send_keys fuel s it cancelled 0)
   end, set_store b s).

(** ** Properties *)

Context {M : RWModel RW} {L : RWLaws RW M} {CL : CidLaws C}.

(** The data stored under an identifier. *)
Definition data_of (b : Blockstore) (k : Cid) : option bytes :=
  kv_lookup (bdata (cid_Bytes k)) (entries (bs_store b)).

(** The abstract operation: a block is stored unless its identifier is. *)
Definition put_spec (m : Cid -> option bytes) (x : Block) (k : Cid) : option bytes :=
  match m k with
  | Some d => Some d
  | None => if cid_Equals (block_Cid x) k then Some (bdata (block_RawData x)) else None
  end.

Definition block_ok (x : Block) : Prop := cid_Defined (block_Cid x) = true.

Lemma Bytes_inj c c' :
  cid_Defined c = true -> cid_Defined c' = true -> bdata (cid_Bytes c) = bdata (cid_Bytes c') -> c = c'.
Proof.
  intros H H' E%Cast_bytes. pose proof (Cast_Bytes c H). pose proof (Cast_Bytes c' H'). congruence.
Qed.

Lemma Put_spec b x n :
  usable (bs_store b) (S n) -> block_ok x ->
  exists b', Put b x = (None, b') /\ usable (bs_store b') n /\ rehash b' = rehash b /\
    forall k, cid_Defined k = true -> data_of b' k = put_spec (data_of b) x k.
Proof.
  intros Hu Hx. unfold Put. pose proof (Bytes_defined _ Hx) as Hne.
  destruct (Has_spec _ _ _ Hu Hne) as (s & -> & Hu' & He). case_bool_decide as Hin.
  - eexists; split; [done|]. split_and!; [eapply usable_le; [done|lia]|done|]. intros k Hk.
    unfold data_of, put_spec. cbn [bs_store set_store]. rewrite He. fold (data_of b k).
    destruct (data_of b k) eqn:E; [done|]. destruct (cid_Equals _ k) eqn:Eq; [|done].
    apply Equals_spec in Eq as <-. unfold data_of in E. rewrite E in Hin. by destruct Hin.
  - destruct (Set_spec s n (cid_Bytes (block_Cid x)) (block_RawData x) Hu' Hne) as (s' & -> & Hu2 & Hupd).
    eexists; split; [done|]. split_and!; [done..|]. intros k Hk. unfold data_of, put_spec.
    cbn [bs_store set_store]. rewrite Hupd, He. fold (data_of b k). case_bool_decide as E.
    + apply Bytes_inj in E; [|done..]. subst k. fold (data_of b (block_Cid x)) in Hin.
      destruct (data_of b (block_Cid x)); [by destruct Hin|]. by rewrite (proj2 (Equals_spec _ _) eq_refl).
    + destruct (data_of b k) eqn:Ed; [done|]. destruct (cid_Equals _ k) eqn:Eq; [|done].
      by apply Equals_spec in Eq as <-.
Qed.

(** [PutMany] is [Put] of the blocks in order. *)
Lemma PutMany_cons b x xs :
  PutMany b (x :: xs) = let '(e, b') := Put b x in match e with Some e => (Some e, b') | None => PutMany b' xs end.
Proof.
  cbn [PutMany]. unfold Put. destruct (rw_Has _ _) as [[[]|] s]; try done; by destruct (rw_Set _ _ _) as [[] ?].
Qed.

Lemma put_spec_ext m m' x k : m k = m' k -> put_spec m x k = put_spec m' x k.
Proof. intros E. unfold put_spec. by rewrite E. Qed.

Lemma put_specs_ext xs m m' k : m k = m' k -> foldl put_spec m xs k = foldl put_spec m' xs k.
Proof.
  revert m m'. induction xs as [|x xs IH]; intros m m' E; [done|]. simpl. by apply IH, put_spec_ext.
Qed.

(** C31: Writing blocks: [PutMany] succeeds and stores every block in order unless
    its identifier already is, leaving all other data as it was ([Put] is the
    case of one block); [DeleteBlock] then removes exactly the data of one
    identifier. *)
Theorem blockstore_writes b xs n k0 :
  usable (bs_store b) (length xs + S n) -> Forall block_ok xs -> cid_Defined k0 = true ->
  exists b' b'', PutMany b xs = (None, b') /\ DeleteBlock b' k0 = (None, b'') /\
    (forall x, xs = [x] -> Put b x = (None, b')) /\ usable (bs_store b'') n /\
    forall k, cid_Defined k = true ->
      data_of b' k = foldl put_spec (data_of b) xs k /\
      data_of b'' k = if cid_Equals k0 k then None else data_of b' k.
Proof.
  intros Hu Hxs Hk0. assert (exists b', PutMany b xs = (None, b') /\ usable (bs_store b') (S n) /\
    forall k, cid_Defined k = true -> data_of b' k = foldl put_spec (data_of b) xs k) as (b' & HP & Hu' & Hd).
  { revert b Hu. induction Hxs as [|x xs Hx Hxs IH]; intros b Hu; [by exists b|]. rewrite PutMany_cons.
    destruct (Put_spec b x _ Hu Hx) as (b1 & -> & Hu1 & _ & H1). destruct (IH b1 Hu1) as (b2 & -> & Hu2 & H2).
    exists b2. split_and!; [done..|]. intros k Hk. rewrite H2 by done. simpl. apply put_specs_ext. by apply H1. }
  destruct (Delete_spec _ _ (cid_Bytes k0) Hu' (Bytes_defined _ Hk0)) as (s & Es & Hus & Hupd).
  exists b', (set_store b' s). split_and!; [done| | |done|].
  - unfold DeleteBlock. by rewrite Es.
  - intros x ->. rewrite PutMany_cons in HP. destruct (Put b x) as [[|] ?]; [done|]. simpl in HP. by injection HP as ->.
  - intros k Hk. split; [by apply Hd|]. unfold data_of. cbn [bs_store set_store]. rewrite Hupd.
    case_bool_decide as E.
    + apply Bytes_inj in E; [|done..]. subst. by rewrite (proj2 (Equals_spec _ _) eq_refl).
    + destruct (cid_Equals k0 k) eqn:Eq; [|done]. by apply Equals_spec in Eq as ->.
Qed.

(** What [Get] returns for stored data. *)
Definition get_spec (b : Blockstore) (k : Cid) (d : bytes) (r : Block + bs_error) : Prop :=
  if rehash b then
    match cid_Prefix_Sum k (Some d) with
    | Err e => r = inr (StoreErr e)
    | Ok k' =>
        if cid_Equals k' k then exists x, r = inl x /\ block_Cid x = k /\ bdata (block_RawData x) = d
        else r = inr ErrHashMismatch
    end
  else exists x, r = inl x /\ block_Cid x = k /\ bdata (block_RawData x) = d.

Lemma new_block_spec d k : exists x, new_block d k = inl x /\ block_Cid x = k /\ bdata (block_RawData x) = bdata d.
Proof.
  unfold new_block. destruct (NewBlock_spec d k) as (x & -> & ? & E). exists x. by rewrite E.
Qed.

(** [Get] by the data of the identifier. *)
Lemma Get_data b n k :
  usable (bs_store b) n -> cid_Defined k = true ->
  match data_of b k with
  | Some d => get_spec b k d (Get b k).1
  | None => (Get b k).1 = inr (ipld_ErrNotFound k)
  end /\ entries (bs_store (Get b k).2) = entries (bs_store b).
Proof.
  intros Hu Hk. unfold Get. rewrite Hk. cbn [negb].
  destruct (Get_spec _ _ _ Hu (Bytes_defined _ Hk)) as (r & s & -> & _ & He & Hr). fold (data_of b k) in Hr.
  split; [|done]. destruct (data_of b k) as [d|]; [|by subst r].
  destruct Hr as (sv & -> & <-). unfold get_spec. cbn [fst].
  rewrite (Sum_bytes k (Some (bdata sv)) sv) by done. destruct (rehash b); [|apply new_block_spec].
  destruct (cid_Prefix_Sum k sv) as [k'|e]; [|done]. destruct (cid_Equals k' k) eqn:E; [|done]. cbn [negb].
  apply Equals_spec in E as ->. apply new_block_spec.
Qed.

(** C32: Reading blocks: for an undefined identifier [Get] reports not-found
    without asking the store; for one without data [Get] and [GetSize] report
    not-found (with size -1) and [Has] false; for stored data [Has] is true,
    [GetSize] its length, and [Get] the block of that data, unless hashing on
    read is on and the data does not hash to the identifier, which gives
    [ErrHashMismatch] (or the error of the hash function).  Nothing is changed. *)
Theorem blockstore_reads b n k :
  usable (bs_store b) n ->
  match cid_Defined k, data_of b k with
  | false, _ => Get b k = (inr (ipld_ErrNotFound k), b)
  | true, None =>
      (Get b k).1 = inr (ipld_ErrNotFound k) /\ (Has b k).1 = Ok false /\
      (GetSize b k).1 = (-1, Some (ipld_ErrNotFound k))
  | true, Some d =>
      get_spec b k d (Get b k).1 /\ (Has b k).1 = Ok true /\ (GetSize b k).1 = (Z.of_nat (length d), None)
  end /\ entries (bs_store (Get b k).2) = entries (bs_store b).
Proof.
  intros Hu. destruct (cid_Defined k) eqn:Hk.
  2: { unfold Get. rewrite Hk. by destruct (data_of b k). }
  pose proof (Get_data b n k Hu Hk) as [HG He]. split; [|done]. unfold Has, GetSize.
  destruct (Get_spec _ _ _ Hu (Bytes_defined _ Hk)) as (r & s & -> & _ & _ & Hr).
  destruct (Has_spec _ _ _ Hu (Bytes_defined _ Hk)) as (s' & -> & _ & _). fold (data_of b k) in *.
  destruct (data_of b k) as [d|].
  - destruct Hr as (sv & -> & <-). by split_and!.
  - subst r. by split_and!.
Qed.

(** Every stored datum hashes to its identifier. *)
Definition verified (b : Blockstore) : Prop :=
  forall k d, cid_Defined k = true -> data_of b k = Some d -> cid_Prefix_Sum k (Some d) = Ok k.

(** C33: Hashing on read protects: with it on, [Get] only returns blocks whose data
    hashes to the identifier, whatever the store holds.  And it is transparent
    for honest writers: after [PutMany] of blocks that hash to their
    identifiers over a verified store, the store is verified and reading with
    hashing returns the stored data of every identifier. *)
Theorem blockstore_hash_on_read b xs n :
  usable (bs_store b) (length xs + S n) -> verified b -> Forall block_ok xs ->
  Forall (fun x => cid_Prefix_Sum (block_Cid x) (block_RawData x) = Ok (block_Cid x)) xs ->
  (forall b0 m k x, usable (bs_store b0) m -> (Get (HashOnRead b0 true) k).1 = inl x ->
    block_Cid x = k /\ cid_Prefix_Sum k (block_RawData x) = Ok k) /\
  verified (PutMany b xs).2 /\
  forall k d, cid_Defined k = true -> data_of (PutMany b xs).2 k = Some d ->
    exists x, (Get (HashOnRead (PutMany b xs).2 true) k).1 = inl x /\ bdata (block_RawData x) = d.
Proof.
  intros Hu Hv Hok Hsum. assert (verified (PutMany b xs).2 /\ usable (bs_store (PutMany b xs).2) (S n)) as [Hv' Hu'].
  { revert b Hu Hv. induction Hok as [|x xs Hx Hxs IH]; intros b Hu Hv; [by split|].
    apply Forall_cons in Hsum as [Hx' Hsum]. rewrite PutMany_cons.
    destruct (Put_spec b x _ Hu Hx) as (b1 & -> & Hu1 & _ & H1). apply IH; [done..|].
    intros k d Hk. rewrite H1 by done. unfold put_spec. destruct (data_of b k) eqn:E.
    - intros [= <-]. by apply Hv.
    - destruct (cid_Equals _ k) eqn:Eq; [|done]. intros [= <-]. apply Equals_spec in Eq as <-.
      trans (cid_Prefix_Sum (block_Cid x) (block_RawData x)); [by apply Sum_bytes|done]. }
  split_and!; [|done|].
  - intros b0 m k x Hu0 HG. destruct (cid_Defined k) eqn:Hk; [|by unfold Get in HG; rewrite Hk in HG].
    pose proof (Get_data (HashOnRead b0 true) m k Hu0 Hk) as [H _]. rewrite HG in H.
    destruct (data_of _ k) as [d|]; [|done]. unfold get_spec in H. cbn [rehash HashOnRead] in H.
    destruct (cid_Prefix_Sum k (Some d)) as [k'|] eqn:Es; [|done]. destruct (cid_Equals k' k) eqn:E; [|done].
    apply Equals_spec in E as ->. destruct H as (x' & [= <-] & <- & Hd). split; [done|].
    rewrite <- Es. by apply Sum_bytes.
  - intros k d Hk Hd. pose proof (Get_data (HashOnRead (PutMany b xs).2 true) (S n) k Hu' Hk) as [H _].
    change (data_of (HashOnRead (PutMany b xs).2 true) k) with (data_of (PutMany b xs).2 k) in H.
    rewrite Hd in H. unfold get_spec in H. cbn [rehash HashOnRead] in H.
    rewrite (Hv' k d Hk Hd), (proj2 (Equals_spec _ _) eq_refl) in H. destruct H as (x & ? & _ & ?). by exists x.
Qed.

(** ** Listing *)

(** The identifiers among keys. *)
Definition cids (ks : list bytes) : list Cid :=
  omap (fun k => match cid_Cast (Some k) with Ok c => Some c | Err _ => None end) ks.

(** What is sent of them before the context is found cancelled. *)
Fixpoint until (cancelled : nat -> bool) (n : nat) (cs : list Cid) : list Cid :=
  match cs with
  | [] => []
  | c :: cs' => if cancelled n then [] else c :: until cancelled (S n) cs'
  end.

Lemma until_prefix cancelled n cs : until cancelled n cs `prefix_of` cs.
Proof.
  revert n. induction cs as [|c cs IH]; intros n; [done|]. cbn [until].
  destruct (cancelled n); [apply prefix_nil|]. by apply prefix_cons.
Qed.

Lemma until_never n cs : until (fun _ => false) n cs = cs.
Proof. revert n. induction cs as [|c cs IH]; intros n; [done|]. cbn [until]. by rewrite IH. Qed.

Lemma send_keys_spec fuel s it o E cancelled n :
  it_rem s it o E -> (length E < fuel)%nat ->
  send_keys fuel s it cancelled n = until cancelled n (cids (fst <$> E)).
Proof.
  revert it E n. induction fuel as [|fuel IH]; intros it E n Hrem Hf; [lia|].
  cbn [send_keys]. destruct (Next_spec s it o E Hrem) as [_ H].
  destruct (it_Next s it) as [r it']. cbn [fst snd] in H. destruct E as [|e E]; [by destruct H as [-> _]|].
  destruct H as (-> & Hk & _ & Hrem'). rewrite fmap_cons. unfold cids. simpl.
  rewrite (Cast_bytes _ (Some e.1) Hk). simpl in Hf.
  destruct (cid_Cast (Some e.1)) as [c|]; [|apply IH; [done|lia]]. cbn [until].
  destruct (cancelled n); [done|]. f_equal. apply IH; [done|lia].
Qed.

(** C34: Listing: [AllKeysChan] sends, in the order of the keys, the identifier of
    every key that is one (other keys are skipped), in particular every
    identifier that has data.  When the context is cancelled at some send, what
    was sent is a prefix of that list. *)
Theorem blockstore_lists b n fuel cancelled :
  usable (bs_store b) n -> (length (entries (bs_store b)) < fuel)%nat ->
  (AllKeysChan fuel (fun _ => false) b).1 = Ok (cids (fst <$> entries (bs_store b))) /\
  (forall k, cid_Defined k = true -> is_Some (data_of b k) -> k ∈ cids (fst <$> entries (bs_store b))) /\
  exists sent, (AllKeysChan fuel cancelled b).1 = Ok sent /\ sent `prefix_of` cids (fst <$> entries (bs_store b)).
Proof.
  intros Hu Hf. unfold AllKeysChan.
  destruct (Iterator_spec _ _ (mkIterOptions None None None false true) Hu eq_refl) as (it & s & -> & _ & He & _ & Hrem).
  rewrite select_all in Hrem. cbn [fst].
  rewrite !(send_keys_spec _ _ _ _ _ _ _ Hrem Hf), until_never. split_and!; [done| |].
  - intros k Hk [d Hd]. apply kv_lookup_elem in Hd; [|by eapply entries_sorted]. unfold cids.
    apply list_elem_of_omap. exists (bdata (cid_Bytes k)). split; [by apply (list_elem_of_fmap_2 fst) in Hd|].
    rewrite (Cast_bytes _ (cid_Bytes k)) by done. by rewrite Cast_Bytes.
  - eexists; split; [done|]. apply until_prefix.
Qed.
End blockstore.
End Blockstore.

(** ** Blocks over a memory store

    Identifiers that are their data (as with the identity hash). *)

Module BlockSample.
Import Sample NamespaceSample Blockstore.
#[local] Existing Instance memory_rw | 10.

#[export] Instance id_cids : CidLib := {|
  Cid := bytes;
  Block := bytes * slice;
  cid_Defined c := negb (length c =? 0)%nat;
  cid_Bytes c := Some c;
  cid_Prefix_Sum _ d := Ok (bdata d);
  cid_Equals c c' := bool_decide (c = c');
  cid_Cast k := if (blen k =? 0)%nat then Err (ErrOther "cid too short") else Ok (bdata k);
  block_Cid x := x.1;
  block_RawData x := x.2;
  NewBlockWithCid d c := Ok (c, d) |}.

#[export] Instance id_cid_laws : CidLaws id_cids.
Proof.
  split; simpl.
  - by intros [].
  - by intros [].
  - by intros [].
  - intros k k' E. unfold blen. by rewrite E.
  - intros _ d d' ->. done.
  - intros c c'. apply bool_decide_eq_true.
  - intros d c. by exists (c, d).
Qed.

Definition b0 : Blockstore (RW := memory_rw clock0) := NewBlockstore mem0.
Definition x1 : Block := (bs "one", Some (bs "one")).
Definition x2 : Block := (bs "two", Some (bs "two")).

Lemma b0_usable n : Z.of_nat n < two64 -> usable (bs_store b0) n.
Proof. apply mem0_usable. Qed.

Lemma x12_ok : Forall block_ok [x1; x2].
Proof. by repeat constructor. Qed.

Lemma blockstore_writes_witness :
  exists b' b'', PutMany b0 [x1; x2] = (None, b') /\ DeleteBlock b' (bs "two") = (None, b'') /\
    data_of b' (bs "one") = Some (bs "one") /\ data_of b'' (bs "two") = None.
Proof.
  destruct (blockstore_writes b0 [x1; x2] 0 (bs "two") (b0_usable 3 eq_refl) x12_ok eq_refl)
    as (b' & b'' & H1 & H2 & _ & _ & H).
  exists b', b''. split; [exact H1|]. split; [exact H2|].
  split; [exact (proj1 (H (bs "one") eq_refl))|exact (proj2 (H (bs "two") eq_refl))].
Defined.

Lemma blockstore_reads_witness : (Get b0 (bs "one")).1 = inr (ipld_ErrNotFound (bs "one")).
Proof. exact (proj1 (proj1 (blockstore_reads b0 0 (bs "one") (b0_usable 0 eq_refl)))). Defined.

Lemma b0_verified : verified b0.
Proof. intros k d _ H. vm_compute in H. discriminate. Qed.

Lemma blockstore_hash_on_read_witness : verified (PutMany b0 [x1; x2]).2.
Proof.
  apply (blockstore_hash_on_read b0 [x1; x2] 0 (b0_usable 3 eq_refl) b0_verified x12_ok).
  repeat constructor.
Defined.

Lemma blockstore_lists_witness : (AllKeysChan 1 (fun _ => false) b0).1 = Ok [].
Proof. exact (proj1 (blockstore_lists b0 0 1 (fun _ => true) (b0_usable 0 eq_refl) (Nat.lt_0_1))). Defined.
End BlockSample.
