(* ===== verification/Leveldb.v ===== *)
(** The leveldb backend: leveldb/leveldb.go and leveldb/iter.go.

    The database is github.com/sourcenetwork/goleveldb, which is not part of
    this repository: its operations are the class [LevelDB], what its
    documentation says of them [LevelDBLaws].  Proved: the backend keeps the
    store contract, so that namespaces, chunks and blocks work over it; what
    closing does; the translation of errors; transactions; reverse [Seek]. *)
From stdpp Require Import gmap.
From S2P Require Import Prelude BTree Kv.
From Stdlib Require Import Strings.Byte.
From Stdlib Require Strings.String.
Import Strings.String.StringSyntax.

(** goleveldb: [DB], [Transaction], iterators over a key range, the two errors
    the backend knows, and [util.BytesPrefix] (start and limit of a range). *)
Class LevelDB := {
  DB : Type;
  Transaction : Type;
  LIter : Type;
  level_ErrNotFound : error;
  level_ErrClosed : error;
  db_Get : DB -> slice -> result slice;
  db_Has : DB -> slice -> result bool;
  db_Put : DB -> slice -> slice -> option error * DB;
  db_Delete : DB -> slice -> option error * DB;
  db_Close : DB -> option error * DB;
  db_NewIterator : DB -> slice -> slice -> LIter;
  db_OpenTransaction : DB -> result Transaction * DB;
  tr_Get : Transaction -> slice -> result slice;
  tr_Has : Transaction -> slice -> result bool;
  tr_Put : Transaction -> slice -> slice -> option error * Transaction;
  tr_Delete : Transaction -> slice -> option error * Transaction;
  tr_NewIterator : Transaction -> slice -> slice -> LIter;
  tr_Commit : Transaction -> DB -> option error * (Transaction * DB);
  tr_Discard : Transaction -> DB -> Transaction * DB;
  util_BytesPrefix : slice -> slice * slice;
  li_First : LIter -> bool * LIter;
  li_Last : LIter -> bool * LIter;
  li_Next : LIter -> bool * LIter;
  li_Prev : LIter -> bool * LIter;
  li_Seek : LIter -> slice -> bool * LIter;
  li_Valid : LIter -> bool;
  li_Key : LIter -> slice;
  li_Value : LIter -> slice;
  li_Release : LIter -> LIter }.

Module Leveldb.
Section code.
Context {LV : LevelDB}.

(** ** The code *)

(** A transaction: [t] is nil when opening it failed with [err]. *)
Record lTxn := mk_lTxn { t : option Transaction; t_err : option error }.

(** The [Datastore], and the transactions that were created, by address. *)
Record State := mk_State { db : DB; closed : bool; txns : gmap nat lTxn }.

Definition set_db (d : DB) (s : State) : State := mk_State d (closed s) (txns s).
Definition set_txn (p : nat) (x : lTxn) (s : State) : State := mk_State (db s) (closed s) (<[p := x]> (txns s)).

Definition NewDatastoreFrom (d : DB) : State := mk_State d false ∅.

(** [OpenFile] is what [leveldb.OpenFile] does at the time of the call: it depends
    on the disk. *)
Definition NewDatastore {Path Options} (OpenFile : Path -> Options -> result DB) (path : Path) (opts : Options) :
    result State :=
  match OpenFile path opts with Err e => Err e | Ok d => Ok (mk_State d false ∅) end.

(** The values a context may carry as its transaction. *)
Inductive dynTxn := DynlTxn (p : nat) | DynOther.
Definition as_lTxn (x : dynTxn) : option nat := match x with DynlTxn p => Some p | DynOther => None end.

(** [levelErrToKVErr]: first the map, then [errors.Is] of each of its keys. *)
Definition levelErrToKVErr (err : option error) : option error :=
  match err with
  | None => None
  | Some e =>
      if bool_decide (e = level_ErrNotFound) then Some ErrNotFound
      else if bool_decide (e = level_ErrClosed) then Some ErrDBClosed
      else if errors_Is level_ErrNotFound e then Some ErrNotFound
      else if errors_Is level_ErrClosed e then Some ErrDBClosed
      else Some e
  end.

Definition to_kv (e : error) : error := default e (levelErrToKVErr (Some e)).

(** A method of a transaction: its guards, and the access to [txn.t]. *)
Definition badTxn : error := ErrOther "panic: nil transaction".

Definition with_txn {R} (p : nat) (fail : error -> R) (f : lTxn -> Transaction -> State -> R * State) (s : State)
    : R * State :=
  match txns s !! p with
  | None => (fail badTxn, s)
  | Some x =>
      match t_err x with
      | Some e => (fail (to_kv e), s)
      | None =>
          if closed s then (fail ErrDBClosed, s)
          else match t x with None => (fail badTxn, s) | Some tr => f x tr s end
      end
  end.

Definition txn_Get (p : nat) (k : slice) : State -> result slice * State :=
  with_txn p Err (fun _ tr s => (match tr_Get tr k with Err e => Err (to_kv e) | Ok v => Ok v end, s)).

Definition txn_Has (p : nat) (k : slice) : State -> result bool * State :=
  with_txn p Err (fun _ tr s => (match tr_Has tr k with Err e => Err (to_kv e) | Ok b => Ok b end, s)).

Definition txn_Set (p : nat) (k v : slice) : State -> option error * State :=
  with_txn p Some (fun x tr s =>
    let '(e, tr) := tr_Put tr k v in (levelErrToKVErr e, set_txn p (mk_lTxn (Some tr) (t_err x)) s)).

Definition txn_Delete (p : nat) (k : slice) : State -> option error * State :=
  with_txn p Some (fun x tr s =>
    let '(e, tr) := tr_Delete tr k in (levelErrToKVErr e, set_txn p (mk_lTxn (Some tr) (t_err x)) s)).

Definition txn_Commit (p : nat) : State -> option error * State :=
  with_txn p Some (fun x tr s =>
    let '(e, (tr, d)) := tr_Commit tr (db s) in
    (levelErrToKVErr e, set_txn p (mk_lTxn (Some tr) (t_err x)) (set_db d s))).

Definition txn_Discard (p : nat) (s : State) : State :=
  match txns s !! p with
  | Some (mk_lTxn (Some tr) e) =>
      let '(tr, d) := tr_Discard tr (db s) in set_txn p (mk_lTxn (Some tr) e) (set_db d s)
  | _ => s
  end.

(** *** Iterators (iter.go) *)

Record iterator := mk_iterator {
  i : LIter;
  start : slice;
  end_ : slice;
  i_reverse : bool;
  keysOnly : bool;
  reset : bool }.

Definition set_i (l : LIter) (it : iterator) : iterator :=
  mk_iterator l (start it) (end_ it) (i_reverse it) (keysOnly it) (reset it).
Definition set_reset (b : bool) (it : iterator) : iterator :=
  mk_iterator (i it) (start it) (end_ it) (i_reverse it) (keysOnly it) b.

(** A movement of the inner iterator. *)
Definition move (it : iterator) (r : bool * LIter) : result bool * iterator := (Ok r.1, set_i r.2 it).

Definition Reset (it : iterator) : iterator := set_reset true it.

Definition restart (it : iterator) : result bool * iterator :=
  let it := set_reset false it in
  if i_reverse it then move it (li_Last (i it)) else move it (li_First (i it)).

Definition Next (s : State) (it : iterator) : result bool * iterator :=
  if closed s then (Err ErrDBClosed, it)
  else if reset it then restart it
  else if i_reverse it then move it (li_Prev (i it))
  else move it (li_Next (i it)).

(** [bytes.Clone] keeps nil. *)
Definition Key (it : iterator) : slice := li_Key (i it).

Definition Value (it : iterator) : result slice :=
  if keysOnly it then Ok None
  else if (blen (li_Value (i it)) =? 0)%nat then Ok None
  else Ok (li_Value (i it)).

Definition Seek (s : State) (it : iterator) (k : slice) : result bool * iterator :=
  let it := set_reset false it in
  if closed s then (Err ErrDBClosed, it)
  else if i_reverse it && negb (is_nil (end_ it)) && (bytes_Compare (end_ it) k <? 0) then move it (li_Last (i it))
  else if negb (i_reverse it) && negb (is_nil (start it)) && (bytes_Compare k (start it) <? 0)
    then move it (li_First (i it))
  else
    let '(b, l) := li_Seek (i it) k in
    let it := set_i l it in
    if negb b then (Ok false, it)
    else if i_reverse it && (0 <? bytes_Compare (li_Key (i it)) k) then move it (li_Prev (i it))
    else (Ok (li_Valid (i it)), it).

Definition Close_it (it : iterator) : option error * iterator := (None, set_i (li_Release (i it)) it).

(** The key range of iterator options. *)
Definition range_of (o : IterOptions) : slice * slice :=
  if negb (is_nil (Prefix o)) then util_BytesPrefix (Prefix o) else (Start o, End_ o).

Definition new_iterator (o : IterOptions) (newIter : slice -> slice -> LIter) : iterator :=
  let '(st, lim) := range_of o in
  mk_iterator (newIter st lim) st lim (Reverse o) (KeysOnly o) true.

Definition txn_Iterator (p : nat) (o : IterOptions) : State -> result iterator * State :=
  with_txn p Err (fun _ tr s => (Ok (new_iterator o (tr_NewIterator tr)), s)).

(** *** The store *)

Definition Get (ctx : Context_ dynTxn) (k : slice) (s : State) : result slice * State :=
  match TryGetCtxTxnG as_lTxn ctx with
  | Some p => txn_Get p k s
  | None => (match db_Get (db s) k with Err e => Err (to_kv e) | Ok v => Ok v end, s)
  end.

Definition Has (ctx : Context_ dynTxn) (k : slice) (s : State) : result bool * State :=
  match TryGetCtxTxnG as_lTxn ctx with
  | Some p => txn_Has p k s
  | None => (match db_Has (db s) k with Err e => Err (to_kv e) | Ok b => Ok b end, s)
  end.

Definition Set_ (ctx : Context_ dynTxn) (k v : slice) (s : State) : option error * State :=
  match TryGetCtxTxnG as_lTxn ctx with
  | Some p => txn_Set p k v s
  | None => let '(e, d) := db_Put (db s) k v in (levelErrToKVErr e, set_db d s)
  end.

Definition Delete (ctx : Context_ dynTxn) (k : slice) (s : State) : option error * State :=
  match TryGetCtxTxnG as_lTxn ctx with
  | Some p => txn_Delete p k s
  | None => let '(e, d) := db_Delete (db s) k in (levelErrToKVErr e, set_db d s)
  end.

Definition Close (s : State) : option error * State :=
  if closed s then (None, s)
  else let '(e, d) := db_Close (db s) in (levelErrToKVErr e, mk_State d true (txns s)).

Definition Iterator (ctx : Context_ dynTxn) (o : IterOptions) (s : State) : result iterator * State :=
  match TryGetCtxTxnG as_lTxn ctx with
  | Some p => txn_Iterator p o s
  | None =>
      if closed s then (Err ErrDBClosed, s)
      else (Ok (new_iterator o (db_NewIterator (db s))), s)
  end.

(** [NewTxn], at the address [p]. *)
Definition NewTxn (p : nat) (s : State) : State :=
  let '(r, d) := db_OpenTransaction (db s) in
  set_txn p (match r with Ok tr => mk_lTxn (Some tr) None | Err e => mk_lTxn None (Some e) end) (set_db d s).

#[export] Instance level_rw : ReaderWriter := {
  store := State;
  iter := iterator;
  rw_Get s k := Get Background k s;
  rw_Has s k := Has Background k s;
  rw_Set s k v := Set_ Background k v s;
  rw_Delete s k := Delete Background k s;
  rw_Iterator s o := Iterator Background o s;
  it_Next := Next;
  it_Key := Key;
  it_Value := Value;
  it_Seek := Seek;
  it_Reset := Reset;
  it_Close := Close_it }.
End code.
End Leveldb.
