(* ===== verification/LeveldbSpec.v ===== *)
(** What goleveldb promises, and the properties of the leveldb backend. *)
From stdpp Require Import gmap.
From S2P Require Import Prelude BTree Kv Leveldb.
From Stdlib Require Import Strings.Byte.
From Stdlib Require Strings.String.
Import Strings.String.StringSyntax.
Import Leveldb.

(** ** Positions of an iterator

    Before the first entry of its range, at an entry, or behind the last. *)

Inductive lpos := SOI | At (n : nat) | EOI.

Definition is_at (p : lpos) : bool := match p with At _ => true | _ => false end.
Definition pos_first (l : list entry) : lpos := match l with [] => EOI | _ => At 0 end.
Definition pos_last (l : list entry) : lpos := match l with [] => SOI | _ => At (length l - 1) end.
Definition pos_next (l : list entry) (p : lpos) : lpos :=
  match p with
  | SOI => pos_first l
  | At n => if (S n <? length l)%nat then At (S n) else EOI
  | EOI => EOI
  end.
Definition pos_prev (l : list entry) (p : lpos) : lpos :=
  match p with
  | SOI => SOI
  | At O => SOI
  | At (S n) => At n
  | EOI => pos_last l
  end.

(** The first entry whose key is not below [k]. *)
Fixpoint lower (k : bytes) (l : list entry) : nat :=
  match l with
  | [] => 0%nat
  | e :: l' => if bool_decide (k ⪯ e.1) then 0%nat else S (lower k l')
  end.
Definition pos_seek (l : list entry) (k : bytes) : lpos :=
  if (lower k l <? length l)%nat then At (lower k l) else EOI.

(** A key range: nil bounds are none. *)
Definition in_range (r : slice * slice) (k : bytes) : bool :=
  bool_decide (bdata r.1 ⪯ k) && (is_nil r.2 || bool_decide (k ≺ bdata r.2)).

(** What values of goleveldb stand for: a database is ready (open, without an
    open transaction), locked by an open transaction, or closed; its and a
    transaction's entries; an iterator's entries and position. *)
Class LevelDBModel (LV : LevelDB) := {
  db_ready : DB -> Prop;
  db_locked : DB -> Prop;
  db_closed : DB -> Prop;
  db_entries : DB -> list entry;
  tr_open : Transaction -> Prop;
  tr_entries : Transaction -> list entry;
  li_list : LIter -> list entry;
  li_pos : LIter -> lpos }.

Definition lmoves {LV : LevelDB} {LM : LevelDBModel LV} (l : LIter) (r : bool * LIter) (p : lpos) : Prop :=
  li_list r.2 = li_list l /\ li_pos r.2 = p /\ r.1 = is_at p.

(** What a read returns. *)
Definition reads_as {LV : LevelDB} (E : list entry) (k : slice) (g : result slice) (h : result bool) : Prop :=
  match kv_lookup (bdata k) E with
  | Some v => exists sv, g = Ok sv /\ bdata sv = v
  | None => g = Err level_ErrNotFound
  end /\ h = Ok (bool_decide (is_Some (kv_lookup (bdata k) E))).

Class LevelDBLaws (LV : LevelDB) (LM : LevelDBModel LV) : Prop := {
  level_errors : exists m1 m2, level_ErrNotFound = ErrOther m1 /\ level_ErrClosed = ErrOther m2 /\ m1 <> m2;
  db_sorted d : db_ready d -> kv_sorted (db_entries d);
  db_reads d k : db_ready d -> reads_as (db_entries d) k (db_Get d k) (db_Has d k);
  db_Put_spec d k v : db_ready d ->
    exists d', db_Put d k v = (None, d') /\ db_ready d' /\
      kv_update (bdata k) (Some (bdata v)) (db_entries d) (db_entries d');
  db_Delete_spec d k : db_ready d ->
    exists d', db_Delete d k = (None, d') /\ db_ready d' /\ kv_update (bdata k) None (db_entries d) (db_entries d');
  db_Close_spec d : db_ready d \/ db_locked d -> exists d', db_Close d = (None, d') /\ db_closed d';
  db_closed_spec d k v : db_closed d ->
    db_Get d k = Err level_ErrClosed /\ db_Has d k = Err level_ErrClosed /\
    db_Put d k v = (Some level_ErrClosed, d) /\ db_Delete d k = (Some level_ErrClosed, d) /\
    db_OpenTransaction d = (Err level_ErrClosed, d);
  db_OpenTransaction_spec d : db_ready d ->
    exists tr d', db_OpenTransaction d = (Ok tr, d') /\ db_locked d' /\ db_entries d' = db_entries d /\
      tr_open tr /\ tr_entries tr = db_entries d;
  tr_reads tr k : tr_open tr -> reads_as (tr_entries tr) k (tr_Get tr k) (tr_Has tr k);
  tr_Put_spec tr k v : tr_open tr ->
    exists tr', tr_Put tr k v = (None, tr') /\ tr_open tr' /\
      kv_update (bdata k) (Some (bdata v)) (tr_entries tr) (tr_entries tr');
  tr_Delete_spec tr k : tr_open tr ->
    exists tr', tr_Delete tr k = (None, tr') /\ tr_open tr' /\ kv_update (bdata k) None (tr_entries tr) (tr_entries tr');
  tr_Commit_spec tr d : tr_open tr -> db_locked d ->
    exists tr' d', tr_Commit tr d = (None, (tr', d')) /\ db_ready d' /\ db_entries d' = tr_entries tr;
  tr_Discard_spec tr d : tr_open tr -> db_locked d ->
    db_ready (tr_Discard tr d).2 /\ db_entries (tr_Discard tr d).2 = db_entries d;
  BytesPrefix_spec p k : in_range (util_BytesPrefix p) k = bool_decide (bdata p `prefix_of` k);
  db_NewIterator_spec d st lim : db_ready d ->
    li_list (db_NewIterator d st lim) = filter (fun e => in_range (st, lim) e.1 = true) (db_entries d) /\
    li_pos (db_NewIterator d st lim) = SOI;
  tr_NewIterator_spec tr st lim : tr_open tr ->
    li_list (tr_NewIterator tr st lim) = filter (fun e => in_range (st, lim) e.1 = true) (tr_entries tr) /\
    li_pos (tr_NewIterator tr st lim) = SOI;
  li_First_spec l : lmoves l (li_First l) (pos_first (li_list l));
  li_Last_spec l : lmoves l (li_Last l) (pos_last (li_list l));
  li_Next_spec l : lmoves l (li_Next l) (pos_next (li_list l) (li_pos l));
  li_Prev_spec l : lmoves l (li_Prev l) (pos_prev (li_list l) (li_pos l));
  li_Seek_spec l k : lmoves l (li_Seek l k) (pos_seek (li_list l) (bdata k));
  li_Valid_spec l : li_Valid l = is_at (li_pos l);
  li_item l n e : li_pos l = At n -> li_list l !! n = Some e -> bdata (li_Key l) = e.1 /\ bdata (li_Value l) = e.2 }.

(** ** Iteration *)

(** What is left behind a position, in the direction of the iterator. *)
Definition rest (rev : bool) (l : list entry) (p : lpos) : list entry :=
  match rev, p with
  | false, SOI => l
  | false, At n => drop (S n) l
  | false, EOI => []
  | true, EOI => reverse l
  | true, At n => reverse (take n l)
  | true, SOI => []
  end.

Definition pos_step (rev : bool) (l : list entry) (p : lpos) : lpos :=
  if rev then pos_prev l p else pos_next l p.

(** Positions are inside the range. *)
Definition pos_ok (l : list entry) (p : lpos) : Prop := match p with At n => (n < length l)%nat | _ => True end.

Lemma rest_fwd l p :
  pos_ok l p -> pos_ok l (pos_next l p) /\
  match rest false l p with
  | [] => pos_next l p = EOI
  | e :: E => exists n, pos_next l p = At n /\ l !! n = Some e /\ rest false l (At n) = E
  end.
Proof.
  intros Hp. destruct p as [|n|]; simpl; [|..|done].
  - destruct l as [|e l]; simpl; [done|]. split; [lia|]. exists 0%nat. by rewrite drop_0.
  - destruct (Nat.ltb_spec (S n) (length l)) as [H|H].
    + split; [done|]. destruct (lookup_lt_is_Some_2 l (S n) H) as [e He].
      rewrite (drop_S l e (S n)) by done. eauto.
    + split; [done|]. by rewrite drop_ge by lia.
Qed.

Lemma rest_rev l p :
  pos_ok l p -> pos_ok l (pos_prev l p) /\
  match rest true l p with
  | [] => pos_prev l p = SOI
  | e :: E => exists n, pos_prev l p = At n /\ l !! n = Some e /\ rest true l (At n) = E
  end.
Proof.
  intros Hp. destruct p as [|n|]; simpl; [done|..].
  - destruct n as [|n]; [by rewrite take_0|]. simpl in *. split; [lia|].
    destruct (lookup_lt_is_Some_2 l n) as [e He]; [lia|]. rewrite (take_S_r l n e) by done.
    rewrite reverse_app. simpl. eauto.
  - destruct l as [|e l _] using rev_ind; [done|]. rewrite reverse_app.
    assert (pos_last (l ++ [e]) = At (length l)) as ->.
    { unfold pos_last. rewrite length_app, Nat.add_sub. by destruct l. }
    split; [simpl; rewrite length_app; simpl; lia|]. exists (length l). split_and!; [done| |].
    + by rewrite lookup_app_r, Nat.sub_diag by lia.
    + by rewrite take_app_length.
Qed.

(** A step goes to the first entry of the rest; a forward iterator stays behind
    its last entry. *)
Lemma rest_step rv l p :
  pos_ok l p -> pos_ok l (pos_step rv l p) /\
  match rest rv l p with
  | [] => is_at (pos_step rv l p) = false /\ rest rv l (pos_step rv l p) = []
  | e :: E => exists n, pos_step rv l p = At n /\ l !! n = Some e /\ rest rv l (At n) = E
  end.
Proof.
  intros Hp. destruct rv; unfold pos_step.
  - destruct (rest_rev l p Hp) as [H1 H2]. split; [done|]. destruct (rest true l p); [by rewrite H2|done].
  - destruct (rest_fwd l p Hp) as [H1 H2]. split; [done|]. destruct (rest false l p); [by rewrite H2|done].
Qed.

Lemma lower_filter k l :
  kv_sorted l -> filter (fun e => k ⪯ e.1) l = drop (lower k l) l /\ (lower k l <= length l)%nat.
Proof.
  unfold kv_sorted. induction l as [|e l IH]; intros Hs; [done|].
  apply StronglySorted_inv in Hs as [Hs HF]. destruct (IH Hs) as [IH1 IH2]. rewrite filter_cons. cbn [lower].
  case_bool_decide as H; simpl.
  - rewrite decide_True by done. split; [|lia]. f_equal. clear - H HF. induction HF as [|x l Hx HF IH]; [done|].
    rewrite filter_cons, decide_True by border. by rewrite IH.
  - rewrite decide_False by done. split; [done|lia].
Qed.

Section contract.
Context {LV : LevelDB} {LM : LevelDBModel LV} {LL : LevelDBLaws LV LM}.

Record level_live (s : State) (it : iterator) (o : IterOptions) : Prop := {
  ll_open : closed s = false;
  ll_rev : i_reverse it = Reverse o;
  ll_keys : keysOnly it = KeysOnly o;
  ll_wf : wf_opts o = true;
  ll_range : (start it, end_ it) = range_of o;
  ll_list : li_list (i it) = filter (fun e => in_opts o e.1 = true) (db_entries (db s));
  ll_sorted : kv_sorted (li_list (i it)) }.

(** Where [Next] starts from. *)
Definition cur (it : iterator) : lpos :=
  if reset it then (if i_reverse it then EOI else SOI) else li_pos (i it).

#[export] Instance level_model : RWModel level_rw := {
  usable s n := closed s = false /\ db_ready (db s);
  entries s := db_entries (db s);
  it_live := level_live;
  it_rem s it o E := level_live s it o /\ pos_ok (li_list (i it)) (cur it) /\
    E = rest (i_reverse it) (li_list (i it)) (cur it) }.

Lemma live_moved s it o r p : level_live s it o -> lmoves (i it) r p -> level_live s (set_i r.2 (set_reset false it)) o.
Proof. intros [] (Hl & _ & _). split; try done; simpl; by rewrite Hl. Qed.

(** A step of the inner iterator finds the first entry of the rest. *)
Lemma step_finds s it o r p :
  level_live s it o -> pos_ok (li_list (i it)) p ->
  lmoves (i it) r (pos_step (i_reverse it) (li_list (i it)) p) ->
  it_finds s o (rest (i_reverse it) (li_list (i it)) p) (move (set_reset false it) r).
Proof.
  intros Hlv Hp Hm. pose proof (live_moved _ _ _ _ _ Hlv Hm) as Hlv'. destruct Hm as (Hl & Hpos & Hb).
  destruct (rest_step (i_reverse it) _ p Hp) as [Hok H]. split; [done|].
  assert (pos_ok (li_list r.2) (li_pos r.2)) as Hok' by (by rewrite Hl, Hpos).
  destruct (rest (i_reverse it) (li_list (i it)) p) as [|e E].
  - destruct H as [Hf Hr]. split; [simpl; by rewrite Hb, Hf|]. intros _. split_and!; [done..|].
    unfold cur. cbn. by rewrite Hl, Hpos, Hr.
  - destruct H as (n & Hn & He & HE). split; [simpl; by rewrite Hb, Hn|].
    destruct (li_item r.2 n e) as [Hk Hv]; [by rewrite Hpos|by rewrite Hl|]. split_and!.
    + done.
    + intros Hko. unfold it_Value, level_rw, Value, move. cbn. rewrite (ll_keys _ _ _ Hlv), Hko.
      destruct (Nat.eqb_spec (blen (li_Value r.2)) 0) as [E0|_]; [|by eauto].
      apply blen_zero in E0. exists None. by rewrite <- Hv, E0.
    + split_and!; [done..|]. unfold cur. cbn. by rewrite Hl, Hpos, Hn, HE.
Qed.

Lemma in_range_opts o k : wf_opts o = true -> in_range (range_of o) k = in_opts o k.
Proof.
  unfold wf_opts, in_opts, range_of, in_range. destruct (Prefix o) as [p|]; simpl.
  - intros _. apply (BytesPrefix_spec (Some p)).
  - intros H. f_equal. f_equal. unfold is_nil, blen in *. by destruct (End_ o) as [[]|].
Qed.

Lemma select_rest o l : select o l = rest (Reverse o) (filter (fun e => in_opts o e.1 = true) l) (if Reverse o then EOI else SOI).
Proof. unfold select. by destruct (Reverse o). Qed.

(** Errors the backend translates. *)
Lemma to_kv_NotFound : to_kv level_ErrNotFound = ErrNotFound.
Proof. unfold to_kv, levelErrToKVErr. by rewrite bool_decide_true. Qed.

Lemma to_kv_Closed : to_kv level_ErrClosed = ErrDBClosed.
Proof.
  destruct level_errors as (m1 & m2 & E1 & E2 & Hne). unfold to_kv, levelErrToKVErr.
  rewrite bool_decide_false by (rewrite E1, E2; congruence). by rewrite bool_decide_true.
Qed.

Lemma translate_Closed : levelErrToKVErr (Some level_ErrClosed) = Some ErrDBClosed.
Proof.
  pose proof to_kv_Closed as E. unfold to_kv in E. destruct (levelErrToKVErr (Some level_ErrClosed)) eqn:H; simpl in E.
  - by subst.
  - destruct level_errors as (m1 & m2 & _ & E2 & _). congruence.
Qed.

Lemma Next_step s it :
  closed s = false ->
  exists r, Next s it = move (set_reset false it) r /\
    lmoves (i it) r (pos_step (i_reverse it) (li_list (i it)) (cur it)).
Proof.
  intros Hc. unfold Next, restart, cur, pos_step. rewrite Hc. destruct (reset it) eqn:Hr; cbn [i_reverse set_reset i].
  - destruct (i_reverse it) eqn:Hv; [exists (li_Last (i it))|exists (li_First (i it))]; (split; [done|]).
    + apply li_Last_spec.
    + apply li_First_spec.
  - replace (set_reset false it) with it by (destruct it; simpl in *; by subst).
    destruct (i_reverse it) eqn:Hv; [exists (li_Prev (i it))|exists (li_Next (i it))]; (split; [done|]).
    + apply li_Prev_spec.
    + apply li_Next_spec.
Qed.

(** [Seek] of a forward iterator to a key of its range. *)
Lemma Seek_step s it o k :
  level_live s it o -> in_opts o (bdata k) = true -> Reverse o = false ->
  exists r, Seek s it k = move (set_reset false it) r /\ lmoves (i it) r (pos_seek (li_list (i it)) (bdata k)).
Proof.
  intros [Hc Hr _ Hwf Hrg Hl _] Hin Hrev. rewrite <- in_range_opts, <- Hrg in Hin by done.
  apply andb_true_iff in Hin as [Hst _]. apply bool_decide_eq_true in Hst. cbn [fst] in Hst.
  exists (li_Seek (i it) k). pose proof (li_Seek_spec (i it) k) as Hm. split; [|done].
  unfold Seek. rewrite Hc. cbn [i_reverse start end_ i set_reset]. rewrite Hr, Hrev. cbn [andb negb].
  replace (bytes_Compare k (start it) <? 0) with false; cycle 1.
  { symmetry. apply Z.ltb_ge. destruct (bytes_lt_total (bdata k) (bdata (start it))) as [H|[H|H]].
    - exfalso. border.
    - apply bytes_Compare_eq in H. lia.
    - apply bytes_Compare_gt in H. lia. }
  rewrite andb_false_r. destruct (li_Seek (i it) k) as [b l]. destruct Hm as (_ & Hp & Hb). simpl in *.
  unfold move. cbn [fst snd i_reverse set_i i]. rewrite ?Hr, ?Hrev, li_Valid_spec, Hp, <- Hb. by destruct b.
Qed.

Definition before (n : nat) : lpos := match n with O => SOI | S m => At m end.

Lemma before_seek l k :
  (lower k l <= length l)%nat ->
  pos_seek l k = pos_next l (before (lower k l)) /\ pos_ok l (before (lower k l)) /\
  rest false l (before (lower k l)) = drop (lower k l) l.
Proof.
  intros H. unfold pos_seek. destruct (lower k l) as [|n]; simpl.
  - split_and!; [|done|by rewrite drop_0]. destruct l; done.
  - split_and!; [done|lia|done].
Qed.

Lemma level_laws : RWLaws level_rw level_model.
Proof.
  split; simpl.
  - by intros s n m [? ?] ?.
  - intros s n [_ H]. by apply db_sorted.
  - intros s n k [Hc Hd] Hk. eexists _, s. split; [done|]. split_and!; [done..|].
    destruct (db_reads _ k Hd) as [H _]. destruct (kv_lookup _ _).
    + destruct H as (sv & -> & ?). eauto.
    + rewrite H. by rewrite to_kv_NotFound.
  - intros s n k [Hc Hd] Hk. exists s. unfold Has. simpl. destruct (db_reads _ k Hd) as [_ ->]. done.
  - intros s n k v [Hc Hd] Hk. destruct (db_Put_spec _ k v Hd) as (d' & E & Hd' & Hu).
    exists (set_db d' s). unfold Set_. simpl. by rewrite E.
  - intros s n k [Hc Hd] Hk. destruct (db_Delete_spec _ k Hd) as (d' & E & Hd' & Hu).
    exists (set_db d' s). unfold Delete. simpl. by rewrite E.
  - intros s n o [Hc Hd] Hwf. unfold Iterator. simpl. rewrite Hc. eexists _, s. split; [done|].
    unfold new_iterator. destruct (range_of o) as [st lim] eqn:Er.
    destruct (db_NewIterator_spec _ st lim Hd) as [Hl Hp].
    assert (level_live s (mk_iterator (db_NewIterator (db s) st lim) st lim (Reverse o) (KeysOnly o) true) o) as Hlv.
    { split; try done; simpl; rewrite Hl.
      - apply list_filter_iff. intros e. rewrite <- Er. by rewrite in_range_opts.
      - apply (filter_sorted (in_range (st, lim))). by apply db_sorted. }
    split_and!; [done..| |].
    + unfold cur. simpl. by destruct (Reverse o).
    + pose proof (ll_list _ _ _ Hlv) as Hll. unfold cur. cbn [reset i_reverse i] in *. rewrite Hll. apply select_rest.
  - by intros s it o E [? _].
  - intros s it o E (Hlv & Hp & ->). destruct (Next_step s it (ll_open _ _ _ Hlv)) as (r & -> & Hm).
    by apply step_finds.
  - intros s it o Hlv. split_and!.
    + by destruct Hlv.
    + unfold cur. cbn. by destruct (i_reverse it).
    + unfold cur. cbn. rewrite (ll_list _ _ _ Hlv), (ll_rev _ _ _ Hlv). apply select_rest.
  - done.
  - intros s it o k Hlv Hrev Hin Hk. pose proof Hlv as [Hc Hr _ Hwf Hrg Hl Hs].
    apply (Seek_step s it o k Hlv) in Hin; [|done]. destruct Hin as (r & -> & Hm).
    unfold select. rewrite Hrev, <- Hl.
    destruct (lower_filter (bdata k) (li_list (i it))) as [-> Hle]; [done|].
    destruct (before_seek _ _ Hle) as (E & Hok & <-).
    replace false with (i_reverse it) at 1 by congruence. apply step_finds; [done..|].
    rewrite Hr, Hrev. unfold pos_step. by rewrite <- E.
Qed.

(** C19: The leveldb backend keeps the contract of the store interface, given a
    goleveldb that behaves as documented: reads and writes act on a map of the
    entries, missing keys are [ErrNotFound], and iterators with any defined
    options yield the selected entries in order, forwards and backwards, and
    are reset and positioned accordingly. *)
Theorem level_keeps_contract : RWLaws level_rw level_model.
Proof. exact level_laws. Qed.

(** The two errors of goleveldb that the backend knows are translated; every
    other one is returned as it is, also one that wraps a known error: the loop
    of [levelErrToKVErr] asks whether the known error wraps the given one, not
    the reverse, so it never adds anything to the look-up in the map. *)
Theorem level_error_translation (e : error) :
  levelErrToKVErr (Some e) =
    Some (if bool_decide (e = level_ErrNotFound) then ErrNotFound
          else if bool_decide (e = level_ErrClosed) then ErrDBClosed else e) /\
  errors_Is (ErrJoin1 level_ErrNotFound) level_ErrNotFound = true /\
  levelErrToKVErr (Some (ErrJoin1 level_ErrNotFound)) = Some (ErrJoin1 level_ErrNotFound).
Proof.
  destruct level_errors as (m1 & m2 & E1 & E2 & Hne). unfold levelErrToKVErr. rewrite E1, E2. split_and!.
  - case_bool_decide as H1; [done|]. case_bool_decide as H2; [done|]. simpl.
    rewrite !bool_decide_false by congruence. done.
  - apply orb_true_iff. right. apply orb_true_iff. left. by apply bool_decide_true.
  - simpl. done.
Qed.

(** ** Closing *)

(** [s'] is closed, with the transactions of [s]. *)
Definition shut (s s' : State) : Prop := closed s' = true /\ db_closed (db s') /\ txns s' = txns s.

Lemma Close_shut s :
  closed s = false -> db_ready (db s) \/ db_locked (db s) -> (Close s).1 = None /\ shut s (Close s).2.
Proof.
  intros Hc Hd. unfold Close. rewrite Hc. destruct (db_Close_spec _ Hd) as (d' & -> & Hd'). done.
Qed.

(** A transaction that was opened without error. *)
Definition opened (s : State) (p : nat) : Prop := exists x, txns s !! p = Some x /\ t_err x = None.

Lemma with_txn_closed {R} p (fail : error -> R) f s s' :
  shut s s' -> opened s p -> with_txn p fail f s' = (fail ErrDBClosed, s').
Proof.
  intros (Hc & _ & Ht) (x & Hx & He). unfold with_txn. by rewrite Ht, Hx, He, Hc.
Qed.

Lemma set_db_id s : set_db (db s) s = s.
Proof. by destruct s. Qed.

(** C38: Closing: [Close] succeeds, and from then on every operation of the store,
    every operation of a transaction but [Discard], and [Next] and [Seek] of an
    iterator are refused with [ErrDBClosed]; the refused calls of the store and
    its transactions change nothing, the refused moves leave the iterator on its
    entry.  [Key], [Value] and [Close] of an iterator do not look at the
    flag: the entry it stands on can still be read, and closing it succeeds.  A
    transaction created afterwards is refused in the same way; closing the store
    again does nothing. *)
Theorem level_closed s :
  closed s = false -> db_ready (db s) \/ db_locked (db s) ->
  (Close s).1 = None /\
  let s' := (Close s).2 in
  Close s' = (None, s') /\
  (forall k v o, Get Background k s' = (Err ErrDBClosed, s') /\ Has Background k s' = (Err ErrDBClosed, s') /\
    Set_ Background k v s' = (Some ErrDBClosed, s') /\ Delete Background k s' = (Some ErrDBClosed, s') /\
    Iterator Background o s' = (Err ErrDBClosed, s')) /\
  (forall it k, (Next s' it).1 = Err ErrDBClosed /\ (Seek s' it k).1 = Err ErrDBClosed /\
    (Next s' (Reset it)).1 = Err ErrDBClosed /\
    Key (Next s' it).2 = Key it /\ Value (Next s' it).2 = Value it /\
    Key (Seek s' it k).2 = Key it /\ Value (Seek s' it k).2 = Value it /\
    (exists v, Value it = Ok v) /\ (Close_it it).1 = None) /\
  (forall p, opened s p -> forall k v o,
    let ctx := SetCtxTxn Background (DynlTxn p) in
    Get ctx k s' = (Err ErrDBClosed, s') /\ Has ctx k s' = (Err ErrDBClosed, s') /\
    Set_ ctx k v s' = (Some ErrDBClosed, s') /\ Delete ctx k s' = (Some ErrDBClosed, s') /\
    Iterator ctx o s' = (Err ErrDBClosed, s') /\ txn_Commit p s' = (Some ErrDBClosed, s')) /\
  (forall p k, (txn_Get p k (NewTxn p s')).1 = Err ErrDBClosed /\ (txn_Commit p (NewTxn p s')).1 = Some ErrDBClosed).
Proof.
  intros Hc Hd. destruct (Close_shut s Hc Hd) as [H1 Hs]. split; [done|]. cbv zeta.
  set (s' := (Close s).2) in *. pose proof Hs as (Hc' & Hd' & Ht).
  pose proof (fun k v => db_closed_spec _ k v Hd') as Hop. split_and!.
  - unfold Close. by rewrite Hc'.
  - intros k v o. destruct (Hop k v) as (E1 & E2 & E3 & E4 & _).
    unfold Get, Has, Set_, Delete, Iterator. cbn [TryGetCtxTxnG ctx_Value]. rewrite E1, E2, E3, E4, Hc'.
    rewrite to_kv_Closed, set_db_id, translate_Closed. done.
  - intros it k. unfold Next, Seek. rewrite Hc'. split_and!; try done.
    unfold Value. destruct (keysOnly it); [by eexists|]. destruct (_ =? _)%nat; by eexists.
  - intros p Hp k v o. cbv zeta. unfold Get, Has, Set_, Delete, Iterator. rewrite TryGetCtxTxnG_set. cbn [as_lTxn].
    unfold txn_Get, txn_Has, txn_Set, txn_Delete, txn_Iterator, txn_Commit.
    by rewrite !(with_txn_closed p _ _ s s' Hs Hp).
  - intros p k. unfold NewTxn. destruct (Hop k k) as (_ & _ & _ & _ & ->).
    unfold txn_Get, txn_Commit, with_txn. cbn [txns set_txn set_db].
    rewrite lookup_insert_eq. cbn [t_err fst]. by rewrite to_kv_Closed.
Qed.

(** ** Transactions *)

(** Writes through a transaction. *)
Inductive write := WSet (k v : slice) | WDelete (k : slice).

Definition txn_write (p : nat) (w : write) (s : State) : option error * State :=
  match w with WSet k v => txn_Set p k v s | WDelete k => txn_Delete p k s end.

Fixpoint txn_writes (p : nat) (ws : list write) (s : State) : option error * State :=
  match ws with
  | [] => (None, s)
  | w :: ws' =>
      let '(e, s) := txn_write p w s in
      match e with Some e => (Some e, s) | None => txn_writes p ws' s end
  end.

(** Their effect on what is stored under a key. *)
Definition write_at (k : bytes) (old : option bytes) (w : write) : option bytes :=
  match w with
  | WSet k' v => if bool_decide (bdata k' = k) then Some (bdata v) else old
  | WDelete k' => if bool_decide (bdata k' = k) then None else old
  end.

(** Transaction [p] is open in [s], with the entries [E]; the database still has [E0]. *)
Definition in_txn (s : State) (p : nat) (E0 E : list entry) : Prop :=
  closed s = false /\ db_locked (db s) /\ db_entries (db s) = E0 /\
  exists tr, txns s !! p = Some (mk_lTxn (Some tr) None) /\ tr_open tr /\ tr_entries tr = E.

Lemma NewTxn_in_txn s p n :
  usable s n -> in_txn (NewTxn p s) p (entries s) (entries s).
Proof.
  intros [Hc Hd]. unfold NewTxn. destruct (db_OpenTransaction_spec _ Hd) as (tr & d' & -> & Hl & He & Ho & Et).
  split_and!; [done..|]. exists tr. split_and!; [|done..]. cbn. by rewrite lookup_insert_eq.
Qed.

Lemma txn_write_spec s p E0 E w :
  in_txn s p E0 E ->
  exists s' E', txn_write p w s = (None, s') /\ in_txn s' p E0 E' /\
    forall k, kv_lookup k E' = write_at k (kv_lookup k E) w.
Proof.
  intros (Hc & Hl & He & tr & Ht & Ho & Et). destruct w as [k v|k]; cbn [txn_write];
    unfold txn_Set, txn_Delete, with_txn; rewrite Ht; cbn [t_err t]; rewrite Hc.
  - destruct (tr_Put_spec tr k v Ho) as (tr' & -> & Ho' & Hu). eexists _, (tr_entries tr'). split; [done|]. split.
    + split_and!; [done..|]. exists tr'. split_and!; [|done..]. cbn. by rewrite lookup_insert_eq.
    + intros k'. rewrite Hu, Et. done.
  - destruct (tr_Delete_spec tr k Ho) as (tr' & -> & Ho' & Hu). eexists _, (tr_entries tr'). split; [done|]. split.
    + split_and!; [done..|]. exists tr'. split_and!; [|done..]. cbn. by rewrite lookup_insert_eq.
    + intros k'. rewrite Hu, Et. done.
Qed.

Lemma txn_writes_spec p ws s E0 E :
  in_txn s p E0 E ->
  exists s' E', txn_writes p ws s = (None, s') /\ in_txn s' p E0 E' /\
    forall k, kv_lookup k E' = foldl (write_at k) (kv_lookup k E) ws.
Proof.
  revert s E. induction ws as [|w ws IH]; intros s E Hin; [by exists s, E|]. cbn [txn_writes].
  destruct (txn_write_spec _ _ _ _ w Hin) as (s1 & E1 & -> & Hin1 & H1).
  destruct (IH s1 E1 Hin1) as (s2 & E2 & -> & Hin2 & H2). exists s2, E2. split_and!; [done..|].
  intros k. rewrite H2, H1. done.
Qed.

(** C20: Transactions: writes through a transaction succeed and are seen by its
    reads in order over what the store held, while the store keeps its entries;
    [Commit] makes exactly them the entries of the store, [Discard] leaves the
    store as it was before the transaction. *)
Theorem level_transactions s p ws n :
  usable s n ->
  exists s', txn_writes p ws (NewTxn p s) = (None, s') /\ entries s' = entries s /\
    (forall k, bdata k <> [] ->
      match foldl (write_at (bdata k)) (kv_lookup (bdata k) (entries s)) ws with
      | Some v => exists sv, (txn_Get p k s').1 = Ok sv /\ bdata sv = v
      | None => (txn_Get p k s').1 = Err ErrNotFound
      end) /\
    (txn_Commit p s').1 = None /\ usable (txn_Commit p s').2 n /\
    (forall k, kv_lookup k (entries (txn_Commit p s').2) = foldl (write_at k) (kv_lookup k (entries s)) ws) /\
    usable (txn_Discard p s') n /\ entries (txn_Discard p s') = entries s.
Proof.
  intros Hu. destruct (txn_writes_spec p ws _ _ _ (NewTxn_in_txn s p n Hu)) as (s' & E' & -> & Hin & HE').
  destruct Hin as (Hc & Hl & He & tr & Ht & Ho & Et). exists s'. split_and!; [done..| | | | | |].
  - intros k Hk. rewrite <- HE'. unfold txn_Get, with_txn. rewrite Ht. cbn [t_err t]. rewrite Hc.
    destruct (tr_reads tr k Ho) as [H _]. rewrite Et in H. destruct (kv_lookup (bdata k) E').
    + destruct H as (sv & -> & ?). by exists sv.
    + rewrite H. cbn [fst]. by rewrite to_kv_NotFound.
  - unfold txn_Commit, with_txn. rewrite Ht. cbn [t_err t]. rewrite Hc.
    by destruct (tr_Commit_spec tr (db s') Ho Hl) as (tr' & d' & -> & _).
  - unfold txn_Commit, with_txn. rewrite Ht. cbn [t_err t]. rewrite Hc.
    by destruct (tr_Commit_spec tr (db s') Ho Hl) as (tr' & d' & -> & ? & _).
  - intros k. rewrite <- HE'. unfold txn_Commit, with_txn. rewrite Ht. cbn [t_err t]. rewrite Hc.
    destruct (tr_Commit_spec tr (db s') Ho Hl) as (tr' & d' & -> & _ & E). cbn. by rewrite E, Et.
  - unfold txn_Discard. rewrite Ht. destruct (tr_Discard_spec tr (db s') Ho Hl) as [Hr _].
    destruct (tr_Discard tr (db s')) as [tr' d']. done.
  - unfold txn_Discard. rewrite Ht. destruct (tr_Discard_spec tr (db s') Ho Hl) as [_ He'].
    destruct (tr_Discard tr (db s')) as [tr' d']. cbn in *. by rewrite He', He.
Qed.

(** ** Reverse [Seek] *)

Lemma lower_at k l e : kv_sorted l -> l !! lower k l = Some e -> k ⪯ e.1 /\
  filter (fun x => x.1 ⪯ k) l = if bool_decide (e.1 = k) then take (S (lower k l)) l else take (lower k l) l.
Proof.
  unfold kv_sorted. induction l as [|x l IH]; intros Hs He; [done|].
  apply StronglySorted_inv in Hs as [Hs HF]. revert He. cbn [lower]. rewrite filter_cons.
  destruct (decide (k ⪯ x.1)) as [H|H]; [rewrite (bool_decide_true _ H)|rewrite (bool_decide_false _ H)].
  - intros [= ->]. split; [done|]. assert (filter (fun x => x.1 ⪯ k) l = []) as E.
    { clear - H HF. induction HF as [|x l Hx HF IH]; [done|]. rewrite filter_cons, decide_False by border. done. }
    rewrite E. case_bool_decide as Ek.
    + rewrite decide_True by (subst; apply bytes_le_refl). done.
    + rewrite decide_False by (intros ?; apply Ek; by apply bytes_le_antisym). done.
  - simpl. intros He. destruct (IH Hs He) as [Hle ->]. split; [done|]. rewrite decide_True by border.
    by case_bool_decide.
Qed.

Lemma lower_exists k l : existsb (fun e => bool_decide (k ⪯ e.1)) l = (lower k l <? length l)%nat.
Proof. induction l as [|e l IH]; [done|]. simpl. case_bool_decide; [done|]. by rewrite IH. Qed.

(** The position from which a step back arrives at entry [n]. *)
Lemma prev_at l n e :
  l !! n = Some e -> exists p, pos_ok l p /\ pos_prev l p = At n /\ rest true l p = reverse (take (S n) l).
Proof.
  intros He. pose proof (lookup_lt_Some _ _ _ He) as Hn. destruct (decide (S n = length l)) as [El|El].
  - exists EOI. split_and!; [done| |by rewrite El, firstn_all].
    unfold pos_prev, pos_last. destruct l; [done|]. f_equal. lia.
  - exists (At (S n)). split_and!; [simpl; lia|done..].
Qed.

(** [Seek] of a reverse iterator: beyond the end of its range it goes to the
    last entry of the range; else, if the range has an entry at or above the
    key, it goes to the greatest entry not above the key, and the entries below
    follow.  But if all entries of the range are below the key it reports that
    there is none, although kv.go asks for the next entry in the direction of
    the iterator. *)
Theorem level_Seek_reverse s it o k :
  level_live s it o -> Reverse o = true ->
  let l := filter (fun e => in_opts o e.1 = true) (entries s) in
  if negb (is_nil (end_ it)) && bool_decide (bdata (end_ it) ≺ bdata k)
  then it_finds s o (reverse l) (Seek s it k)
  else if existsb (fun e => bool_decide (bdata k ⪯ e.1)) l
  then it_finds s o (reverse (filter (fun e => e.1 ⪯ bdata k) l)) (Seek s it k)
  else (Seek s it k).1 = Ok false.
Proof.
  intros Hlv Hrev. pose proof Hlv as [Hc Hr _ _ _ Hl Hs]. cbv zeta. cbn [entries level_model]. rewrite <- Hl.
  unfold Seek. rewrite Hc. cbn [i_reverse end_ start i set_reset]. rewrite Hr, Hrev. cbn [andb negb].
  rewrite bytes_Compare_ltb. destruct (negb (is_nil (end_ it)) && _) eqn:Eend.
  { replace (reverse (li_list (i it))) with (rest (i_reverse it) (li_list (i it)) EOI) by (by rewrite ?Hr, ?Hrev).
    apply step_finds; [done..|]. unfold pos_step. rewrite ?Hr, ?Hrev. apply li_Last_spec. }
  rewrite lower_exists. pose proof (li_Seek_spec (i it) k) as Hm. destruct (li_Seek (i it) k) as [b l'].
  pose proof Hm as (Hl' & Hp' & Hb'). cbn [fst snd] in *. unfold pos_seek in Hm, Hp', Hb'.
  destruct (Nat.ltb_spec (lower (bdata k) (li_list (i it))) (length (li_list (i it)))) as [Hlt|]; [|by rewrite Hb'].
  rewrite Hb'. cbn [is_at negb]. destruct (lookup_lt_is_Some_2 _ _ Hlt) as [e He].
  destruct (li_item l' _ e Hp') as [Hk _]; [by rewrite Hl'|]. destruct (lower_at _ _ _ Hs He) as [Hle ->].
  cbn [i_reverse set_i i]. change (i_reverse (set_reset false it)) with (i_reverse it).
  rewrite Hr, Hrev, bytes_Compare_gtb, Hk. cbn [andb].
  set (n := lower (bdata k) (li_list (i it))) in *. destruct (decide (e.1 = bdata k)) as [Ek|Ek].
  - rewrite (bool_decide_true (e.1 = bdata k)), (bool_decide_false (bdata k ≺ e.1))
      by (done || (rewrite Ek; apply bytes_lt_irrefl)).
    destruct (prev_at _ _ _ He) as (p & Hok & Hpp & Hrest).
    pose proof (step_finds s it o (b, l') p Hlv Hok) as H. rewrite Hr, Hrev, Hrest in H.
    rewrite li_Valid_spec, Hp'. cbn [is_at]. unfold move in H. cbn [fst snd] in H. rewrite Hb' in H. apply H.
    unfold pos_step. rewrite Hpp. by rewrite Hb' in Hm.
  - rewrite (bool_decide_false (e.1 = bdata k)), (bool_decide_true (bdata k ≺ e.1))
      by (done || (apply bytes_le_lteq in Hle as [?|?]; [done|by destruct Ek])).
    pose proof (live_moved _ _ _ (b, l') _ Hlv Hm) as Hlv1. cbn [snd] in Hlv1.
    pose proof (step_finds s _ o (li_Prev l') (At n) Hlv1) as H. cbn [i set_i i_reverse set_reset] in H.
    rewrite Hr, Hrev, Hl' in H. apply H; [done|]. pose proof (li_Prev_spec l') as HP.
    rewrite Hp', Hl' in HP. exact HP.
Qed.
End contract.

(** ** A database of sorted lists

    An implementation of the interface that satisfies the laws. *)

Module LevelSample.

Inductive dbState := Ready | Locked | Closed.
Record ldb := mk_ldb { le : list entry; lst : dbState }.

Definition lookup_res (k : slice) (l : list entry) : result slice :=
  match kv_lookup (bdata k) l with Some v => Ok (Some v) | None => Err (ErrOther "leveldb: not found") end.
Definition open_or {A} (d : ldb) (x : A) (y : A) : A := match lst d with Closed => y | _ => x end.
Definition err_closed : error := ErrOther "leveldb: closed".

Definition goto (l : list entry) (p : lpos) : bool * (list entry * lpos) := (is_at p, (l, p)).
Definition item (x : list entry * lpos) : entry :=
  match x.2 with At n => default ([], []) (x.1 !! n) | _ => ([], []) end.

#[export] Instance list_level : LevelDB := {|
  DB := ldb;
  Transaction := list entry * bool;
  LIter := list entry * lpos;
  level_ErrNotFound := ErrOther "leveldb: not found";
  level_ErrClosed := err_closed;
  db_Get d k := open_or d (lookup_res k (le d)) (Err err_closed);
  db_Has d k := open_or d (Ok (bool_decide (is_Some (kv_lookup (bdata k) (le d))))) (Err err_closed);
  db_Put d k v := open_or d (None, mk_ldb (kv_put (bdata k) (bdata v) (le d)) (lst d)) (Some err_closed, d);
  db_Delete d k := open_or d (None, mk_ldb (kv_del (bdata k) (le d)) (lst d)) (Some err_closed, d);
  db_Close d := (None, mk_ldb (le d) Closed);
  db_NewIterator d st lim := (filter (fun e => in_range (st, lim) e.1 = true) (le d), SOI);
  db_OpenTransaction d := open_or d (Ok (le d, true), mk_ldb (le d) Locked) (Err err_closed, d);
  tr_Get tr k := lookup_res k tr.1;
  tr_Has tr k := Ok (bool_decide (is_Some (kv_lookup (bdata k) tr.1)));
  tr_Put tr k v := (None, (kv_put (bdata k) (bdata v) tr.1, tr.2));
  tr_Delete tr k := (None, (kv_del (bdata k) tr.1, tr.2));
  tr_NewIterator tr st lim := (filter (fun e => in_range (st, lim) e.1 = true) tr.1, SOI);
  tr_Commit tr d := (None, ((tr.1, false), mk_ldb tr.1 Ready));
  tr_Discard tr d := ((tr.1, false), mk_ldb (le d) Ready);
  util_BytesPrefix p := if all_xff (bdata p) then (p, None) else (p, bytesPrefixEnd p);
  li_First l := goto l.1 (pos_first l.1);
  li_Last l := goto l.1 (pos_last l.1);
  li_Next l := goto l.1 (pos_next l.1 l.2);
  li_Prev l := goto l.1 (pos_prev l.1 l.2);
  li_Seek l k := goto l.1 (pos_seek l.1 (bdata k));
  li_Valid l := is_at l.2;
  li_Key l := Some (item l).1;
  li_Value l := Some (item l).2;
  li_Release l := l |}.

#[export] Instance list_level_model : LevelDBModel list_level := {
  db_ready d := lst d = Ready /\ kv_sorted (le d);
  db_locked d := lst d = Locked /\ kv_sorted (le d);
  db_closed d := lst d = Closed;
  db_entries d := le d;
  tr_open tr := kv_sorted tr.1;
  tr_entries tr := tr.1;
  li_list l := l.1;
  li_pos l := l.2 }.

Lemma lookup_res_reads k l :
  reads_as l k (lookup_res k l) (Ok (bool_decide (is_Some (kv_lookup (bdata k) l)))).
Proof. unfold reads_as, lookup_res. destruct (kv_lookup (bdata k) l); simpl; eauto. Qed.

Lemma prefix_range p k :
  in_range (if all_xff (bdata p) then (p, None) else (p, bytesPrefixEnd p)) k = bool_decide (bdata p `prefix_of` k).
Proof.
  destruct (all_xff (bdata p)) eqn:E; unfold in_range; cbn [fst snd is_nil orb].
  - rewrite andb_true_r. apply bool_decide_ext. assert (bdata p = replicate (length (bdata p)) xff) as Ep.
    { revert E. induction (bdata p) as [|x l IH]; [done|]. simpl. rewrite andb_true_iff, bool_decide_eq_true.
      intros [-> H]. f_equal. by apply IH. }
    split; [rewrite Ep; apply bytes_le_xff|]. intros [z ->]. rewrite <- (app_nil_r (bdata p)) at 1.
    apply bytes_le_app, bytes_nil_le.
  - destruct (bytesPrefixEnd_spec p E) as (e & -> & _ & Hk). cbn. apply eq_true_iff_eq.
    rewrite andb_true_iff, !bool_decide_eq_true. by rewrite Hk.
Qed.

#[export] Instance list_level_laws : LevelDBLaws list_level list_level_model.
Proof.
  split; cbn; unfold open_or.
  - by eexists _, _.
  - by intros d [_ ?].
  - intros d k [-> ?]. apply lookup_res_reads.
  - intros d k v [-> ?]. eexists; split; [done|]. split; [split; [done|by apply kv_put_sorted]|].
    intros k'. apply kv_put_lookup.
  - intros d k [-> ?]. eexists; split; [done|]. split; [split; [done|by apply kv_del_sorted]|].
    intros k'. by apply kv_del_lookup.
  - eauto.
  - by intros d k v ->.
  - intros d [-> ?]. eauto 10.
  - intros tr k Hs. apply lookup_res_reads.
  - intros tr k v Hs. eexists; split; [done|]. split; [by apply kv_put_sorted|]. intros k'. apply kv_put_lookup.
  - intros tr k Hs. eexists; split; [done|]. split; [by apply kv_del_sorted|]. intros k'. by apply kv_del_lookup.
  - intros tr d Hs [_ ?]. eexists _, _. split; [done|]. done.
  - by intros tr d Hs [_ ?].
  - intros p k. apply prefix_range.
  - done.
  - done.
  - done.
  - done.
  - done.
  - done.
  - done.
  - done.
  - intros [l p] n e. cbn. intros -> He. unfold item. cbn. by rewrite He.
Qed.

(** A store with two entries. *)
Definition lv0 : State := NewDatastoreFrom (mk_ldb [(bs "k1", bs "v1"); (bs "k2", bs "v2")] Ready).

Lemma lv0_sorted : kv_sorted [(bs "k1", bs "v1"); (bs "k2", bs "v2")].
Proof. repeat constructor. Qed.

Lemma lv0_usable n : usable lv0 n.
Proof. split; [done|]. split; [done|]. apply lv0_sorted. Qed.

Lemma level_keeps_contract_witness : RWLaws (level_rw (LV := list_level)) level_model.
Proof. apply level_keeps_contract. Defined.

Lemma level_error_translation_witness :
  levelErrToKVErr (Some err_closed) = Some ErrDBClosed.
Proof. exact (proj1 (level_error_translation err_closed)). Defined.

Lemma level_closed_witness : (Close lv0).1 = None.
Proof. apply (level_closed lv0); [reflexivity|left; exact (proj2 (lv0_usable 0))]. Defined.

Lemma level_transactions_witness :
  exists s', txn_writes 1 [WSet (Some (bs "k3")) None; WDelete (Some (bs "k1"))] (NewTxn 1 lv0) = (None, s').
Proof.
  destruct (level_transactions lv0 1 [WSet (Some (bs "k3")) None; WDelete (Some (bs "k1"))] 0 (lv0_usable 0))
    as (s' & H & _). exists s'. exact H.
Defined.

Definition rev_all : IterOptions := mkIterOptions None None None true false.
Definition rev_it : iterator := new_iterator rev_all (db_NewIterator (db lv0)).

Lemma rev_it_live : level_live lv0 rev_it rev_all.
Proof. split; try done. apply (filter_sorted (in_range (None, None))), lv0_sorted. Qed.

(** All keys are below "z", yet nothing is found. *)
Lemma level_Seek_reverse_witness : (Seek lv0 rev_it (Some (bs "z"))).1 = Ok false.
Proof. exact (level_Seek_reverse lv0 rev_it rev_all (Some (bs "z")) rev_it_live eq_refl). Defined.
End LevelSample.
