(* ===== verification/GoMonad.v ===== *)
(** Go calls with shared state: a state monad whose computations may panic.

    The objects of the packages badger_ffi and badger_ffi/ffi are shared through
    pointers and handles, so their functions are computations over the state that
    holds all of them.  [None] is a panic: a nil dereference, or a call of
    [panic]. *)
From stdpp Require Import gmap.
From S2P Require Import Prelude.

Definition M (S A : Type) : Type := S -> option (A * S).

#[export] Instance M_ret S : MRet (M S) := fun A a s => Some (a, s).
#[export] Instance M_bind S : MBind (M S) := fun A B k m s =>
  match m s with Some (a, s') => k a s' | None => None end.

Definition panic {S A} : M S A := fun _ => None.

(** The value of an option, or a panic. *)
Definition deref {S A} (f : S -> option A) : M S A := fun s =>
  match f s with Some a => Some (a, s) | None => None end.

(** The result of code outside of this repository that may panic. *)
Definition or_panic {S A} (o : option A) : M S A := deref (fun _ => o).

Definition reads {S A} (f : S -> A) : M S A := fun s => Some (f s, s).
Definition modify {S} (f : S -> S) : M S () := fun s => Some (tt, f s).

(** A computation on a part of the state. *)
Definition zoom {S T A} (get : S -> T) (set : T -> S -> S) (m : M T A) : M S A := fun s =>
  match m (get s) with Some (a, t) => Some (a, set t s) | None => None end.

Section laws.
Context {S : Type}.

Lemma bind_some {A B} (m : M S A) (k : A -> M S B) s a s' : m s = Some (a, s') -> (m ≫= k) s = k a s'.
Proof. unfold mbind, M_bind. by intros ->. Qed.

Lemma bind_ret {A B} (a : A) (k : A -> M S B) s : (mret a ≫= k) s = k a s.
Proof. done. Qed.

Lemma bind_inv {A B} (m : M S A) (k : A -> M S B) s b s2 :
  (m ≫= k) s = Some (b, s2) -> exists a s1, m s = Some (a, s1) /\ k a s1 = Some (b, s2).
Proof. unfold mbind, M_bind. destruct (m s) as [[a s1]|]; [eauto|done]. Qed.

Lemma deref_some {A} (f : S -> option A) s a : f s = Some a -> deref f s = Some (a, s).
Proof. unfold deref. by intros ->. Qed.

Lemma zoom_some {T A} (get : S -> T) set (m : M T A) s a t :
  m (get s) = Some (a, t) -> zoom get set m s = Some (a, set t s).
Proof. unfold zoom. by intros ->. Qed.

(** Total correctness: from [s], [m] returns without a panic and [Q] holds. *)
Definition total {A} (m : M S A) (Q : A -> S -> Prop) (s : S) : Prop := exists a s', m s = Some (a, s') /\ Q a s'.

Lemma total_ret {A} (a : A) (Q : A -> S -> Prop) s : Q a s -> total (mret a) Q s.
Proof. intros H. by exists a, s. Qed.

Lemma total_bind {A B} (m : M S A) (k : A -> M S B) Q s :
  total m (fun a s' => total (k a) Q s') s -> total (m ≫= k) Q s.
Proof. intros (a & s' & H & b & s2 & Hk & HQ). exists b, s2. split; [|done]. by rewrite (bind_some _ _ _ _ _ H). Qed.

Lemma total_mono {A} (m : M S A) (P Q : A -> S -> Prop) s : total m P s -> (forall a s', P a s' -> Q a s') -> total m Q s.
Proof. intros (a & s' & H & HP) HPQ. exists a, s'. auto. Qed.

Lemma total_deref {A} (f : S -> option A) (Q : A -> S -> Prop) s a : f s = Some a -> Q a s -> total (deref f) Q s.
Proof. intros H HQ. exists a, s. split; [by apply deref_some|done]. Qed.

Lemma total_or_panic {A} (o : option A) (Q : A -> S -> Prop) s a : o = Some a -> Q a s -> total (or_panic o) Q s.
Proof. exact (total_deref (fun _ => o) Q s a). Qed.

Lemma total_modify (f : S -> S) (Q : () -> S -> Prop) s : Q tt (f s) -> total (modify f) Q s.
Proof. intros H. by exists tt, (f s). Qed.

Lemma total_reads {A} (f : S -> A) (Q : A -> S -> Prop) s : Q (f s) s -> total (reads f) Q s.
Proof. intros H. by exists (f s), s. Qed.

(** A condition that a computation keeps, whatever it returns. *)
Definition keeps {A} (I : S -> Prop) (m : M S A) : Prop := forall s a s', I s -> m s = Some (a, s') -> I s'.

Lemma keeps_ret {A} I (a : A) : keeps I (mret a : M S A).
Proof. by intros s b s' H [= <- <-]. Qed.
Lemma keeps_bind {A B} I (m : M S A) (k : A -> M S B) : keeps I m -> (forall a, keeps I (k a)) -> keeps I (m ≫= k).
Proof. intros Hm Hk s b s' HI (a & s1 & H1 & H2)%bind_inv. eapply Hk; [|done]. by eapply Hm. Qed.
Lemma keeps_panic {A} I : keeps I (panic : M S A).
Proof. by intros s a s' _. Qed.
Lemma keeps_reads {A} I (f : S -> A) : keeps I (reads f).
Proof. by intros s a s' H [= <- <-]. Qed.
Lemma keeps_deref {A} I (f : S -> option A) : keeps I (deref f).
Proof. intros s a s' H. unfold deref. destruct (f s); [|done]. by intros [= <- <-]. Qed.
Lemma keeps_or_panic {A} I (o : option A) : keeps I (or_panic o : M S A).
Proof. apply keeps_deref. Qed.
Lemma keeps_modify I (f : S -> S) : (forall s, I s -> I (f s)) -> keeps I (modify f).
Proof. intros Hf s a s' H [= <- <-]. by apply Hf. Qed.
End laws.
Lemma keeps_zoom {S T A} (I : S -> Prop) (get : S -> T) set (m : M T A) :
  (forall s t, I s -> I (set t s)) -> keeps I (zoom get set m).
Proof. intros Hs s a s' H. unfold zoom. destruct (m (get s)) as [[a' t]|]; [|done]. intros [= <- <-]. by apply Hs. Qed.
#[export] Hint Resolve keeps_ret keeps_panic keeps_reads keeps_deref keeps_or_panic : corekv.
