(* ===== verification/Badger.v ===== *)
(** The badger backend: badger/badger.go and badger/iter.go.

    The database is github.com/dgraph-io/badger, which is not part of this
    repository: its operations are the class [BadgerDB], what its documentation
    says of them is [BadgerLaws] in BadgerSpec.v. *)
From stdpp Require Import gmap.
From S2P Require Import Prelude BTree Kv GoMonad.
From Stdlib Require Import Strings.Byte.
From Stdlib Require Strings.String.
Import Strings.String.StringSyntax.
Local Open Scope string_scope.

(** badger: [DB], [Txn], [Item], [Iterator] (created with a prefix, a direction
    and whether values are prefetched) and the errors the backend names.

    [None] is a panic.  Badger panics when a transaction with unclosed iterators
    is committed or discarded; when an iterator is created on a transaction that
    was discarded or committed, on a closed database, or as a second one of a
    transaction for updates; when the item of an iterator is asked for that is
    not positioned; and it may panic when a closed iterator is moved.
    [btx_iters] is the number of unclosed iterators of a transaction, which
    creating and closing them changes.  That [Seek] and [Item] also note, in a
    transaction for updates, which keys it read, for its detection of conflicts,
    is not part of the interface. *)
Class BadgerDB := {
  BDB : Type;
  BTx : Type;
  BItem : Type;
  BIter : Type;
  badger_ErrEmptyKey : error;
  badger_ErrKeyNotFound : error;
  badger_ErrDiscardedTxn : error;
  badger_ErrDBClosed : error;
  badger_ErrConflict : error;
  bdb_NewTransaction : BDB -> bool -> BTx * BDB;
  bdb_Close : BDB -> option error * BDB;
  bdb_DropAll : BDB -> option error * BDB;
  btx_Get : BTx -> slice -> result BItem * BTx;
  btx_Set : BTx -> slice -> slice -> option error * BTx;
  btx_Delete : BTx -> slice -> option error * BTx;
  btx_Commit : BTx -> BDB -> option (option error * (BTx * BDB));
  btx_Discard : BTx -> BDB -> option (BTx * BDB);
  btx_NewIterator : BTx -> slice -> bool -> bool -> option (BIter * BTx);
  item_Key : BItem -> slice;
  item_ValueCopy : BItem -> result slice;
  bit_Seek : BIter -> slice -> option BIter;
  bit_Next : BIter -> option BIter;
  bit_Valid : BIter -> bool;
  bit_Item : BIter -> option BItem;
  bit_Close : BIter -> BTx -> BIter * BTx;
  btx_iters : BTx -> nat;
  bit_closed : BIter -> bool }.

(** When badger does not panic: a transaction without unclosed iterators can be
    committed and discarded, an iterator that was not closed can be moved, and
    one that is valid has an item.  A transaction begins without iterators, and
    counts those that are created and not closed. *)
Class BadgerPanics (BD : BadgerDB) : Prop := {
  NewTransaction_iters d u : btx_iters (bdb_NewTransaction d u).1 = 0%nat;
  btx_Get_iters x k : btx_iters (btx_Get x k).2 = btx_iters x;
  btx_Set_iters x k v : btx_iters (btx_Set x k v).2 = btx_iters x;
  btx_Delete_iters x k : btx_iters (btx_Delete x k).2 = btx_iters x;
  btx_Commit_idle x d : btx_iters x = 0%nat ->
    exists e x' d', btx_Commit x d = Some (e, (x', d')) /\ btx_iters x' = 0%nat;
  btx_Discard_idle x d : btx_iters x = 0%nat -> is_Some (btx_Discard x d);
  btx_NewIterator_iters x pre rv pf it x' : btx_NewIterator x pre rv pf = Some (it, x') ->
    btx_iters x' = S (btx_iters x) /\ bit_closed it = false;
  bit_Close_iters it x : bit_closed it = false -> btx_iters (bit_Close it x).2 = pred (btx_iters x);
  bit_Seek_open it k : bit_closed it = false -> exists it', bit_Seek it k = Some it' /\ bit_closed it' = false;
  bit_Next_open it : bit_closed it = false -> bit_Valid it = true ->
    exists it', bit_Next it = Some it' /\ bit_closed it' = false;
  bit_Item_valid it : bit_Valid it = true -> is_Some (bit_Item it) }.

(** badger's options, as far as the packages of this repository name them; the
    others are [o_others]. *)
Record badger_Options (L R : Type) := mk_badger_Options {
  o_Dir : String.string;
  o_ValueDir : String.string;
  o_Logger : option L;
  o_InMemory : bool;
  o_EncryptionKey : slice;
  o_IndexCacheSize : Z;
  o_ValueLogFileSize : Z;
  o_others : R }.
Arguments mk_badger_Options {L R}.
Arguments o_Dir {L R}.
Arguments o_ValueDir {L R}.
Arguments o_Logger {L R}.
Arguments o_InMemory {L R}.
Arguments o_EncryptionKey {L R}.
Arguments o_IndexCacheSize {L R}.
Arguments o_ValueLogFileSize {L R}.
Arguments o_others {L R}.

Module Badger.
Section code.
Context {BD : BadgerDB}.

(** ** Errors *)

(** [err.Error()]. *)
Fixpoint error_msg (e : error) : String.string :=
  match e with
  | ErrNotFound => "key not found"
  | ErrEmptyKey => "empty key"
  | ErrValueNil => "value is nil"
  | ErrDiscardedTxn => "transaction discarded"
  | ErrDBClosed => "datastore closed"
  | ErrTxnConflict => "transaction conflict. Please retry"
  | ErrReadOnlyTxn => "read only transaction"
  | ErrOther m => m
  | ErrJoin1 e => error_msg e
  | ErrJoin2 e1 e2 =>
      String.append (error_msg e1) (String.String (Ascii.ascii_of_nat 10) (error_msg e2))
  end.

Definition strings_Contains (s substr : String.string) : bool :=
  match String.index 0 substr s with Some _ => true | None => false end.

(** The map of known errors. *)
Definition badgerErrToKVErrMap (e : error) : option error :=
  if bool_decide (e = badger_ErrEmptyKey) then Some ErrEmptyKey
  else if bool_decide (e = badger_ErrKeyNotFound) then Some ErrNotFound
  else if bool_decide (e = badger_ErrDiscardedTxn) then Some ErrDiscardedTxn
  else if bool_decide (e = badger_ErrDBClosed) then Some ErrDBClosed
  else if bool_decide (e = badger_ErrConflict) then Some ErrTxnConflict
  else None.

Definition badgerErrToKVErr (err : option error) : option error :=
  match err with
  | None => None
  | Some e =>
      match badgerErrToKVErrMap e with
      | Some m => Some m
      | None =>
          if errors_Is e badger_ErrEmptyKey then Some ErrEmptyKey
          else if errors_Is e badger_ErrKeyNotFound then Some ErrNotFound
          else if errors_Is e badger_ErrDBClosed then Some ErrDBClosed
          else if strings_Contains (error_msg e) (error_msg badger_ErrDBClosed) then Some ErrDBClosed
          else if strings_Contains (error_msg e) (error_msg badger_ErrConflict) then Some ErrTxnConflict
          else Some e
      end
  end.

Definition to_kv (e : error) : error := default e (badgerErrToKVErr (Some e)).

(** ** State: the [Datastore], and the transactions by address *)

Record State := mk_State { db : BDB; closed : bool; txns : gmap nat BTx }.

Definition set_db (d : BDB) (s : State) : State := mk_State d (closed s) (txns s).
Definition set_txn (p : nat) (x : BTx) (s : State) : State := mk_State (db s) (closed s) (<[p := x]> (txns s)).

Definition NewDatastoreFrom (d : BDB) : State := mk_State d false ∅.

(** [badger_Open] is what [badger.Open] does at the time of the call: it depends
    on the disk. *)
Definition NewDatastore {Logger Others} (badger_Open : badger_Options Logger Others -> result BDB) (path : String.string)
    (opts : badger_Options Logger Others) : result State :=
  match badger_Open (mk_badger_Options path path None (o_InMemory opts) (o_EncryptionKey opts) (o_IndexCacheSize opts)
                       (o_ValueLogFileSize opts) (o_others opts)) with
  | Err e => Err e
  | Ok store => Ok (NewDatastoreFrom store)
  end.

Inductive dynTxn := DynbTxn (p : nat) | DynOther.
Definition as_bTxn (x : dynTxn) : option nat := match x with DynbTxn p => Some p | DynOther => None end.

(** ** Transactions

    The methods of a [bTxn], on the transaction of badger that it holds. *)

Definition bTxn_Get (k : slice) (x : BTx) : result slice * BTx :=
  let '(r, x) := btx_Get x k in
  (match r with Err e => Err (to_kv e) | Ok item => item_ValueCopy item end, x).

Definition bTxn_Has (k : slice) (x : BTx) : result bool * BTx :=
  let '(r, x) := btx_Get x k in
  (match r with
   | Err e => if errors_Is e badger_ErrKeyNotFound then Ok false else Err (to_kv e)
   | Ok _ => Ok true
   end, x).

Definition bTxn_Set (k v : slice) (x : BTx) : option error * BTx :=
  let '(e, x) := btx_Set x k v in (badgerErrToKVErr e, x).

Definition bTxn_Delete (k : slice) (x : BTx) : option error * BTx :=
  let '(e, x) := btx_Delete x k in (badgerErrToKVErr e, x).

Definition bTxn_Commit (x : BTx) (d : BDB) : option (option error * (BTx * BDB)) :=
  '(e, r) ← btx_Commit x d; Some (badgerErrToKVErr e, r).

Definition bTxn_Discard (x : BTx) (d : BDB) : option (BTx * BDB) := btx_Discard x d.

(** The transaction at an address. *)
Definition the_txn (p : nat) : M State BTx := deref (fun s => txns s !! p).

Definition on_txn {R} (p : nat) (f : BTx -> R * BTx) : M State R :=
  x ← the_txn p;
  let '(r, x) := f x in
  _ ← modify (set_txn p x);
  mret r.

(** Committing and discarding reach the database as well. *)
Definition txn_Commit (p : nat) : M State (option error) :=
  x ← the_txn p;
  d ← reads db;
  '(e, (x, d)) ← or_panic (bTxn_Commit x d);
  _ ← modify (fun s => set_txn p x (set_db d s));
  mret e.

Definition txn_Discard (p : nat) : M State () :=
  x ← the_txn p;
  d ← reads db;
  '(x, d) ← or_panic (bTxn_Discard x d);
  modify (fun s => set_txn p x (set_db d s)).

(** ** Iterators (iter.go)

    [it_txn] is the address of the iterator's transaction, [closer] the implicit
    transaction to discard when the iterator closes.  [None] is a panic. *)

Record iterator := mk_iterator {
  it_txn : nat;
  i : BIter;
  start : slice;
  end_ : slice;
  i_reverse : bool;
  keysOnly : bool;
  reset : bool;
  closer : option nat }.

Definition set_i (x : BIter) (it : iterator) : iterator :=
  mk_iterator (it_txn it) x (start it) (end_ it) (i_reverse it) (keysOnly it) (reset it) (closer it).
Definition set_reset (b : bool) (it : iterator) : iterator :=
  mk_iterator (it_txn it) (i it) (start it) (end_ it) (i_reverse it) (keysOnly it) b (closer it).
Definition withCloser (p : nat) (it : iterator) : iterator :=
  mk_iterator (it_txn it) (i it) (start it) (end_ it) (i_reverse it) (keysOnly it) (reset it) (Some p).

(** A new iterator of the transaction [x] at the address [p], and the transaction
    that counts it. *)
Definition newPrefixIterator (p : nat) (x : BTx) (prefix : slice) (reverse keysOnly : bool) :
    option (iterator * BTx) :=
  '(i, x) ← btx_NewIterator x prefix reverse (negb keysOnly);
  Some (mk_iterator p i prefix (bytesPrefixEnd prefix) reverse keysOnly true None, x).

Definition newRangeIterator (p : nat) (x : BTx) (start end_ : slice) (reverse keysOnly : bool) :
    option (iterator * BTx) :=
  '(i, x) ← btx_NewIterator x None reverse (negb keysOnly);
  Some (mk_iterator p i start end_ reverse keysOnly true None, x).

Definition Reset (it : iterator) : iterator := set_reset true it.

(** The item is asked for only when there is a bound to compare its key with. *)
Definition valid (it : iterator) : option bool :=
  if negb (bit_Valid (i it)) then Some false
  else
    below ← (if (0 <? blen (start it))%nat then item ← bit_Item (i it); Some (lt (item_Key item) (start it))
             else Some false);
    if below : bool then Some false
    else
      above ← (if (0 <? blen (end_ it))%nat then item ← bit_Item (i it); Some (gte (item_Key item) (end_ it))
               else Some false);
      Some (negb above).

(** [next] without a reset pending: [seek] only calls it after clearing the
    flag, [Next] with the flag set goes through [restart]. *)
Definition advance (it : iterator) : option (bool * iterator) :=
  if negb (bit_Valid (i it)) then Some (false, it)
  else
    x ← bit_Next (i it);
    let it := set_i x it in
    b ← valid it;
    Some (b, it).

Definition seek (it : iterator) (k : slice) : option (bool * iterator) :=
  let it := set_reset false it in
  let target :=
    if i_reverse it then (if negb (is_nil (end_ it)) && lt (end_ it) k then end_ it else k)
    else (if negb (is_nil (start it)) && lt k (start it) then start it else k) in
  x ← bit_Seek (i it) target;
  let it := set_i x it in
  b ← valid it;
  if negb b then advance it else Some (true, it).

Definition restart (it : iterator) : option (bool * iterator) :=
  let it := set_reset false it in
  if i_reverse it then seek it (end_ it) else seek it (start it).

Definition next (it : iterator) : option (bool * iterator) := if reset it then restart it else advance it.

Definition lift (r : bool * iterator) : result bool * iterator := (Ok r.1, r.2).

Definition Next (s : State) (it : iterator) : option (result bool * iterator) :=
  if closed s then Some (Err ErrDBClosed, it) else lift <$> next it.

(** [KeyCopy]. *)
Definition Key (it : iterator) : option slice := item_Key <$> bit_Item (i it).

Definition Value (it : iterator) : option (result slice) :=
  if keysOnly it then Some (Ok None) else item_ValueCopy <$> bit_Item (i it).

Definition Seek (s : State) (it : iterator) (k : slice) : option (result bool * iterator) :=
  if closed s then Some (Err ErrDBClosed, it) else lift <$> seek it k.

(** Closing returns the closed iterator. *)
Definition Close_it (it : iterator) : M State (option error * iterator) :=
  x ← the_txn (it_txn it);
  let '(b, x) := bit_Close (i it) x in
  _ ← modify (set_txn (it_txn it) x);
  let it := set_i b it in
  match closer it with
  | Some p => _ ← txn_Discard p; mret (None, it)
  | None => mret (None, it)
  end.

Definition bTxn_iterator (s : State) (p : nat) (x : BTx) (o : IterOptions) : option (result iterator * BTx) :=
  if closed s then Some (Err ErrDBClosed, x)
  else if negb (is_nil (Prefix o)) then
    '(it, x) ← newPrefixIterator p x (Prefix o) (Reverse o) (KeysOnly o); Some (Ok it, x)
  else
    '(it, x) ← newRangeIterator p x (Start o) (End_ o) (Reverse o) (KeysOnly o); Some (Ok it, x).

(** ** The store *)

Definition newTxn (readonly : bool) : M State BTx :=
  d ← reads db;
  let '(x, d) := bdb_NewTransaction d (negb readonly) in
  _ ← modify (set_db d);
  mret x.

(** [NewTxn], at the address [p]. *)
Definition NewTxn (p : nat) (readonly : bool) : M State () := x ← newTxn readonly; modify (set_txn p x).

(** The deferred [Discard] of an implicit transaction. *)
Definition discard_implicit (x : BTx) : M State () :=
  d ← reads db;
  '(_, d) ← or_panic (bTxn_Discard x d);
  modify (set_db d).

(** A read in an implicit transaction, which is then discarded. *)
Definition implicit_read {R} (f : BTx -> R * BTx) : M State R :=
  x ← newTxn true;
  let '(r, x) := f x in
  _ ← discard_implicit x;
  mret r.

(** A write in an implicit transaction: committed unless it failed, and then discarded. *)
Definition implicit_write (f : BTx -> option error * BTx) : M State (option error) :=
  x ← newTxn false;
  let '(e, x) := f x in
  match e with
  | Some e => _ ← discard_implicit x; mret (Some e)
  | None =>
      d ← reads db;
      '(e, (x, d)) ← or_panic (bTxn_Commit x d);
      _ ← modify (set_db d);
      _ ← discard_implicit x;
      mret e
  end.

Definition Get (ctx : Context_ dynTxn) (k : slice) : M State (result slice) :=
  match TryGetCtxTxnG as_bTxn ctx with
  | Some p => on_txn p (bTxn_Get k)
  | None => implicit_read (bTxn_Get k)
  end.

Definition Has (ctx : Context_ dynTxn) (k : slice) : M State (result bool) :=
  match TryGetCtxTxnG as_bTxn ctx with
  | Some p => on_txn p (bTxn_Has k)
  | None => implicit_read (bTxn_Has k)
  end.

Definition Set_ (ctx : Context_ dynTxn) (k v : slice) : M State (option error) :=
  match TryGetCtxTxnG as_bTxn ctx with
  | Some p => on_txn p (bTxn_Set k v)
  | None => implicit_write (bTxn_Set k v)
  end.

Definition Delete (ctx : Context_ dynTxn) (k : slice) : M State (option error) :=
  match TryGetCtxTxnG as_bTxn ctx with
  | Some p => on_txn p (bTxn_Delete k)
  | None => implicit_write (bTxn_Delete k)
  end.

Definition Close (s : State) : option error * State :=
  let '(e, d) := bdb_Close (db s) in (e, mk_State d true (txns s)).

(** The implicit transaction of the iterator gets the address [p]. *)
Definition Iterator (p : nat) (ctx : Context_ dynTxn) (o : IterOptions) : M State (result iterator) :=
  match TryGetCtxTxnG as_bTxn ctx with
  | Some q =>
      x ← the_txn q;
      s ← reads id;
      '(r, x) ← or_panic (bTxn_iterator s q x o);
      _ ← modify (set_txn q x);
      mret r
  | None =>
      x ← newTxn true;
      s ← reads id;
      '(r, x) ← or_panic (bTxn_iterator s p x o);
      match r with
      | Err e => mret (Err e)
      | Ok it => _ ← modify (set_txn p x); mret (Ok (withCloser p it))
      end
  end.

Definition DropAll (s : State) : option error * State :=
  let '(e, d) := bdb_DropAll (db s) in (e, set_db d s).

(** The methods of a transaction create and close no iterators. *)
Lemma bTxn_iters {BP : BadgerPanics BD} k v x :
  btx_iters (bTxn_Get k x).2 = btx_iters x /\ btx_iters (bTxn_Has k x).2 = btx_iters x /\
  btx_iters (bTxn_Set k v x).2 = btx_iters x /\ btx_iters (bTxn_Delete k x).2 = btx_iters x.
Proof.
  unfold bTxn_Get, bTxn_Has, bTxn_Set, bTxn_Delete.
  pose proof (btx_Get_iters x k). pose proof (btx_Set_iters x k v). pose proof (btx_Delete_iters x k).
  by destruct (btx_Get x k), (btx_Set x k v), (btx_Delete x k).
Qed.
End code.
End Badger.
