(* ===== verification/BadgerSpec.v ===== *)
(** What badger promises, and the properties of the badger backend: its
    iterators, its implicit transactions and its translation of errors. *)
From stdpp Require Import gmap.
From S2P Require Import Prelude BTree Kv GoMonad Badger.
From Stdlib Require Import Strings.Byte.
From Stdlib Require Strings.String.
Import Strings.String.StringSyntax.
Import Badger.

(** What values of badger stand for: the entries of a database and of a
    transaction (its snapshot with its writes); [btx_open x u]: [x] is open, for
    updates if [u]; [btx_fresh x d]: nothing was committed to [d] since [x]
    began; [btx_accepts]: keys and values badger takes (it limits sizes and
    reserves a prefix); an iterator's entries in its order, and its position. *)
Class BadgerModel (BD : BadgerDB) := {
  bdb_open : BDB -> Prop;
  bdb_entries : BDB -> list entry;
  btx_open : BTx -> bool -> Prop;
  btx_view : BTx -> list entry;
  btx_fresh : BTx -> BDB -> Prop;
  btx_accepts : slice -> slice -> Prop;
  bit_list : BIter -> list entry;
  bit_rev : BIter -> bool;
  bit_pos : BIter -> nat }.

(** In the direction of an iterator: from [k] on. *)
Definition ahead (rv : bool) (k : bytes) (e : entry) : bool :=
  bool_decide (k = []) || (if rv then bool_decide (e.1 ⪯ k) else bool_decide (k ⪯ e.1)).

Definition directed (rv : bool) (l : list entry) : list entry := if rv then reverse l else l.

(** An update of a transaction by a write of [v] (None: a delete) to [k]. *)
Definition tx_updated {BD : BadgerDB} {BM : BadgerModel BD} (x x' : BTx) (k : bytes) (v : option bytes) : Prop :=
  btx_open x' true /\ kv_update k v (btx_view x) (btx_view x') /\ kv_sorted (btx_view x') /\
  forall d, btx_fresh x d -> btx_fresh x' d.

Class BadgerLaws (BD : BadgerDB) (BM : BadgerModel BD) : Prop := {
  laws_panics :: BadgerPanics BD;
  badger_errors : exists m1 m2 m3 m4 m5,
    badger_ErrEmptyKey = ErrOther m1 /\ badger_ErrKeyNotFound = ErrOther m2 /\ badger_ErrDiscardedTxn = ErrOther m3 /\
    badger_ErrDBClosed = ErrOther m4 /\ badger_ErrConflict = ErrOther m5 /\ NoDup [m1; m2; m3; m4; m5];
  bdb_sorted d : bdb_open d -> kv_sorted (bdb_entries d);
  NewTransaction_spec d u : bdb_open d ->
    exists x d', bdb_NewTransaction d u = (x, d') /\ bdb_open d' /\ bdb_entries d' = bdb_entries d /\
      btx_open x u /\ btx_view x = bdb_entries d /\ btx_fresh x d';
  btx_Get_spec x u k : btx_open x u ->
    exists r x', btx_Get x k = (r, x') /\ btx_open x' u /\ btx_view x' = btx_view x /\
      if bool_decide (bdata k = []) then r = Err badger_ErrEmptyKey
      else match kv_lookup (bdata k) (btx_view x) with
           | Some v => exists item sv, r = Ok item /\ item_ValueCopy item = Ok sv /\ bdata sv = v
           | None => r = Err badger_ErrKeyNotFound
           end;
  btx_Set_spec x k v : btx_open x true -> kv_sorted (btx_view x) ->
    if bool_decide (bdata k = []) then exists x', btx_Set x k v = (Some badger_ErrEmptyKey, x')
    else btx_accepts k v -> exists x', btx_Set x k v = (None, x') /\ tx_updated x x' (bdata k) (Some (bdata v));
  btx_Delete_spec x k : btx_open x true -> kv_sorted (btx_view x) ->
    if bool_decide (bdata k = []) then exists x', btx_Delete x k = (Some badger_ErrEmptyKey, x')
    else btx_accepts k None -> exists x', btx_Delete x k = (None, x') /\ tx_updated x x' (bdata k) None;
  btx_Commit_spec x d : btx_open x true -> btx_fresh x d -> bdb_open d -> btx_iters x = 0%nat ->
    exists x' d', btx_Commit x d = Some (None, (x', d')) /\ bdb_open d' /\ bdb_entries d' = btx_view x;
  btx_Discard_spec x d x' d' : bdb_open d -> btx_Discard x d = Some (x', d') ->
    bdb_open d' /\ bdb_entries d' = bdb_entries d;
  (** Only the given prefix is iterated over; a transaction for updates has one
      iterator at a time. *)
  btx_NewIterator_spec x u pre rv pf :
    btx_open x u -> pre = None \/ rv = false -> u = false \/ btx_iters x = 0%nat ->
    exists it x', btx_NewIterator x pre rv pf = Some (it, x') /\ btx_open x' u /\ btx_view x' = btx_view x /\
      bit_rev it = rv /\
      bit_list it = directed rv (filter (fun e => bool_decide (bdata pre `prefix_of` e.1) = true) (btx_view x));
  bit_Close_spec it x u : btx_open x u ->
    btx_open (bit_Close it x).2 u /\ btx_view (bit_Close it x).2 = btx_view x;
  (** [Seek] goes to the key or the next one in the direction of the iterator,
      with an empty key to the first one. *)
  bit_Seek_same it k it' : bit_Seek it k = Some it' -> bit_list it' = bit_list it /\ bit_rev it' = bit_rev it;
  bit_Seek_spec it k it' : bit_Seek it k = Some it' -> kv_sorted (directed (bit_rev it) (bit_list it)) ->
    drop (bit_pos it') (bit_list it) = filter (fun e => ahead (bit_rev it) (bdata k) e = true) (bit_list it);
  bit_Next_spec it it' : bit_Valid it = true -> bit_Next it = Some it' ->
    bit_list it' = bit_list it /\ bit_rev it' = bit_rev it /\ bit_pos it' = S (bit_pos it);
  bit_Valid_spec it : bit_Valid it = (bit_pos it <? length (bit_list it))%nat;
  bit_Item_spec it e item : bit_list it !! bit_pos it = Some e -> bit_Item it = Some item ->
    bdata (item_Key item) = e.1 /\ exists sv, item_ValueCopy item = Ok sv /\ bdata sv = e.2 }.

(** ** Iteration *)

Section badger.
Context {BD : BadgerDB} {BM : BadgerModel BD} {BL : BadgerLaws BD BM}.

(** The bounds that [valid] checks. *)
Definition inb (it : iterator) (k : bytes) : bool :=
  negb ((0 <? blen (start it))%nat && bool_decide (k ≺ bdata (start it))) &&
  negb ((0 <? blen (end_ it))%nat && bool_decide (bdata (end_ it) ⪯ k)).

Notation P it := (fun e : entry => inb it e.1 = true).
Notation notP it := (fun e : entry => inb it e.1 = false).

Lemma valid_spec it :
  valid it = Some match bit_list (i it) !! bit_pos (i it) with Some e => inb it e.1 | None => false end.
Proof.
  unfold valid. destruct (bit_list (i it) !! bit_pos (i it)) as [e|] eqn:E.
  - assert (bit_Valid (i it) = true) as Hv.
    { rewrite bit_Valid_spec. apply Nat.ltb_lt. by apply lookup_lt_Some in E. }
    destruct (bit_Item_valid _ Hv) as [item Hitem]. destruct (bit_Item_spec _ _ _ E Hitem) as [Hk _].
    rewrite Hv, Hitem. unfold inb.
    assert (lt (item_Key item) (start it) = bool_decide (e.1 ≺ bdata (start it))) as Hlt.
    { apply eq_true_iff_eq. by rewrite lt_true, bool_decide_eq_true, Hk. }
    assert (gte (item_Key item) (end_ it) = bool_decide (bdata (end_ it) ⪯ e.1)) as Hgte.
    { apply eq_true_iff_eq. by rewrite gte_true, bool_decide_eq_true, Hk. }
    destruct (0 <? blen (start it))%nat, (0 <? blen (end_ it))%nat; cbn; rewrite ?Hlt, ?Hgte; cbn.
    all: repeat (destruct (bool_decide _); cbn); done.
  - rewrite bit_Valid_spec. apply lookup_ge_None in E. by rewrite (proj2 (Nat.ltb_ge _ _) E).
Qed.

(** The iterator stands before the entries [E]; what comes after them is outside
    of its bounds. *)
Definition rem (it : iterator) (E : list entry) : Prop :=
  reset it = false /\
  exists b, drop (S (bit_pos (i it))) (bit_list (i it)) = E ++ b /\ Forall (P it) E /\ Forall (notP it) b.

(** The iterator stands at the entry [e]. *)
Definition at_entry (it : iterator) (e : entry) : Prop :=
  (exists k, Key it = Some k /\ bdata k = e.1) /\
  (keysOnly it = false -> exists sv, Value it = Some (Ok sv) /\ bdata sv = e.2).

(** [it'] differs from [it] in its position only. *)
Definition same_iter (it it' : iterator) : Prop :=
  (start it' = start it /\ end_ it' = end_ it /\ i_reverse it' = i_reverse it /\ keysOnly it' = keysOnly it) /\
  (it_txn it' = it_txn it /\ closer it' = closer it) /\
  bit_list (i it') = bit_list (i it) /\ bit_rev (i it') = bit_rev (i it) /\ bit_closed (i it') = bit_closed (i it).

Lemma same_iter_trans it1 it2 it3 : same_iter it1 it2 -> same_iter it2 it3 -> same_iter it1 it3.
Proof. unfold same_iter. intuition congruence. Qed.

(** A movement that finds the first of [E]. *)
Definition found (it : iterator) (E : list entry) (r : bool * iterator) : Prop :=
  same_iter it r.2 /\
  match E with
  | [] => r.1 = false /\ rem r.2 []
  | e :: E' => r.1 = true /\ at_entry r.2 e /\ rem r.2 E'
  end.

Lemma at_item it e : bit_list (i it) !! bit_pos (i it) = Some e -> at_entry it e.
Proof.
  intros H. assert (bit_Valid (i it) = true) as Hval.
  { rewrite bit_Valid_spec. apply Nat.ltb_lt. by apply lookup_lt_Some in H. }
  destruct (bit_Item_valid _ Hval) as [item Hitem]. destruct (bit_Item_spec _ _ _ H Hitem) as (Hk & sv & Hv & He).
  unfold at_entry, Key, Value. rewrite Hitem. split; [by eexists|]. intros ->. exists sv. cbn. by rewrite Hv.
Qed.

Lemma drop_head {A} n (l : list A) x r : drop n l = x :: r -> l !! n = Some x /\ drop (S n) l = r.
Proof.
  intros H. split.
  - rewrite <- (Nat.add_0_r n), <- lookup_drop, H. done.
  - replace (S n) with (n + 1)%nat by lia. by rewrite <- drop_drop, H.
Qed.

(** The entry before which the iterator stands. *)
Lemma found_here it it' E b :
  same_iter it it' -> reset it' = false -> drop (bit_pos (i it')) (bit_list (i it')) = E ++ b ->
  Forall (P it) E -> Forall (notP it) b ->
  exists r, valid it' = Some r /\ (E <> [] -> found it E (r, it')) /\
    (E = [] -> r = false /\ forall b', drop (S (bit_pos (i it'))) (bit_list (i it')) = b' -> Forall (notP it) b').
Proof.
  intros Hs Hr Hd HE Hb. rewrite valid_spec. eexists. split; [done|].
  assert (forall k, inb it' k = inb it k) as Hinb by (intros k; unfold inb; by destruct Hs as ((-> & -> & _) & _)).
  destruct (E ++ b) as [|x l] eqn:El.
  - apply app_nil in El as [-> ->]. replace (bit_list (i it') !! bit_pos (i it')) with (@None entry); cycle 1.
    { symmetry. by rewrite <- (Nat.add_0_r (bit_pos _)), <- lookup_drop, Hd. }
    split; [done|]. intros _. split; [done|]. intros b' <-.
    replace (S (bit_pos (i it'))) with (bit_pos (i it') + 1)%nat by lia. rewrite <- drop_drop, Hd. constructor.
  - apply drop_head in Hd as [Hx Hd]. rewrite Hx, Hinb. destruct E as [|e E]; simpl in El.
    + subst b. apply Forall_cons in Hb as [Hxn Hb]. split; [done|]. intros _. split; [done|]. intros b' <-. by rewrite Hd.
    + injection El as -> <-. apply Forall_cons in HE as [He HE]. split; [|done]. intros _. split; [done|]. cbn [fst snd].
      split; [done|]. split; [by apply at_item|]. split; [done|]. exists b. split_and!; [done| |].
      * eapply Forall_impl; [exact HE|]. intros y. by rewrite Hinb.
      * eapply Forall_impl; [exact Hb|]. intros y. by rewrite Hinb.
Qed.

Lemma advance_found it E :
  rem it E -> bit_closed (i it) = false -> exists r, advance it = Some r /\ found it E r.
Proof.
  intros (Hr & b & Hd & HE & Hb) Hc. unfold advance. destruct (bit_Valid (i it)) eqn:Hv; cbn [negb].
  - destruct (bit_Next_open _ Hc Hv) as (x & Hx & Hxc). destruct (bit_Next_spec _ _ Hv Hx) as (Hl & Hrv & Hp).
    rewrite Hx. cbn. assert (same_iter it (set_i x it)) as Hsame by (unfold same_iter; cbn; by rewrite Hxc).
    destruct (found_here it (set_i x it) E b Hsame Hr) as (r & -> & H1 & H2); [cbn; by rewrite Hl, Hp|done..|].
    cbn. eexists. split; [done|]. destruct E as [|e E]; [|by apply H1]. destruct (H2 eq_refl) as [-> Hb'].
    split; [done|]. split; [done|]. split; [done|]. eexists. split; [reflexivity|]. split; [constructor|]. by apply Hb'.
  - eexists. split; [done|]. split; [done|]. rewrite bit_Valid_spec in Hv. apply Nat.ltb_ge in Hv.
    rewrite drop_ge in Hd by lia. symmetry in Hd. apply app_nil in Hd as [-> ->].
    split; [done|]. split; [done|]. exists []. cbn [snd]. rewrite drop_ge by lia. by split_and!.
Qed.

(** The key that [seek] hands to badger. *)
Definition target (it : iterator) (k : slice) : slice :=
  if i_reverse it then (if negb (is_nil (end_ it)) && lt (end_ it) k then end_ it else k)
  else (if negb (is_nil (start it)) && lt k (start it) then start it else k).

(** [seek] copes with one entry outside of the bounds before those it looks for. *)
Lemma seek_found it k x pre E b :
  bit_Seek (i it) (target it k) = Some x -> bit_closed x = bit_closed (i it) -> bit_closed x = false ->
  drop (bit_pos x) (bit_list (i it)) = pre ++ E ++ b ->
  (length pre <= 1)%nat -> Forall (notP it) pre -> Forall (P it) E -> Forall (notP it) b ->
  exists r, seek it k = Some r /\ found it E r.
Proof.
  intros Hx Hcl Hc Hd Hpre HpreP HE Hb. destruct (bit_Seek_same _ _ _ Hx) as [Hl Hrv].
  set (it' := set_i x (set_reset false it)).
  assert (seek it k = b ← valid it'; if negb b then advance it' else Some (true, it')) as ->.
  { unfold seek. cbn [i_reverse end_ start i set_reset]. fold (target it k). by rewrite Hx. }
  assert (same_iter it it') as Hsame by (unfold same_iter; cbn; by rewrite Hcl).
  assert (forall E', rem it' E' -> exists r, advance it' = Some r /\ found it E' r) as Hadv.
  { intros E' (r & -> & Hs & Hrest)%advance_found; [|done]. exists r. split; [done|]. split; [|done].
    by eapply same_iter_trans. }
  assert (Forall (P it') E /\ Forall (notP it') b) as [HE' Hb'] by done.
  destruct pre as [|x0 [|]]; simpl in Hpre; [..|lia].
  - destruct (found_here it it' E b Hsame eq_refl) as (r & -> & H1 & H2); [cbn; by rewrite Hl|done..|]. cbn.
    destruct E as [|e E].
    + destruct (H2 eq_refl) as [-> Hb2]. apply Hadv. split; [done|]. eexists. split; [reflexivity|]. split; [constructor|].
      by apply Hb2.
    + specialize (H1 ltac:(done)). pose proof H1 as (_ & Hr & _). cbn in Hr. subst r. by eexists.
  - apply drop_head in Hd as [Hx0 Hd]. apply Forall_cons in HpreP as [Hn _]. rewrite valid_spec.
    change (bit_pos (i it')) with (bit_pos x). change (bit_list (i it')) with (bit_list x).
    rewrite Hl, Hx0. change (inb it') with (inb it). rewrite Hn. apply Hadv. split; [done|]. exists b. split; [|done].
    change (drop (S (bit_pos x)) (bit_list x) = E ++ b). by rewrite Hl.
Qed.

(** ** Bounds in order *)

Definition desc (l : list entry) : Prop := StronglySorted (fun a b => b.1 ≺ a.1) l.

Lemma reverse_desc l : kv_sorted l -> desc (reverse l).
Proof.
  unfold kv_sorted, desc. induction 1 as [|e l Hl IH HF]; [constructor|]. rewrite reverse_cons.
  assert (forall x, x ∈ reverse l -> e.1 ≺ x.1) as Hx.
  { intros x Hx. rewrite elem_of_reverse in Hx. eapply Forall_forall in HF; [exact HF|done]. }
  revert IH Hx. clear. generalize (reverse l). intros r. induction r as [|x r IHr]; simpl; intros IH Hx;
    [repeat constructor|].
  apply StronglySorted_inv in IH as [IH HF].
  constructor; [apply IHr; [done|]; intros y Hy; apply Hx; by right|].
  apply Forall_app. split; [done|]. constructor; [|constructor]. apply Hx. left.
Qed.

Lemma filter_none (it : iterator) l : Forall (notP it) l -> filter (P it) l = [].
Proof.
  induction 1 as [|e l He _ IH]; [done|]. rewrite filter_cons, decide_False; [done|]. by rewrite He.
Qed.

(** Ascending entries from [start] on: first those inside the bounds. *)
Lemma asc_split it l :
  kv_sorted l -> Forall (fun e => bdata (start it) ⪯ e.1) l ->
  exists b, l = filter (P it) l ++ b /\ Forall (notP it) b.
Proof.
  unfold kv_sorted. induction 1 as [|e l Hl IH HF]; intros Hs; [by exists []|].
  apply Forall_cons in Hs as [He Hs]. destruct (IH Hs) as (b & Eb & Hb). rewrite filter_cons.
  destruct (decide (inb it e.1 = true)) as [Hin|Hin]; [exists b; simpl; by rewrite <- Eb|].
  assert (Forall (notP it) (e :: l)) as Hall; [|rewrite (filter_none it l) by (by apply Forall_cons in Hall as [_ ?]); by exists (e :: l)].
  apply not_true_iff_false in Hin. constructor; [done|]. apply Forall_forall. intros x Hx.
  eapply Forall_forall in HF; [|done]. eapply Forall_forall in Hs; [|done]. unfold inb in *.
  rewrite (bool_decide_false (e.1 ≺ _)), andb_false_r in Hin by border. cbn [negb andb] in Hin.
  apply negb_false_iff, andb_true_iff in Hin as [Hn Hk%bool_decide_eq_true].
  rewrite Hn, (bool_decide_true (_ ⪯ x.1)) by border. apply andb_false_r.
Qed.

(** Descending entries below [end]: first those inside the bounds. *)
Lemma desc_split it l :
  desc l -> Forall (fun e => blen (end_ it) = 0%nat \/ e.1 ≺ bdata (end_ it)) l ->
  exists b, l = filter (P it) l ++ b /\ Forall (notP it) b.
Proof.
  unfold desc. induction 1 as [|e l Hl IH HF]; intros Hs; [by exists []|].
  apply Forall_cons in Hs as [He Hs]. destruct (IH Hs) as (b & Eb & Hb). rewrite filter_cons.
  destruct (decide (inb it e.1 = true)) as [Hin|Hin]; [exists b; simpl; by rewrite <- Eb|].
  assert (Forall (notP it) (e :: l)) as Hall; [|rewrite (filter_none it l) by (by apply Forall_cons in Hall as [_ ?]); by exists (e :: l)].
  apply not_true_iff_false in Hin. constructor; [done|]. apply Forall_forall. intros x Hx.
  eapply Forall_forall in HF; [|done]. unfold inb in *.
  assert ((0 <? blen (end_ it))%nat && bool_decide (bdata (end_ it) ⪯ e.1) = false) as Hend.
  { apply not_true_iff_false. rewrite andb_true_iff, Nat.ltb_lt, bool_decide_eq_true. intros [? ?].
    destruct He; [lia|border]. }
  rewrite Hend, andb_true_r in Hin. apply negb_false_iff, andb_true_iff in Hin as [Hn Hk%bool_decide_eq_true].
  rewrite Hn, (bool_decide_true (x.1 ≺ _)) by border. done.
Qed.

Lemma directed_filter rv (Q : entry -> bool) l :
  filter (fun e => Q e = true) (directed rv l) = directed rv (filter (fun e => Q e = true) l).
Proof. destruct rv; [|done]. apply filter_reverse. Qed.

Lemma filter_swap (Q Q' Q2 : entry -> bool) (l : list entry) :
  (forall e, e ∈ l -> Q e = true -> Q' e = Q2 e) ->
  filter (fun e => Q e = true) (filter (fun e => Q' e = true) l) =
  filter (fun e => Q2 e = true) (filter (fun e => Q e = true) l).
Proof.
  induction l as [|e l IH]; intros H; [done|]. rewrite !filter_cons.
  assert (forall e', e' ∈ l -> Q e' = true -> Q' e' = Q2 e') as H' by (intros; apply H; [by right|done]).
  specialize (IH H'). destruct (Q e) eqn:EQ, (Q' e) eqn:EQ'; simpl; rewrite ?filter_cons, ?EQ, ?EQ'; simpl; rewrite ?IH.
  - rewrite <- (H e), EQ' by (done || left). done.
  - rewrite <- (H e), EQ' by (done || left). done.
  - done.
  - done.
Qed.

(** An iterator with the options [o] over the entries [V]. *)
Record live (it : iterator) (o : IterOptions) (V : list entry) : Prop := {
  lv_rev : i_reverse it = Reverse o;
  lv_brev : bit_rev (i it) = Reverse o;
  lv_keys : keysOnly it = KeysOnly o;
  lv_open : bit_closed (i it) = false;
  lv_end : Reverse o = true -> is_nil (end_ it) = true \/ blen (end_ it) <> 0%nat;
  lv_list : exists l, kv_sorted l /\ bit_list (i it) = directed (Reverse o) l;
  lv_sel : filter (P it) (bit_list (i it)) = select o V }.

Lemma inb_start it (e : entry) : inb it e.1 = true -> bdata (start it) ⪯ e.1.
Proof.
  unfold inb. rewrite andb_true_iff, !negb_true_iff, !andb_false_iff. intros [[H|H] _].
  - apply Nat.ltb_ge in H. unfold blen in H. destruct (bdata (start it)); [auto with corekv|simpl in H; lia].
  - apply bool_decide_eq_false in H. border.
Qed.

Lemma inb_end it (e : entry) : inb it e.1 = true -> blen (end_ it) = 0%nat \/ e.1 ≺ bdata (end_ it).
Proof.
  unfold inb. rewrite andb_true_iff, !negb_true_iff, !andb_false_iff. intros [_ [H|H]].
  - apply Nat.ltb_ge in H. left. lia.
  - apply bool_decide_eq_false in H. right. border.
Qed.

(** The target instead of the key makes no difference inside the bounds. *)
Lemma target_ahead it o V k e :
  live it o V -> inb it e.1 = true ->
  ahead (Reverse o) (bdata (target it k)) e = ahead (Reverse o) (bdata k) e.
Proof.
  intros [Hr _ _ _ Hend _ _] He. unfold target. rewrite Hr. destruct (Reverse o).
  - destruct (negb (is_nil (end_ it)) && lt (end_ it) k) eqn:E; [|done].
    apply andb_true_iff in E as [En Hlt%lt_true]. destruct (Hend eq_refl) as [H|H]; [by rewrite H in En|].
    apply inb_end in He as [?|He]; [done|]. unfold ahead.
    rewrite (bool_decide_true (e.1 ⪯ bdata k)), (bool_decide_true (e.1 ⪯ bdata (end_ it))) by border.
    by rewrite !orb_true_r.
  - destruct (negb (is_nil (start it)) && lt k (start it)) eqn:E; [|done].
    apply andb_true_iff in E as [_ Hlt%lt_true]. apply inb_start in He. unfold ahead.
    rewrite (bool_decide_true (bdata k ⪯ e.1)), (bool_decide_true (bdata (start it) ⪯ e.1)) by border.
    by rewrite !orb_true_r.
Qed.

(** What lies ahead of the target: at most one entry outside of the bounds (the
    one at [end] itself), then the entries inside them, then others. *)
Lemma target_split it o V k D :
  live it o V -> (Reverse o = true -> bdata k <> [] \/ blen (end_ it) = 0%nat) ->
  D = filter (fun e => ahead (Reverse o) (bdata (target it k)) e = true) (bit_list (i it)) ->
  exists pre b, D = pre ++ filter (P it) D ++ b /\ (length pre <= 1)%nat /\ Forall (notP it) pre /\ Forall (notP it) b.
Proof.
  intros [Hr Hbr _ _ Hend (l & Hsort & Hl) _] Hk HD. rewrite Hl, directed_filter in HD.
  destruct (Reverse o) eqn:Hrev; cbn [directed] in HD.
  - assert (desc D) as Hdesc by (rewrite HD; apply reverse_desc; by apply filter_sorted_by).
    assert (Forall (fun e => blen (end_ it) = 0%nat \/ e.1 ⪯ bdata (end_ it)) D) as Hle.
    { apply Forall_forall. intros e He. rewrite HD, elem_of_reverse in He. apply list_elem_of_filter in He as [He _].
      unfold target, ahead in He. rewrite Hr in He.
      destruct (Hend eq_refl) as [Hn|Hn]; [left; unfold blen, is_nil in *; by destruct (end_ it)|].
      right. destruct (negb (is_nil (end_ it)) && lt (end_ it) k) eqn:E.
      - apply orb_true_iff in He as [He|He%bool_decide_eq_true]; [|done].
        apply bool_decide_eq_true in He. by apply blen_zero in He.
      - assert (bdata k <> []) as Hk0 by (destruct (Hk eq_refl); [done|lia]).
        rewrite bool_decide_false in He by done. apply bool_decide_eq_true in He.
        apply andb_false_iff in E as [E|E%lt_false]; [|border].
        unfold is_nil, blen in *. by destruct (end_ it). }
    destruct D as [|x D]; [exists [], []; split_and!; [done|simpl; lia|constructor..]|]. apply Forall_cons in Hle as [Hx Hle].
    pose proof Hdesc as [Hd' HF]%StronglySorted_inv.
    assert (Forall (fun e => blen (end_ it) = 0%nat \/ e.1 ≺ bdata (end_ it)) D) as Hlt.
    { apply Forall_forall. intros e He. eapply Forall_forall in HF; [|done].
      destruct Hx as [?|Hx]; [by left|right]. border. }
    destruct (decide (inb it x.1 = true)) as [Hin|Hin].
    + destruct (desc_split it (x :: D) Hdesc) as (b & Eb & Hb).
      { constructor; [|done]. by apply inb_end in Hin. }
      exists [], b. split_and!; [done|simpl; lia|constructor|done].
    + destruct (desc_split it D Hd' Hlt) as (b & Eb & Hb). exists [x], b.
      rewrite filter_cons, decide_False by done. split_and!; [|done|by repeat constructor; apply not_true_iff_false|done].
      simpl. by rewrite <- Eb.
  - destruct (asc_split it D) as (b & Eb & Hb).
    + rewrite HD. by apply filter_sorted_by.
    + apply Forall_forall. intros e He. rewrite HD in He. apply list_elem_of_filter in He as [He _].
      unfold target, ahead in He. rewrite Hr in He.
      destruct (negb (is_nil (start it)) && lt k (start it)) eqn:E.
      * apply orb_true_iff in He as [He|He]; apply bool_decide_eq_true in He; [rewrite He; auto with corekv|done].
      * assert (bdata (start it) ⪯ bdata k) as Hs.
        { apply andb_false_iff in E as [E|E%lt_false]; [|done].
          unfold is_nil in E. destruct (start it); [done|]. simpl. auto with corekv. }
        apply orb_true_iff in He as [He|He]; apply bool_decide_eq_true in He; [|border].
        rewrite He in Hs. pose proof (bytes_nil_le e.1). border.
    + exists [], b. split_and!; [done|simpl; lia|constructor|done].
Qed.

(** [seek] finds what is ahead of the key, among the selected entries. *)
Lemma seek_spec it o V k :
  live it o V -> (Reverse o = true -> bdata k <> [] \/ blen (end_ it) = 0%nat) ->
  exists r, seek it k = Some r /\
    found it (filter (fun e => ahead (Reverse o) (bdata k) e = true) (select o V)) r.
Proof.
  intros Hlv Hk. destruct (bit_Seek_open (i it) (target it k) (lv_open _ _ _ Hlv)) as (x & Hx & Hxc).
  pose proof (bit_Seek_spec (i it) (target it k) x Hx) as Hd. rewrite (lv_brev _ _ _ Hlv) in Hd.
  assert (kv_sorted (directed (Reverse o) (bit_list (i it)))) as Hsd.
  { destruct (lv_list _ _ _ Hlv) as (l & Hs & ->). unfold directed. destruct (Reverse o); [by rewrite reverse_involutive|done]. }
  specialize (Hd Hsd).
  set (D := filter (fun e => ahead (Reverse o) (bdata (target it k)) e = true) (bit_list (i it))) in *.
  destruct (target_split it o V k D Hlv Hk eq_refl) as (pre & b & ED & Hpre & HpreP & Hb).
  assert (filter (P it) D = filter (fun e => ahead (Reverse o) (bdata k) e = true) (select o V)) as HE.
  { rewrite <- (lv_sel _ _ _ Hlv). apply (filter_swap (fun e => inb it e.1)). intros e _ He. by eapply target_ahead. }
  rewrite <- HE. eapply (seek_found it k x pre);
    [done|by rewrite Hxc, (lv_open _ _ _ Hlv)|done|by rewrite Hd|done|done| |done].
  apply Forall_forall. by intros e [He _]%list_elem_of_filter.
Qed.

Lemma filter_both (Q Q' R : entry -> bool) (l : list entry) :
  (forall e, R e = Q' e && Q e) ->
  filter (fun e => Q e = true) (filter (fun e => Q' e = true) l) = filter (fun e => R e = true) l.
Proof.
  intros H. induction l as [|e l IH]; [done|]. rewrite !filter_cons, H.
  destruct (Q' e) eqn:E'; simpl; [|done]. rewrite filter_cons. destruct (Q e); simpl; [by rewrite IH|done].
Qed.

(** The bounds of the iterator of the options. *)
Lemma inb_opts it o k :
  wf_opts o = true ->
  match Prefix o with
  | Some _ => start it = Prefix o /\ end_ it = bytesPrefixEnd (Prefix o)
  | None => start it = Start o /\ end_ it = End_ o
  end ->
  in_opts o k = bool_decide (bdata (Prefix o) `prefix_of` k) && inb it k.
Proof.
  unfold wf_opts, in_opts, inb. destruct (Prefix o) as [p|]; intros Hwf [-> ->]; simpl.
  - case_bool_decide as Hp; [|done]. symmetry. cbn [andb]. apply andb_true_iff. split; apply negb_true_iff, andb_false_iff.
    + right. apply bool_decide_eq_false. destruct Hp as [z ->]. intros H.
      pose proof (bytes_le_app p [] z) as H'. rewrite app_nil_r in H'. pose proof (bytes_nil_le z). 
      assert (p ⪯ p ++ z) by tauto. border.
    + destruct (all_xff p) eqn:Ex.
      * rewrite orb_false_r in Hwf. destruct p; [by left|done].
      * right. apply bool_decide_eq_false. destruct (bytesPrefixEnd_spec (Some p) Ex) as (e & -> & _ & Hk).
        pose proof (proj1 (Hk k) Hp) as [_ Hlt]. simpl. border.
  - f_equal.
    + destruct (bdata (Start o)) as [|x l] eqn:E.
      * unfold blen. rewrite E. simpl. by rewrite bool_decide_true by apply bytes_nil_le.
      * unfold blen. rewrite E. simpl. apply eq_true_iff_eq. rewrite negb_true_iff, bool_decide_eq_true, bool_decide_eq_false.
        split; intros H; [intros ?; border|border].
    + unfold blen. destruct (bdata (End_ o)) as [|x l]; simpl; [done|]. apply eq_true_iff_eq.
      rewrite negb_true_iff, bool_decide_eq_true, bool_decide_eq_false. split; intros H; [intros ?; border|border].
Qed.

(** A fresh iterator of a transaction. *)
Lemma bTxn_iterator_live s p x u o :
  closed s = false -> btx_open x u -> kv_sorted (btx_view x) -> wf_opts o = true -> Prefix o = None \/ Reverse o = false ->
  u = false \/ btx_iters x = 0%nat ->
  exists it x', bTxn_iterator s p x o = Some (Ok it, x') /\ btx_open x' u /\ btx_view x' = btx_view x /\
    btx_iters x' = S (btx_iters x) /\ it_txn it = p /\ reset it = true /\ live it o (btx_view x).
Proof.
  intros Hc Ho Hs Hwf Hpre Hu.
  destruct (btx_NewIterator_spec x u (Prefix o) (Reverse o) (negb (KeysOnly o)) Ho Hpre Hu)
    as (bi & x' & Hnew & Ho' & Hv' & Hrv & Hl). destruct (btx_NewIterator_iters _ _ _ _ _ _ Hnew) as [Hn Hcl].
  set (it := if negb (is_nil (Prefix o))
    then mk_iterator p bi (Prefix o) (bytesPrefixEnd (Prefix o)) (Reverse o) (KeysOnly o) true None
    else mk_iterator p bi (Start o) (End_ o) (Reverse o) (KeysOnly o) true None).
  exists it, x'. split.
  { unfold bTxn_iterator, newPrefixIterator, newRangeIterator, it. rewrite Hc.
    destruct (Prefix o); cbn [is_nil negb]; by rewrite Hnew. }
  split; [done|]. split; [done|]. split; [done|].
  assert (i it = bi /\ it_txn it = p /\ reset it = true /\ i_reverse it = Reverse o /\ keysOnly it = KeysOnly o)
    as (Hi & Hp & Hr & Hir & Hk) by (unfold it; by destruct (negb (is_nil (Prefix o)))).
  split_and!; [done..|]. split; [done|by rewrite Hi|done|by rewrite Hi|..].
  - intros Hrv'. destruct Hpre as [Hpn|Hpn]; [|congruence]. unfold it, wf_opts in *. rewrite Hpn in *. simpl.
    apply orb_true_iff in Hwf as [Hwf|Hwf]; [by left|right]. apply negb_true_iff, Nat.eqb_neq in Hwf. done.
  - eexists. split; [|by rewrite Hi]. by apply (filter_sorted_by (fun e => bool_decide (bdata (Prefix o) `prefix_of` e.1))).
  - rewrite Hi, Hl. rewrite (directed_filter _ (fun e => inb it e.1)). unfold select, directed.
    rewrite (filter_both (fun e => inb it e.1) (fun e => bool_decide (bdata (Prefix o) `prefix_of` e.1))
      (fun e => in_opts o e.1)); [done|]. intros e. apply inb_opts; [done|]. unfold it. by destruct (Prefix o).
Qed.

(** [Next] of a live iterator that is not to be restarted, or is. *)
Lemma live_same it it' o V : live it o V -> same_iter it it' -> live it' o V.
Proof.
  intros [? ? ? ? ? (l & ? & ?) Hsel] ((H1 & H2 & H3 & H4) & _ & H5 & H6 & H7). split; try congruence.
  - by rewrite H2.
  - exists l. by rewrite H5.
  - rewrite <- Hsel, H5. apply list_filter_iff. intros e. unfold inb. by rewrite H1, H2.
Qed.

Lemma restart_found it o V :
  live it o V -> reset it = true -> exists r, next it = Some r /\ found it (select o V) r.
Proof.
  intros Hlv Hr. unfold next, restart. rewrite Hr. cbn [i_reverse end_ start set_reset].
  assert (live (set_reset false it) o V) as Hlv' by (by eapply live_same).
  assert (forall k, (Reverse o = true -> bdata k <> [] \/ blen (end_ it) = 0%nat) ->
    (forall e, inb it e.1 = true -> ahead (Reverse o) (bdata k) e = true) ->
    exists r, seek (set_reset false it) k = Some r /\ found it (select o V) r) as H.
  { intros k Hk Hall. pose proof (seek_spec _ o V k Hlv' Hk) as H.
    replace (filter (fun e => ahead (Reverse o) (bdata k) e = true) (select o V)) with (select o V) in H; [done|].
    rewrite <- (lv_sel _ _ _ Hlv). clear - Hall. induction (bit_list (i it)) as [|e l IH]; [done|].
    rewrite filter_cons. destruct (decide (inb it e.1 = true)) as [He|He]; [|done].
    rewrite filter_cons, decide_True by (by apply Hall). by f_equal. }
  rewrite (lv_rev _ _ _ Hlv). destruct (Reverse o) eqn:Hrev; apply H.
  - intros _. unfold blen. destruct (bdata (end_ it)); [by right|by left].
  - intros e He. apply inb_end in He as [He|He]; unfold ahead.
    + apply blen_zero in He. by rewrite He.
    + rewrite (bool_decide_true (e.1 ⪯ _)) by border. by rewrite orb_true_r.
  - done.
  - intros e He. apply inb_start in He. unfold ahead. rewrite (bool_decide_true (_ ⪯ e.1)) by done. by rewrite orb_true_r.
Qed.

(** What an iterator yields on repeated [Next]; afterwards it keeps returning false. *)
Fixpoint yields (s : State) (it : iterator) (E : list entry) : Prop :=
  match E with
  | [] => exists it' it2, Next s it = Some (Ok false, it') /\ Next s it' = Some (Ok false, it2)
  | e :: E' => exists it', Next s it = Some (Ok true, it') /\ at_entry it' e /\ yields s it' E'
  end.

Lemma rem_yields s it E : closed s = false -> bit_closed (i it) = false -> rem it E -> yields s it E.
Proof.
  intros Hc. revert it. induction E as [|e E IH]; intros it Hcl Hrem; cbn [yields]; unfold Next; rewrite Hc;
    pose proof Hrem as [Hr _]; unfold next; rewrite Hr;
    destruct (advance_found it _ Hrem Hcl) as ([b it'] & -> & Hs & H); cbn [fst snd] in *;
    assert (bit_closed (i it') = false) as Hcl' by (destruct Hs as (_ & _ & _ & _ & Hs); congruence).
  - destruct H as [-> Hrem']. exists it'. pose proof Hrem' as [Hr' _]. rewrite Hr'.
    destruct (advance_found it' _ Hrem' Hcl') as ([b2 it2] & -> & _ & [H _]). cbn [fst] in H. subst b2. by eexists.
  - destruct H as (-> & Hat & Hrem'). exists it'. split; [done|]. split; [done|]. by apply IH.
Qed.

(** What a movement leads to. *)
Definition moves_to (s : State) (E : list entry) (r : result bool * iterator) : Prop :=
  match E with
  | [] => r.1 = Ok false
  | e :: E' => r.1 = Ok true /\ at_entry r.2 e /\ yields s r.2 E'
  end.

Lemma found_moves s it E r :
  closed s = false -> bit_closed (i it) = false -> found it E r -> moves_to s E (lift r).
Proof.
  intros Hc Hcl [Hs H]. destruct E as [|e E]; simpl in *.
  - destruct H as [-> _]. done.
  - destruct H as (-> & Hat & Hrem). split_and!; [done..|]. apply rem_yields; [done| |done].
    destruct Hs as (_ & _ & _ & _ & Hs). congruence.
Qed.

Lemma found_yields s it E r :
  closed s = false -> bit_closed (i it) = false -> found it E r -> Next s it = Some (lift r) -> yields s it E.
Proof.
  intros Hc Hcl Hf HN. pose proof (found_moves s it E r Hc Hcl Hf) as H. destruct Hf as [Hs Hf]. destruct r as [b it'].
  destruct E as [|e E]; cbn [yields]; rewrite HN; simpl in *.
  - destruct Hf as [-> Hrem]. exists it'. pose proof Hrem as [Hr _].
    assert (bit_closed (i it') = false) as Hcl' by (destruct Hs as (_ & _ & _ & _ & Hs); congruence).
    destruct (advance_found it' _ Hrem Hcl') as ([b2 it2] & E2 & _ & [H2 _]). cbn [fst] in H2. subst b2.
    unfold Next, next. rewrite Hc, Hr, E2. by eexists.
  - destruct H as ([= ->] & ? & ?). by exists it'.
Qed.

(** Closing the only iterator of an implicit transaction discards it. *)
Lemma Close_it_discards s it p x :
  closer it = Some p -> it_txn it = p -> bit_closed (i it) = false -> txns s !! p = Some x -> btx_iters x = 1%nat ->
  bdb_open (db s) ->
  exists it' s', Close_it it s = Some ((None, it'), s') /\ bdb_open (db s') /\ bdb_entries (db s') = bdb_entries (db s).
Proof.
  intros Hcl Ht Ho Hx Hn Hd. unfold Close_it. rewrite Ht. pose proof (bit_Close_iters (i it) x Ho) as Hi.
  destruct (bit_Close (i it) x) as [b x1] eqn:Eb. cbn [snd] in Hi. rewrite Hn in Hi.
  destruct (btx_Discard_idle x1 (db s) Hi) as [[x2 d2] Hdis].
  destruct (btx_Discard_spec _ _ _ _ Hd Hdis) as [Hd2 He2].
  exists (set_i b it), (set_txn p x2 (set_db d2 (set_txn p x1 s))). split; [|done].
  unfold the_txn at 1, deref, mbind, M_bind. rewrite Hx, Eb. cbn [modify closer set_i]. rewrite Hcl.
  unfold txn_Discard, the_txn, deref, mbind, M_bind, modify, reads, or_panic, deref, bTxn_Discard, mret, M_ret. cbn.
  rewrite lookup_insert_eq. change (db (set_txn p x1 s)) with (db s). by rewrite Hdis.
Qed.

(** C21: Iterators of the badger backend: for all options but a reversed prefix and a
    prefix that is a run of 255 (whose range the code leaves empty), a new iterator
    of the store is created, and repeated [Next] yields exactly the selected
    entries of the store, in order, forwards and backwards, and then keeps
    returning false; so it does after [Reset], wherever the iterator stands.
    [Seek] to a non-empty key goes to the first selected entry at or after the key
    in the direction of the iterator, and [Next] continues from there.  Closing the
    iterator, wherever it stands, discards its implicit transaction and leaves the
    entries as they are.  None of this panics. *)
Theorem badger_iterator_enumerates s p o :
  closed s = false -> bdb_open (db s) -> wf_opts o = true -> Prefix o = None \/ Reverse o = false ->
  exists it s', Iterator p Background o s = Some (Ok it, s') /\ bdb_entries (db s') = bdb_entries (db s) /\
    yields s' it (select o (bdb_entries (db s))) /\
    (forall it', same_iter it it' -> yields s' (Reset it') (select o (bdb_entries (db s)))) /\
    (forall it' k, same_iter it it' -> bdata k <> [] ->
      exists r, Seek s' it' k = Some r /\
        moves_to s' (filter (fun e => ahead (Reverse o) (bdata k) e = true) (select o (bdb_entries (db s)))) r) /\
    (forall it', same_iter it it' -> exists it2 s2, Close_it it' s' = Some ((None, it2), s2) /\
      bdb_open (db s2) /\ bdb_entries (db s2) = bdb_entries (db s)).
Proof.
  intros Hc Hd Hwf Hpre. pose proof (NewTransaction_iters (db s) false) as Hn.
  destruct (NewTransaction_spec _ (negb true) Hd) as (x & d' & Enew & Hd' & He & Hx & Hv & _).
  cbn [negb] in Enew, Hx. rewrite Enew in Hn. cbn [fst] in Hn.
  destruct (bTxn_iterator_live (set_db d' s) p x _ o Hc Hx) as (it & x' & Eit & _ & _ & Hn' & Hp & Hr & Hlv);
    [rewrite Hv; by apply bdb_sorted|done|done|by left|]. rewrite Hv in Hlv. rewrite Hn in Hn'.
  set (s' := set_txn p x' (set_db d' s)). exists (withCloser p it), s'. assert (closed s' = false) as Hc' by done.
  assert (forall it', same_iter (withCloser p it) it' -> live it' o (bdb_entries (db s))) as Hlive.
  { assert (live (withCloser p it) o (bdb_entries (db s))) as Hl by (destruct Hlv; by split).
    intros it' Hs. by eapply live_same. }
  assert (forall it', live it' o (bdb_entries (db s)) -> reset it' = true ->
    yields s' it' (select o (bdb_entries (db s)))) as Hy.
  { intros it' Hl Hr'. destruct (restart_found _ _ _ Hl Hr') as (r & Er & Hf).
    eapply found_yields; [done|apply (lv_open _ _ _ Hl)|exact Hf|]. unfold Next. by rewrite Hc', Er. }
  split_and!; [|done|..].
  - unfold Iterator. cbn [TryGetCtxTxnG ctx_Value]. unfold newTxn, reads, modify, or_panic, deref, mbind, M_bind, mret, M_ret.
    cbn [negb]. rewrite Enew. cbn [id]. by rewrite Eit.
  - apply Hy; [by apply Hlive|done].
  - intros it' Hs. apply Hy; [|done]. by apply Hlive.
  - intros it' k Hs Hk. unfold Seek. rewrite Hc'.
    destruct (seek_spec it' o _ k (Hlive _ Hs)) as (r & -> & Hf); [by left|]. eexists. split; [done|].
    eapply found_moves; [done|apply (lv_open _ _ _ (Hlive _ Hs))|exact Hf].
  - intros it' Hs. destruct Hs as (_ & (Ht & Hcl) & _ & _ & Hop). rewrite <- He.
    apply (Close_it_discards s' it' p x'); [done|by rewrite Ht|by rewrite Hop; apply (lv_open _ _ _ Hlv)| |done|done].
    apply lookup_insert_eq.
Qed.

(** ** Errors *)

Lemma map_known :
  badgerErrToKVErrMap badger_ErrEmptyKey = Some ErrEmptyKey /\
  badgerErrToKVErrMap badger_ErrKeyNotFound = Some ErrNotFound /\
  badgerErrToKVErrMap badger_ErrDiscardedTxn = Some ErrDiscardedTxn /\
  badgerErrToKVErrMap badger_ErrDBClosed = Some ErrDBClosed /\
  badgerErrToKVErrMap badger_ErrConflict = Some ErrTxnConflict.
Proof.
  destruct badger_errors as (m1 & m2 & m3 & m4 & m5 & E1 & E2 & E3 & E4 & E5 & Hnd).
  unfold badgerErrToKVErrMap. rewrite E1, E2, E3, E4, E5.
  rewrite !NoDup_cons in Hnd. decompose [and] Hnd. rewrite !not_elem_of_cons in *.
  split_and!; repeat first [rewrite bool_decide_true by done | rewrite bool_decide_false by (intros [=]; subst; tauto)]; done.
Qed.

(** The translation of errors: the five errors of badger that the backend
    knows become the corresponding errors of corekv; a wrapped empty-key,
    not-found or closed error is recognised as well; every other error made by
    [errors.New] whose message contains neither that of the closed nor that of
    the conflict error is returned as it is, such as that of a write in a
    read-only transaction, which is not turned into [ErrReadOnlyTxn]. *)
Theorem badger_error_translation :
  (to_kv badger_ErrEmptyKey = ErrEmptyKey /\ to_kv badger_ErrKeyNotFound = ErrNotFound /\
   to_kv badger_ErrDiscardedTxn = ErrDiscardedTxn /\ to_kv badger_ErrDBClosed = ErrDBClosed /\
   to_kv badger_ErrConflict = ErrTxnConflict) /\
  (to_kv (ErrJoin1 badger_ErrEmptyKey) = ErrEmptyKey /\ to_kv (ErrJoin1 badger_ErrKeyNotFound) = ErrNotFound /\
   to_kv (ErrJoin1 badger_ErrDBClosed) = ErrDBClosed) /\
  forall m, ErrOther m ∉ [badger_ErrEmptyKey; badger_ErrKeyNotFound; badger_ErrDiscardedTxn; badger_ErrDBClosed;
                         badger_ErrConflict] ->
    strings_Contains m (error_msg badger_ErrDBClosed) = false ->
    strings_Contains m (error_msg badger_ErrConflict) = false -> to_kv (ErrOther m) = ErrOther m.
Proof.
  pose proof map_known as (M1 & M2 & M3 & M4 & M5).
  destruct badger_errors as (m1 & m2 & m3 & m4 & m5 & E1 & E2 & E3 & E4 & E5 & Hnd).
  assert (forall x y, errors_Is (ErrJoin1 (ErrOther x)) (ErrOther y) = bool_decide (x = y)) as HJ.
  { intros x y. simpl. rewrite ?orb_false_r. apply bool_decide_ext. split; congruence. }
  rewrite !NoDup_cons in Hnd. decompose [and] Hnd. rewrite !not_elem_of_cons in *.
  unfold to_kv, badgerErrToKVErr. split_and!; rewrite ?M1, ?M2, ?M3, ?M4, ?M5; try done.
  - unfold badgerErrToKVErrMap. rewrite E1, E2, E3, E4, E5, !(bool_decide_false (ErrJoin1 _ = _)), !HJ by done.
    by rewrite bool_decide_true.
  - unfold badgerErrToKVErrMap. rewrite E1, E2, E3, E4, E5, !(bool_decide_false (ErrJoin1 _ = _)), !HJ by done.
    rewrite bool_decide_false by (intros ->; tauto). by rewrite bool_decide_true.
  - unfold badgerErrToKVErrMap. rewrite E1, E2, E3, E4, E5, !(bool_decide_false (ErrJoin1 _ = _)), !HJ by done.
    rewrite bool_decide_false by (intros ->; tauto). rewrite bool_decide_false by (intros ->; tauto).
    by rewrite bool_decide_true.
  - intros m Hm Hc1 Hc2. unfold badgerErrToKVErrMap. rewrite !not_elem_of_cons in Hm.
    destruct Hm as (Hm1 & Hm2 & Hm3 & Hm4 & Hm5 & _).
    rewrite !bool_decide_false by done. simpl. rewrite !bool_decide_false by done. simpl.
    simpl in Hc1, Hc2. by rewrite Hc1, Hc2.
Qed.

(** ** The store's operations *)

Lemma to_kv_EmptyKey : badgerErrToKVErr (Some badger_ErrEmptyKey) = Some ErrEmptyKey.
Proof. pose proof map_known as (M & _). unfold badgerErrToKVErr. by rewrite M. Qed.

Lemma errors_Is_refl e : errors_Is e e = true.
Proof. destruct e; apply orb_true_iff; left; by apply bool_decide_true. Qed.

Lemma HasEmpty : errors_Is badger_ErrEmptyKey badger_ErrKeyNotFound = false.
Proof.
  destruct badger_errors as (m1 & m2 & m3 & m4 & m5 & -> & -> & _ & _ & _ & Hnd).
  apply NoDup_cons in Hnd as [Hnd _]. rewrite not_elem_of_cons in Hnd. simpl. rewrite bool_decide_false; [done|].
  intros [= ->]. tauto.
Qed.

Lemma newTxn_spec ro s :
  bdb_open (db s) -> exists x s', newTxn ro s = Some (x, s') /\ btx_open x (negb ro) /\ btx_view x = bdb_entries (db s) /\
    btx_iters x = 0%nat /\ btx_fresh x (db s') /\ bdb_open (db s') /\ bdb_entries (db s') = bdb_entries (db s).
Proof.
  intros Hd. pose proof (NewTransaction_iters (db s) (negb ro)) as Hn.
  destruct (NewTransaction_spec _ (negb ro) Hd) as (x & d' & E & Hd' & He & Hx & Hv & Hf).
  rewrite E in Hn. exists x, (set_db d' s). split; [|done].
  unfold newTxn, reads, modify, mbind, M_bind, mret, M_ret. by rewrite E.
Qed.

Lemma discard_implicit_spec x s :
  bdb_open (db s) -> btx_iters x = 0%nat ->
  exists s', discard_implicit x s = Some (tt, s') /\ bdb_open (db s') /\ bdb_entries (db s') = bdb_entries (db s).
Proof.
  intros Hd Hn. destruct (btx_Discard_idle x (db s) Hn) as [[x' d'] Hdis].
  exists (set_db d' s). split; [|by eapply btx_Discard_spec].
  unfold discard_implicit, reads, or_panic, deref, modify, mbind, M_bind, bTxn_Discard. by rewrite Hdis.
Qed.

Lemma implicit_read_spec {R} (f : BTx -> R * BTx) s :
  bdb_open (db s) -> (forall x, btx_iters (f x).2 = btx_iters x) ->
  exists x s', btx_open x false /\ btx_view x = bdb_entries (db s) /\
    implicit_read f s = Some ((f x).1, s') /\ bdb_open (db s') /\ bdb_entries (db s') = bdb_entries (db s).
Proof.
  intros Hd Hf. destruct (newTxn_spec true s Hd) as (x & s1 & E1 & Hx & Hv & Hn & _ & Hd1 & He1). exists x.
  destruct (discard_implicit_spec (f x).2 s1 Hd1) as (s2 & E2 & Hd2 & He2); [by rewrite Hf|]. exists s2.
  split_and!; [done..| |done|congruence]. unfold implicit_read. rewrite (bind_some _ _ _ _ _ E1).
  destruct (f x) as [r x']. by rewrite (bind_some _ _ _ _ _ E2).
Qed.

(** An implicit write that succeeds is committed; one that fails changes nothing. *)
Lemma implicit_write_spec (f : BTx -> option error * BTx) s :
  bdb_open (db s) -> (forall x, btx_iters (f x).2 = btx_iters x) ->
  exists x, btx_open x true /\ btx_view x = bdb_entries (db s) /\ kv_sorted (btx_view x) /\
    match (f x).1 with
    | Some e => exists s', implicit_write f s = Some (Some e, s') /\ bdb_entries (db s') = bdb_entries (db s)
    | None => forall k v, tx_updated x (f x).2 k v ->
        exists s', implicit_write f s = Some (None, s') /\ bdb_open (db s') /\
          kv_update k v (bdb_entries (db s)) (bdb_entries (db s'))
    end.
Proof.
  intros Hd Hf. destruct (newTxn_spec false s Hd) as (x & s1 & E1 & Hx & Hv & Hn & Hfr & Hd1 & He1). exists x.
  split_and!; [done..|rewrite Hv; by apply bdb_sorted|]. specialize (Hf x). rewrite Hn in Hf.
  remember (implicit_write f s) as W eqn:EW. unfold implicit_write in EW. rewrite (bind_some _ _ _ _ _ E1) in EW.
  revert EW Hf. destruct (f x) as [[e|] x']; cbn [fst snd]; intros -> Hf.
  - destruct (discard_implicit_spec x' s1 Hd1 Hf) as (s2 & E2 & _ & He2). exists s2.
    rewrite (bind_some _ _ _ _ _ E2). split; [done|congruence].
  - intros k v (Ho & Hup & _ & Hfresh).
    destruct (btx_Commit_spec x' (db s1) Ho (Hfresh _ Hfr) Hd1 Hf) as (x2 & d2 & Hcom & Hd2 & He2).
    destruct (btx_Commit_idle x' (db s1) Hf) as (e' & x2' & d2' & Hcom' & Hn2).
    rewrite Hcom in Hcom'. injection Hcom' as <- <- <-.
    destruct (discard_implicit_spec x2 (set_db d2 s1) Hd2 Hn2) as (s3 & E3 & Hd3 & He3).
    exists s3. split_and!; [|done|rewrite He3; cbn; by rewrite He2, <- Hv].
    unfold reads, or_panic, deref, modify, bTxn_Commit, mbind, M_bind. rewrite Hcom. cbn. by rewrite E3.
Qed.

(** C22: The operations of the badger store outside of transactions, each run in an
    implicit one, return without a panic: [Get] and [Has] read the entries and
    change nothing, an empty key is [ErrEmptyKey] everywhere, and [Set] and
    [Delete] of keys that badger accepts succeed and update exactly their key. *)
Theorem badger_store_operations s k v :
  bdb_open (db s) ->
  let E := bdb_entries (db s) in
  exists g h sg sh, Get Background k s = Some (g, sg) /\ bdb_entries (db sg) = E /\
    Has Background k s = Some (h, sh) /\ bdb_entries (db sh) = E /\
  if bool_decide (bdata k = []) then
    g = Err ErrEmptyKey /\ h = Err ErrEmptyKey /\
    (exists s', Set_ Background k v s = Some (Some ErrEmptyKey, s') /\ bdb_entries (db s') = E) /\
    (exists s', Delete Background k s = Some (Some ErrEmptyKey, s') /\ bdb_entries (db s') = E)
  else
    match kv_lookup (bdata k) E with
    | Some w => exists sv, g = Ok sv /\ bdata sv = w
    | None => g = Err ErrNotFound
    end /\
    h = Ok (bool_decide (is_Some (kv_lookup (bdata k) E))) /\
    (btx_accepts k v -> exists s', Set_ Background k v s = Some (None, s') /\ bdb_open (db s') /\
      kv_update (bdata k) (Some (bdata v)) E (bdb_entries (db s'))) /\
    (btx_accepts k None -> exists s', Delete Background k s = Some (None, s') /\ bdb_open (db s') /\
      kv_update (bdata k) None E (bdb_entries (db s'))).
Proof.
  intros Hd. cbv zeta. unfold Get, Has, Set_, Delete. cbn [TryGetCtxTxnG ctx_Value].
  pose proof map_known as (M1 & M2 & _).
  destruct (implicit_read_spec (bTxn_Get k) s Hd) as (x & sg & Hx & Hv & EG & _ & Hsg); [apply (fun x => bTxn_iters k v x)|].
  destruct (implicit_read_spec (bTxn_Has k) s Hd) as (x' & sh & Hx' & Hv' & EH & _ & Hsh);
    [apply (fun x => bTxn_iters k v x)|].
  exists (bTxn_Get k x).1, (bTxn_Has k x').1, sg, sh. do 4 (split; [done|]).
  destruct (btx_Get_spec x false k Hx) as (r & x1 & HG & _ & _ & Hr).
  destruct (btx_Get_spec x' false k Hx') as (r' & x1' & HG' & _ & _ & Hr').
  unfold bTxn_Get, bTxn_Has. rewrite HG, HG'. cbn [fst].
  destruct (implicit_write_spec (bTxn_Set k v) s Hd) as (y & Hy & Hyv & Hys & HS); [apply (fun x => bTxn_iters k v x)|].
  destruct (implicit_write_spec (bTxn_Delete k) s Hd) as (z & Hz & Hzv & Hzs & HD); [apply (fun x => bTxn_iters k v x)|].
  pose proof (btx_Set_spec y k v Hy Hys) as Hset. pose proof (btx_Delete_spec z k Hz Hzs) as Hdel.
  unfold bTxn_Set at 1 in HS. unfold bTxn_Delete at 1 in HD.
  destruct (decide (bdata k = [])) as [Hk|Hk].
  - rewrite !bool_decide_true in * by done. subst r r'. destruct Hset as [y' Hset]. destruct Hdel as [z' Hdel].
    rewrite Hset in HS. rewrite Hdel in HD. cbn [fst] in HS, HD. rewrite to_kv_EmptyKey in HS, HD.
    split_and!; [|rewrite HasEmpty|exact HS|exact HD]; unfold to_kv; by rewrite to_kv_EmptyKey.
  - rewrite !bool_decide_false in * by done. rewrite Hv in Hr. rewrite Hv' in Hr'. split_and!.
    + destruct (kv_lookup (bdata k) _).
      * destruct Hr as (item & sv & -> & ? & ?). eauto.
      * rewrite Hr. unfold to_kv, badgerErrToKVErr. by rewrite M2.
    + destruct (kv_lookup (bdata k) _).
      * destruct Hr' as (item & sv & -> & ? & ?). done.
      * rewrite Hr'. by rewrite errors_Is_refl.
    + intros Hacc. destruct (Hset Hacc) as (y' & Ey & Hu). rewrite Ey in HS.
      cbn [fst badgerErrToKVErr] in HS. apply HS. unfold bTxn_Set. by rewrite Ey.
    + intros Hacc. destruct (Hdel Hacc) as (z' & Ez & Hu). rewrite Ez in HD.
      cbn [fst badgerErrToKVErr] in HD. apply HD. unfold bTxn_Delete. by rewrite Ez.
Qed.
End badger.

(** ** A database of sorted lists

    An implementation of the interface that satisfies the laws. *)

Module BadgerSample.

Record ltx := mk_ltx {
  lbase : list entry; lview : list entry; lupdate : bool; lcount : nat; ldone : bool }.
Record lit := mk_lit { ll : list entry; lrev : bool; lpos : nat; lclosed : bool }.

Fixpoint index (Q : entry -> bool) (l : list entry) : nat :=
  match l with [] => 0%nat | e :: l' => if Q e then 0%nat else S (index Q l') end.

Definition e_empty : error := ErrOther "Key cannot be empty".
Definition e_notfound : error := ErrOther "Key not found".
Definition e_readonly : error := ErrOther "No sets or deletes are allowed in a read-only transaction".
Definition e_discarded : error := ErrOther "This transaction has been discarded. Create a new one".

Definition set_view (l : list entry) (x : ltx) : ltx := mk_ltx (lbase x) l (lupdate x) (lcount x) (ldone x).
Definition set_count (n : nat) (x : ltx) : ltx := mk_ltx (lbase x) (lview x) (lupdate x) n (ldone x).
Definition finish (x : ltx) : ltx := mk_ltx (lbase x) (lview x) (lupdate x) (lcount x) true.

Definition tx_get (x : ltx) (k : slice) : result entry * ltx :=
  (if bool_decide (bdata k = []) then Err e_empty
   else if ldone x then Err e_discarded
   else match kv_lookup (bdata k) (lview x) with Some v => Ok (bdata k, v) | None => Err e_notfound end, x).

Definition tx_write (x : ltx) (k : slice) (l : list entry) : option error * ltx :=
  if negb (lupdate x) then (Some e_readonly, x)
  else if ldone x then (Some e_discarded, x)
  else if bool_decide (bdata k = []) then (Some e_empty, x)
  else (None, set_view l x).

Definition tx_commit (x : ltx) (d : list entry) : option (option error * (ltx * list entry)) :=
  if (0 <? lcount x)%nat then None
  else if ldone x then Some (Some e_discarded, (x, d))
  else Some (None, (finish x, if lupdate x then lview x else d)).

Definition tx_discard (x : ltx) (d : list entry) : option (ltx * list entry) :=
  if (0 <? lcount x)%nat then None else Some (finish x, d).

(** A new iterator is not positioned. *)
Definition tx_iterator (x : ltx) (pre : slice) (rv : bool) : option (lit * ltx) :=
  if ldone x || (lupdate x && (0 <? lcount x)%nat) then None
  else
    let l := directed rv (filter (fun e => bool_decide (bdata pre `prefix_of` e.1) = true) (lview x)) in
    Some (mk_lit l rv (length l) false, set_count (S (lcount x)) x).

Definition it_seek (it : lit) (k : slice) : option lit :=
  if lclosed it then None else Some (mk_lit (ll it) (lrev it) (index (ahead (lrev it) (bdata k)) (ll it)) false).

Definition it_next (it : lit) : option lit :=
  if lclosed it then None else Some (mk_lit (ll it) (lrev it) (S (lpos it)) false).

Definition it_close (it : lit) (x : ltx) : lit * ltx :=
  (mk_lit (ll it) (lrev it) (lpos it) true, if lclosed it then x else set_count (pred (lcount x)) x).

#[export] Instance list_badger : BadgerDB := {|
  BDB := list entry;
  BTx := ltx;
  BItem := entry;
  BIter := lit;
  badger_ErrEmptyKey := e_empty;
  badger_ErrKeyNotFound := e_notfound;
  badger_ErrDiscardedTxn := e_discarded;
  badger_ErrDBClosed := ErrOther "DB Closed";
  badger_ErrConflict := ErrOther "Transaction Conflict. Please retry";
  bdb_NewTransaction d u := (mk_ltx d d u 0 false, d);
  bdb_Close d := (None, d);
  bdb_DropAll d := (None, []);
  btx_Get := tx_get;
  btx_Set x k v := tx_write x k (kv_put (bdata k) (bdata v) (lview x));
  btx_Delete x k := tx_write x k (kv_del (bdata k) (lview x));
  btx_Commit := tx_commit;
  btx_Discard := tx_discard;
  btx_NewIterator x pre rv pf := tx_iterator x pre rv;
  item_Key e := Some e.1;
  item_ValueCopy e := Ok (Some e.2);
  bit_Seek := it_seek;
  bit_Next := it_next;
  bit_Valid it := (lpos it <? length (ll it))%nat;
  bit_Item it := ll it !! lpos it;
  bit_Close := it_close;
  btx_iters := lcount;
  bit_closed := lclosed |}.

Lemma tx_write_count x k l : lcount (tx_write x k l).2 = lcount x.
Proof. unfold tx_write. by repeat case_match. Qed.

Lemma tx_commit_idle x d :
  lcount x = 0%nat -> exists e x' d', tx_commit x d = Some (e, (x', d')) /\ lcount x' = 0%nat.
Proof. unfold tx_commit. intros Hn. rewrite Hn. cbn. by destruct (ldone x); eexists _, _, _. Qed.

Lemma tx_discard_idle x d : lcount x = 0%nat -> is_Some (tx_discard x d).
Proof. unfold tx_discard. intros ->. by eexists. Qed.

Lemma tx_iterator_count x pre rv it x' :
  tx_iterator x pre rv = Some (it, x') -> lcount x' = S (lcount x) /\ lclosed it = false.
Proof. unfold tx_iterator. case_match; [done|]. by intros [= <- <-]. Qed.

Lemma it_open it k :
  lclosed it = false -> (exists it', it_seek it k = Some it' /\ lclosed it' = false) /\
    exists it', it_next it = Some it' /\ lclosed it' = false.
Proof. unfold it_seek, it_next. intros ->. split; by eexists. Qed.

#[export] Instance list_badger_panics : BadgerPanics list_badger.
Proof.
  split; cbn; try done.
  - intros. apply tx_write_count.
  - intros. apply tx_write_count.
  - apply tx_commit_idle.
  - apply tx_discard_idle.
  - intros x pre rv _. apply tx_iterator_count.
  - by intros it x ->.
  - intros it k H. by apply it_open.
  - intros it H _. by apply (it_open it None).
  - intros it H%Nat.ltb_lt. by apply lookup_lt_is_Some_2.
Qed.

#[export] Instance list_badger_model : BadgerModel list_badger := {
  bdb_open d := kv_sorted d;
  bdb_entries d := d;
  btx_open x u := lupdate x = u /\ kv_sorted (lview x) /\ ldone x = false;
  btx_view x := lview x;
  btx_fresh x d := lbase x = d;
  btx_accepts _ _ := True;
  bit_list it := ll it;
  bit_rev it := lrev it;
  bit_pos it := lpos it }.

(** In order, what is ahead of a key is the end of the list. *)
Lemma index_filter rv k l :
  kv_sorted (directed rv l) -> drop (index (ahead rv k) l) l = filter (fun e => ahead rv k e = true) l.
Proof.
  intros Hs. assert (StronglySorted (fun a b : entry => if rv then b.1 ≺ a.1 else a.1 ≺ b.1) l) as Hord.
  { destruct rv; simpl in Hs; [|done]. rewrite <- (reverse_involutive l). by apply reverse_desc. }
  clear Hs. induction Hord as [|e l Hl IH HF]; [done|]. rewrite filter_cons. cbn [index].
  destruct (ahead rv k e) eqn:E; simpl; [|done]. f_equal.
  assert (Forall (fun x => ahead rv k x = true) l) as Hall.
  { eapply Forall_impl; [exact HF|]. intros x Hx. unfold ahead in *. case_bool_decide; [done|]. simpl in *.
    destruct rv; apply bool_decide_eq_true in E; apply bool_decide_eq_true; border. }
  clear - Hall. induction Hall as [|x l Hx _ IH]; [done|]. rewrite filter_cons, decide_True by done. by f_equal.
Qed.

#[export] Instance list_badger_laws : BadgerLaws list_badger list_badger_model.
Proof.
  split; [exact _|..]; cbn.
  - eexists _, _, _, _, _. split_and!; [done..|]. apply (bool_decide_unpack _). vm_compute. exact I.
  - done.
  - intros d u Hs. eexists _, _. by split_and!.
  - intros x u k (Hu & Hs & Hd). unfold tx_get. eexists _, _. split_and!; [done..|]. rewrite Hd. case_bool_decide; [done|].
    destruct (kv_lookup (bdata k) (lview x)); eauto.
  - intros x k v (Hu & _ & Hd) Hs. unfold tx_write. rewrite Hu, Hd. simpl. case_bool_decide as Hk; [eauto|]. intros _.
    assert (kv_sorted (kv_put (bdata k) (bdata v) (lview x))) by (by apply kv_put_sorted).
    eexists; split; [done|]. split_and!; [done..| |done|done]. intros k'. apply kv_put_lookup.
  - intros x k (Hu & _ & Hd) Hs. unfold tx_write. rewrite Hu, Hd. simpl. case_bool_decide as Hk; [eauto|]. intros _.
    assert (kv_sorted (kv_del (bdata k) (lview x))) by (by apply kv_del_sorted).
    eexists; split; [done|]. split_and!; [done..| |done|done]. intros k'. by apply kv_del_lookup.
  - intros x d (Hu & Hs & Hd) _ _ Hn. unfold tx_commit. rewrite Hn, Hd, Hu. eexists _, _. by split_and!.
  - intros x d x' d'. unfold tx_discard. case_match; [done|]. by intros ? [= <- <-].
  - intros x u pre rv pf (Hu & Hs & Hd) _ Hn. unfold tx_iterator. rewrite Hd, Hu.
    destruct Hn as [->|Hn]; [|rewrite Hn, andb_false_r]; cbn; eexists _, _; by split_and!.
  - intros it x u (Hu & Hs & Hd). unfold it_close. by destruct (lclosed it).
  - intros it k it'. unfold it_seek. case_match; [done|]. by intros [= <-].
  - intros it k it'. unfold it_seek. case_match; [done|]. intros [= <-]. apply index_filter.
  - intros it it' _. unfold it_next. case_match; [done|]. by intros [= <-].
  - done.
  - intros it e item -> [= <-]. simpl. eauto.
Qed.

(** A store with three entries. *)
Definition bg0 : State := NewDatastoreFrom [(bs "k1", bs "v1"); (bs "k2", bs "v2"); (bs "k3", bs "v3")].

Lemma bg0_open : bdb_open (db bg0).
Proof. repeat constructor. Qed.

(** Backwards from before "k3". *)
Definition below_k3 : IterOptions := mkIterOptions None None (Some (bs "k3")) true false.

Lemma badger_iterator_enumerates_witness :
  exists it s', Iterator 1 Background below_k3 bg0 = Some (Ok it, s') /\
    yields s' it [(bs "k2", bs "v2"); (bs "k1", bs "v1")].
Proof.
  destruct (badger_iterator_enumerates bg0 1 below_k3 eq_refl bg0_open eq_refl (or_introl eq_refl))
    as (it & s' & E & _ & H & _). exists it, s'. split; [exact E|exact H].
Defined.

Lemma badger_error_translation_witness : to_kv e_readonly = e_readonly.
Proof.
  apply badger_error_translation.
  - apply (bool_decide_unpack _). vm_compute. exact I.
  - reflexivity.
  - reflexivity.
Defined.

Lemma badger_store_operations_witness :
  exists s', Set_ Background (Some (bs "k4")) (Some (bs "v4")) bg0 = Some (None, s') /\
    kv_update (bs "k4") (Some (bs "v4")) (db bg0) (db s').
Proof.
  destruct (badger_store_operations bg0 (Some (bs "k4")) (Some (bs "v4")) bg0_open) as (g & h & sg & sh & _ & _ & _ & _ & H).
  destruct (proj1 (proj2 (proj2 H)) I) as (s' & Hs & _ & Hu). exists s'. split; [exact Hs|exact Hu].
Defined.

(** The panics of badger: an iterator that was not moved has no key; a committed
    transaction has no iterators; one with an open iterator cannot be discarded. *)
Example unpositioned_key_panics :
  (Iterator 1 Background below_k3 bg0 ≫= fun r => match r.1 with Ok it => Key it | Err _ => None end) = None.
Proof. reflexivity. Qed.

Example iterator_after_commit_panics :
  (NewTxn 1 false bg0 ≫= fun r => txn_Commit 1 r.2 ≫= fun r => Iterator 2 (SetCtxTxn Background (DynbTxn 1)) below_k3 r.2)
    = None.
Proof. reflexivity. Qed.

Example discard_with_iterator_panics :
  (NewTxn 1 false bg0 ≫= fun r => Iterator 2 (SetCtxTxn Background (DynbTxn 1)) below_k3 r.2 ≫= fun r => txn_Discard 1 r.2)
    = None.
Proof. reflexivity. Qed.
End BadgerSample.
