(* ===== verification/Ffi.v ===== *)
(** The package badger_ffi/ffi (api.go): badger behind the objects [DB], [Txn]
    and [Iterator], with its errors as status codes.

    The objects are shared through pointers: a transaction points to its database,
    an iterator to its transaction.  They live in a [heap] of three lists, a
    pointer is an index; the methods are computations over it. *)
From stdpp Require Import gmap.
From S2P Require Import Prelude BTree Kv Badger GoMonad.
From Stdlib Require Import Strings.Byte.
From Stdlib Require Strings.String.
Import Strings.String.StringSyntax.
Local Open Scope string_scope.

(** What this package names of badger in addition to the badger backend: the
    default options and errors. *)
Class BadgerLib := {
  BLogger : Type;
  BOthers : Type;
  badger_DefaultOptions : String.string -> badger_Options BLogger BOthers;
  badger_ErrReadOnlyTxn : error;
  badger_ErrInvalidEncryptionKey : error;
  badger_ErrValueLogSize : error }.

Module Ffi.
Section code.
Context {BD : BadgerDB} {BE : BadgerLib}.

(** ** Bytes *)

(** Go's [copy]. *)
Definition copy (dst src : bytes) : bytes :=
  take (Nat.min (length dst) (length src)) src ++ drop (length src) dst.

Definition cloneBytes (src : slice) : slice :=
  match src with
  | None => None
  | Some l => let dst := replicate (length l) x00 in Some (copy dst l)
  end.

Definition bytesPrefixEnd (prefix : slice) : slice :=
  let end_ := cloneBytes prefix in
  match bytesPrefixEnd_loop (blen end_) (bdata end_) with
  | Some e => Some e
  | None => cloneBytes prefix
  end.

Definition normalizeValue (value : slice) : slice := if (blen value =? 0)%nat then None else value.

(** ** Status codes *)

Inductive Status :=
| StatusOK
| StatusInvalidArgument
| StatusInvalidHandle
| StatusNotFound
| StatusEmptyKey
| StatusDiscardedTxn
| StatusDBClosed
| StatusTxnConflict
| StatusReadOnlyTxn
| StatusInvalidEncryptionKey
| StatusInvalidValueLogSize
| StatusUnknown.

(** The numbers that [iota] gives. *)
Definition status_int (s : Status) : Z :=
  match s with
  | StatusOK => 0
  | StatusInvalidArgument => 1
  | StatusInvalidHandle => 2
  | StatusNotFound => 3
  | StatusEmptyKey => 4
  | StatusDiscardedTxn => 5
  | StatusDBClosed => 6
  | StatusTxnConflict => 7
  | StatusReadOnlyTxn => 8
  | StatusInvalidEncryptionKey => 9
  | StatusInvalidValueLogSize => 10
  | StatusUnknown => 11
  end.

Definition StatusFromError (err : option error) : Status :=
  match err with
  | None => StatusOK
  | Some e =>
      if errors_Is e badger_ErrKeyNotFound then StatusNotFound
      else if errors_Is e badger_ErrEmptyKey then StatusEmptyKey
      else if errors_Is e badger_ErrDiscardedTxn then StatusDiscardedTxn
      else if errors_Is e badger_ErrDBClosed then StatusDBClosed
      else if errors_Is e badger_ErrConflict then StatusTxnConflict
      else if errors_Is e badger_ErrReadOnlyTxn then StatusReadOnlyTxn
      else if errors_Is e badger_ErrInvalidEncryptionKey then StatusInvalidEncryptionKey
      else if errors_Is e badger_ErrValueLogSize then StatusInvalidValueLogSize
      else if Badger.strings_Contains (Badger.error_msg e) (Badger.error_msg badger_ErrDBClosed) then StatusDBClosed
      else if Badger.strings_Contains (Badger.error_msg e) (Badger.error_msg badger_ErrConflict) then StatusTxnConflict
      else StatusUnknown
  end.

(** ** Objects *)

Record OpenOptions := mk_OpenOptions {
  Dir : String.string;
  ValueDir : String.string;
  InMemory : bool;
  EncryptionKey : slice;
  IndexCacheSize : Z;
  ValueLogFileSize : Z }.

Record DB := mk_DB { db : BDB; closed : bool }.

Record Txn := mk_Txn { t : BTx; txn_db : nat }.

Record IteratorOptions := mk_IteratorOptions {
  Prefix : slice;
  Start : slice;
  End_ : slice;
  i_Reverse : bool;
  i_KeysOnly : bool }.

Record Iterator := mk_Iterator {
  it_txn : nat;
  i : BIter;
  start : slice;
  end_ : slice;
  i_reverse : bool;
  keysOnly : bool;
  reset : bool }.

Record heap := mk_heap { dbs : list DB; txns : list Txn; iters : list Iterator }.

Definition put_db (p : nat) (d : DB) (h : heap) : heap := mk_heap (<[p := d]> (dbs h)) (txns h) (iters h).
Definition put_txn (p : nat) (x : Txn) (h : heap) : heap := mk_heap (dbs h) (<[p := x]> (txns h)) (iters h).
Definition put_iter (p : nat) (x : Iterator) (h : heap) : heap := mk_heap (dbs h) (txns h) (<[p := x]> (iters h)).

(** Allocation returns the pointer. *)
Definition new_db (d : DB) : M heap nat := fun h =>
  Some (length (dbs h), mk_heap (dbs h ++ [d]) (txns h) (iters h)).
Definition new_txn (x : Txn) : M heap nat := fun h =>
  Some (length (txns h), mk_heap (dbs h) (txns h ++ [x]) (iters h)).
Definition new_iter (x : Iterator) : M heap nat := fun h =>
  Some (length (iters h), mk_heap (dbs h) (txns h) (iters h ++ [x])).

Definition the_db (p : nat) : M heap DB := deref (fun h => dbs h !! p).
Definition the_txn (p : nat) : M heap Txn := deref (fun h => txns h !! p).
Definition the_iter (p : nat) : M heap Iterator := deref (fun h => iters h !! p).

(** ** The database *)

Definition NewFrom (d : BDB) : M heap nat := new_db (mk_DB d false).

(** [badger_Open] is what [badger.Open] does at the time of the call: it depends
    on the disk. *)
Definition Open (badger_Open : badger_Options BLogger BOthers -> result BDB) (opts : OpenOptions) :
    M heap (result nat) :=
  if negb (blen (EncryptionKey opts) =? 0)%nat && negb (blen (EncryptionKey opts) =? 32)%nat then
    mret (Err badger_ErrInvalidEncryptionKey)
  else
    let '(dir, valueDir) := if InMemory opts then ("", "") else (Dir opts, ValueDir opts) in
    let d := badger_DefaultOptions dir in
    let badgerOpts := mk_badger_Options (o_Dir d) valueDir None (InMemory opts) (cloneBytes (EncryptionKey opts))
      (if 0 <? IndexCacheSize opts then IndexCacheSize opts else o_IndexCacheSize d)
      (if 0 <? ValueLogFileSize opts then ValueLogFileSize opts else o_ValueLogFileSize d) (o_others d) in
    match badger_Open badgerOpts with
    | Err e => mret (Err e)
    | Ok d => p ← new_db (mk_DB d false); mret (Ok p)
    end.

Definition Close (p : nat) : M heap (option error) :=
  d ← the_db p;
  let '(e, b) := bdb_Close (db d) in
  _ ← modify (put_db p (mk_DB b true));
  mret e.

Definition DropAll (p : nat) : M heap (option error) :=
  d ← the_db p;
  let '(e, b) := bdb_DropAll (db d) in
  _ ← modify (put_db p (mk_DB b (closed d)));
  mret e.

Definition NewTxn (p : nat) (readOnly : bool) : M heap nat :=
  d ← the_db p;
  let '(x, b) := bdb_NewTransaction (db d) (negb readOnly) in
  _ ← modify (put_db p (mk_DB b (closed d)));
  new_txn (mk_Txn x p).

(** ** Transactions *)

(** A method of the transaction of badger. *)
Definition on_t {R} (p : nat) (f : BTx -> R * BTx) : M heap R :=
  x ← the_txn p;
  let '(r, b) := f (t x) in
  _ ← modify (put_txn p (mk_Txn b (txn_db x)));
  mret r.

Definition txn_Get (p : nat) (key : slice) : M heap (result slice) :=
  r ← on_t p (fun b => btx_Get b key);
  mret match r with
       | Err e => Err e
       | Ok item =>
           match item_ValueCopy item with
           | Err e => Err e
           | Ok value => Ok (normalizeValue value)
           end
       end.

Definition txn_Has (p : nat) (key : slice) : M heap (result bool) :=
  r ← on_t p (fun b => btx_Get b key);
  mret match r with
       | Err e => if errors_Is e badger_ErrKeyNotFound then Ok false else Err e
       | Ok _ => Ok true
       end.

Definition txn_Set (p : nat) (key value : slice) : M heap (option error) := on_t p (fun b => btx_Set b key value).

Definition txn_Delete (p : nat) (key : slice) : M heap (option error) := on_t p (fun b => btx_Delete b key).

(** Committing and discarding reach the database as well. *)
Definition txn_Commit (p : nat) : M heap (option error) :=
  x ← the_txn p;
  d ← the_db (txn_db x);
  '(e, (b, b')) ← or_panic (btx_Commit (t x) (db d));
  _ ← modify (put_txn p (mk_Txn b (txn_db x)));
  _ ← modify (put_db (txn_db x) (mk_DB b' (closed d)));
  mret e.

Definition txn_Discard (p : nat) : M heap () :=
  x ← the_txn p;
  d ← the_db (txn_db x);
  '(b, b') ← or_panic (btx_Discard (t x) (db d));
  _ ← modify (put_txn p (mk_Txn b (txn_db x)));
  modify (put_db (txn_db x) (mk_DB b' (closed d))).

(** ** Iterators *)

(** A new iterator of the transaction [x] at [p], and the transaction that counts it. *)
Definition newPrefixIterator (p : nat) (x : BTx) (prefix : slice) (reverse keysOnly : bool) : option (Iterator * BTx) :=
  '(i, x) ← btx_NewIterator x (cloneBytes prefix) reverse (negb keysOnly);
  Some (mk_Iterator p i (cloneBytes prefix) (bytesPrefixEnd prefix) reverse keysOnly true, x).

Definition newRangeIterator (p : nat) (x : BTx) (start end_ : slice) (reverse keysOnly : bool) :
    option (Iterator * BTx) :=
  '(i, x) ← btx_NewIterator x None reverse (negb keysOnly);
  Some (mk_Iterator p i (cloneBytes start) (cloneBytes end_) reverse keysOnly true, x).

Definition txn_Iterator (p : nat) (opts : IteratorOptions) : M heap (result nat) :=
  x ← the_txn p;
  d ← the_db (txn_db x);
  if closed d then mret (Err badger_ErrDBClosed)
  else
    '(it, b) ← or_panic
      (if negb (is_nil (Prefix opts)) then newPrefixIterator p (t x) (Prefix opts) (i_Reverse opts) (i_KeysOnly opts)
       else newRangeIterator p (t x) (Start opts) (End_ opts) (i_Reverse opts) (i_KeysOnly opts));
    _ ← modify (put_txn p (mk_Txn b (txn_db x)));
    q ← new_iter it;
    mret (Ok q).

Definition set_i (x : BIter) (it : Iterator) : Iterator :=
  mk_Iterator (it_txn it) x (start it) (end_ it) (i_reverse it) (keysOnly it) (reset it).
Definition set_reset (b : bool) (it : Iterator) : Iterator :=
  mk_Iterator (it_txn it) (i it) (start it) (end_ it) (i_reverse it) (keysOnly it) b.

Definition valid (it : Iterator) : option bool :=
  if negb (bit_Valid (i it)) then Some false
  else
    item ← bit_Item (i it);
    let key := item_Key item in
    Some (if (0 <? blen (start it))%nat && lt key (start it) then false
          else if (0 <? blen (end_ it))%nat && gte key (end_ it) then false
          else true).

(** [next] without a reset pending: [seek] only calls it after clearing the flag. *)
Definition advance (it : Iterator) : option (bool * Iterator) :=
  if negb (bit_Valid (i it)) then Some (false, it)
  else
    x ← bit_Next (i it);
    let it := set_i x it in
    b ← valid it;
    Some (b, it).

Definition seek (it : Iterator) (key : slice) : option (bool * Iterator) :=
  let it := set_reset false it in
  let target :=
    if i_reverse it then (if negb (is_nil (end_ it)) && lt (end_ it) key then end_ it else key)
    else (if negb (is_nil (start it)) && lt key (start it) then start it else key) in
  x ← bit_Seek (i it) target;
  let it := set_i x it in
  b ← valid it;
  if negb b then advance it else Some (true, it).

Definition restart (it : Iterator) : option (bool * Iterator) :=
  let it := set_reset false it in
  if i_reverse it then seek it (end_ it) else seek it (start it).

Definition next (it : Iterator) : option (bool * Iterator) := if reset it then restart it else advance it.

(** The methods that fail on a closed database. *)
Definition unless_closed (q : nat) (f : Iterator -> option (bool * Iterator)) : M heap (result bool) :=
  it ← the_iter q;
  x ← the_txn (it_txn it);
  d ← the_db (txn_db x);
  if closed d then mret (Err badger_ErrDBClosed)
  else
    '(b, it) ← or_panic (f it);
    _ ← modify (put_iter q it);
    mret (Ok b).

Definition Next (q : nat) : M heap (result bool) := unless_closed q next.

Definition Seek (q : nat) (key : slice) : M heap (result bool) := unless_closed q (fun it => seek it key).

Definition Reset (q : nat) : M heap () :=
  it ← the_iter q;
  modify (put_iter q (set_reset true it)).

(** [KeyCopy]. *)
Definition Key (q : nat) : M heap slice :=
  it ← the_iter q;
  item ← or_panic (bit_Item (i it));
  mret (item_Key item).

Definition Value (q : nat) : M heap (result slice) :=
  it ← the_iter q;
  if keysOnly it then mret (Ok None)
  else
    item ← or_panic (bit_Item (i it));
    mret match item_ValueCopy item with
         | Err e => Err e
         | Ok value => Ok (normalizeValue value)
         end.

(** Closing reaches the transaction as well, which counts its iterators. *)
Definition Close_it (q : nat) : M heap (option error) :=
  it ← the_iter q;
  x ← the_txn (it_txn it);
  let '(b, y) := bit_Close (i it) (t x) in
  _ ← modify (put_iter q (set_i b it));
  _ ← modify (put_txn (it_txn it) (mk_Txn y (txn_db x)));
  mret None.
End code.
End Ffi.
