(* ===== verification/FfiLib.v ===== *)
(** The shared library badger_ffi/ffi/cshared (main.go): the objects of
    badger_ffi/ffi behind integer handles, with the calling conventions of C.

    An input pointer is [None] (nil) or the memory it points to.  Buffers that the
    library returns are allocated in the C heap [cmem], their address is the
    pointer.  An output parameter is a flag (is the pointer given), what is stored
    through it is part of what the function returns. *)
From stdpp Require Import gmap.
From S2P Require Import Prelude BTree Kv Badger GoMonad Ffi.
From Stdlib Require Import Strings.Byte.
From Stdlib Require Strings.String.
Import Strings.String.StringSyntax.
Import Ffi.
Local Open Scope string_scope.

(** ** C numbers and memory *)

(** The conversion of a [size_t] to [C.int]. *)
Definition C_int (n : Z) : Z := (n + 2 ^ 31) mod 2 ^ 32 - 2 ^ 31.

(** [C.GoBytes]: a negative length is a panic. *)
Definition GoBytes (m : bytes) (n : Z) : option bytes := if n <? 0 then None else Some (take (Z.to_nat n) m).

(** Up to the terminating zero. *)
Fixpoint GoString (m : bytes) : String.string :=
  match m with
  | [] => ""
  | b :: m' => if bool_decide (b = x00) then "" else String.String (Ascii.ascii_of_byte b) (GoString m')
  end.

Abbreviation cptr := (option bytes).

Module FfiLib.

(** ** Handle tables *)

Section handles.
Context {T : Type}.

Record handleTable := mk_handleTable { next : Z; items : gmap Z T }.

Definition newHandleTable : handleTable := mk_handleTable 1 ∅.

Definition add (value : T) (tb : handleTable) : Z * handleTable :=
  let handle := next tb in (handle, mk_handleTable (uadd (next tb) 1) (<[handle := value]> (items tb))).

Definition get (handle : Z) (tb : handleTable) : option T := items tb !! handle.

Definition delete_h (handle : Z) (tb : handleTable) : handleTable :=
  mk_handleTable (next tb) (delete handle (items tb)).
End handles.
Arguments handleTable : clear implicits.


(** What a function returns: the status, what it stores through its output
    parameters ([None]: nothing) and through [errOut]. *)
Record Ret (A : Type) := mk_Ret { status : Z; out : option A; err_out : option nat }.
Arguments mk_Ret {A}.
Arguments status {A}.
Arguments out {A}.
Arguments err_out {A}.

Section code.
Context {BD : BadgerDB} {BE : BadgerLib}.

(** ** State: the objects, the tables of handles and the C heap *)

Record Lib := mk_Lib {
  objs : heap;
  dbHandles : handleTable nat;
  txnHandles : handleTable nat;
  iterHandles : handleTable nat;
  cmem : gmap nat bytes;
  brk : nat }.

Definition lib_init : Lib := mk_Lib (mk_heap [] [] []) newHandleTable newHandleTable newHandleTable ∅ 0.

Definition set_objs (h : heap) (s : Lib) : Lib :=
  mk_Lib h (dbHandles s) (txnHandles s) (iterHandles s) (cmem s) (brk s).
Definition set_dbs (tb : handleTable nat) (s : Lib) : Lib :=
  mk_Lib (objs s) tb (txnHandles s) (iterHandles s) (cmem s) (brk s).
Definition set_txns (tb : handleTable nat) (s : Lib) : Lib :=
  mk_Lib (objs s) (dbHandles s) tb (iterHandles s) (cmem s) (brk s).
Definition set_iters (tb : handleTable nat) (s : Lib) : Lib :=
  mk_Lib (objs s) (dbHandles s) (txnHandles s) tb (cmem s) (brk s).
Definition set_cmem (m : gmap nat bytes) (b : nat) (s : Lib) : Lib :=
  mk_Lib (objs s) (dbHandles s) (txnHandles s) (iterHandles s) m b.

Definition on_heap {A} : M heap A -> M Lib A := zoom objs set_objs.

Definition dbs_add (p : nat) : M Lib Z := fun s =>
  let '(h, tb) := add p (dbHandles s) in Some (h, set_dbs tb s).
Definition txns_add (p : nat) : M Lib Z := fun s =>
  let '(h, tb) := add p (txnHandles s) in Some (h, set_txns tb s).
Definition iters_add (p : nat) : M Lib Z := fun s =>
  let '(h, tb) := add p (iterHandles s) in Some (h, set_iters tb s).

(** [C.CBytes] and [C.CString] allocate, [C.free] wants an allocated buffer. *)
Definition malloc (m : bytes) : M Lib nat := fun s => Some (brk s, set_cmem (<[brk s := m]> (cmem s)) (S (brk s)) s).

Definition CString (msg : String.string) : M Lib nat := malloc (String.list_byte_of_string msg ++ [x00]).

Definition badger_ffi_free (ptr : option nat) : M Lib () :=
  match ptr with
  | None => mret tt
  | Some a => _ ← deref (fun s => cmem s !! a); modify (fun s => set_cmem (delete a (cmem s)) (brk s) s)
  end.

(** ** Arguments and results *)

Definition cString (value : cptr) : String.string := match value with None => "" | Some m => GoString m end.

Definition cBytes (ptr : cptr) (n : Z) : M Lib slice :=
  match ptr with
  | None => mret None
  | Some m => if n =? 0 then mret None else b ← deref (fun _ => GoBytes m (C_int n)); mret (Some b)
  end.

(** What is stored through [out] and [outLen]. *)
Definition setOutBytes (data : slice) : M Lib (option nat * Z) :=
  if (blen data =? 0)%nat then mret (None, 0)
  else ptr ← malloc (bdata data); mret (Some ptr, Z.of_nat (blen data)).

Definition setError (errOut : bool) (err : option error) : M Lib (option nat) :=
  if negb errOut then mret None
  else match err with
       | None => mret None
       | Some e => p ← CString (Badger.error_msg e); mret (Some p)
       end.

Definition failStatus {A} (st : Status) (err : error) (errOut : bool) : M Lib (Ret A) :=
  p ← setError errOut (Some err); mret (mk_Ret (status_int st) None p).

Definition fail {A} (err : error) (errOut : bool) : M Lib (Ret A) := failStatus (StatusFromError (Some err)) err errOut.

(** [clearError] and the return of [StatusOK]. *)
Definition succeed {A} (a : A) : M Lib (Ret A) := mret (mk_Ret (status_int StatusOK) (Some a) None).

Definition errInvalidHandle : error := ErrOther "invalid handle".

Definition c_bool (b : bool) : Z := if b then 1 else 0.

(** The object of a handle; [InvalidHandle] if there is none. *)
Definition with_handle {A} (tab : Lib -> handleTable nat) (handle : Z) (errOut : bool) (f : nat -> M Lib (Ret A)) :
    M Lib (Ret A) :=
  r ← reads (fun s => get handle (tab s));
  match r with
  | None => failStatus StatusInvalidHandle errInvalidHandle errOut
  | Some p => f p
  end.

(** Failing or succeeding with what a method returned. *)
Definition finish_err (errOut : bool) (r : option error) : M Lib (Ret ()) :=
  match r with Some e => fail e errOut | None => succeed tt end.

(** Returning a condition through [outHas]. *)
Definition finish_bool (errOut : bool) (r : result bool) : M Lib (Ret Z) :=
  match r with Err e => fail e errOut | Ok has => succeed (c_bool has) end.

(** Returning bytes through two output parameters. *)
Definition finish_bytes (errOut : bool) (r : result slice) : M Lib (Ret (option nat * Z)) :=
  match r with
  | Err e => fail e errOut
  | Ok value => o ← setOutBytes value; succeed o
  end.

(** ** Databases *)

Definition badger_ffi_db_open (badger_Open : badger_Options BLogger BOthers -> result BDB)
    (dir valueDir : cptr) (inMemory : Z) (encryptionKey : cptr) (encryptionKeyLen indexCacheSize valueLogFileSize : Z)
    (outHandle errOut : bool) : M Lib (Ret Z) :=
  if negb outHandle then failStatus StatusInvalidArgument (ErrOther "outHandle is nil") errOut
  else
    key ← cBytes encryptionKey encryptionKeyLen;
    r ← on_heap (Open badger_Open (mk_OpenOptions (cString dir) (cString valueDir) (negb (inMemory =? 0)) key
      indexCacheSize valueLogFileSize));
    match r with
    | Err e => fail e errOut
    | Ok p => h ← dbs_add p; succeed h
    end.

Definition badger_ffi_db_close (handle : Z) (errOut : bool) : M Lib (Ret ()) :=
  with_handle dbHandles handle errOut (fun p =>
    err ← on_heap (Close p);
    _ ← match err with
        | None => modify (fun s => set_dbs (delete_h handle (dbHandles s)) s)
        | Some _ => mret tt
        end;
    finish_err errOut err).

Definition badger_ffi_db_drop_all (handle : Z) (errOut : bool) : M Lib (Ret ()) :=
  with_handle dbHandles handle errOut (fun p =>
    err ← on_heap (DropAll p);
    finish_err errOut err).

Definition badger_ffi_db_new_txn (handle readOnly : Z) (outHandle errOut : bool) : M Lib (Ret Z) :=
  if negb outHandle then failStatus StatusInvalidArgument (ErrOther "outHandle is nil") errOut
  else with_handle dbHandles handle errOut (fun p =>
    x ← on_heap (NewTxn p (negb (readOnly =? 0)));
    h ← txns_add x;
    succeed h).

(** ** Transactions *)

Definition badger_ffi_txn_get (handle : Z) (key : cptr) (keyLen : Z) (outValue outValueLen errOut : bool) :
    M Lib (Ret (option nat * Z)) :=
  with_handle txnHandles handle errOut (fun p =>
    if negb outValue || negb outValueLen then
      failStatus StatusInvalidArgument (ErrOther "outValue or outValueLen is nil") errOut
    else
      k ← cBytes key keyLen;
      r ← on_heap (txn_Get p k);
      finish_bytes errOut r).

Definition badger_ffi_txn_has (handle : Z) (key : cptr) (keyLen : Z) (outHas errOut : bool) : M Lib (Ret Z) :=
  with_handle txnHandles handle errOut (fun p =>
    if negb outHas then failStatus StatusInvalidArgument (ErrOther "outHas is nil") errOut
    else
      k ← cBytes key keyLen;
      r ← on_heap (txn_Has p k);
      finish_bool errOut r).

Definition badger_ffi_txn_set (handle : Z) (key : cptr) (keyLen : Z) (value : cptr) (valueLen : Z) (errOut : bool) :
    M Lib (Ret ()) :=
  with_handle txnHandles handle errOut (fun p =>
    k ← cBytes key keyLen;
    v ← cBytes value valueLen;
    err ← on_heap (txn_Set p k v);
    finish_err errOut err).

Definition badger_ffi_txn_delete (handle : Z) (key : cptr) (keyLen : Z) (errOut : bool) : M Lib (Ret ()) :=
  with_handle txnHandles handle errOut (fun p =>
    k ← cBytes key keyLen;
    err ← on_heap (txn_Delete p k);
    finish_err errOut err).

Definition badger_ffi_txn_commit (handle : Z) (errOut : bool) : M Lib (Ret ()) :=
  with_handle txnHandles handle errOut (fun p =>
    err ← on_heap (txn_Commit p);
    finish_err errOut err).

Definition badger_ffi_txn_discard (handle : Z) : M Lib () :=
  r ← reads (fun s => get handle (txnHandles s));
  match r with
  | None => mret tt
  | Some p =>
      _ ← on_heap (txn_Discard p);
      modify (fun s => set_txns (delete_h handle (txnHandles s)) s)
  end.

Definition badger_ffi_txn_iterator (handle : Z) (prefix : cptr) (prefixLen : Z) (start : cptr) (startLen : Z)
    (end_ : cptr) (endLen : Z) (reverse keysOnly : Z) (outHandle errOut : bool) : M Lib (Ret Z) :=
  if negb outHandle then failStatus StatusInvalidArgument (ErrOther "outHandle is nil") errOut
  else with_handle txnHandles handle errOut (fun p =>
    prefix ← cBytes prefix prefixLen;
    start ← cBytes start startLen;
    end_ ← cBytes end_ endLen;
    r ← on_heap (txn_Iterator p
      (mk_IteratorOptions prefix start end_ (negb (reverse =? 0)) (negb (keysOnly =? 0))));
    match r with
    | Err e => fail e errOut
    | Ok q => h ← iters_add q; succeed h
    end).

(** ** Iterators *)

Definition badger_ffi_iter_next (handle : Z) (outHas errOut : bool) : M Lib (Ret Z) :=
  with_handle iterHandles handle errOut (fun q =>
    if negb outHas then failStatus StatusInvalidArgument (ErrOther "outHas is nil") errOut
    else
      r ← on_heap (Next q);
      finish_bool errOut r).

Definition badger_ffi_iter_key (handle : Z) (outKey outKeyLen errOut : bool) : M Lib (Ret (option nat * Z)) :=
  with_handle iterHandles handle errOut (fun q =>
    if negb outKey || negb outKeyLen then
      failStatus StatusInvalidArgument (ErrOther "outKey or outKeyLen is nil") errOut
    else
      k ← on_heap (Key q);
      finish_bytes errOut (Ok k)).

Definition badger_ffi_iter_value (handle : Z) (outValue outValueLen errOut : bool) : M Lib (Ret (option nat * Z)) :=
  with_handle iterHandles handle errOut (fun q =>
    if negb outValue || negb outValueLen then
      failStatus StatusInvalidArgument (ErrOther "outValue or outValueLen is nil") errOut
    else
      r ← on_heap (Value q);
      finish_bytes errOut r).

Definition badger_ffi_iter_seek (handle : Z) (key : cptr) (keyLen : Z) (outHas errOut : bool) : M Lib (Ret Z) :=
  with_handle iterHandles handle errOut (fun q =>
    if negb outHas then failStatus StatusInvalidArgument (ErrOther "outHas is nil") errOut
    else
      k ← cBytes key keyLen;
      r ← on_heap (Seek q k);
      finish_bool errOut r).

Definition badger_ffi_iter_reset (handle : Z) (errOut : bool) : M Lib (Ret ()) :=
  with_handle iterHandles handle errOut (fun q =>
    _ ← on_heap (Reset q);
    succeed tt).

Definition badger_ffi_iter_close (handle : Z) (errOut : bool) : M Lib (Ret ()) :=
  with_handle iterHandles handle errOut (fun q =>
    err ← on_heap (Close_it q);
    _ ← match err with
        | None => modify (fun s => set_iters (delete_h handle (iterHandles s)) s)
        | Some _ => mret tt
        end;
    finish_err errOut err).
End code.
End FfiLib.
