(* ===== verification/FfiBridge.v ===== *)
(** The package badger_ffi: a store over the shared library.  The bridge
    ([ffi_bridge.go]) calls the exported functions, badger.go and iter.go are the
    datastore, its transactions and its iterators. *)
From stdpp Require Import gmap.
From S2P Require Import Prelude BTree Kv Badger GoMonad Ffi FfiLib.
From Stdlib Require Import Strings.Byte.
From Stdlib Require Strings.String.
Import Strings.String.StringSyntax.
Import FfiLib.
Local Open Scope string_scope.

Module FfiBridge.
Section code.
Context {BD : BadgerDB} {BE : BadgerLib}.

(** ** Arguments and results of the exported functions *)

Definition ffiBytesArg (data : slice) : cptr * Z :=
  if (blen data =? 0)%nat then (None, 0) else (data, Z.of_nat (blen data)).

Definition ffiBool (value : bool) : Z := if value then 1 else 0.

Definition ffiBytesResult (ptr : option nat) (n : Z) : M Lib slice :=
  match ptr with
  | None => mret None
  | Some a =>
      if n =? 0 then mret None
      else
        b ← deref (fun s => m ← cmem s !! a; GoBytes m (C_int n));
        _ ← badger_ffi_free (Some a);
        mret (Some b)
  end.

Definition ffiCString (ptr : option nat) : M Lib String.string :=
  match ptr with
  | None => mret ""
  | Some a =>
      m ← deref (fun s => cmem s !! a);
      _ ← badger_ffi_free (Some a);
      mret (GoString m)
  end.

Inductive ffiStatus :=
| ffiStatusOK
| ffiStatusInvalidArgument
| ffiStatusInvalidHandle
| ffiStatusNotFound
| ffiStatusEmptyKey
| ffiStatusDiscardedTxn
| ffiStatusDBClosed
| ffiStatusTxnConflict
| ffiStatusReadOnlyTxn
| ffiStatusInvalidEncryptionKey
| ffiStatusInvalidValueLogSize
| ffiStatusUnknown
| ffiStatusOther (n : Z).

(** The constants that [iota] numbers. *)
Definition ffiStatus_of (n : Z) : ffiStatus :=
  match n with
  | 0 => ffiStatusOK
  | 1 => ffiStatusInvalidArgument
  | 2 => ffiStatusInvalidHandle
  | 3 => ffiStatusNotFound
  | 4 => ffiStatusEmptyKey
  | 5 => ffiStatusDiscardedTxn
  | 6 => ffiStatusDBClosed
  | 7 => ffiStatusTxnConflict
  | 8 => ffiStatusReadOnlyTxn
  | 9 => ffiStatusInvalidEncryptionKey
  | 10 => ffiStatusInvalidValueLogSize
  | 11 => ffiStatusUnknown
  | n => ffiStatusOther n
  end%Z.

Definition ffiStatusErr (status : ffiStatus) (errPtr : option nat) : M Lib (option error) :=
  message ← ffiCString errPtr;
  mret match status with
       | ffiStatusOK => None
       | ffiStatusNotFound => Some ErrNotFound
       | ffiStatusEmptyKey => Some ErrEmptyKey
       | ffiStatusDiscardedTxn => Some ErrDiscardedTxn
       | ffiStatusDBClosed => Some ErrDBClosed
       | ffiStatusTxnConflict => Some ErrTxnConflict
       | ffiStatusReadOnlyTxn => Some ErrReadOnlyTxn
       | ffiStatusInvalidEncryptionKey | ffiStatusInvalidValueLogSize | ffiStatusInvalidArgument
       | ffiStatusInvalidHandle | ffiStatusUnknown =>
           if bool_decide (message = "") then Some (ErrOther "badger ffi error") else Some (ErrOther message)
       | ffiStatusOther _ =>
           if bool_decide (message = "") then Some (ErrOther "unknown badger ffi status") else Some (ErrOther message)
       end.

(** Every bridge function ends by turning the status into an error. *)
Definition ret_err {A} (r : Ret A) : M Lib (option error) := ffiStatusErr (ffiStatus_of (status r)) (err_out r).

(** [ret_val d k]: fails with the error; else [k] of the output, which was [d] before. *)
Definition ret_val {A B} (d : A) (k : A -> M Lib B) (r : Ret A) : M Lib (result B) :=
  err ← ret_err r;
  match err with
  | Some e => mret (Err e)
  | None => b ← k (default d (out r)); mret (Ok b)
  end.

(** ** The bridge *)

Record ffiOpenOptions := mk_ffiOpenOptions {
  InMemory : bool;
  EncryptionKey : slice;
  IndexCacheSize : Z;
  ValueLogFileSize : Z }.

Definition compatOptions (opts : badger_Options BLogger BOthers) : ffiOpenOptions :=
  mk_ffiOpenOptions (o_InMemory opts) (o_EncryptionKey opts) (o_IndexCacheSize opts) (o_ValueLogFileSize opts).

Definition ffiOpen (badger_Open : badger_Options BLogger BOthers -> result BDB) (path : String.string)
    (opts : ffiOpenOptions) : M Lib (result Z) :=
  cPath ← CString path;
  m ← deref (fun s => cmem s !! cPath);
  let '(keyPtr, keyLen) := ffiBytesArg (EncryptionKey opts) in
  r ← badger_ffi_db_open badger_Open (Some m) (Some m) (ffiBool (InMemory opts)) keyPtr keyLen (IndexCacheSize opts)
        (ValueLogFileSize opts) true true;
  h ← ret_val 0 mret r;
  _ ← badger_ffi_free (Some cPath);
  mret h.

Definition ffiDBClose (handle : Z) : M Lib (option error) := r ← badger_ffi_db_close handle true; ret_err r.

Definition ffiDBDropAll (handle : Z) : M Lib (option error) := r ← badger_ffi_db_drop_all handle true; ret_err r.

Definition ffiDBNewTxn (handle : Z) (readOnly : bool) : M Lib (result Z) :=
  r ← badger_ffi_db_new_txn handle (ffiBool readOnly) true true; ret_val 0 mret r.

(** The buffer stored through two output parameters, which were nil and 0 before. *)
Definition take_bytes : option nat * Z -> M Lib slice := fun o => ffiBytesResult o.1 o.2.

Definition take_bool : Z -> M Lib bool := fun has => mret (negb (has =? 0)).

Definition ffiTxnGet (handle : Z) (key : slice) : M Lib (result slice) :=
  let '(keyPtr, keyLen) := ffiBytesArg key in
  r ← badger_ffi_txn_get handle keyPtr keyLen true true true; ret_val (None, 0) take_bytes r.

Definition ffiTxnHas (handle : Z) (key : slice) : M Lib (result bool) :=
  let '(keyPtr, keyLen) := ffiBytesArg key in
  r ← badger_ffi_txn_has handle keyPtr keyLen true true; ret_val 0 take_bool r.

Definition ffiTxnSet (handle : Z) (key value : slice) : M Lib (option error) :=
  let '(keyPtr, keyLen) := ffiBytesArg key in
  let '(valuePtr, valueLen) := ffiBytesArg value in
  r ← badger_ffi_txn_set handle keyPtr keyLen valuePtr valueLen true; ret_err r.

Definition ffiTxnDelete (handle : Z) (key : slice) : M Lib (option error) :=
  let '(keyPtr, keyLen) := ffiBytesArg key in
  r ← badger_ffi_txn_delete handle keyPtr keyLen true; ret_err r.

Definition ffiTxnCommit (handle : Z) : M Lib (option error) := r ← badger_ffi_txn_commit handle true; ret_err r.

Definition ffiTxnDiscard (handle : Z) : M Lib () :=
  if handle =? 0 then mret tt else badger_ffi_txn_discard handle.

Definition ffiTxnIterator (handle : Z) (opts : IterOptions) : M Lib (result Z) :=
  let '(prefixPtr, prefixLen) := ffiBytesArg (Prefix opts) in
  let '(startPtr, startLen) := ffiBytesArg (Start opts) in
  let '(endPtr, endLen) := ffiBytesArg (End_ opts) in
  r ← badger_ffi_txn_iterator handle prefixPtr prefixLen startPtr startLen endPtr endLen (ffiBool (Reverse opts))
        (ffiBool (KeysOnly opts)) true true;
  ret_val 0 mret r.

Definition ffiIterNext (handle : Z) : M Lib (result bool) :=
  r ← badger_ffi_iter_next handle true true; ret_val 0 take_bool r.

Definition ffiIterKey (handle : Z) : M Lib (result slice) :=
  r ← badger_ffi_iter_key handle true true true; ret_val (None, 0) take_bytes r.

Definition ffiIterValue (handle : Z) : M Lib (result slice) :=
  r ← badger_ffi_iter_value handle true true true; ret_val (None, 0) take_bytes r.

Definition ffiIterSeek (handle : Z) (key : slice) : M Lib (result bool) :=
  let '(keyPtr, keyLen) := ffiBytesArg key in
  r ← badger_ffi_iter_seek handle keyPtr keyLen true true; ret_val 0 take_bool r.

Definition ffiIterReset (handle : Z) : M Lib (option error) := r ← badger_ffi_iter_reset handle true; ret_err r.

Definition ffiIterClose (handle : Z) : M Lib (option error) :=
  if handle =? 0 then mret None
  else
    r ← badger_ffi_iter_close handle true;
    match ffiStatus_of (status r) with
    | ffiStatusInvalidHandle => _ ← ffiCString (err_out r); mret None
    | st => ffiStatusErr st (err_out r)
    end.

(** ** The datastore: badger_ffi/badger.go

    The transactions are at addresses; the library is shared with everything else
    in the process. *)

Record Datastore := mk_Datastore { handle : Z; closed : bool }.

Record bTxn := mk_bTxn { txn_handle : Z; initErr : option error }.

Record State := mk_State { lib : Lib; ds : Datastore; txns : gmap nat bTxn }.

Definition set_lib (l : Lib) (s : State) : State := mk_State l (ds s) (txns s).
Definition set_closed (b : bool) (s : State) : State := mk_State (lib s) (mk_Datastore (handle (ds s)) b) (txns s).
Definition set_txn (p : nat) (x : bTxn) (s : State) : State := mk_State (lib s) (ds s) (<[p := x]> (txns s)).

Definition on_lib {A} : M Lib A -> M State A := zoom lib set_lib.

Inductive dynTxn := DynbTxn (p : nat) | DynOther.
Definition as_bTxn (x : dynTxn) : option nat := match x with DynbTxn p => Some p | DynOther => None end.

Definition errWritesBlocked : error := ErrOther "Writes are blocked, possibly due to DropAll or Close".

Definition closedTxnErr (readonly : bool) : error := if readonly then ErrDBClosed else errWritesBlocked.

Definition NewDatastore (badger_Open : badger_Options BLogger BOthers -> result BDB) (path : String.string)
    (opts : badger_Options BLogger BOthers) : M Lib (result Datastore) :=
  r ← ffiOpen badger_Open path (compatOptions opts);
  mret match r with Err e => Err e | Ok h => Ok (mk_Datastore h false) end.

(** *** Transactions *)

Definition bTxn_Get (k : slice) (x : bTxn) : M Lib (result slice) :=
  match initErr x with Some e => mret (Err e) | None => ffiTxnGet (txn_handle x) k end.

Definition bTxn_Has (k : slice) (x : bTxn) : M Lib (result bool) :=
  match initErr x with Some e => mret (Err e) | None => ffiTxnHas (txn_handle x) k end.

Definition bTxn_Set (k v : slice) (x : bTxn) : M Lib (option error) :=
  match initErr x with Some e => mret (Some e) | None => ffiTxnSet (txn_handle x) k v end.

Definition bTxn_Delete (k : slice) (x : bTxn) : M Lib (option error) :=
  match initErr x with Some e => mret (Some e) | None => ffiTxnDelete (txn_handle x) k end.

Definition bTxn_Commit (x : bTxn) : M Lib (option error) :=
  match initErr x with Some e => mret (Some e) | None => ffiTxnCommit (txn_handle x) end.

(** Returns the transaction with its handle reset. *)
Definition bTxn_Discard (x : bTxn) : M Lib bTxn :=
  _ ← ffiTxnDiscard (txn_handle x); mret (mk_bTxn 0 (initErr x)).

(** *** Iterators: badger_ffi/iter.go

    [closer] is the implicit transaction to discard when the iterator closes. *)

Record iterator := mk_iterator { it_handle : Z; closer : option nat }.

Definition withCloser (p : nat) (it : iterator) : iterator := mk_iterator (it_handle it) (Some p).

Definition bTxn_iterator (x : bTxn) (o : IterOptions) : M Lib (result iterator) :=
  match initErr x with
  | Some e => mret (Err e)
  | None =>
      r ← ffiTxnIterator (txn_handle x) o;
      mret match r with Err e => Err e | Ok h => Ok (mk_iterator h None) end
  end.

Definition Reset (it : iterator) : M Lib () :=
  err ← ffiIterReset (it_handle it);
  match err with Some _ => panic | None => mret tt end.

Definition Next (it : iterator) : M Lib (result bool) := ffiIterNext (it_handle it).

Definition Key (it : iterator) : M Lib slice :=
  r ← ffiIterKey (it_handle it);
  match r with Err _ => panic | Ok key => mret key end.

Definition Value (it : iterator) : M Lib (result slice) := ffiIterValue (it_handle it).

Definition Seek (it : iterator) (key : slice) : M Lib (result bool) := ffiIterSeek (it_handle it) key.

(** *** The store *)

Definition the_txn (p : nat) : M State bTxn := deref (fun s => txns s !! p).

(** A method of the transaction at an address. *)
Definition on_txn {R} (p : nat) (f : bTxn -> M Lib R) : M State R := x ← the_txn p; on_lib (f x).

Definition txn_Discard (p : nat) : M State () :=
  x ← the_txn p;
  x ← on_lib (bTxn_Discard x);
  modify (set_txn p x).

Definition Close_it (it : iterator) : M State (option error * iterator) :=
  err ← on_lib (ffiIterClose (it_handle it));
  let it := match err with None => mk_iterator 0 (closer it) | Some _ => it end in
  _ ← match closer it with Some p => txn_Discard p | None => mret tt end;
  mret (err, it).

Definition newTxn (readonly : bool) : M State bTxn :=
  d ← reads ds;
  if closed d then mret (mk_bTxn 0 (Some (closedTxnErr readonly)))
  else
    r ← on_lib (ffiDBNewTxn (handle d) readonly);
    mret match r with Ok h => mk_bTxn h None | Err e => mk_bTxn 0 (Some e) end.

(** [NewTxn], at the address [p]. *)
Definition NewTxn (p : nat) (readonly : bool) : M State () := x ← newTxn readonly; modify (set_txn p x).

(** A read in an implicit transaction, which is then discarded. *)
Definition implicit_read {R} (f : bTxn -> M Lib R) : M State R :=
  x ← newTxn true;
  r ← on_lib (f x);
  _ ← on_lib (bTxn_Discard x);
  mret r.

(** A write in an implicit transaction: committed unless it failed, and then discarded. *)
Definition implicit_write (f : bTxn -> M Lib (option error)) : M State (option error) :=
  x ← newTxn false;
  err ← on_lib (f x);
  err ← match err with Some e => mret (Some e) | None => on_lib (bTxn_Commit x) end;
  _ ← on_lib (bTxn_Discard x);
  mret err.

Definition Get (ctx : Context_ dynTxn) (k : slice) : M State (result slice) :=
  match TryGetCtxTxnG as_bTxn ctx with Some p => on_txn p (bTxn_Get k) | None => implicit_read (bTxn_Get k) end.

Definition Has (ctx : Context_ dynTxn) (k : slice) : M State (result bool) :=
  match TryGetCtxTxnG as_bTxn ctx with Some p => on_txn p (bTxn_Has k) | None => implicit_read (bTxn_Has k) end.

Definition Set_ (ctx : Context_ dynTxn) (k v : slice) : M State (option error) :=
  match TryGetCtxTxnG as_bTxn ctx with Some p => on_txn p (bTxn_Set k v) | None => implicit_write (bTxn_Set k v) end.

Definition Delete (ctx : Context_ dynTxn) (k : slice) : M State (option error) :=
  match TryGetCtxTxnG as_bTxn ctx with
  | Some p => on_txn p (bTxn_Delete k)
  | None => implicit_write (bTxn_Delete k)
  end.

Definition Close : M State (option error) :=
  d ← reads ds;
  if closed d then mret None
  else
    err ← on_lib (ffiDBClose (handle d));
    _ ← match err with None => modify (set_closed true) | Some _ => mret tt end;
    mret err.

(** The implicit transaction of the iterator gets the address [p]. *)
Definition Iterator (p : nat) (ctx : Context_ dynTxn) (o : IterOptions) : M State (result iterator) :=
  match TryGetCtxTxnG as_bTxn ctx with
  | Some q => on_txn q (fun x => bTxn_iterator x o)
  | None =>
      x ← newTxn true;
      r ← on_lib (bTxn_iterator x o);
      match r with
      | Err e => mret (Err e)
      | Ok it => _ ← modify (set_txn p x); mret (Ok (withCloser p it))
      end
  end.

Definition DropAll : M State (option error) :=
  d ← reads ds;
  on_lib (ffiDBDropAll (handle d)).
End code.
End FfiBridge.
