(* ===== verification/FfiSpec.v ===== *)
(** What crosses the boundary of the shared library: bytes, errors, and every
    call of the bridge as a method of the objects of badger_ffi/ffi. *)
From stdpp Require Import gmap.
From S2P Require Import Prelude BTree Kv Badger GoMonad Ffi FfiLib FfiBridge.
From Stdlib Require Import Strings.Byte.
From Stdlib Require Strings.String.
Import Strings.String.StringSyntax.
Import Ffi FfiLib.
Local Open Scope string_scope.

(** ** Bytes *)

(** Nil and empty byte slices both cross the boundary as nil. *)
Lemma cloneBytes_id s : cloneBytes s = s.
Proof.
  destruct s as [l|]; [|done]. unfold cloneBytes, copy. cbv zeta. f_equal.
  rewrite length_replicate, Nat.min_id, take_ge, drop_ge, app_nil_r by (rewrite ?length_replicate; lia). done.
Qed.

Lemma bytesPrefixEnd_same s : bytesPrefixEnd s = Prelude.bytesPrefixEnd s.
Proof. unfold bytesPrefixEnd, Prelude.bytesPrefixEnd. by rewrite cloneBytes_id. Qed.

Lemma normalize_bdata s : bdata (normalizeValue s) = bdata s.
Proof.
  unfold normalizeValue. destruct (Nat.eqb_spec (blen s) 0) as [E|]; [|done].
  unfold blen in E. by destruct (bdata s).
Qed.

Lemma normalize_idem s : normalizeValue (normalizeValue s) = normalizeValue s.
Proof. unfold normalizeValue. destruct (blen s =? 0)%nat eqn:E; [done|]. by rewrite E. Qed.

(** Lengths that a [C.int] can represent. *)
Definition small (s : slice) : Prop := Z.of_nat (blen s) < 2 ^ 31.

Lemma small_normalize s : small s -> small (normalizeValue s).
Proof. unfold normalizeValue. destruct (blen s =? 0)%nat; done. Qed.

Lemma C_int_small n : 0 <= n < 2 ^ 31 -> C_int n = n.
Proof. intros H. unfold C_int. rewrite Z.mod_small by lia. lia. Qed.

Lemma GoBytes_all l : Z.of_nat (length l) < 2 ^ 31 -> GoBytes l (C_int (Z.of_nat (length l))) = Some l.
Proof.
  intros H. rewrite C_int_small by lia. unfold GoBytes. destruct (Z.ltb_spec (Z.of_nat (length l)) 0); [lia|].
  by rewrite Nat2Z.id, take_ge.
Qed.

Section boundary.
Context {BD : BadgerDB} {BE : BadgerLib}.

(** A buffer handed to the library arrives as it was left. *)
Lemma cBytes_arg s ptr n (L : Lib) :
  FfiBridge.ffiBytesArg s = (ptr, n) -> small s -> cBytes ptr n L = Some (normalizeValue s, L).
Proof.
  unfold FfiBridge.ffiBytesArg, normalizeValue, small, blen. intros Harg Hs.
  destruct (Nat.eqb_spec (length (bdata s)) 0) as [E|E]; injection Harg as <- <-; [done|].
  destruct s as [l|]; [|done]. cbn [cBytes].
  change (bdata (Some l)) with l in *. destruct (Z.eqb_spec (Z.of_nat (length l)) 0); [lia|].
  unfold mbind, M_bind. by rewrite (deref_some _ _ l) by (by apply GoBytes_all).
Qed.

(** ** The C heap *)

(** Addresses from [brk] on are free. *)
Definition mem_ok (L : Lib) : Prop := forall a, (brk L <= a)%nat -> cmem L !! a = None.

(** [m] returns [a] and leaves [L1]; the C heap is as in [L1], though memory may
    have been allocated and freed. *)
Definition leaves {A} (m : M Lib A) (L : Lib) (a : A) (L1 : Lib) : Prop :=
  exists b, (brk L1 <= b)%nat /\ m L = Some (a, set_cmem (cmem L1) b L1).

Lemma set_cmem_same L : set_cmem (cmem L) (brk L) L = L.
Proof. by destruct L. Qed.

Lemma leaves_intro {A} (m : M Lib A) L a L1 : m L = Some (a, L1) -> leaves m L a L1.
Proof. intros H. exists (brk L1). split; [done|]. by rewrite set_cmem_same. Qed.

Lemma leaves_bind {A B} (m : M Lib A) (k : A -> M Lib B) L a L1 b L2 :
  m L = Some (a, L1) -> leaves (k a) L1 b L2 -> leaves (m ≫= k) L b L2.
Proof. intros H (n & Hn & Hk). exists n. split; [done|]. by rewrite (bind_some _ _ _ _ _ H). Qed.

(** After a computation that allocated and freed, [brk] has grown. *)
Definition grown (L1 L2 : Lib) : Prop := exists b, (brk L1 <= b)%nat /\ L2 = set_cmem (cmem L1) b L1.

Lemma leaves_grown {A} (m : M Lib A) L a L1 : leaves m L a L1 <-> exists L2, grown L1 L2 /\ m L = Some (a, L2).
Proof. unfold leaves, grown. naive_solver. Qed.

Lemma malloc_free L m : mem_ok L -> cmem L !! brk L = None /\ delete (brk L) (<[brk L := m]> (cmem L)) = cmem L.
Proof. intros H. assert (cmem L !! brk L = None) by (by apply H). split; [done|]. by apply delete_insert_id. Qed.

Lemma GoString_CString s : GoString (String.list_byte_of_string s ++ [x00]) = GoString (String.list_byte_of_string s).
Proof.
  generalize (String.list_byte_of_string s). intros l. induction l as [|b l IH]; simpl; [done|].
  case_bool_decide; [done|]. by rewrite IH.
Qed.

(** ** Errors *)

(** A message as it arrives: up to its first zero. *)
Definition c_message (s : String.string) : String.string := GoString (String.list_byte_of_string s).

Definition status_error (st : FfiBridge.ffiStatus) (message : String.string) : option error :=
  match st with
  | FfiBridge.ffiStatusOK => None
  | FfiBridge.ffiStatusNotFound => Some ErrNotFound
  | FfiBridge.ffiStatusEmptyKey => Some ErrEmptyKey
  | FfiBridge.ffiStatusDiscardedTxn => Some ErrDiscardedTxn
  | FfiBridge.ffiStatusDBClosed => Some ErrDBClosed
  | FfiBridge.ffiStatusTxnConflict => Some ErrTxnConflict
  | FfiBridge.ffiStatusReadOnlyTxn => Some ErrReadOnlyTxn
  | _ => Some (ErrOther (if bool_decide (message = "") then "badger ffi error" else message))
  end.

(** What becomes of an error [e] reported with status [st]. *)
Definition reported (st : Status) (e : error) : error :=
  default e (status_error (FfiBridge.ffiStatus_of (status_int st)) (c_message (Badger.error_msg e))).

(** What becomes of an error of badger. *)
Definition ffi_err (e : error) : error := reported (StatusFromError (Some e)) e.

Lemma ffiStatusErr_fail st e L :
  st <> StatusOK -> mem_ok L ->
  leaves (p ← setError true (Some e); FfiBridge.ffiStatusErr (FfiBridge.ffiStatus_of (status_int st)) p) L
    (Some (reported st e)) L.
Proof.
  intros Hst Hm. destruct (malloc_free L (String.list_byte_of_string (Badger.error_msg e) ++ [x00]) Hm) as [Hb Hd].
  exists (S (brk L)). split; [lia|].
  unfold setError, CString, malloc, FfiBridge.ffiStatusErr, FfiBridge.ffiCString, badger_ffi_free, mbind, M_bind, mret,
    M_ret, deref, modify.
  cbn [negb cmem brk set_cmem objs dbHandles txnHandles iterHandles]. rewrite lookup_insert_eq. cbn. rewrite lookup_insert_eq.
  cbn. rewrite Hd, GoString_CString. unfold reported, c_message, status_error. destruct st; cbn; try done.
  all: by case_bool_decide.
Qed.

Lemma StatusFromError_fails e : StatusFromError (Some e) <> StatusOK.
Proof. unfold StatusFromError. by repeat case_match. Qed.

Lemma failStatus_err {A} st e L :
  st <> StatusOK -> mem_ok L ->
  leaves ((failStatus st e true : M Lib (Ret A)) ≫= FfiBridge.ret_err) L (Some (reported st e)) L.
Proof. exact (ffiStatusErr_fail st e L). Qed.

Lemma failStatus_val {A B} st e (d : A) (k : A -> M Lib B) L :
  st <> StatusOK -> mem_ok L ->
  leaves (failStatus st e true ≫= FfiBridge.ret_val d k) L (Err (reported st e)) L.
Proof.
  intros Hst Hm. destruct (failStatus_err (A:=A) st e L Hst Hm) as (b & Hb & H). exists b. split; [done|].
  apply bind_inv in H as (r & L1 & H1 & H2). rewrite (bind_some _ _ _ _ _ H1). unfold FfiBridge.ret_val.
  by rewrite (bind_some _ _ _ _ _ H2).
Qed.

(** ** The ends of the calls *)

(** The translated result. *)
Definition conv {A} (f : A -> A) (r : result A) : result A :=
  match r with Ok a => Ok (f a) | Err e => Err (ffi_err e) end.

Lemma finish_err_ret r L : mem_ok L -> leaves (finish_err true r ≫= FfiBridge.ret_err) L (ffi_err <$> r) L.
Proof.
  intros Hm. destruct r as [e|]; [|by apply leaves_intro]. apply failStatus_err; [apply StatusFromError_fails|done].
Qed.

Lemma finish_bool_ret r L :
  mem_ok L -> leaves (finish_bool true r ≫= FfiBridge.ret_val 0 FfiBridge.take_bool) L (conv id r) L.
Proof.
  intros Hm. destruct r as [[|]|e]; [by apply leaves_intro..|]. apply failStatus_val; [apply StatusFromError_fails|done].
Qed.

Definition small_res (r : result slice) : Prop := match r with Ok s => small s | Err _ => True end.

Lemma finish_bytes_ret r L :
  mem_ok L -> small_res r ->
  leaves (finish_bytes true r ≫= FfiBridge.ret_val (None, 0) FfiBridge.take_bytes) L (conv normalizeValue r) L.
Proof.
  intros Hm Hs. destruct r as [s|e]; [|apply failStatus_val; [apply StatusFromError_fails|done]].
  unfold finish_bytes, setOutBytes, conv, normalizeValue. destruct (Nat.eqb_spec (blen s) 0) as [E|E];
    [by apply leaves_intro|].
  destruct (malloc_free L (bdata s) Hm) as [Hb Hd]. exists (S (brk L)). split; [lia|].
  unfold malloc, succeed, FfiBridge.ret_val, FfiBridge.ret_err, FfiBridge.ffiStatusErr, FfiBridge.ffiCString,
    FfiBridge.take_bytes, FfiBridge.ffiBytesResult, badger_ffi_free, deref, modify, mbind, M_bind, mret, M_ret.
  cbn. destruct (Z.eqb_spec (Z.of_nat (blen s)) 0); [lia|]. cbn [cmem set_cmem]. rewrite lookup_insert_eq. cbn.
  unfold blen. rewrite GoBytes_all by done. cbn. rewrite lookup_insert_eq. cbn. rewrite Hd. destruct s as [l|]; [done|]. by destruct E.
Qed.

Lemma finish_handle_ret h L : leaves (succeed h ≫= FfiBridge.ret_val 0 mret) L (Ok h) L.
Proof. by apply leaves_intro. Qed.

(** ** Calls in sequence *)

Lemma leaves_then {A B C} (m : M Lib A) (f : A -> M Lib B) (k : B -> M Lib C) L a L1 c L2 :
  m L = Some (a, L1) -> leaves (f a ≫= k) L1 c L2 -> leaves ((m ≫= f) ≫= k) L c L2.
Proof.
  intros H (n & Hn & Hk). exists n. split; [done|]. rewrite <- Hk. unfold mbind, M_bind. by rewrite H.
Qed.

Lemma leaves_handle {A B} tab h (f : nat -> M Lib (Ret A)) (k : Ret A -> M Lib B) L p c L2 :
  items (tab L) !! h = Some p -> leaves (f p ≫= k) L c L2 -> leaves (with_handle tab h true f ≫= k) L c L2.
Proof.
  intros H (n & Hn & Hk). exists n. split; [done|]. rewrite <- Hk. unfold with_handle, mbind, M_bind, reads, get.
  by rewrite H.
Qed.

Lemma on_heap_some {A} (m : M heap A) (L : Lib) a h : m (objs L) = Some (a, h) -> on_heap m L = Some (a, set_objs h L).
Proof. apply (zoom_some objs set_objs). Qed.

Definition ErrInvalidHandle : error := ErrOther "invalid handle".

(** Every call with a handle that is not in the table fails and changes nothing. *)
Lemma bad_handle_err {A} tab h (f : nat -> M Lib (Ret A)) L :
  mem_ok L -> items (tab L) !! h = None ->
  leaves (with_handle tab h true f ≫= FfiBridge.ret_err) L (Some ErrInvalidHandle) L.
Proof.
  intros Hm H. destruct (failStatus_err (A:=A) StatusInvalidHandle errInvalidHandle L ltac:(done) Hm) as (b & Hb & Hf).
  exists b. split; [done|]. unfold with_handle, mbind, M_bind, reads, get in *. by rewrite H, Hf.
Qed.

Lemma bad_handle_val {A B} tab h (f : nat -> M Lib (Ret A)) (d : A) (k : A -> M Lib B) L :
  mem_ok L -> items (tab L) !! h = None ->
  leaves (with_handle tab h true f ≫= FfiBridge.ret_val d k) L (Err ErrInvalidHandle) L.
Proof.
  intros Hm H. destruct (failStatus_val StatusInvalidHandle errInvalidHandle d k L ltac:(done) Hm) as (b & Hb & Hf).
  exists b. split; [done|]. unfold with_handle, mbind, M_bind, reads, get in *. by rewrite H, Hf.
Qed.
End boundary.

(** Runs a bridge call: looks the handle up, hands the buffers over, calls the
    method, and leaves what the end of the call does. *)
Ltac bridge :=
  repeat match goal with
    | |- context [match FfiBridge.ffiBytesArg ?k with (_, _) => _ end] => destruct (FfiBridge.ffiBytesArg k) eqn:?
    end;
  repeat first
    [ eapply leaves_handle; [eassumption|]
    | progress cbn [negb orb]
    | eapply leaves_then; [eapply cBytes_arg; eassumption|]
    | eapply leaves_then; [apply on_heap_some; eassumption|] ].

(** ** The calls of the bridge

    Each call with a handle of its table is the method of the object; the C heap
    is left as it was. *)

Section calls.
Context {BD : BadgerDB} {BE : BadgerLib}.
Implicit Types (L : Lib) (h : Z) (p q : nat).

Lemma ffiTxnGet_call L h p k r H :
  mem_ok L -> items (txnHandles L) !! h = Some p -> small k ->
  txn_Get p (normalizeValue k) (objs L) = Some (r, H) -> small_res r ->
  leaves (FfiBridge.ffiTxnGet h k) L (conv normalizeValue r) (set_objs H L).
Proof.
  intros Hm Hh Hk Hr Hs. unfold FfiBridge.ffiTxnGet, badger_ffi_txn_get. bridge. by apply finish_bytes_ret.
Qed.

Lemma ffiTxnHas_call L h p k r H :
  mem_ok L -> items (txnHandles L) !! h = Some p -> small k ->
  txn_Has p (normalizeValue k) (objs L) = Some (r, H) ->
  leaves (FfiBridge.ffiTxnHas h k) L (conv id r) (set_objs H L).
Proof. intros Hm Hh Hk Hr. unfold FfiBridge.ffiTxnHas, badger_ffi_txn_has. bridge. by apply finish_bool_ret. Qed.

Lemma ffiTxnSet_call L h p k v r H :
  mem_ok L -> items (txnHandles L) !! h = Some p -> small k -> small v ->
  txn_Set p (normalizeValue k) (normalizeValue v) (objs L) = Some (r, H) ->
  leaves (FfiBridge.ffiTxnSet h k v) L (ffi_err <$> r) (set_objs H L).
Proof. intros Hm Hh Hk Hv Hr. unfold FfiBridge.ffiTxnSet, badger_ffi_txn_set. bridge. by apply finish_err_ret. Qed.

Lemma ffiTxnDelete_call L h p k r H :
  mem_ok L -> items (txnHandles L) !! h = Some p -> small k ->
  txn_Delete p (normalizeValue k) (objs L) = Some (r, H) ->
  leaves (FfiBridge.ffiTxnDelete h k) L (ffi_err <$> r) (set_objs H L).
Proof. intros Hm Hh Hk Hr. unfold FfiBridge.ffiTxnDelete, badger_ffi_txn_delete. bridge. by apply finish_err_ret. Qed.

Lemma ffiTxnCommit_call L h p r H :
  mem_ok L -> items (txnHandles L) !! h = Some p -> txn_Commit p (objs L) = Some (r, H) ->
  leaves (FfiBridge.ffiTxnCommit h) L (ffi_err <$> r) (set_objs H L).
Proof. intros Hm Hh Hr. unfold FfiBridge.ffiTxnCommit, badger_ffi_txn_commit. bridge. by apply finish_err_ret. Qed.

Lemma ffiTxnDiscard_call L h p H :
  h <> 0 -> items (txnHandles L) !! h = Some p -> txn_Discard p (objs L) = Some ((), H) ->
  FfiBridge.ffiTxnDiscard h L = Some ((), set_txns (delete_h h (txnHandles L)) (set_objs H L)).
Proof.
  intros H0 Hh Hr. unfold FfiBridge.ffiTxnDiscard, badger_ffi_txn_discard. rewrite (proj2 (Z.eqb_neq _ _) H0).
  unfold mbind, M_bind, reads, get. rewrite Hh. by rewrite (on_heap_some _ _ _ _ Hr).
Qed.

Lemma ffiTxnDiscard_gone L h : items (txnHandles L) !! h = None -> FfiBridge.ffiTxnDiscard h L = Some ((), L).
Proof.
  intros Hh. unfold FfiBridge.ffiTxnDiscard, badger_ffi_txn_discard. destruct (h =? 0); [done|].
  unfold mbind, M_bind, reads, get. by rewrite Hh.
Qed.

(** The options that arrive. *)
Definition ffi_opts (o : IterOptions) : IteratorOptions :=
  mk_IteratorOptions (normalizeValue (Kv.Prefix o)) (normalizeValue (Kv.Start o)) (normalizeValue (Kv.End_ o))
    (Reverse o) (KeysOnly o).

Definition small_opts (o : IterOptions) : Prop := small (Kv.Prefix o) /\ small (Kv.Start o) /\ small (Kv.End_ o).

Lemma ffiBool_bool b : negb (FfiBridge.ffiBool b =? 0) = b.
Proof. by destruct b. Qed.

Lemma ffiTxnIterator_call L h p o r H :
  mem_ok L -> items (txnHandles L) !! h = Some p -> small_opts o ->
  txn_Iterator p (ffi_opts o) (objs L) = Some (r, H) ->
  match r with
  | Ok q => leaves (FfiBridge.ffiTxnIterator h o) L (Ok (next (iterHandles L)))
              (set_iters (add q (iterHandles L)).2 (set_objs H L))
  | Err e => leaves (FfiBridge.ffiTxnIterator h o) L (Err (ffi_err e)) (set_objs H L)
  end.
Proof.
  intros Hm Hh (Hp & Hs & He) Hr. unfold ffi_opts in Hr.
  rewrite <- (ffiBool_bool (Reverse o)), <- (ffiBool_bool (KeysOnly o)) in Hr.
  unfold FfiBridge.ffiTxnIterator, badger_ffi_txn_iterator.
  destruct r as [q|e]; bridge.
  - eapply leaves_then; [done|]. apply leaves_intro. done.
  - apply failStatus_val; [apply StatusFromError_fails|done].
Qed.

Lemma ffiIterNext_call L h q r H :
  mem_ok L -> items (iterHandles L) !! h = Some q -> Next q (objs L) = Some (r, H) ->
  leaves (FfiBridge.ffiIterNext h) L (conv id r) (set_objs H L).
Proof. intros Hm Hh Hr. unfold FfiBridge.ffiIterNext, badger_ffi_iter_next. bridge. by apply finish_bool_ret. Qed.

Lemma ffiIterSeek_call L h q k r H :
  mem_ok L -> items (iterHandles L) !! h = Some q -> small k ->
  Seek q (normalizeValue k) (objs L) = Some (r, H) ->
  leaves (FfiBridge.ffiIterSeek h k) L (conv id r) (set_objs H L).
Proof. intros Hm Hh Hk Hr. unfold FfiBridge.ffiIterSeek, badger_ffi_iter_seek. bridge. by apply finish_bool_ret. Qed.

Lemma ffiIterKey_call L h q k H :
  mem_ok L -> items (iterHandles L) !! h = Some q -> Key q (objs L) = Some (k, H) -> small k ->
  leaves (FfiBridge.ffiIterKey h) L (Ok (normalizeValue k)) (set_objs H L).
Proof.
  intros Hm Hh Hr Hk. unfold FfiBridge.ffiIterKey, badger_ffi_iter_key. bridge. by apply (finish_bytes_ret (Ok k)).
Qed.

Lemma ffiIterValue_call L h q r H :
  mem_ok L -> items (iterHandles L) !! h = Some q -> Value q (objs L) = Some (r, H) -> small_res r ->
  leaves (FfiBridge.ffiIterValue h) L (conv normalizeValue r) (set_objs H L).
Proof.
  intros Hm Hh Hr Hk. unfold FfiBridge.ffiIterValue, badger_ffi_iter_value. bridge. by apply finish_bytes_ret.
Qed.

Lemma ffiIterReset_call L h q H :
  items (iterHandles L) !! h = Some q -> Reset q (objs L) = Some ((), H) ->
  leaves (FfiBridge.ffiIterReset h) L None (set_objs H L).
Proof. intros Hh Hr. unfold FfiBridge.ffiIterReset, badger_ffi_iter_reset. bridge. by apply leaves_intro. Qed.

Lemma ffiIterClose_call L h q H :
  h <> 0 -> items (iterHandles L) !! h = Some q -> Close_it q (objs L) = Some (None, H) ->
  FfiBridge.ffiIterClose h L = Some (None, set_iters (delete_h h (iterHandles L)) (set_objs H L)).
Proof.
  intros H0 Hh Hr. unfold FfiBridge.ffiIterClose, badger_ffi_iter_close. rewrite (proj2 (Z.eqb_neq _ _) H0).
  unfold mbind, M_bind, with_handle, reads, get, mbind, M_bind. rewrite Hh. by rewrite (on_heap_some _ _ _ _ Hr).
Qed.

Lemma ffiDBNewTxn_call L h p ro x H :
  items (dbHandles L) !! h = Some p -> NewTxn p ro (objs L) = Some (x, H) ->
  leaves (FfiBridge.ffiDBNewTxn h ro) L (Ok (next (txnHandles L)))
    (set_txns (add x (txnHandles L)).2 (set_objs H L)).
Proof.
  intros Hh Hr. rewrite <- (ffiBool_bool ro) in Hr. unfold FfiBridge.ffiDBNewTxn, badger_ffi_db_new_txn. bridge.
  eapply leaves_then; [done|]. by apply leaves_intro.
Qed.

Lemma ffiDBDropAll_call L h p r H :
  mem_ok L -> items (dbHandles L) !! h = Some p -> DropAll p (objs L) = Some (r, H) ->
  leaves (FfiBridge.ffiDBDropAll h) L (ffi_err <$> r) (set_objs H L).
Proof. intros Hm Hh Hr. unfold FfiBridge.ffiDBDropAll, badger_ffi_db_drop_all. bridge. by apply finish_err_ret. Qed.

(** A database that was closed loses its handle. *)
Lemma ffiDBClose_call L h p r H :
  mem_ok L -> items (dbHandles L) !! h = Some p -> Close p (objs L) = Some (r, H) ->
  leaves (FfiBridge.ffiDBClose h) L (ffi_err <$> r)
    (match r with None => set_dbs (delete_h h (dbHandles L)) (set_objs H L) | Some _ => set_objs H L end).
Proof.
  intros Hm Hh Hr. unfold FfiBridge.ffiDBClose, badger_ffi_db_close. bridge. destruct r as [e|].
  - eapply leaves_then; [done|]. by apply finish_err_ret.
  - eapply leaves_then; [done|]. by apply leaves_intro.
Qed.
End calls.
