(* ===== verification/FfiInv.v ===== *)
(** The shared library is safe to call: from any state that calls can reach, any
    call returns a status, whatever handles and nil pointers it is given. *)
From stdpp Require Import gmap.
From S2P Require Import Prelude BTree Kv Badger GoMonad Ffi FfiLib FfiBridge FfiSpec.
From Stdlib Require Import Strings.Byte.
From Stdlib Require Strings.String.
Import Strings.String.StringSyntax.
Import Ffi FfiLib.

(** ** Tables *)

(** A table of pointers to [n] objects that has issued the handles from 1 to
    below [next], at most [N]: handles are in that range, pointers are valid, no
    object has two handles. *)
Definition tb_ok (N : Z) (n : nat) (tb : handleTable nat) : Prop :=
  1 <= next tb <= N /\
  (forall h p, items tb !! h = Some p -> 1 <= h < next tb /\ (p < n)%nat) /\
  (forall h h' p, items tb !! h = Some p -> items tb !! h' = Some p -> h = h').

Lemma tb_ok_mono N N' n n' tb : N <= N' -> (n <= n')%nat -> tb_ok N n tb -> tb_ok N' n' tb.
Proof.
  intros HN Hn (H1 & H2 & H3). split; [lia|]. split; [|done]. intros h p H. destruct (H2 _ _ H). split; [done|lia].
Qed.

Lemma tb_ok_fresh N n tb : tb_ok N n tb -> items tb !! next tb = None.
Proof. intros (_ & H & _). destruct (items tb !! next tb) eqn:E; [|done]. apply H in E. lia. Qed.

Lemma tb_ok_add N n tb : N + 1 < two64 -> tb_ok N n tb -> tb_ok (N + 1) (S n) (add n tb).2.
Proof.
  intros HN Hok. pose proof (tb_ok_fresh _ _ _ Hok) as Hf. destruct Hok as (H1 & H2 & H3).
  unfold add, tb_ok. cbn [next items snd]. rewrite uadd_small by lia. split; [lia|]. split.
  - intros h p. rewrite lookup_insert_Some. intros [[<- <-]|[_ H]]; [lia|]. apply H2 in H. lia.
  - intros h h' p. rewrite !lookup_insert_Some. intros [[<- <-]|[Hn H]] [[<- E]|[Hn' H']]; try done.
    + apply H2 in H'. lia.
    + subst. apply H2 in H. lia.
    + by eapply H3.
Qed.

Lemma tb_ok_delete N n h tb : tb_ok N n tb -> tb_ok N n (delete_h h tb).
Proof.
  intros (H1 & H2 & H3). split; [done|]. cbn [items delete_h next]. split.
  - intros h' p. rewrite lookup_delete_Some. intros [_ H]. by apply H2.
  - intros h1 h2 p. rewrite !lookup_delete_Some. intros [_ ?] [_ ?]. by eapply H3.
Qed.

Lemma tb_ok_new : tb_ok 1 0 newHandleTable.
Proof. repeat split; cbn; try lia; set_solver. Qed.

Section inv.
Context {BD : BadgerDB} {BE : BadgerLib} {BP : BadgerPanics BD}.

(** ** Objects *)

(** Transactions point to databases and iterators to transactions. *)
Definition heap_ok (h : heap) : Prop :=
  Forall (fun x => txn_db x < length (dbs h))%nat (txns h) /\ Forall (fun it => it_txn it < length (txns h))%nat (iters h).

Definition sizes (h : heap) : nat * nat * nat := (length (dbs h), length (txns h), length (iters h)).

(** [h'] has the objects of [h], some of them changed; no iterator was closed. *)
Definition hkeeps (h h' : heap) : Prop :=
  heap_ok h' /\ sizes h' = sizes h /\
  forall q it', iters h' !! q = Some it' -> exists it, iters h !! q = Some it /\ bit_closed (i it') = bit_closed (i it).

Lemma heap_txn_db h p x : heap_ok h -> txns h !! p = Some x -> (txn_db x < length (dbs h))%nat.
Proof. intros [H _] E. by eapply Forall_lookup_1 in H. Qed.
Lemma heap_it_txn h q it : heap_ok h -> iters h !! q = Some it -> (it_txn it < length (txns h))%nat.
Proof. intros [_ H] E. by eapply Forall_lookup_1 in H. Qed.

Lemma hkeeps_refl h : heap_ok h -> hkeeps h h.
Proof. unfold hkeeps. eauto. Qed.
Lemma hkeeps_db h p d : heap_ok h -> hkeeps h (put_db p d h).
Proof. intros [H1 H2]. unfold hkeeps, heap_ok, sizes. cbn. rewrite !length_insert. split_and!; eauto. Qed.
Lemma hkeeps_txn h p x : heap_ok h -> (txn_db x < length (dbs h))%nat -> hkeeps h (put_txn p x h).
Proof.
  intros [H1 H2] Hx. unfold hkeeps, heap_ok, sizes. cbn. rewrite !length_insert. split_and!; eauto. by apply Forall_insert.
Qed.
Lemma hkeeps_iter h q it it' :
  heap_ok h -> iters h !! q = Some it -> it_txn it' = it_txn it -> bit_closed (i it') = bit_closed (i it) ->
  hkeeps h (put_iter q it' h).
Proof.
  intros Hh Hq Ht Hc. pose proof (heap_it_txn _ _ _ Hh Hq) as Hx. destruct Hh as [H1 H2].
  unfold hkeeps, heap_ok, sizes. cbn. rewrite !length_insert. split; [split; [done|]|split; [done|]].
  - apply Forall_insert; [done|]. by rewrite Ht.
  - intros q2 it2 [(<- & <- & _)|[_ H]]%list_lookup_insert_Some; eauto.
Qed.
Lemma hkeeps_trans h1 h2 h3 : hkeeps h1 h2 -> hkeeps h2 h3 -> hkeeps h1 h3.
Proof.
  intros (_ & E1 & I1) (H & E2 & I2). split; [done|]. split; [congruence|]. intros q it' Hq.
  destruct (I2 _ _ Hq) as (it2 & Hq2 & Hc2). destruct (I1 _ _ Hq2) as (it1 & Hq1 & Hc1). exists it1. split; [done|congruence].
Qed.

Lemma the_db_total h p (Q : DB -> heap -> Prop) :
  (p < length (dbs h))%nat -> (forall d, dbs h !! p = Some d -> Q d h) -> total (the_db p) Q h.
Proof. intros [d Hd]%lookup_lt_is_Some_2 H. eapply total_deref; [exact Hd|by apply H]. Qed.
Lemma the_txn_total h p (Q : Txn -> heap -> Prop) :
  (p < length (txns h))%nat -> (forall x, txns h !! p = Some x -> Q x h) -> total (the_txn p) Q h.
Proof. intros [d Hd]%lookup_lt_is_Some_2 H. eapply total_deref; [exact Hd|by apply H]. Qed.
Lemma the_iter_total h p (Q : Iterator -> heap -> Prop) :
  (p < length (iters h))%nat -> (forall it, iters h !! p = Some it -> Q it h) -> total (the_iter p) Q h.
Proof. intros [d Hd]%lookup_lt_is_Some_2 H. eapply total_deref; [exact Hd|by apply H]. Qed.

(** The methods on valid pointers return, and keep the objects. *)
Definition keeping {A} (h : heap) : A -> heap -> Prop := fun _ h' => hkeeps h h'.

Lemma on_t_total {R} h p (f : BTx -> R * BTx) : heap_ok h -> (p < length (txns h))%nat -> total (on_t p f) (keeping h) h.
Proof.
  intros Hh Hp. apply total_bind, the_txn_total; [done|]. intros x Hx. destruct (f (t x)).
  apply total_bind, total_modify, total_ret, hkeeps_txn; [done|]. exact (heap_txn_db _ _ _ Hh Hx).
Qed.

Lemma map_total {A B} h (m : M heap A) (g : A -> B) :
  total m (keeping h) h -> total (a ← m; mret (g a)) (keeping h) h.
Proof. intros H. apply total_bind. eapply total_mono; [exact H|]. intros a h' Hk. by apply total_ret. Qed.

Lemma Close_total h p : heap_ok h -> (p < length (dbs h))%nat -> total (Close p) (keeping h) h.
Proof.
  intros Hh Hp. apply total_bind, the_db_total; [done|]. intros d Hd. destruct (bdb_Close (db d)).
  by apply total_bind, total_modify, total_ret, hkeeps_db.
Qed.

Lemma DropAll_total h p : heap_ok h -> (p < length (dbs h))%nat -> total (DropAll p) (keeping h) h.
Proof.
  intros Hh Hp. apply total_bind, the_db_total; [done|]. intros d Hd. destruct (bdb_DropAll (db d)).
  by apply total_bind, total_modify, total_ret, hkeeps_db.
Qed.

(** Committing and discarding, unless badger panics. *)
Lemma txn_Commit_total h p :
  heap_ok h -> (p < length (txns h))%nat ->
  (forall x d, txns h !! p = Some x -> dbs h !! txn_db x = Some d -> btx_Commit (t x) (db d) <> None) ->
  total (txn_Commit p) (keeping h) h.
Proof.
  intros Hh Hp Hc. apply total_bind, the_txn_total; [done|]. intros x Hx. pose proof (heap_txn_db _ _ _ Hh Hx).
  apply total_bind, the_db_total; [done|]. intros d Hd. specialize (Hc x d Hx Hd).
  destruct (btx_Commit (t x) (db d)) as [[e [b b']]|] eqn:E; [|done].
  apply total_bind, (total_or_panic _ _ _ (e, (b, b'))); [done|].
  apply total_bind, total_modify, total_bind, total_modify, total_ret.
  apply (hkeeps_trans _ (put_txn p (mk_Txn b (txn_db x)) h)); [by apply hkeeps_txn|]. by apply hkeeps_db, hkeeps_txn.
Qed.

Lemma txn_Discard_total h p :
  heap_ok h -> (p < length (txns h))%nat ->
  (forall x d, txns h !! p = Some x -> dbs h !! txn_db x = Some d -> btx_Discard (t x) (db d) <> None) ->
  total (txn_Discard p) (keeping h) h.
Proof.
  intros Hh Hp Hc. apply total_bind, the_txn_total; [done|]. intros x Hx. pose proof (heap_txn_db _ _ _ Hh Hx).
  apply total_bind, the_db_total; [done|]. intros d Hd. specialize (Hc x d Hx Hd).
  destruct (btx_Discard (t x) (db d)) as [[b b']|] eqn:E; [|done].
  apply total_bind, (total_or_panic _ _ _ (b, b')); [done|]. apply total_bind, total_modify, total_modify.
  apply (hkeeps_trans _ (put_txn p (mk_Txn b (txn_db x)) h)); [by apply hkeeps_txn|]. by apply hkeeps_db, hkeeps_txn.
Qed.

(** An open iterator can be moved: it keeps its transaction and stays open. *)
Definition moved (it : Iterator) (r : bool * Iterator) : Prop := it_txn r.2 = it_txn it /\ bit_closed (i r.2) = false.

Lemma valid_total it : exists b, valid it = Some b.
Proof.
  unfold valid. destruct (bit_Valid (i it)) eqn:E; [|by eexists]. destruct (bit_Item_valid _ E) as [item ->]. by eexists.
Qed.

Lemma advance_open it : bit_closed (i it) = false -> exists r, advance it = Some r /\ moved it r.
Proof.
  intros Hc. unfold advance. destruct (bit_Valid (i it)) eqn:E; [|by eexists].
  destruct (bit_Next_open _ Hc E) as (x & -> & Hx). cbn. destruct (valid_total (set_i x it)) as [b ->]. by eexists.
Qed.

Lemma seek_open it k : bit_closed (i it) = false -> exists r, seek it k = Some r /\ moved it r.
Proof.
  intros Hc. unfold seek. cbn [i_reverse end_ start i set_reset].
  match goal with |- context [bit_Seek _ ?tgt] => destruct (bit_Seek_open _ tgt Hc) as (x & -> & Hx) end. cbn.
  destruct (valid_total (set_i x (set_reset false it))) as [[|] ->]; cbn; [by eexists|].
  destruct (advance_open (set_i x (set_reset false it)) Hx) as (r & -> & Hr). by exists r.
Qed.

Lemma next_open it : bit_closed (i it) = false -> exists r, Ffi.next it = Some r /\ moved it r.
Proof.
  intros Hc. unfold Ffi.next, restart. destruct (reset it); [|by apply advance_open].
  destruct (i_reverse _); exact (seek_open (set_reset false it) _ Hc).
Qed.

Lemma unless_closed_total h q f :
  heap_ok h -> (q < length (iters h))%nat ->
  (forall it, bit_closed (i it) = false -> exists r, f it = Some r /\ moved it r) ->
  (forall it, iters h !! q = Some it -> bit_closed (i it) = false) ->
  total (unless_closed q f) (keeping h) h.
Proof.
  intros Hh Hq Hf Ho. apply total_bind, the_iter_total; [done|]. intros it Hit. pose proof (heap_it_txn _ _ _ Hh Hit) as Ht.
  apply total_bind, the_txn_total; [done|]. intros x Hx. apply total_bind, the_db_total; [by eapply heap_txn_db|].
  intros d Hd. destruct (closed d); [by apply total_ret, hkeeps_refl|].
  destruct (Hf it (Ho it Hit)) as ([b it'] & E & Ht' & Hc'). apply total_bind, (total_or_panic _ _ _ (b, it')); [done|].
  apply total_bind, total_modify, total_ret. eapply hkeeps_iter; [done|exact Hit|done|]. cbn in Hc'. by rewrite Hc', Ho.
Qed.

Lemma Reset_total h q : heap_ok h -> (q < length (iters h))%nat -> total (Reset q) (keeping h) h.
Proof.
  intros Hh Hq. apply total_bind, the_iter_total; [done|]. intros it Hit. by eapply total_modify, hkeeps_iter.
Qed.

(** The key and the value, unless badger has no item. *)
Lemma Key_total h q :
  heap_ok h -> (q < length (iters h))%nat -> (forall it, iters h !! q = Some it -> bit_Item (i it) <> None) ->
  total (Key q) (keeping h) h.
Proof.
  intros Hh Hq Hi. apply total_bind, the_iter_total; [done|]. intros it Hit. specialize (Hi it Hit).
  destruct (bit_Item (i it)) as [item|] eqn:E; [|done]. apply total_bind, (total_or_panic _ _ _ item); [done|].
  by apply total_ret, hkeeps_refl.
Qed.

Lemma Value_total h q :
  heap_ok h -> (q < length (iters h))%nat ->
  (forall it, iters h !! q = Some it -> keysOnly it = false -> bit_Item (i it) <> None) ->
  total (Value q) (keeping h) h.
Proof.
  intros Hh Hq Hi. apply total_bind, the_iter_total; [done|]. intros it Hit. specialize (Hi it Hit).
  destruct (keysOnly it); [by apply total_ret, hkeeps_refl|]. specialize (Hi eq_refl).
  destruct (bit_Item (i it)) as [item|] eqn:E; [|done]. apply total_bind, (total_or_panic _ _ _ item); [done|].
  by apply total_ret, hkeeps_refl.
Qed.

(** ** The library *)

(** The tables issue handles below [N]; iterators with a handle are open. *)
Record lib_inv (N : Z) (L : Lib) : Prop := {
  li_db : tb_ok N (length (dbs (objs L))) (dbHandles L);
  li_txn : tb_ok N (length (txns (objs L))) (txnHandles L);
  li_iter : tb_ok N (length (iters (objs L))) (iterHandles L);
  li_heap : heap_ok (objs L);
  li_mem : mem_ok L;
  li_open : forall h q it, items (iterHandles L) !! h = Some q -> iters (objs L) !! q = Some it -> bit_closed (i it) = false }.

Lemma lib_inv_init : lib_inv 1 lib_init.
Proof. split; try apply tb_ok_new; [by split; constructor| |done]. intros a _. apply lookup_empty. Qed.

Lemma lib_inv_mono N N' L : N <= N' -> lib_inv N L -> lib_inv N' L.
Proof. intros H [H1 H2 H3 H4 H5 H6]. split; [by eapply tb_ok_mono..|done|done|done]. Qed.

Lemma lib_inv_objs N L h : lib_inv N L -> hkeeps (objs L) h -> lib_inv N (set_objs h L).
Proof.
  intros [H1 H2 H3 H4 H5 H6] (Hok & Es & Hc). pose proof (f_equal (fun p => p.1.1) Es) as E1.
  pose proof (f_equal (fun p => p.1.2) Es) as E2. pose proof (f_equal snd Es) as E3. cbn in E1, E2, E3.
  split; cbn; rewrite ?E1, ?E2, ?E3; try done.
  intros h' q it Hq Hit. destruct (Hc q it Hit) as (it0 & Hit0 & ->). by eapply H6.
Qed.

Lemma lib_inv_malloc N L m : lib_inv N L -> lib_inv N (set_cmem (<[brk L := m]> (cmem L)) (S (brk L)) L).
Proof.
  intros [H1 H2 H3 H4 H5 H6]. split; [done..| |done]. intros a Ha. cbn in *. rewrite lookup_insert_ne by lia. apply H5. lia.
Qed.

Lemma lib_inv_free N L a : lib_inv N L -> lib_inv N (set_cmem (delete a (cmem L)) (brk L) L).
Proof.
  intros [H1 H2 H3 H4 H5 H6]. split; [done..| |done]. intros b Hb. cbn in *. rewrite lookup_delete_None. right. by apply H5.
Qed.

(** A new object with its handle. *)
Lemma lib_inv_new_db N L d : N + 1 < two64 -> lib_inv N L ->
  lib_inv (N + 1) (set_dbs (add (length (dbs (objs L))) (dbHandles L)).2
    (set_objs (mk_heap (dbs (objs L) ++ [d]) (txns (objs L)) (iters (objs L))) L)).
Proof.
  intros HN [H1 H2 H3 [H4 H4'] H5 H6]. split; cbn -[add]; rewrite ?length_app; cbn -[add].
  - rewrite Nat.add_1_r. by apply tb_ok_add.
  - eapply tb_ok_mono; [..|exact H2]; lia.
  - eapply tb_ok_mono; [..|exact H3]; lia.
  - split; cbn; [|done]. eapply Forall_impl; [exact H4|]. cbn. intros x. rewrite length_app. cbn. lia.
  - done.
  - done.
Qed.

Lemma lib_inv_new_txn N L x : N + 1 < two64 -> (txn_db x < length (dbs (objs L)))%nat -> lib_inv N L ->
  lib_inv (N + 1) (set_txns (add (length (txns (objs L))) (txnHandles L)).2
    (set_objs (mk_heap (dbs (objs L)) (txns (objs L) ++ [x]) (iters (objs L))) L)).
Proof.
  intros HN Hx [H1 H2 H3 [H4 H4'] H5 H6]. split; cbn -[add]; rewrite ?length_app; cbn -[add].
  - eapply tb_ok_mono; [..|exact H1]; lia.
  - rewrite Nat.add_1_r. by apply tb_ok_add.
  - eapply tb_ok_mono; [..|exact H3]; lia.
  - split; cbn; [by apply Forall_app_2; [|constructor]|]. eapply Forall_impl; [exact H4'|]. cbn. intros it.
    rewrite length_app. cbn. lia.
  - done.
  - done.
Qed.

Lemma lib_inv_new_iter N L it :
  N + 1 < two64 -> (it_txn it < length (txns (objs L)))%nat -> bit_closed (i it) = false -> lib_inv N L ->
  lib_inv (N + 1) (set_iters (add (length (iters (objs L))) (iterHandles L)).2
    (set_objs (mk_heap (dbs (objs L)) (txns (objs L)) (iters (objs L) ++ [it])) L)).
Proof.
  intros HN Hx Hop [H1 H2 H3 [H4 H4'] H5 H6]. pose proof H3 as (_ & Hval & _). split; cbn -[add]; rewrite ?length_app; cbn -[add].
  - eapply tb_ok_mono; [..|exact H1]; lia.
  - eapply tb_ok_mono; [..|exact H2]; lia.
  - rewrite Nat.add_1_r. by apply tb_ok_add.
  - split; cbn; [done|]. by apply Forall_app_2; [|constructor].
  - done.
  - intros h q it'. cbn. rewrite lookup_insert_Some, lookup_app_Some, list_lookup_singleton_Some.
    intros [[<- <-]|[_ Hq]] [Hit|(? & ? & <-)]; try done.
    + apply lookup_lt_Some in Hit. lia.
    + by eapply H6.
Qed.

(** ** Calls *)

(** What a call returns: 0 with its output stored and no message, or another
    status with nothing stored and a message if it was asked for. *)
Definition ret_ok {A} (errOut : bool) (r : Ret A) : Prop :=
  0 <= status r <= 11 /\
  if status r =? 0 then is_Some (out r) /\ err_out r = None
  else out r = None /\ (is_Some (err_out r) <-> errOut = true).

Definition done_ok {A} (N : Z) (errOut : bool) : Ret A -> Lib -> Prop := fun r L => lib_inv N L /\ ret_ok errOut r.

Lemma failStatus_total {A} N st e b L :
  st <> StatusOK -> lib_inv N L -> total (failStatus st e b : M Lib (Ret A)) (done_ok N b) L.
Proof.
  intros Hst HL. assert (forall p, (is_Some p <-> b = true) -> ret_ok b (mk_Ret (A:=A) (status_int st) None p)) as Hr.
  { intros p Hp. split; [by destruct st; cbn; lia|]. by destruct st. }
  destruct b.
  - eexists _, _. split; [done|]. split; [by apply lib_inv_malloc|]. apply Hr. split; [done|eauto].
  - eexists _, _. split; [done|]. split; [done|]. apply Hr. split; [by intros []|done].
Qed.

Lemma succeed_total {A} N b (a : A) L : lib_inv N L -> total (succeed a) (done_ok N b) L.
Proof. intros HL. apply total_ret. split; [done|]. split; [cbn; lia|]. cbn. eauto. Qed.

Lemma fail_total {A} N e b L : lib_inv N L -> total (fail e b : M Lib (Ret A)) (done_ok N b) L.
Proof. apply failStatus_total, StatusFromError_fails. Qed.

Lemma finish_err_total N b r L : lib_inv N L -> total (finish_err b r) (done_ok N b) L.
Proof. intros HL. destruct r; [by apply fail_total|by apply succeed_total]. Qed.

Lemma finish_bool_total N b r L : lib_inv N L -> total (finish_bool b r) (done_ok N b) L.
Proof. intros HL. destruct r; [by apply succeed_total|by apply fail_total]. Qed.

Lemma finish_bytes_total N b r L : lib_inv N L -> total (finish_bytes b r) (done_ok N b) L.
Proof.
  intros HL. destruct r as [s|]; [|by apply fail_total]. unfold finish_bytes, setOutBytes.
  destruct (blen s =? 0)%nat; [by apply succeed_total|]. eexists _, _. split; [done|].
  split; [by apply lib_inv_malloc|]. split; [cbn; lia|]. cbn. eauto.
Qed.

Lemma with_handle_total {A} N tab h b (f : nat -> M Lib (Ret A)) L :
  lib_inv N L -> (forall p, items (tab L) !! h = Some p -> total (f p) (done_ok N b) L) ->
  total (with_handle tab h b f) (done_ok N b) L.
Proof.
  intros HL Hf. apply total_bind, total_reads. unfold get. destruct (items (tab L) !! h) as [p|] eqn:E; [by apply Hf|].
  by apply failStatus_total.
Qed.

(** A method that keeps the objects. *)
Lemma on_heap_total {A B} N (m : M heap A) (k : A -> M Lib (Ret B)) b L :
  lib_inv N L -> total m (keeping (objs L)) (objs L) ->
  (forall a L', lib_inv N L' -> total (k a) (done_ok N b) L') -> total (on_heap m ≫= k) (done_ok N b) L.
Proof.
  intros HL (a & h & Hm & Hh) Hk. apply total_bind. exists a, (set_objs h L). split; [by apply on_heap_some|].
  by apply Hk, lib_inv_objs.
Qed.

(** Buffers of the client: a length that a [C.int] can represent. *)
Definition len_ok (n : Z) : Prop := 0 <= n < 2 ^ 31.

(** The bytes that a buffer of [n] bytes stands for. *)
Definition arg_bytes (ptr : cptr) (n : Z) : slice :=
  match ptr with None => None | Some m => if n =? 0 then None else Some (take (Z.to_nat n) m) end.

Lemma cBytes_run ptr n L : len_ok n -> cBytes ptr n L = Some (arg_bytes ptr n, L).
Proof.
  intros Hn. unfold cBytes, arg_bytes. destruct ptr as [m|]; [|done]. destruct (n =? 0); [done|].
  unfold mbind, M_bind, deref. rewrite C_int_small by done. unfold GoBytes.
  by destruct (Z.ltb_spec n 0); [unfold len_ok in *; lia|].
Qed.

Lemma cBytes_arg_total {A} ptr n (k : slice -> M Lib A) Q L :
  len_ok n -> total (k (arg_bytes ptr n)) Q L -> total (cBytes ptr n ≫= k) Q L.
Proof. intros Hn Hk. apply total_bind. exists (arg_bytes ptr n), L. split; [by apply cBytes_run|done]. Qed.

Lemma cBytes_total {A} ptr n (k : slice -> M Lib A) Q L :
  len_ok n -> (forall s, total (k s) Q L) -> total (cBytes ptr n ≫= k) Q L.
Proof. intros Hn Hk. by apply cBytes_arg_total. Qed.

(** A new iterator with options. *)
Definition iter_with (p : nat) (b : BIter) (o : IteratorOptions) : Iterator :=
  if negb (is_nil (Prefix o))
  then mk_Iterator p b (Prefix o) (bytesPrefixEnd (Prefix o)) (i_Reverse o) (i_KeysOnly o) true
  else mk_Iterator p b (Start o) (End_ o) (i_Reverse o) (i_KeysOnly o) true.

Lemma iter_with_fields p b o : it_txn (iter_with p b o) = p /\ i (iter_with p b o) = b.
Proof. unfold iter_with. by destruct (negb _). Qed.

Lemma new_iterator_run p x o :
  (if negb (is_nil (Prefix o)) then newPrefixIterator p x (Prefix o) (i_Reverse o) (i_KeysOnly o)
   else newRangeIterator p x (Start o) (End_ o) (i_Reverse o) (i_KeysOnly o)) =
  match btx_NewIterator x (Prefix o) (i_Reverse o) (negb (i_KeysOnly o)) with
  | None => None
  | Some (b, y) => Some (iter_with p b o, y)
  end.
Proof.
  unfold newPrefixIterator, newRangeIterator, iter_with. rewrite !cloneBytes_id.
  destruct (Prefix o) as [l|]; cbn [is_nil negb]; by destruct (btx_NewIterator _ _ _ _) as [[b y]|].
Qed.

Lemma txn_Iterator_run h p o x d :
  txns h !! p = Some x -> dbs h !! txn_db x = Some d ->
  txn_Iterator p o h =
    if closed d then Some (Err badger_ErrDBClosed, h)
    else match btx_NewIterator (t x) (Prefix o) (i_Reverse o) (negb (i_KeysOnly o)) with
         | None => None
         | Some (b, y) => Some (Ok (length (iters h)),
             mk_heap (dbs h) (<[p := mk_Txn y (txn_db x)]> (txns h)) (iters h ++ [iter_with p b o]))
         end.
Proof.
  intros Hx Hd. unfold txn_Iterator, Ffi.the_txn, the_db, or_panic, deref, mbind, M_bind, mret, M_ret. rewrite Hx, Hd.
  destruct (closed d); [done|]. rewrite new_iterator_run. by destruct (btx_NewIterator _ _ _ _) as [[b y]|].
Qed.

Lemma li_ptr N L h p : lib_inv N L ->
  (items (dbHandles L) !! h = Some p -> (p < length (dbs (objs L)))%nat) /\
  (items (txnHandles L) !! h = Some p -> (p < length (txns (objs L)))%nat) /\
  (items (iterHandles L) !! h = Some p -> (p < length (iters (objs L)))%nat).
Proof. intros [(_ & H1 & _) (_ & H2 & _) (_ & H3 & _) _ _ _]. split_and!; intros E; [apply H1 in E|apply H2 in E|apply H3 in E]; lia. Qed.
End inv.

(** Runs a call on a state of the library that satisfies the invariant. *)
Ltac run_call HL :=
  repeat first
    [ progress cbn [negb orb]
    | apply cBytes_total; [assumption|intros ?]
    | eapply on_heap_total;
        [exact HL
        |first [apply on_t_total | apply map_total, on_t_total | apply Close_total | apply DropAll_total
               | apply txn_Commit_total | apply unless_closed_total | apply Reset_total | apply Key_total
               | apply Value_total];
         [apply (li_heap _ _ HL)|by eapply (li_ptr _ _ _ _ HL)|..]
        |intros ? ? ?] ].

Section safety.
Context {BD : BadgerDB} {BE : BadgerLib} {BP : BadgerPanics BD}.

(** The calls of a client of the shared library, with arbitrary handles and
    pointers. *)
Inductive ccall :=
| C_db_open (dir valueDir : cptr) (inMemory : Z) (key : cptr) (keyLen ics vls : Z) (outHandle errOut : bool)
| C_db_close (handle : Z) (errOut : bool)
| C_db_drop_all (handle : Z) (errOut : bool)
| C_db_new_txn (handle readOnly : Z) (outHandle errOut : bool)
| C_txn_get (handle : Z) (key : cptr) (keyLen : Z) (outValue outValueLen errOut : bool)
| C_txn_has (handle : Z) (key : cptr) (keyLen : Z) (outHas errOut : bool)
| C_txn_set (handle : Z) (key : cptr) (keyLen : Z) (value : cptr) (valueLen : Z) (errOut : bool)
| C_txn_delete (handle : Z) (key : cptr) (keyLen : Z) (errOut : bool)
| C_txn_commit (handle : Z) (errOut : bool)
| C_txn_discard (handle : Z)
| C_txn_iterator (handle : Z) (prefix : cptr) (prefixLen : Z) (start : cptr) (startLen : Z) (end_ : cptr)
    (endLen reverse keysOnly : Z) (outHandle errOut : bool)
| C_iter_next (handle : Z) (outHas errOut : bool)
| C_iter_key (handle : Z) (outKey outKeyLen errOut : bool)
| C_iter_value (handle : Z) (outValue outValueLen errOut : bool)
| C_iter_seek (handle : Z) (key : cptr) (keyLen : Z) (outHas errOut : bool)
| C_iter_reset (handle : Z) (errOut : bool)
| C_iter_close (handle : Z) (errOut : bool)
| C_free (ptr : option nat).

(** What a call returns, whatever it stores. *)
Inductive reply :=
| Reply (A : Type) (errOut : bool) (r : Ret A)
| NoReply.

Definition reply_ok (r : reply) : Prop := match r with Reply _ b r => ret_ok b r | NoReply => True end.

Definition replied {A} (errOut : bool) (m : M Lib (Ret A)) : M Lib reply := r ← m; mret (Reply A errOut r).

Definition cstep (badger_Open : badger_Options BLogger BOthers -> result BDB) (c : ccall) : M Lib reply :=
  match c with
  | C_db_open d v im k n ics vls o e => replied e (badger_ffi_db_open badger_Open d v im k n ics vls o e)
  | C_db_close h e => replied e (badger_ffi_db_close h e)
  | C_db_drop_all h e => replied e (badger_ffi_db_drop_all h e)
  | C_db_new_txn h ro o e => replied e (badger_ffi_db_new_txn h ro o e)
  | C_txn_get h k n o1 o2 e => replied e (badger_ffi_txn_get h k n o1 o2 e)
  | C_txn_has h k n o e => replied e (badger_ffi_txn_has h k n o e)
  | C_txn_set h k n v m e => replied e (badger_ffi_txn_set h k n v m e)
  | C_txn_delete h k n e => replied e (badger_ffi_txn_delete h k n e)
  | C_txn_commit h e => replied e (badger_ffi_txn_commit h e)
  | C_txn_discard h => _ ← badger_ffi_txn_discard h; mret NoReply
  | C_txn_iterator h p pn s sn en enn r ko o e =>
      replied e (badger_ffi_txn_iterator h p pn s sn en enn r ko o e)
  | C_iter_next h o e => replied e (badger_ffi_iter_next h o e)
  | C_iter_key h o1 o2 e => replied e (badger_ffi_iter_key h o1 o2 e)
  | C_iter_value h o1 o2 e => replied e (badger_ffi_iter_value h o1 o2 e)
  | C_iter_seek h k n o e => replied e (badger_ffi_iter_seek h k n o e)
  | C_iter_reset h e => replied e (badger_ffi_iter_reset h e)
  | C_iter_close h e => replied e (badger_ffi_iter_close h e)
  | C_free p => _ ← badger_ffi_free p; mret NoReply
  end.

(** What a client has to observe: buffers of less than 2^31 bytes, and freeing
    only what is allocated.  Handles and nil pointers are free to choose. *)
Definition legal (L : Lib) (c : ccall) : Prop :=
  match c with
  | C_db_open _ _ _ _ n _ _ _ _ | C_txn_get _ _ n _ _ _ | C_txn_has _ _ n _ _ | C_txn_delete _ _ n _
  | C_iter_seek _ _ n _ _ => len_ok n
  | C_txn_set _ _ n _ m _ => len_ok n /\ len_ok m
  | C_txn_iterator _ _ n1 _ n2 _ n3 _ _ _ _ => len_ok n1 /\ len_ok n2 /\ len_ok n3
  | C_free (Some a) => is_Some (cmem L !! a)
  | _ => True
  end.

(** The calls in which badger panics: committing or discarding a transaction,
    creating an iterator, and asking for the item of an iterator; the other
    operations of badger do not panic where the library calls them. *)
Definition panics {A} (o : option A) : bool := match o with None => true | Some _ => false end.

Definition txn_test (L : Lib) (h : Z) (f : BTx -> DB -> bool) : bool :=
  match (q ← items (txnHandles L) !! h; x ← txns (objs L) !! q; d ← dbs (objs L) !! txn_db x; Some (f (t x) d)) with
  | Some b => b
  | None => false
  end.

Definition iter_test (L : Lib) (h : Z) (f : Iterator -> bool) : bool :=
  match (q ← items (iterHandles L) !! h; it ← iters (objs L) !! q; Some (f it)) with
  | Some b => b
  | None => false
  end.

Definition badger_panics (L : Lib) (c : ccall) : bool :=
  match c with
  | C_txn_commit h _ => txn_test L h (fun x d => panics (btx_Commit x (db d)))
  | C_txn_discard h => txn_test L h (fun x d => panics (btx_Discard x (db d)))
  | C_txn_iterator h p pn _ _ _ _ r ko o _ =>
      o && txn_test L h (fun x d =>
        negb (closed d) && panics (btx_NewIterator x (arg_bytes p pn) (negb (r =? 0)) (negb (negb (ko =? 0)))))
  | C_iter_key h o1 o2 _ => o1 && o2 && iter_test L h (fun it => panics (bit_Item (i it)))
  | C_iter_value h o1 o2 _ => o1 && o2 && iter_test L h (fun it => negb (keysOnly it) && panics (bit_Item (i it)))
  | _ => false
  end.

Definition step_ok (N : Z) : reply -> Lib -> Prop := fun r L => lib_inv N L /\ reply_ok r.

Lemma replied_total {A} N b (m : M Lib (Ret A)) L : total m (done_ok N b) L -> total (replied b m) (step_ok N) L.
Proof. intros H. apply total_bind. eapply total_mono; [exact H|]. intros r L' [HL Hr]. by apply total_ret. Qed.

Lemma db_open_total N f d v im k n ics vls o e L :
  N + 1 < two64 -> len_ok n -> lib_inv N L ->
  total (badger_ffi_db_open f d v im k n ics vls o e) (done_ok (N + 1) e) L.
Proof.
  intros HN Hn HL. assert (lib_inv (N + 1) L) as HL' by (eapply lib_inv_mono; [|exact HL]; lia).
  unfold badger_ffi_db_open. destruct o; cbn [negb]; [|by apply failStatus_total]. apply cBytes_total; [done|]. intros s.
  apply total_bind. unfold Open. case_match.
  { eexists _, _. split; [done|]. destruct L. by apply fail_total. }
  match goal with |- context [let '(_, _) := ?x in _] => destruct x as [dir vdir] end.
  match goal with |- context [f ?x] => destruct (f x) as [d0|er] end; cycle 1.
  { eexists _, _. split; [done|]. destruct L. by apply fail_total. }
  eexists _, _. split; [done|]. eexists _, _. split; [done|]. split.
  - by apply (lib_inv_new_db N L).
  - split; [cbn; lia|]. cbn. eauto.
Qed.

Lemma db_new_txn_total N h ro o e L :
  N + 1 < two64 -> lib_inv N L -> total (badger_ffi_db_new_txn h ro o e) (done_ok (N + 1) e) L.
Proof.
  intros HN HL. assert (lib_inv (N + 1) L) as HL' by (eapply lib_inv_mono; [|exact HL]; lia).
  unfold badger_ffi_db_new_txn. destruct o; cbn [negb]; [|by apply failStatus_total].
  apply with_handle_total; [done|]. intros p Hp. pose proof (proj1 (li_ptr _ _ _ _ HL) Hp) as Hlt.
  pose proof Hlt as [d Hd]%lookup_lt_is_Some_2. apply total_bind.
  destruct (bdb_NewTransaction (Ffi.db d) (negb (negb (ro =? 0)))) as [x b] eqn:E.
  set (h1 := put_db p (mk_DB b (closed d)) (objs L)).
  assert (hkeeps (objs L) h1) as Hk by (apply hkeeps_db, (li_heap _ _ HL)).
  assert (lib_inv N (set_objs h1 L)) as HL1 by (by apply lib_inv_objs).
  exists (length (txns (objs L))), (set_objs (mk_heap (dbs h1) (txns h1 ++ [mk_Txn x p]) (iters h1)) L). split.
  { apply on_heap_some. unfold NewTxn, the_db, deref, mbind, M_bind. by rewrite Hd, E. }
  eexists _, _. split; [done|]. split; [|split; [cbn; lia|cbn; eauto]].
  apply (lib_inv_new_txn N (set_objs h1 L) (mk_Txn x p)); [done| |done]. cbn. by rewrite length_insert.
Qed.

Lemma txn_test_false L h f q x d :
  txn_test L h f = false -> items (txnHandles L) !! h = Some q -> txns (objs L) !! q = Some x ->
  dbs (objs L) !! txn_db x = Some d -> f (t x) d = false.
Proof. unfold txn_test. intros H Hq Hx Hd. rewrite Hq in H. cbn in H. rewrite Hx in H. cbn in H. by rewrite Hd in H. Qed.

Lemma txn_test_true L h f :
  txn_test L h f = true -> exists q x d, items (txnHandles L) !! h = Some q /\ txns (objs L) !! q = Some x /\
    dbs (objs L) !! txn_db x = Some d /\ f (t x) d = true.
Proof.
  unfold txn_test. destruct (items (txnHandles L) !! h) as [q|]; [|done]. cbn.
  destruct (txns (objs L) !! q) as [x|] eqn:Hx; [|done]. cbn.
  destruct (dbs (objs L) !! txn_db x) as [d|] eqn:Hd; [|done]. intros H. by exists q, x, d.
Qed.

Lemma iter_test_false L h f q it :
  iter_test L h f = false -> items (iterHandles L) !! h = Some q -> iters (objs L) !! q = Some it -> f it = false.
Proof. unfold iter_test. intros H Hq Hi. rewrite Hq in H. cbn in H. by rewrite Hi in H. Qed.

Lemma iter_test_true L h f :
  iter_test L h f = true -> exists q it, items (iterHandles L) !! h = Some q /\ iters (objs L) !! q = Some it /\ f it = true.
Proof.
  unfold iter_test. destruct (items (iterHandles L) !! h) as [q|]; [|done]. cbn.
  destruct (iters (objs L) !! q) as [it|] eqn:Hi; [|done]. intros H. by exists q, it.
Qed.

Lemma panics_false {A} (o : option A) : panics o = false -> o <> None.
Proof. by destruct o. Qed.
Lemma panics_true {A} (o : option A) : panics o = true -> o = None.
Proof. by destruct o. Qed.

Lemma txn_iterator_total N h p pn s sn en enn r ko o e L :
  N + 1 < two64 -> len_ok pn -> len_ok sn -> len_ok enn -> lib_inv N L ->
  badger_panics L (C_txn_iterator h p pn s sn en enn r ko o e) = false ->
  total (badger_ffi_txn_iterator h p pn s sn en enn r ko o e) (done_ok (N + 1) e) L.
Proof.
  intros HN H1 H2 H3 HL Hp. assert (lib_inv (N + 1) L) as HL' by (eapply lib_inv_mono; [|exact HL]; lia).
  unfold badger_ffi_txn_iterator. destruct o; cbn [negb]; [|by apply failStatus_total].
  apply with_handle_total; [done|]. intros q Hq. pose proof (proj1 (proj2 (li_ptr _ _ _ _ HL)) Hq) as Hlt.
  pose proof Hlt as [x Hx]%lookup_lt_is_Some_2.
  pose proof (heap_txn_db _ _ _ (li_heap _ _ HL) Hx) as [d Hd]%lookup_lt_is_Some_2.
  cbn [badger_panics andb] in Hp. pose proof (txn_test_false _ _ _ _ _ _ Hp Hq Hx Hd) as Hnp. cbv beta in Hnp.
  do 3 (apply cBytes_arg_total; [done|]). apply total_bind. unfold total, on_heap, zoom.
  rewrite (txn_Iterator_run _ _ _ _ _ Hx Hd). cbn [Ffi.Prefix i_Reverse i_KeysOnly].
  destruct (closed d).
  { eexists _, _. split; [done|]. assert (set_objs (objs L) L = L) as -> by (by destruct L). by apply fail_total. }
  apply panics_false in Hnp. destruct (btx_NewIterator _ _ _ _) as [[b y]|] eqn:En; [|done].
  set (L1 := set_objs (put_txn q (mk_Txn y (txn_db x)) (objs L)) L).
  assert (lib_inv N L1) as HL1.
  { apply lib_inv_objs; [done|]. apply hkeeps_txn; [apply (li_heap _ _ HL)|]. by eapply lookup_lt_Some. }
  eexists _, _. split; [done|]. eexists _, _. split; [done|]. split; [|split; [cbn; lia|cbn; eauto]].
  match goal with |- context [iter_with q b ?o] => destruct (iter_with_fields q b o) as [Ht Hi];
    apply (lib_inv_new_iter N L1 (iter_with q b o)); [done| | |done] end.
  - rewrite Ht. cbn. rewrite length_insert. by eapply lookup_lt_Some.
  - rewrite Hi. by eapply btx_NewIterator_iters.
Qed.

(** Removing a handle. *)
Lemma lib_inv_del_db N L h : lib_inv N L -> lib_inv N (set_dbs (delete_h h (dbHandles L)) L).
Proof. intros [H1 H2 H3 H4 H5 H6]. split; [by apply tb_ok_delete|done..]. Qed.
Lemma lib_inv_del_txn N L h : lib_inv N L -> lib_inv N (set_txns (delete_h h (txnHandles L)) L).
Proof. intros [H1 H2 H3 H4 H5 H6]. split; [done|by apply tb_ok_delete|done..]. Qed.
Lemma lib_inv_del_iter N L h : lib_inv N L -> lib_inv N (set_iters (delete_h h (iterHandles L)) L).
Proof.
  intros [H1 H2 H3 H4 H5 H6]. split; [done|done|by apply tb_ok_delete|done..|].
  intros h' q it. cbn. rewrite lookup_delete_Some. intros [_ Hq]. by apply (H6 h').
Qed.

(** Closing an iterator, which loses its handle. *)
Lemma lib_inv_close_it N L h q it x b y :
  lib_inv N L -> items (iterHandles L) !! h = Some q -> iters (objs L) !! q = Some it ->
  txns (objs L) !! it_txn it = Some x ->
  lib_inv N (set_iters (delete_h h (iterHandles L))
    (set_objs (put_txn (it_txn it) (mk_Txn y (txn_db x)) (put_iter q (set_i b it) (objs L))) L)).
Proof.
  intros [H1 H2 H3 H4 H5 H6] Hq Hit Hx. pose proof (heap_txn_db _ _ _ H4 Hx) as Hdb.
  pose proof (heap_it_txn _ _ _ H4 Hit) as Ht. destruct H4 as [H4 H4'].
  split; cbn; rewrite ?length_insert; [done|done|by apply tb_ok_delete| |done|].
  - split; cbn; rewrite ?length_insert; by apply Forall_insert.
  - intros h' q' it'. rewrite lookup_delete_Some. intros [Hne Hq'] [(<- & _)|[_ Hit']]%list_lookup_insert_Some.
    + destruct Hne. by eapply (proj2 (proj2 H3)).
    + by eapply H6.
Qed.

Lemma Close_it_run h q it x :
  iters h !! q = Some it -> txns h !! it_txn it = Some x ->
  Close_it q h = Some (None, put_txn (it_txn it) (mk_Txn (bit_Close (i it) (t x)).2 (txn_db x))
    (put_iter q (set_i (bit_Close (i it) (t x)).1 it) h)).
Proof.
  intros Hit Hx. unfold Close_it, the_iter, Ffi.the_txn, deref, mbind, M_bind. rewrite Hit, Hx.
  by destruct (bit_Close (i it) (t x)).
Qed.

Lemma iter_close_total N h e L : lib_inv N L -> total (badger_ffi_iter_close h e) (done_ok N e) L.
Proof.
  intros HL. apply with_handle_total; [done|]. intros q Hq.
  pose proof (proj2 (proj2 (li_ptr _ _ _ _ HL)) Hq) as [it Hit]%lookup_lt_is_Some_2.
  pose proof (heap_it_txn _ _ _ (li_heap _ _ HL) Hit) as [x Hx]%lookup_lt_is_Some_2.
  apply total_bind. eexists _, _. split; [by eapply on_heap_some, Close_it_run|].
  apply total_bind, total_modify, succeed_total. by eapply (lib_inv_close_it N L).
Qed.

Lemma del_then_finish N (e : option error) (g : Lib -> Lib) b L :
  lib_inv N L -> lib_inv N (g L) ->
  total (match e with Some _ => mret () | None => modify g end ≫= fun _ => finish_err b e) (done_ok N b) L.
Proof.
  intros HL Hg. apply total_bind. destruct e; [apply total_ret|apply total_modify]; by apply finish_err_total.
Qed.

Lemma txn_discard_total N h L :
  lib_inv N L -> badger_panics L (C_txn_discard h) = false ->
  total (badger_ffi_txn_discard h) (fun _ L' => lib_inv N L') L.
Proof.
  intros HL Hp. apply total_bind, total_reads. unfold get.
  destruct (items (txnHandles L) !! h) as [p|] eqn:E; [|by apply total_ret].
  destruct (txn_Discard_total (objs L) p (li_heap _ _ HL) (proj1 (proj2 (li_ptr _ _ _ _ HL)) E)) as (u & h' & Hd & Hk).
  { intros x d Hx Hd. apply panics_false. exact (txn_test_false _ _ _ _ _ _ Hp E Hx Hd). }
  apply total_bind. exists u, (set_objs h' L). split; [by apply on_heap_some|].
  by apply total_modify, lib_inv_del_txn, lib_inv_objs.
Qed.

Lemma free_total N p L :
  lib_inv N L -> (forall a, p = Some a -> is_Some (cmem L !! a)) -> total (badger_ffi_free p) (fun _ L' => lib_inv N L') L.
Proof.
  intros HL Hp. destruct p as [a|]; [|by apply total_ret]. destruct (Hp a eq_refl) as [m Hm].
  apply total_bind. eapply total_deref; [exact Hm|]. by apply total_modify, lib_inv_free.
Qed.

Lemma silent_total N (m : M Lib ()) L :
  total m (fun _ L' => lib_inv N L') L -> total (_ ← m; mret NoReply) (step_ok N) L.
Proof. intros H. apply total_bind. eapply total_mono; [exact H|]. intros ? L' HL. by apply total_ret. Qed.

(** Every legal call in which badger does not panic returns and keeps the invariant. *)
Lemma cstep_total N f c L :
  N + 1 < two64 -> lib_inv N L -> legal L c -> badger_panics L c = false -> total (cstep f c) (step_ok (N + 1)) L.
Proof.
  intros HN HL Hc Hp. assert (lib_inv (N + 1) L) as HL' by (eapply lib_inv_mono; [|exact HL]; lia).
  destruct c; cbn [legal cstep] in *; try apply replied_total.
  all: try (first [by apply db_open_total | by apply db_new_txn_total | apply txn_iterator_total; tauto | by apply iter_close_total]).
  all: try match type of Hc with len_ok _ /\ len_ok _ => destruct Hc as [Hc Hc'] end.
  all: try (apply with_handle_total; [done|]; intros p Hh; repeat case_match; try (by apply failStatus_total)).
  all: try (run_call HL'; auto using finish_err_total, finish_bool_total, finish_bytes_total, succeed_total, seek_open, next_open).
  all: try (intros ?; by eapply (li_open _ _ HL)).
  - by apply del_then_finish, lib_inv_del_db.
  - intros x d Hx Hd. apply panics_false. exact (txn_test_false _ _ _ _ _ _ Hp Hh Hx Hd).
  - by apply silent_total, txn_discard_total.
  - intros it Hit. apply panics_false. destruct outKey, outKeyLen; try done. exact (iter_test_false _ _ _ _ _ Hp Hh Hit).
  - intros it Hit Hk. apply panics_false. destruct outValue, outValueLen; try done.
    pose proof (iter_test_false _ _ _ _ _ Hp Hh Hit) as Ht. cbv beta in Ht. by rewrite Hk in Ht.
  - apply silent_total, free_total; [done|]. by intros a ->.
Qed.

(** A call in which badger panics does not return. *)
Lemma cstep_panics f c L : legal L c -> badger_panics L c = true -> cstep f c L = None.
Proof.
  intros Hc Hp. destruct c; try done; cbn [badger_panics] in Hp; cbn [cstep].
  - apply txn_test_true in Hp as (q & x & d & Hq & Hx & Hd & Hn%panics_true).
    unfold replied, badger_ffi_txn_commit, with_handle, reads, get, on_heap, zoom, txn_Commit, Ffi.the_txn, the_db, or_panic,
      deref, mbind, M_bind. by rewrite Hq, Hx, Hd, Hn.
  - apply txn_test_true in Hp as (q & x & d & Hq & Hx & Hd & Hn%panics_true).
    unfold badger_ffi_txn_discard, reads, get, on_heap, zoom, txn_Discard, Ffi.the_txn, the_db, or_panic, deref, mbind, M_bind.
    by rewrite Hq, Hx, Hd, Hn.
  - apply andb_true_iff in Hp as [-> Hp]. apply txn_test_true in Hp as (q & x & d & Hq & Hx & Hd & Hn).
    apply andb_true_iff in Hn as [Hcl%negb_true_iff Hn%panics_true]. destruct Hc as (H1 & H2 & H3).
    unfold replied, badger_ffi_txn_iterator, with_handle. cbn [negb]. unfold reads, get, mbind, M_bind.
    rewrite Hq, (cBytes_run _ _ _ H1), (cBytes_run _ _ _ H2), (cBytes_run _ _ _ H3). unfold on_heap, zoom.
    rewrite (txn_Iterator_run _ _ _ _ _ Hx Hd). cbn [Ffi.Prefix i_Reverse i_KeysOnly]. by rewrite Hcl, Hn.
  - apply andb_true_iff in Hp as [[-> ->]%andb_true_iff Hp].
    apply iter_test_true in Hp as (q & it & Hq & Hit & Hn%panics_true).
    unfold replied, badger_ffi_iter_key, with_handle, reads, get, on_heap, zoom, Key, the_iter, or_panic, deref, mbind, M_bind.
    rewrite Hq. cbn [negb orb]. by rewrite Hit, Hn.
  - apply andb_true_iff in Hp as [[-> ->]%andb_true_iff Hp].
    apply iter_test_true in Hp as (q & it & Hq & Hit & Hn). apply andb_true_iff in Hn as [Hk%negb_true_iff Hn%panics_true].
    unfold replied, badger_ffi_iter_value, with_handle, reads, get, on_heap, zoom, Value, the_iter, or_panic, deref, mbind, M_bind.
    rewrite Hq. cbn [negb orb]. by rewrite Hit, Hk, Hn.
Qed.

(** The states of the library after [n] calls. *)
Inductive reach (badger_Open : badger_Options BLogger BOthers -> result BDB) : nat -> Lib -> Prop :=
| reach_init : reach badger_Open 0 lib_init
| reach_call n L c r L' :
    reach badger_Open n L -> legal L c -> cstep badger_Open c L = Some (r, L') -> reach badger_Open (S n) L'.

Lemma reach_inv f n L : reach f n L -> Z.of_nat n + 1 < two64 -> lib_inv (Z.of_nat n + 1) L.
Proof.
  induction 1 as [|n L c r L' Hr IH Hc Hs]; intros Hn; [apply lib_inv_init|].
  destruct (badger_panics L c) eqn:Hp; [by rewrite (cstep_panics f c L Hc Hp) in Hs|].
  destruct (cstep_total (Z.of_nat n + 1) f c L ltac:(lia) (IH ltac:(lia)) Hc Hp) as (r' & L2 & Hs' & HL2 & _).
  rewrite Hs in Hs'. injection Hs' as <- <-. by replace (Z.of_nat (S n) + 1) with (Z.of_nat n + 1 + 1) by lia.
Qed.

End safety.
