(* ===== verification/FfiRefine.v ===== *)
(** The FFI backend refines the badger backend: called through handles, status
    codes and C buffers, the store, its transactions and its iterators answer as
    Badger.v does on the same calls.

    The specification is a machine over [Badger.State] and the iterators created
    so far; it is defined for the calls that a client may make: not on what was
    discarded or closed. *)
From stdpp Require Import gmap.
From S2P Require Import Prelude BTree Kv Badger GoMonad Ffi FfiLib FfiBridge FfiSpec FfiInv.
From Stdlib Require Import Strings.Byte.
From Stdlib Require Strings.String.
Import Strings.String.StringSyntax.
Import Ffi FfiLib.

(** What badger documents and the backends rely on: when it does not panic, its
    errors are distinct sentinels, and keys and values are below 2 GB. *)
Class BadgerFacts (BD : BadgerDB) (BE : BadgerLib) : Prop := {
  facts_panics :: BadgerPanics BD;
  badger_sentinels : exists m1 m2 m3 m4 m5 m6 m7 m8,
    badger_ErrEmptyKey = ErrOther m1 /\ badger_ErrKeyNotFound = ErrOther m2 /\ badger_ErrDiscardedTxn = ErrOther m3 /\
    badger_ErrDBClosed = ErrOther m4 /\ badger_ErrConflict = ErrOther m5 /\ badger_ErrReadOnlyTxn = ErrOther m6 /\
    badger_ErrInvalidEncryptionKey = ErrOther m7 /\ badger_ErrValueLogSize = ErrOther m8 /\
    NoDup [m1; m2; m3; m4; m5; m6; m7; m8];
  item_Key_small item : small (item_Key item);
  item_Value_small item v : item_ValueCopy item = Ok v -> small v }.

Section refine.
Context {BD : BadgerDB} {BE : BadgerLib}.

(** ** Calls and answers *)

Inductive call :=
| CGet (ctx : option nat) (k : slice)
| CHas (ctx : option nat) (k : slice)
| CSet (ctx : option nat) (k v : slice)
| CDelete (ctx : option nat) (k : slice)
| CNewTxn (p : nat) (readonly : bool)
| CCommit (p : nat)
| CDiscard (p : nat)
| CIterator (p : nat) (ctx : option nat) (o : IterOptions)
| CNext (j : nat)
| CSeek (j : nat) (k : slice)
| CReset (j : nat)
| CKey (j : nat)
| CValue (j : nat)
| CCloseIt (j : nat)
| CDropAll
| CClose.

Inductive answer :=
| ABytes (r : result slice)
| ABool (r : result bool)
| AErr (e : option error)
| AKey (k : slice)
| AUnit.

(** ** The specification: the badger backend *)

Record Spec := mk_Spec {
  sb : Badger.State;
  sits : list Badger.iterator;
  dead_t : gset nat;
  dead_i : gset nat;
  s_open : bool }.

Definition set_sb (b : Badger.State) (s : Spec) : Spec := mk_Spec b (sits s) (dead_t s) (dead_i s) (s_open s).
Definition set_sits (l : list Badger.iterator) (s : Spec) : Spec := mk_Spec (sb s) l (dead_t s) (dead_i s) (s_open s).

Definition ctx_b (c : option nat) : Context_ Badger.dynTxn :=
  match c with None => Background | Some p => SetCtxTxn Background (Badger.DynbTxn p) end.

Definition fresh_t (s : Spec) (p : nat) : bool :=
  bool_decide (Badger.txns (sb s) !! p = None) && bool_decide (p ∉ dead_t s).
Definition live_t (s : Spec) (p : nat) : bool :=
  bool_decide (is_Some (Badger.txns (sb s) !! p)) && bool_decide (p ∉ dead_t s).
Definition ctx_ok (s : Spec) (c : option nat) : bool := match c with None => true | Some p => live_t s p end.
Definition live_it (s : Spec) (j : nat) : option Badger.iterator :=
  if bool_decide (j ∉ dead_i s) then sits s !! j else None.

Definition norm_opts (o : IterOptions) : IterOptions :=
  mkIterOptions (normalizeValue (Kv.Prefix o)) (normalizeValue (Kv.Start o)) (normalizeValue (Kv.End_ o)) (Reverse o)
    (KeysOnly o).

(** [guarded b x]: the call is a legal one. *)
Definition guarded {A} (b : bool) (x : option A) : option A := if b then x else None.

(** Empty slices are handed over as nil.  A call in which badger panics has no
    step, as one on what was discarded or closed. *)
Definition sstep (c : call) (s : Spec) : option (answer * Spec) :=
  if negb (s_open s) then None else
  match c with
  | CGet c k => guarded (ctx_ok s c)
      ('(r, b) ← Badger.Get (ctx_b c) (normalizeValue k) (sb s); Some (ABytes r, set_sb b s))
  | CHas c k => guarded (ctx_ok s c)
      ('(r, b) ← Badger.Has (ctx_b c) (normalizeValue k) (sb s); Some (ABool r, set_sb b s))
  | CSet c k v => guarded (ctx_ok s c)
      ('(r, b) ← Badger.Set_ (ctx_b c) (normalizeValue k) (normalizeValue v) (sb s); Some (AErr r, set_sb b s))
  | CDelete c k => guarded (ctx_ok s c)
      ('(r, b) ← Badger.Delete (ctx_b c) (normalizeValue k) (sb s); Some (AErr r, set_sb b s))
  | CNewTxn p ro => guarded (fresh_t s p) ('(_, b) ← Badger.NewTxn p ro (sb s); Some (AUnit, set_sb b s))
  | CCommit p => guarded (live_t s p) ('(e, b) ← Badger.txn_Commit p (sb s); Some (AErr e, set_sb b s))
  | CDiscard p => guarded (live_t s p)
      ('(_, b) ← Badger.txn_Discard p (sb s);
       Some (AUnit, mk_Spec b (sits s) ({[p]} ∪ dead_t s) (dead_i s) (s_open s)))
  | CIterator p c o => guarded (ctx_ok s c && fresh_t s p)
      ('(r, b) ← Badger.Iterator p (ctx_b c) (norm_opts o) (sb s);
       Some match r with
            | Err e => (AErr (Some e), set_sb b s)
            | Ok it => (AErr None, set_sits (sits s ++ [it]) (set_sb b s))
            end)
  | CNext j => it ← live_it s j;
      '(r, it) ← Badger.Next (sb s) it; Some (ABool r, set_sits (<[j := it]> (sits s)) s)
  | CSeek j k => it ← live_it s j;
      '(r, it) ← Badger.Seek (sb s) it (normalizeValue k); Some (ABool r, set_sits (<[j := it]> (sits s)) s)
  | CReset j => it ← live_it s j; Some (AUnit, set_sits (<[j := Badger.Reset it]> (sits s)) s)
  | CKey j => it ← live_it s j; k ← Badger.Key it; Some (AKey k, s)
  | CValue j => it ← live_it s j; r ← Badger.Value it; Some (ABytes r, s)
  | CCloseIt j => it ← live_it s j;
      guarded (live_t s (Badger.it_txn it) && ctx_ok s (Badger.closer it))
        ('(r, b) ← Badger.Close_it it (sb s);
         Some (AErr r.1, mk_Spec b (<[j := r.2]> (sits s))
            (match Badger.closer it with Some p => {[p]} ∪ dead_t s | None => dead_t s end)
            ({[j]} ∪ dead_i s) (s_open s)))
  | CDropAll => let '(e, b) := Badger.DropAll (sb s) in Some (AErr e, set_sb b s)
  | CClose => let '(e, b) := Badger.Close (sb s) in
      Some (AErr e, mk_Spec b (sits s) (dead_t s) (dead_i s) (bool_decide (is_Some e)))
  end.

Fixpoint srun (cs : list call) (s : Spec) : option (list answer * Spec) :=
  match cs with
  | [] => Some ([], s)
  | c :: cs => '(a, s) ← sstep c s; '(l, s) ← srun cs s; Some (a :: l, s)
  end.

(** ** The implementation: the FFI backend *)

Record FSys := mk_FSys { fst_ : FfiBridge.State; fits : list FfiBridge.iterator }.

Definition on_store {A} : M FfiBridge.State A -> M FSys A := zoom fst_ (fun s f => mk_FSys s (fits f)).
Definition on_store_lib {A} (m : M Lib A) : M FSys A := on_store (FfiBridge.on_lib m).
Definition the_it (j : nat) : M FSys FfiBridge.iterator := deref (fun f => fits f !! j).

Definition ctx_f (c : option nat) : Context_ FfiBridge.dynTxn :=
  match c with None => Background | Some p => SetCtxTxn Background (FfiBridge.DynbTxn p) end.

Definition fstep (c : call) : M FSys answer :=
  match c with
  | CGet c k => r ← on_store (FfiBridge.Get (ctx_f c) k); mret (ABytes r)
  | CHas c k => r ← on_store (FfiBridge.Has (ctx_f c) k); mret (ABool r)
  | CSet c k v => e ← on_store (FfiBridge.Set_ (ctx_f c) k v); mret (AErr e)
  | CDelete c k => e ← on_store (FfiBridge.Delete (ctx_f c) k); mret (AErr e)
  | CNewTxn p ro => _ ← on_store (FfiBridge.NewTxn p ro); mret AUnit
  | CCommit p => e ← on_store (FfiBridge.on_txn p FfiBridge.bTxn_Commit); mret (AErr e)
  | CDiscard p => _ ← on_store (FfiBridge.txn_Discard p); mret AUnit
  | CIterator p c o =>
      r ← on_store (FfiBridge.Iterator p (ctx_f c) o);
      match r with
      | Err e => mret (AErr (Some e))
      | Ok it => _ ← modify (fun f => mk_FSys (fst_ f) (fits f ++ [it])); mret (AErr None)
      end
  | CNext j => it ← the_it j; r ← on_store_lib (FfiBridge.Next it); mret (ABool r)
  | CSeek j k => it ← the_it j; r ← on_store_lib (FfiBridge.Seek it k); mret (ABool r)
  | CReset j => it ← the_it j; _ ← on_store_lib (FfiBridge.Reset it); mret AUnit
  | CKey j => it ← the_it j; k ← on_store_lib (FfiBridge.Key it); mret (AKey k)
  | CValue j => it ← the_it j; r ← on_store_lib (FfiBridge.Value it); mret (ABytes r)
  | CCloseIt j =>
      it ← the_it j;
      r ← on_store (FfiBridge.Close_it it);
      _ ← modify (fun f => mk_FSys (fst_ f) (<[j := r.2]> (fits f)));
      mret (AErr r.1)
  | CDropAll => e ← on_store FfiBridge.DropAll; mret (AErr e)
  | CClose => e ← on_store FfiBridge.Close; mret (AErr e)
  end.

Fixpoint frun (cs : list call) : M FSys (list answer) :=
  match cs with
  | [] => mret []
  | c :: cs => a ← fstep c; l ← frun cs; mret (a :: l)
  end.

(** ** Agreement of answers *)

(** Both stem from one error of badger: the badger backend translates it or hands
    it on, the FFI backend sends it as a status with a message. *)
Definition same_err (e e' : error) : Prop := exists raw, (e = Badger.to_kv raw \/ e = raw) /\ e' = ffi_err raw.

Definition same_res {A} (R : A -> A -> Prop) (r r' : result A) : Prop :=
  match r, r' with Ok a, Ok a' => R a a' | Err e, Err e' => same_err e e' | _, _ => False end.

(** Bytes are the same, up to nil for empty. *)
Definition same_bytes (s s' : slice) : Prop := s' = normalizeValue s.

Definition same_opt (e e' : option error) : Prop :=
  match e, e' with None, None => True | Some e, Some e' => same_err e e' | _, _ => False end.

Definition agrees (a a' : answer) : Prop :=
  match a, a' with
  | ABytes r, ABytes r' => same_res same_bytes r r'
  | ABool r, ABool r' => same_res eq r r'
  | AErr e, AErr e' => same_opt e e'
  | AKey k, AKey k' => same_bytes k k'
  | AUnit, AUnit => True
  | _, _ => False
  end.

(** ** The relation *)

Definition txn_of (L : Lib) (h : Z) : option Txn := q ← items (txnHandles L) !! h; txns (objs L) !! q.
Definition iter_of (L : Lib) (h : Z) : option Iterator := q ← items (iterHandles L) !! h; iters (objs L) !! q.
Definition db_of_txn (L : Lib) (q : nat) : option nat := txn_db <$> txns (objs L) !! q.

(** An iterator of badger_ffi/ffi as one of the badger backend, whose transaction
    is at the address [p]. *)
Definition as_badger (p : nat) (cl : option nat) (it : Iterator) : Badger.iterator :=
  Badger.mk_iterator p (i it) (start it) (end_ it) (i_reverse it) (keysOnly it) (reset it) cl.

Definition T_rel (L : Lib) (a : nat) (ftx : gmap nat FfiBridge.bTxn) (btx : gmap nat BTx) (dead : gset nat) : Prop :=
  forall p x, btx !! p = Some x -> p ∉ dead ->
    exists h, ftx !! p = Some (FfiBridge.mk_bTxn h None) /\ txn_of L h = Some (mk_Txn x a).

(** No two transactions have the same handle. *)
Definition T_inj (ftx : gmap nat FfiBridge.bTxn) (btx : gmap nat BTx) (dead : gset nat) : Prop :=
  forall p p' h, is_Some (btx !! p) -> is_Some (btx !! p') -> p ∉ dead -> p' ∉ dead ->
    ftx !! p = Some (FfiBridge.mk_bTxn h None) -> ftx !! p' = Some (FfiBridge.mk_bTxn h None) -> p = p'.

(** The client's transaction [p], if it has a handle, is the object [q]. *)
Definition link (L : Lib) (ftx : gmap nat FfiBridge.bTxn) (p q : nat) : Prop :=
  forall h, ftx !! p = Some (FfiBridge.mk_bTxn h None) ->
    h < next (txnHandles L) /\ forall q', items (txnHandles L) !! h = Some q' -> q' = q.

Definition I_rel (L : Lib) (a : nat) (ftx : gmap nat FfiBridge.bTxn) (btx : gmap nat BTx)
    (fl : list FfiBridge.iterator) (bl : list Badger.iterator) (dead : gset nat) : Prop :=
  length fl = length bl /\
  forall j it, bl !! j = Some it -> j ∉ dead ->
    exists h fi, fl !! j = Some (FfiBridge.mk_iterator h (Badger.closer it)) /\ iter_of L h = Some fi /\
      it = as_badger (Badger.it_txn it) (Badger.closer it) fi /\ db_of_txn L (it_txn fi) = Some a /\
      is_Some (btx !! Badger.it_txn it) /\ link L ftx (Badger.it_txn it) (it_txn fi).

Definition I_inj (fl : list FfiBridge.iterator) (dead : gset nat) : Prop :=
  forall j j' it it', fl !! j = Some it -> fl !! j' = Some it' -> j ∉ dead -> j' ∉ dead ->
    FfiBridge.it_handle it = FfiBridge.it_handle it' -> j = j'.

(** [cm] is the C heap of the rest of the process: no call leaves a buffer behind. *)
Context {cm : gmap nat bytes}.

Record rel_open (N : Z) (a : nat) (f : FSys) (s : Spec) : Prop := {
  r_inv : lib_inv N (FfiBridge.lib (fst_ f));
  r_handle : items (dbHandles (FfiBridge.lib (fst_ f))) !! FfiBridge.handle (FfiBridge.ds (fst_ f)) = Some a;
  r_closed : FfiBridge.closed (FfiBridge.ds (fst_ f)) = false;
  r_db : dbs (objs (FfiBridge.lib (fst_ f))) !! a = Some (mk_DB (Badger.db (sb s)) (Badger.closed (sb s)));
  r_txn : T_rel (FfiBridge.lib (fst_ f)) a (FfiBridge.txns (fst_ f)) (Badger.txns (sb s)) (dead_t s);
  r_tinj : T_inj (FfiBridge.txns (fst_ f)) (Badger.txns (sb s)) (dead_t s);
  r_iter : I_rel (FfiBridge.lib (fst_ f)) a (FfiBridge.txns (fst_ f)) (Badger.txns (sb s)) (fits f) (sits s) (dead_i s);
  r_iinj : I_inj (fits f) (dead_i s);
  r_cmem : cmem (FfiBridge.lib (fst_ f)) = cm }.

Definition rel (N : Z) (a : nat) (f : FSys) (s : Spec) : Prop := s_open s = true -> rel_open N a f s.

(** ** Changes of the library and what they leave alone *)

Definition with_lib (L : Lib) (f : FSys) : FSys := mk_FSys (FfiBridge.set_lib L (fst_ f)) (fits f).

Lemma rel_grown N a L1 L2 f s : grown L1 L2 -> rel_open N a (with_lib L1 f) s -> rel_open N a (with_lib L2 f) s.
Proof.
  intros (b & Hb & ->) [[I1 I2 I3 I4 I5 I6] H2 H3 H4 H5 H6 H7 H8 H9]. split; try done. split; try done.
  intros c Hc. cbn in *. apply I5. lia.
Qed.

(** Transactions other than that of [h] are as before. *)
Definition T_frame (L L' : Lib) (h : Z) : Prop :=
  forall h' y, h' <> h -> txn_of L h' = Some y -> txn_of L' h' = Some y.

Definition I_frame (L L' : Lib) : Prop :=
  (forall h fi a, iter_of L h = Some fi -> db_of_txn L (it_txn fi) = Some a ->
    iter_of L' h = Some fi /\ db_of_txn L' (it_txn fi) = Some a) /\
  next (txnHandles L) <= next (txnHandles L') /\
  forall h q, h < next (txnHandles L) -> items (txnHandles L') !! h = Some q -> items (txnHandles L) !! h = Some q.

(** No transaction of the client has the handle [h]. *)
Definition unused (ftx : gmap nat FfiBridge.bTxn) (btx : gmap nat BTx) (dead : gset nat) (h : Z) : Prop :=
  forall p, is_Some (btx !! p) -> p ∉ dead -> ftx !! p <> Some (FfiBridge.mk_bTxn h None).

Lemma T_rel_frame L L' a ftx btx dead h :
  T_rel L a ftx btx dead -> unused ftx btx dead h -> T_frame L L' h -> T_rel L' a ftx btx dead.
Proof.
  intros HT Hu HF p x Hp Hd. destruct (HT _ _ Hp Hd) as (h' & Hf & Hx). exists h'. split; [done|].
  apply HF; [|done]. intros ->. by apply (Hu p).
Qed.

Lemma I_rel_frame L L' a ftx btx fl bl dead :
  I_rel L a ftx btx fl bl dead -> I_frame L L' -> I_rel L' a ftx btx fl bl dead.
Proof.
  intros [Hl HI] (HF & Hnx & Hit). split; [done|]. intros j it Hj Hd.
  destruct (HI _ _ Hj Hd) as (h & fi & H1 & H2 & H3 & H4 & H5 & H6).
  exists h, fi. destruct (HF _ _ _ H2 H4). split_and!; try done. intros h' Hh'. destruct (H6 h' Hh') as [Hlt Hq].
  split; [lia|]. intros q' Hq'. by apply Hq, Hit.
Qed.

(** A change of a transaction in the specification. *)
Lemma I_rel_put L a ftx btx fl bl dead p x :
  I_rel L a ftx btx fl bl dead -> I_rel L a ftx (<[p := x]> btx) fl bl dead.
Proof.
  intros [Hl HI]. split; [done|]. intros j it Hj Hd. destruct (HI j it Hj Hd) as (h & fi & F1 & F2 & F3 & F4 & F5 & F6).
  exists h, fi. split_and!; try done. apply lookup_insert_is_Some. destruct (decide (p = Badger.it_txn it)); [by left|by right].
Qed.

Lemma txn_of_ptr L h q : items (txnHandles L) !! h = Some q -> txn_of L h = txns (objs L) !! q.
Proof. unfold txn_of. by intros ->. Qed.

Lemma txn_of_inv L h x : txn_of L h = Some x -> exists q, items (txnHandles L) !! h = Some q /\ txns (objs L) !! q = Some x.
Proof. unfold txn_of. destruct (items _ !! h); [eauto|done]. Qed.

Lemma iter_of_inv L h x : iter_of L h = Some x -> exists q, items (iterHandles L) !! h = Some q /\ iters (objs L) !! q = Some x.
Proof. unfold iter_of. destruct (items _ !! h); [eauto|done]. Qed.

(** A change of the transaction at [q]. *)
Lemma put_txn_frames N L h q x x' a :
  lib_inv N L -> items (txnHandles L) !! h = Some q -> txns (objs L) !! q = Some (mk_Txn x a) ->
  let L' := set_objs (put_txn q (mk_Txn x' a) (objs L)) L in
  lib_inv N L' /\ txn_of L' h = Some (mk_Txn x' a) /\ T_frame L L' h /\ I_frame L L'.
Proof.
  intros HL Hh Hq. cbv zeta. split_and!.
  - apply lib_inv_objs; [done|]. apply hkeeps_txn; [apply (li_heap _ _ HL)|]. exact (heap_txn_db _ _ _ (li_heap _ _ HL) Hq).
  - rewrite (txn_of_ptr _ h q) by done. cbn. rewrite list_lookup_insert_eq; [done|]. by eapply lookup_lt_Some.
  - intros h' y Hne Hy. apply txn_of_inv in Hy as (q' & Hq' & Hy). rewrite (txn_of_ptr _ h' q') by done. cbn.
    rewrite list_lookup_insert_ne; [done|]. intros <-. destruct Hne. by eapply (li_txn _ _ HL).
  - split; [|done]. intros h' fi a' Hi Ha. split; [done|]. unfold db_of_txn in *. cbn. destruct (decide (it_txn fi = q)) as [E|Hne].
    + rewrite E in *. rewrite list_lookup_insert_eq by (by eapply lookup_lt_Some). rewrite Hq in Ha. done.
    + by rewrite list_lookup_insert_ne.
Qed.

(** ** Methods of one transaction *)

Definition op_sim {R R'} (agree : R' -> R -> Prop) (bop : BTx -> R' * BTx) (op : FfiBridge.bTxn -> M Lib R) : Prop :=
  forall L h q x a, mem_ok L -> items (txnHandles L) !! h = Some q -> txns (objs L) !! q = Some (mk_Txn x a) ->
    exists r L', op (FfiBridge.mk_bTxn h None) L = Some (r, L') /\
      grown (set_objs (put_txn q (mk_Txn (bop x).2 a) (objs L)) L) L' /\ agree (bop x).1 r.

Lemma on_t_run {R} h q x a (f : BTx -> R * BTx) :
  txns h !! q = Some (mk_Txn x a) -> on_t q f h = Some ((f x).1, put_txn q (mk_Txn (f x).2 a) h).
Proof.
  intros Hq. unfold on_t, Ffi.the_txn, deref, mbind, M_bind. rewrite Hq. cbn. by destruct (f x).
Qed.

Lemma same_opt_kv e : same_opt (Badger.badgerErrToKVErr e) (ffi_err <$> e).
Proof.
  destruct e as [e|]; [|done]. cbn [fmap option_fmap option_map].
  assert (is_Some (Badger.badgerErrToKVErr (Some e))) as [e' He'].
  { unfold Badger.badgerErrToKVErr. repeat case_match; eauto. }
  rewrite He'. exists e. split; [|done]. left. unfold Badger.to_kv. by rewrite He'.
Qed.

Lemma same_opt_raw e : same_opt e (ffi_err <$> e).
Proof. destruct e as [e|]; [|done]. exists e. eauto. Qed.

Context {BF : BadgerFacts BD BE}.

Lemma get_sim k :
  small k -> op_sim (same_res same_bytes) (Badger.bTxn_Get (normalizeValue k)) (FfiBridge.bTxn_Get k).
Proof.
  intros Hk L h q x a Hm Hh Hq. unfold FfiBridge.bTxn_Get. cbn [FfiBridge.initErr FfiBridge.txn_handle].
  pose proof (on_t_run (objs L) q x a (fun b => btx_Get b (normalizeValue k)) Hq) as Hrun.
  unfold Badger.bTxn_Get. destruct (btx_Get x (normalizeValue k)) as [r x'] eqn:E. cbn [fst snd] in *.
  eassert (txn_Get q (normalizeValue k) (objs L) = Some (_, _)) as Hget.
  { unfold txn_Get. rewrite (bind_some _ _ _ _ _ Hrun). done. }
  pose proof (ffiTxnGet_call L h q k _ _ Hm Hh Hk Hget) as Hc. lapply Hc; clear Hc; [intros Hc|]; cycle 1.
  { destruct r as [item|]; [|done]. destruct (item_ValueCopy item) eqn:Ev; [|done].
    by apply small_normalize, (item_Value_small item). }
  apply leaves_grown in Hc as (L2 & Hg & Hc). eexists _, L2. split; [exact Hc|]. split; [exact Hg|].
  destruct r as [item|e]; [|exists e; eauto]. destruct (item_ValueCopy item) as [v|e]; [|exists e; eauto].
  apply normalize_idem.
Qed.

Lemma has_sim k : small k -> op_sim (same_res eq) (Badger.bTxn_Has (normalizeValue k)) (FfiBridge.bTxn_Has k).
Proof.
  intros Hk L h q x a Hm Hh Hq. unfold FfiBridge.bTxn_Has. cbn [FfiBridge.initErr FfiBridge.txn_handle].
  pose proof (on_t_run (objs L) q x a (fun b => btx_Get b (normalizeValue k)) Hq) as Hrun.
  unfold Badger.bTxn_Has. destruct (btx_Get x (normalizeValue k)) as [r x'] eqn:E. cbn [fst snd] in *.
  eassert (txn_Has q (normalizeValue k) (objs L) = Some (_, _)) as Hhas.
  { unfold txn_Has. rewrite (bind_some _ _ _ _ _ Hrun). done. }
  eapply ffiTxnHas_call in Hhas; [|done..]. apply leaves_grown in Hhas as (L2 & Hg & Hhas).
  eexists _, L2. split; [exact Hhas|]. split; [exact Hg|]. destruct r as [item|e]; [done|].
  destruct (errors_Is e badger_ErrKeyNotFound); [done|]. exists e. eauto.
Qed.

Lemma set_sim k v : small k -> small v ->
  op_sim same_opt (Badger.bTxn_Set (normalizeValue k) (normalizeValue v)) (FfiBridge.bTxn_Set k v).
Proof.
  intros Hk Hv L h q x a Hm Hh Hq. unfold FfiBridge.bTxn_Set. cbn [FfiBridge.initErr FfiBridge.txn_handle].
  pose proof (on_t_run (objs L) q x a (fun b => btx_Set b (normalizeValue k) (normalizeValue v)) Hq) as Hrun.
  eapply (ffiTxnSet_call L h q k v) in Hrun; [|done..]. apply leaves_grown in Hrun as (L2 & Hg & Hrun).
  unfold Badger.bTxn_Set. destruct (btx_Set x _ _) as [e x'].
  eexists _, L2. split; [exact Hrun|]. split; [exact Hg|]. apply same_opt_kv.
Qed.

Lemma delete_sim k : small k ->
  op_sim same_opt (Badger.bTxn_Delete (normalizeValue k)) (FfiBridge.bTxn_Delete k).
Proof.
  intros Hk L h q x a Hm Hh Hq. unfold FfiBridge.bTxn_Delete. cbn [FfiBridge.initErr FfiBridge.txn_handle].
  pose proof (on_t_run (objs L) q x a (fun b => btx_Delete b (normalizeValue k)) Hq) as Hrun.
  eapply (ffiTxnDelete_call L h q k) in Hrun; [|done..]. apply leaves_grown in Hrun as (L2 & Hg & Hrun).
  unfold Badger.bTxn_Delete. destruct (btx_Delete x _) as [e x'].
  eexists _, L2. split; [exact Hrun|]. split; [exact Hg|]. apply same_opt_kv.
Qed.

(** ** A transaction outside of the client's reach

    The implicit transaction of a call of the store, or one of the client's while
    a method of it runs. *)

Definition rel_tmp (N : Z) (a : nat) (f : FSys) (s : Spec) (h : Z) (x : BTx) : Prop :=
  rel_open N a f s /\ unused (FfiBridge.txns (fst_ f)) (Badger.txns (sb s)) (dead_t s) h /\
  txn_of (FfiBridge.lib (fst_ f)) h = Some (mk_Txn x a).

Lemma rel_tmp_grown N a L1 L2 f s h x :
  grown L1 L2 -> rel_tmp N a (with_lib L1 f) s h x -> rel_tmp N a (with_lib L2 f) s h x.
Proof. intros Hg (Hr & Hu & Hx). split; [by eapply rel_grown|]. split; [done|]. by destruct Hg as (b & _ & ->). Qed.

Lemma tmp_put N a f s h q x x' :
  let L := FfiBridge.lib (fst_ f) in
  rel_tmp N a f s h x -> items (txnHandles L) !! h = Some q ->
  rel_tmp N a (with_lib (set_objs (put_txn q (mk_Txn x' a) (objs L)) L) f) s h x'.
Proof.
  cbv zeta. intros ([H1 H2 H3 H4 H5 H6 H7 H8 H9] & Hu & Hx) Hq. rewrite (txn_of_ptr _ _ _ Hq) in Hx.
  destruct (put_txn_frames _ _ _ _ _ x' _ H1 Hq Hx) as (HL & Hx' & HT & HI).
  split; [|done]. split; try done; [by eapply T_rel_frame|by eapply I_rel_frame].
Qed.

Lemma rel_put_db N a f s d :
  let L := FfiBridge.lib (fst_ f) in
  rel_open N a f s ->
  rel_open N a (with_lib (set_objs (put_db a (mk_DB d (Badger.closed (sb s))) (objs L)) L) f)
    (set_sb (Badger.set_db d (sb s)) s).
Proof.
  cbv zeta. intros [H1 H2 H3 H4 H5 H6 H7 H8 H9]. split; try done.
  - by apply lib_inv_objs, hkeeps_db, (li_heap _ _ H1).
  - cbn. rewrite list_lookup_insert_eq; [done|]. by eapply lookup_lt_Some.
Qed.

Lemma tmp_put_db N a f s d h x :
  let L := FfiBridge.lib (fst_ f) in
  rel_tmp N a f s h x ->
  rel_tmp N a (with_lib (set_objs (put_db a (mk_DB d (Badger.closed (sb s))) (objs L)) L) f)
    (set_sb (Badger.set_db d (sb s)) s) h x.
Proof. cbv zeta. intros (Hr & Hu & Hx). split; [by apply rel_put_db|done]. Qed.

Lemma tmp_drop N a f s h x :
  let L := FfiBridge.lib (fst_ f) in
  rel_tmp N a f s h x -> rel_open N a (with_lib (set_txns (delete_h h (txnHandles L)) L) f) s.
Proof.
  cbv zeta. intros ([H1 H2 H3 H4 H5 H6 H7 H8 H9] & Hu & Hx). split; try done; [by apply lib_inv_del_txn|..].
  - eapply T_rel_frame; [done..|]. intros h' y Hne Hy. unfold txn_of in *. cbn. by rewrite lookup_delete_ne.
  - eapply I_rel_frame; [exact H7|]. split; [done|]. split; [done|]. intros h' q _. cbn. by intros [_ ?]%lookup_delete_Some.
Qed.

(** A method of the transaction. *)
Lemma tmp_op {R R'} (agree : R' -> R -> Prop) bop op N a f s h x :
  op_sim agree bop op -> rel_tmp N a f s h x ->
  exists r L', op (FfiBridge.mk_bTxn h None) (FfiBridge.lib (fst_ f)) = Some (r, L') /\ agree (bop x).1 r /\
    rel_tmp N a (with_lib L' f) s h (bop x).2.
Proof.
  intros Hop Hr. pose proof Hr as ([H1 _ _ _ _ _ _ _ _] & _ & (q & Hq & Hx)%txn_of_inv).
  destruct (Hop _ h q x a (li_mem _ _ H1) Hq Hx) as (r & L' & Hrun & Hg & Hag).
  exists r, L'. split_and!; [done..|]. eapply rel_tmp_grown; [exact Hg|]. by eapply tmp_put.
Qed.

Lemma txn_db_of N a f s h x : rel_tmp N a f s h x ->
  exists q, items (txnHandles (FfiBridge.lib (fst_ f))) !! h = Some q /\
    txns (objs (FfiBridge.lib (fst_ f))) !! q = Some (mk_Txn x a) /\
    dbs (objs (FfiBridge.lib (fst_ f))) !! a = Some (mk_DB (Badger.db (sb s)) (Badger.closed (sb s))) /\ h <> 0.
Proof.
  intros ([H1 _ _ H4 _ _ _ _ _] & _ & (q & Hq & Hx)%txn_of_inv). exists q. split_and!; [done..|].
  pose proof (proj1 (proj2 (li_txn _ _ H1)) _ _ Hq). lia.
Qed.

Lemma tmp_commit N a f s h x e x' d' :
  rel_tmp N a f s h x -> Badger.bTxn_Commit x (Badger.db (sb s)) = Some (e, (x', d')) ->
  exists e' L', FfiBridge.bTxn_Commit (FfiBridge.mk_bTxn h None) (FfiBridge.lib (fst_ f)) = Some (e', L') /\
    same_opt e e' /\ rel_tmp N a (with_lib L' f) (set_sb (Badger.set_db d' (sb s)) s) h x'.
Proof.
  intros Hr HC. destruct (txn_db_of _ _ _ _ _ _ Hr) as (q & Hq & Hx & Hd & _). unfold Badger.bTxn_Commit in HC.
  destruct (btx_Commit x (Badger.db (sb s))) as [[e0 r0]|] eqn:E; [|done]. injection HC as <- ->.
  set (L := FfiBridge.lib (fst_ f)) in *.
  assert (txn_Commit q (objs L) = Some (e0, put_db a (mk_DB d' (Badger.closed (sb s)))
    (put_txn q (mk_Txn x' a) (objs L)))) as Hrun.
  { unfold txn_Commit, Ffi.the_txn, the_db, or_panic, deref, mbind, M_bind. rewrite Hx. cbn [t txn_db]. rewrite Hd.
    cbn [Ffi.db closed]. by rewrite E. }
  pose proof (li_mem _ _ (r_inv _ _ _ _ (proj1 Hr))) as Hm.
  pose proof (ffiTxnCommit_call L h q _ _ Hm Hq Hrun) as Hc. apply leaves_grown in Hc as (L' & Hg & Hc).
  exists (ffi_err <$> e0), L'. split; [exact Hc|]. split; [apply same_opt_kv|].
  eapply rel_tmp_grown; [exact Hg|]. eapply (tmp_put _ _ _ _ _ q _ x') in Hr; [|done].
  by apply (tmp_put_db _ _ _ _ d') in Hr.
Qed.

Lemma tmp_discard N a f s h x x' d' :
  rel_tmp N a f s h x -> Badger.bTxn_Discard x (Badger.db (sb s)) = Some (x', d') ->
  exists L', FfiBridge.bTxn_Discard (FfiBridge.mk_bTxn h None) (FfiBridge.lib (fst_ f)) =
      Some (FfiBridge.mk_bTxn 0 None, L') /\
    rel_open N a (with_lib L' f) (set_sb (Badger.set_db d' (sb s)) s).
Proof.
  intros Hr E. destruct (txn_db_of _ _ _ _ _ _ Hr) as (q & Hq & Hx & Hd & H0). unfold Badger.bTxn_Discard in E.
  set (L := FfiBridge.lib (fst_ f)) in *.
  assert (txn_Discard q (objs L) = Some ((), put_db a (mk_DB d' (Badger.closed (sb s)))
    (put_txn q (mk_Txn x' a) (objs L)))) as Hrun.
  { unfold txn_Discard, Ffi.the_txn, the_db, or_panic, deref, mbind, M_bind. rewrite Hx. cbn [t txn_db]. rewrite Hd.
    cbn [Ffi.db closed]. by rewrite E. }
  pose proof (ffiTxnDiscard_call L h q _ H0 Hq Hrun) as Hc. unfold FfiBridge.bTxn_Discard. cbn [FfiBridge.txn_handle].
  rewrite (bind_some _ _ _ _ _ Hc). eexists. split; [done|].
  eapply (tmp_put _ _ _ _ _ q _ x') in Hr; [|done]. apply (tmp_put_db _ _ _ _ d') in Hr. by apply tmp_drop in Hr.
Qed.

(** A new transaction, with the next handle. *)
Lemma tmp_new N a f s ro x b :
  rel_open N a f s -> N + 1 < two64 -> Badger.newTxn ro (sb s) = Some (x, b) ->
  exists h L, FfiBridge.newTxn ro (fst_ f) = Some (FfiBridge.mk_bTxn h None, FfiBridge.set_lib L (fst_ f)) /\
    rel_tmp (N + 1) a (with_lib L f) (set_sb b s) h x.
Proof.
  intros Hr HN Hb. unfold Badger.newTxn, reads, modify, mbind, M_bind, mret, M_ret in Hb.
  destruct (bdb_NewTransaction (Badger.db (sb s)) (negb ro)) as [x0 d] eqn:E. injection Hb as -> <-.
  set (L := FfiBridge.lib (fst_ f)). pose proof (rel_put_db _ _ _ _ d Hr) as Hr1.
  set (h1 := put_db a (mk_DB d (Badger.closed (sb s))) (objs L)) in *. pose proof Hr as [_ H2 H3 H4 _ _ _ _ _]. fold L in H2, H4.
  set (h2 := mk_heap (dbs h1) (txns h1 ++ [mk_Txn x a]) (iters h1)).
  assert (NewTxn a ro (objs L) = Some (length (txns (objs L)), h2)) as Hrun.
  { unfold NewTxn, the_db, deref, mbind, M_bind. rewrite H4. cbn [Ffi.db closed]. by rewrite E. }
  pose proof (ffiDBNewTxn_call L _ a ro _ _ H2 Hrun) as Hc. apply leaves_grown in Hc as (L' & Hg & Hc).
  exists (next (txnHandles L)), L'. split.
  { unfold FfiBridge.newTxn. rewrite (bind_some _ _ _ _ _ (eq_refl : reads _ _ = Some (_, _))), H3.
    unfold FfiBridge.on_lib. by rewrite (bind_some _ _ _ _ _ (zoom_some _ _ _ _ _ _ Hc)). }
  eapply rel_tmp_grown; [exact Hg|]. destruct Hr1 as [I1 I2 I3 I4 I5 I6 I7 I8 I9].
  pose proof (tb_ok_fresh _ _ _ (li_txn _ _ I1)) as Hfr. cbn in Hfr. fold L in Hfr.
  assert (forall h y, txn_of L h = Some y -> txn_of (set_txns (add (length (txns (objs L))) (txnHandles L)).2 (set_objs h2 L)) h
    = Some y) as HF.
  { intros h y (q & Hq & Hy)%txn_of_inv. unfold txn_of. cbn. rewrite lookup_insert_ne by (intros <-; congruence).
    rewrite Hq. cbn. by apply lookup_app_l_Some. }
  assert (unused (FfiBridge.txns (fst_ f)) (Badger.txns (sb s)) (dead_t s) (next (txnHandles L))) as Hu.
  { intros p [y Hp] Hd Hf. destruct (I5 p y Hp Hd) as (h & Hf' & Hy). cbn in Hf'. rewrite Hf in Hf'.
    injection Hf' as <-. apply txn_of_inv in Hy as (q & Hq & _). cbn in Hq. fold L in Hq. congruence. }
  split; [|split; [done|]].
  - split; try done.
    + apply (lib_inv_new_txn N (set_objs h1 L) (mk_Txn x a)); [done| |done]. cbn. rewrite length_insert.
      by eapply lookup_lt_Some.
    + eapply T_rel_frame; [exact I5|exact Hu|]. intros h y _. apply HF.
    + eapply I_rel_frame; [exact I7|]. split; [|split].
      * intros h fi b Hi Hb. split; [done|]. unfold db_of_txn in *. cbn in *.
        apply fmap_Some in Hb as (y & Hy & ->). by rewrite (lookup_app_l_Some _ _ _ _ Hy).
      * pose proof (proj1 (li_txn _ _ (r_inv _ _ _ _ Hr))) as Hnx. fold L in Hnx.
        change (next (txnHandles L) <= uadd (next (txnHandles L)) 1). rewrite uadd_small; lia.
      * intros h q Hlt. change (h < next (txnHandles L)) in Hlt. cbn. rewrite lookup_insert_ne by lia. done.
  - unfold txn_of. cbn. rewrite lookup_insert_eq. cbn. by rewrite lookup_app_r, Nat.sub_diag by lia.
Qed.

(** ** Transactions of the client *)

Definition kill (p : nat) (s : Spec) : Spec := mk_Spec (sb s) (sits s) ({[p]} ∪ dead_t s) (dead_i s) (s_open s).

Lemma unadopt N a f s p :
  rel_open N a f s -> live_t s p = true ->
  exists h x, Badger.txns (sb s) !! p = Some x /\ FfiBridge.txns (fst_ f) !! p = Some (FfiBridge.mk_bTxn h None) /\
    rel_tmp N a f (kill p s) h x.
Proof.
  intros [H1 H2 H3 H4 H5 H6 H7 H8 H9] Hl. apply andb_true_iff in Hl as [[x Hx]%bool_decide_eq_true Hd%bool_decide_eq_true].
  destruct (H5 p x Hx Hd) as (h & Hf & Hh). exists h, x. split_and!; [done..|]. split; [|split; [|done]].
  - split; try done.
    + intros p' x' Hp' Hd'. apply H5; [done|]. set_solver.
    + intros p1 p2 h' E1 E2 D1 D2. apply H6; [done..|set_solver|set_solver].
  - intros p' Hp' Hd' E. cbn in *. assert (p = p') as <-; [|set_solver]. apply (H6 p p' h); [eauto|done|done|set_solver|done..].
Qed.

Lemma adopt N a f s p h x :
  rel_tmp N a f (kill p s) h x -> FfiBridge.txns (fst_ f) !! p = Some (FfiBridge.mk_bTxn h None) ->
  rel_open N a f (set_sb (Badger.set_txn p x (sb s)) s).
Proof.
  intros ([H1 H2 H3 H4 H5 H6 H7 H8 H9] & Hu & Hx) Hp. split; try done; cycle 2.
  { by apply I_rel_put. }
  - intros p' x' Hp' Hd. cbn in Hp'. apply lookup_insert_Some in Hp' as [[<- <-]|[Hne Hp']]; [eauto|].
    apply H5; [done|]. cbn in *. set_solver.
  - assert (forall p', p' <> p -> is_Some (<[p := x]> (Badger.txns (sb s)) !! p') -> p' ∉ dead_t s ->
      is_Some (Badger.txns (sb s) !! p') /\ p' ∉ dead_t (kill p s)) as Hother.
    { intros p' Hne Hp' Hd. rewrite lookup_insert_ne in Hp' by done. split; [done|]. cbn. set_solver. }
    intros p1 p2 h' E1 E2 D1 D2 F1 F2. cbn in E1, E2.
    destruct (decide (p1 = p)) as [-> |N1], (decide (p2 = p)) as [-> |N2]; [done|..].
    + destruct (Hother p2 N2 E2 D2) as [S2 K2]. destruct (Hu p2 S2 K2). congruence.
    + destruct (Hother p1 N1 E1 D1) as [S1 K1]. destruct (Hu p1 S1 K1). congruence.
    + destruct (Hother p1 N1 E1 D1), (Hother p2 N2 E2 D2). by apply (H6 p1 p2 h').
Qed.

(** The client's variable [p] of a transaction that the specification does not
    know, or, without a handle, of one that it knows no longer. *)
Definition forgotten (s : Spec) (p : nat) (bt : FfiBridge.bTxn) : Prop :=
  Badger.txns (sb s) !! p = None \/ (p ∈ dead_t s /\ FfiBridge.txn_handle bt = 0).

Lemma rel_ftx N a f s p bt :
  rel_open N a f s -> forgotten s p bt ->
  rel_open N a (mk_FSys (FfiBridge.set_txn p bt (fst_ f)) (fits f)) s.
Proof.
  intros [H1 H2 H3 H4 H5 H6 [H7 H7'] H8 H9] Hp.
  assert (forall p', is_Some (Badger.txns (sb s) !! p') -> p' ∉ dead_t s -> p <> p') as Hne.
  { intros p' [x Hx] Hd <-. destruct Hp as [Hp|[Hp _]]; [congruence|done]. }
  split; try done.
  - intros p' x Hp' Hd. cbn. rewrite lookup_insert_ne by (apply Hne; eauto). by apply H5.
  - intros p1 p2 h E1 E2 D1 D2. cbn. rewrite !lookup_insert_ne by (by apply Hne). by apply H6.
  - split; [done|]. intros j it Hj Hd. destruct (H7' j it Hj Hd) as (h & fi & F1 & F2 & F3 & F4 & F5 & F6).
    exists h, fi. split_and!; try done. intros h' Hh'. cbn in *.
    apply lookup_insert_Some in Hh' as [[Ep ->]|[_ Hh']]; [|by apply F6].
    destruct Hp as [Hp|[_ Hp]]; [rewrite Ep in Hp; destruct F5; congruence|]. cbn in Hp. subst h'.
    pose proof (li_txn _ _ H1) as (Hnx & Hval & _). split; [lia|]. intros q' Hq'. apply Hval in Hq'. lia.
Qed.

Lemma tmp_ftx N a f s p bt h x :
  rel_tmp N a f s h x -> forgotten s p bt ->
  rel_tmp N a (mk_FSys (FfiBridge.set_txn p bt (fst_ f)) (fits f)) s h x.
Proof.
  intros (Hr & Hu & Hx) Hp. split; [by apply rel_ftx|]. split; [|done]. intros p' [x' Hp'] Hd. cbn.
  rewrite lookup_insert_ne; [apply Hu; eauto|]. intros <-. destruct Hp as [Hp|[Hp _]]; [congruence|done].
Qed.

Lemma tmp_kill N a f s p h x : rel_tmp N a f s h x -> rel_tmp N a f (kill p s) h x.
Proof.
  intros ([H1 H2 H3 H4 H5 H6 H7 H8 H9] & Hu & Hx). split; [|split; [|done]].
  - split; try done.
    + intros p' x' Hp' Hd'. apply H5; [done|]. cbn in *. set_solver.
    + intros p1 p2 h' E1 E2 D1 D2. apply H6; [done..|set_solver|set_solver].
  - intros p' Hp' Hd'. apply Hu; [done|]. cbn in *. set_solver.
Qed.
End refine.
