(* ===== verification/FfiSim.v ===== *)
(** The simulation: every call of the FFI backend, and any sequence of them,
    answers as the specification machine over the badger backend. *)
From stdpp Require Import gmap.
From S2P Require Import Prelude BTree Kv Badger GoMonad Ffi FfiLib FfiBridge FfiSpec FfiInv FfiRefine.
From Stdlib Require Import Strings.Byte.
From Stdlib Require Strings.String.
Import Strings.String.StringSyntax.
Import Ffi FfiLib.

(** ** The movements of iterators *)

Section movements.
Context {BD : BadgerDB} {BP : BadgerPanics BD}.

(** The movements are those of the badger backend, though its [valid] asks for an
    item only if there are bounds. *)
Lemma valid_as p cl it : Badger.valid (as_badger p cl it) = valid it.
Proof.
  unfold Badger.valid, valid. cbn [as_badger Badger.i Badger.start Badger.end_].
  destruct (bit_Valid (i it)) eqn:E; [|done]. cbn [negb]. destruct (bit_Item_valid _ E) as [item ->].
  destruct (0 <? blen (start it))%nat, (0 <? blen (end_ it))%nat; cbn; try (destruct (lt _ _)); cbn; try done.
  all: by destruct (gte _ _).
Qed.

(** The result of a movement in the badger backend. *)
Definition as_result (p : nat) (cl : option nat) (r : bool * Iterator) : bool * Badger.iterator :=
  (r.1, as_badger p cl r.2).

Lemma advance_as p cl it : Badger.advance (as_badger p cl it) = as_result p cl <$> advance it.
Proof.
  unfold Badger.advance, advance. cbn [as_badger Badger.i]. destruct (negb _); [done|].
  destruct (bit_Next (i it)) as [x|]; [|done]. cbn.
  change (Badger.set_i x (as_badger p cl it)) with (as_badger p cl (set_i x it)). rewrite valid_as.
  by destruct (valid (set_i x it)).
Qed.

Lemma seek_as p cl it k : Badger.seek (as_badger p cl it) k = as_result p cl <$> seek it k.
Proof.
  unfold Badger.seek, seek. cbn [as_badger Badger.i_reverse Badger.end_ Badger.start Badger.i Badger.set_reset
    set_reset i start end_ i_reverse].
  match goal with |- context [bit_Seek (i it) ?tgt] => destruct (bit_Seek (i it) tgt) as [x|] end; [|done]. cbn.
  match goal with |- context [Badger.valid ?j] => change j with (as_badger p cl (set_i x (set_reset false it))) end.
  rewrite valid_as. destruct (valid (set_i x (set_reset false it))) as [[|]|]; [done| |done]. apply advance_as.
Qed.

Lemma next_as p cl it : Badger.next (as_badger p cl it) = as_result p cl <$> Ffi.next it.
Proof.
  unfold Badger.next, Ffi.next, Badger.restart, restart. cbn [as_badger Badger.reset].
  destruct (reset it); [|apply advance_as]. cbn. destruct (i_reverse it); apply (seek_as p cl (set_reset false it)).
Qed.
End movements.

Section sim.
Context {BD : BadgerDB} {BE : BadgerLib} {BF : BadgerFacts BD BE}.
Context {cm : gmap nat bytes}.
Local Notation rel_open := (FfiRefine.rel_open (cm := cm)).
Local Notation rel := (FfiRefine.rel (cm := cm)).
Local Notation rel_tmp := (FfiRefine.rel_tmp (cm := cm)).

(** ** Calls of the store and of transactions *)

Lemma on_lib_some {A} (m : M Lib A) st a L :
  m (FfiBridge.lib st) = Some (a, L) -> FfiBridge.on_lib m st = Some (a, FfiBridge.set_lib L st).
Proof. apply (zoom_some FfiBridge.lib FfiBridge.set_lib). Qed.

Lemma on_store_some {A} (m : M FfiBridge.State A) (f : FSys) a st :
  m (fst_ f) = Some (a, st) -> on_store m f = Some (a, mk_FSys st (fits f)).
Proof. apply (zoom_some fst_ (fun s f => mk_FSys s (fits f))). Qed.

(** The deferred [Discard] of an implicit transaction. *)
Lemma sim_discard_implicit N a f s h x b :
  rel_tmp N a f s h x -> Badger.discard_implicit x (sb s) = Some (tt, b) ->
  exists L', FfiBridge.bTxn_Discard (FfiBridge.mk_bTxn h None) (FfiBridge.lib (fst_ f)) =
      Some (FfiBridge.mk_bTxn 0 None, L') /\ rel_open N a (with_lib L' f) (set_sb b s).
Proof.
  intros Hr Hb. unfold Badger.discard_implicit, reads, or_panic, deref, modify, mbind, M_bind in Hb.
  destruct (Badger.bTxn_Discard x (Badger.db (sb s))) as [[x' d']|] eqn:E; [|done]. injection Hb as <-.
  by eapply tmp_discard.
Qed.

Lemma sim_read {R R'} (agree : R' -> R -> Prop) bop op N a f s r' b :
  op_sim agree bop op -> rel_open N a f s -> N + 1 < two64 -> Badger.implicit_read bop (sb s) = Some (r', b) ->
  exists r L, FfiBridge.implicit_read op (fst_ f) = Some (r, FfiBridge.set_lib L (fst_ f)) /\ agree r' r /\
    rel_open (N + 1) a (with_lib L f) (set_sb b s).
Proof.
  intros Hop Hr HN (x & b1 & Hx & Hb)%bind_inv. destruct (tmp_new N a f s true x b1 Hr HN Hx) as (h & L1 & Hn & H1).
  destruct (tmp_op agree bop op _ _ _ _ _ _ Hop H1) as (r & L2 & Ho & Hag & H2).
  destruct (bop x) as [r0 x']. cbn [fst snd] in *. apply bind_inv in Hb as ([] & b2 & Hd & [= <- <-]).
  destruct (sim_discard_implicit _ _ _ _ _ _ _ H2 Hd) as (L3 & Hdis & H3).
  exists r, L3. split_and!; [|done..]. unfold FfiBridge.implicit_read. rewrite (bind_some _ _ _ _ _ Hn).
  rewrite (bind_some _ _ _ _ _ (on_lib_some _ (FfiBridge.set_lib L1 (fst_ f)) _ _ Ho)).
  by rewrite (bind_some _ _ _ _ _ (on_lib_some _ (FfiBridge.set_lib L2 (fst_ f)) _ _ Hdis)).
Qed.

Lemma sim_write bop op N a f s e' b :
  op_sim same_opt bop op -> rel_open N a f s -> N + 1 < two64 -> Badger.implicit_write bop (sb s) = Some (e', b) ->
  exists e L, FfiBridge.implicit_write op (fst_ f) = Some (e, FfiBridge.set_lib L (fst_ f)) /\ same_opt e' e /\
    rel_open (N + 1) a (with_lib L f) (set_sb b s).
Proof.
  intros Hop Hr HN (x & b1 & Hx & Hb)%bind_inv. destruct (tmp_new N a f s false x b1 Hr HN Hx) as (h & L1 & Hn & H1).
  destruct (tmp_op same_opt bop op _ _ _ _ _ _ Hop H1) as (e & L2 & Ho & Hag & H2). destruct (bop x) as [e0 x'].
  cbn [fst snd] in *. unfold FfiBridge.implicit_write. rewrite (bind_some _ _ _ _ _ Hn).
  rewrite (bind_some _ _ _ _ _ (on_lib_some _ (FfiBridge.set_lib L1 (fst_ f)) _ _ Ho)).
  destruct e0 as [e0|], e as [e|]; try done.
  - apply bind_inv in Hb as ([] & b2 & Hd & [= <- <-]).
    destruct (sim_discard_implicit _ _ _ _ _ _ _ H2 Hd) as (L3 & Hdis & H3).
    exists (Some e), L3. split_and!; [|done..]. cbv match. rewrite bind_ret.
    by rewrite (bind_some _ _ _ _ _ (on_lib_some _ (FfiBridge.set_lib L2 (fst_ f)) _ _ Hdis)).
  - apply bind_inv in Hb as (d & b2 & [= <- <-] & Hb). apply bind_inv in Hb as ([e1 [x2 d2]] & b3 & Hc & Hb).
    unfold or_panic, deref in Hc. destruct (Badger.bTxn_Commit x' (Badger.db b1)) as [[e2 [x3 d3]]|] eqn:EC; [|done].
    injection Hc as -> -> -> <-. apply bind_inv in Hb as ([] & b4 & [= <-] & Hb).
    apply bind_inv in Hb as ([] & b5 & Hd & [= <- <-]).
    destruct (tmp_commit _ _ _ _ _ _ _ _ _ H2 EC) as (e & L3 & Hcom & Hag' & H3).
    destruct (sim_discard_implicit _ _ _ _ _ _ _ H3 Hd) as (L4 & Hdis & H4).
    exists e, L4. split_and!; [|done..].
    rewrite (bind_some _ _ _ _ _ (on_lib_some _ (FfiBridge.set_lib L2 (fst_ f)) _ _ Hcom)).
    by rewrite (bind_some _ _ _ _ _ (on_lib_some _ (FfiBridge.set_lib L3 (fst_ f)) _ _ Hdis)).
Qed.

(** The transaction at an address. *)
Lemma the_txn_some p b x : Badger.txns b !! p = Some x -> Badger.the_txn p b = Some (x, b).
Proof. apply (deref_some (fun b => Badger.txns b !! p)). Qed.

Lemma sim_on_txn {R R'} (agree : R' -> R -> Prop) bop op N a f s p r' b :
  op_sim agree bop op -> rel_open N a f s -> live_t s p = true -> Badger.on_txn p bop (sb s) = Some (r', b) ->
  exists r L, FfiBridge.on_txn p op (fst_ f) = Some (r, FfiBridge.set_lib L (fst_ f)) /\ agree r' r /\
    rel_open N a (with_lib L f) (set_sb b s).
Proof.
  intros Hop Hr Hl Hb. destruct (unadopt _ _ _ _ _ Hr Hl) as (h & x & Hx & Hf & H1).
  destruct (tmp_op agree bop op _ _ _ _ _ _ Hop H1) as (r & L & Ho & Hag & H2).
  unfold Badger.on_txn in Hb. rewrite (bind_some _ _ _ _ _ (the_txn_some _ _ _ Hx)) in Hb.
  destruct (bop x) as [r0 x']. injection Hb as <- <-. exists r, L. split_and!; [|done|].
  - unfold FfiBridge.on_txn, FfiBridge.the_txn. rewrite (bind_some _ _ _ _ _ (deref_some _ (fst_ f) _ Hf)).
    by apply on_lib_some.
  - by eapply adopt.
Qed.

Lemma sim_commit N a f s p e' b :
  rel_open N a f s -> live_t s p = true -> Badger.txn_Commit p (sb s) = Some (e', b) ->
  exists e L, FfiBridge.on_txn p FfiBridge.bTxn_Commit (fst_ f) = Some (e, FfiBridge.set_lib L (fst_ f)) /\
    same_opt e' e /\ rel_open N a (with_lib L f) (set_sb b s).
Proof.
  intros Hr Hl Hb. destruct (unadopt _ _ _ _ _ Hr Hl) as (h & x & Hx & Hf & H1).
  unfold Badger.txn_Commit in Hb. rewrite (bind_some _ _ _ _ _ (the_txn_some _ _ _ Hx)) in Hb.
  unfold reads, or_panic, deref, modify, mbind, M_bind in Hb.
  destruct (Badger.bTxn_Commit x (Badger.db (sb s))) as [[e0 [x' d']]|] eqn:EC; [|done]. injection Hb as <- <-.
  destruct (tmp_commit _ _ _ _ _ _ _ _ _ H1 EC) as (e & L & Hcom & Hag & H2).
  exists e, L. split_and!; [|done|].
  - unfold FfiBridge.on_txn, FfiBridge.the_txn. rewrite (bind_some _ _ _ _ _ (deref_some _ (fst_ f) _ Hf)).
    by apply on_lib_some.
  - by apply (adopt N a (with_lib L f) (set_sb (Badger.set_db d' (sb s)) s) p h x').
Qed.

(** A new transaction as the client's [p]. *)
Lemma adopt_new N a f s p h x :
  rel_tmp N a f s h x -> Badger.txns (sb s) !! p = None ->
  rel_open N a (mk_FSys (FfiBridge.set_txn p (FfiBridge.mk_bTxn h None) (fst_ f)) (fits f))
    (set_sb (Badger.set_txn p x (sb s)) s).
Proof.
  intros H1 Hp. apply (tmp_ftx _ _ _ _ p (FfiBridge.mk_bTxn h None)) in H1; [|by left]. apply (tmp_kill _ _ _ _ p) in H1.
  apply (adopt _ _ _ s) in H1; [done|]. cbn. apply lookup_insert_eq.
Qed.

Lemma newTxn_txns ro b x b' : Badger.newTxn ro b = Some (x, b') -> Badger.txns b' = Badger.txns b.
Proof.
  unfold Badger.newTxn, reads, modify, mbind, M_bind, mret, M_ret. destruct (bdb_NewTransaction _ _). by intros [= _ <-].
Qed.

Lemma sim_new_txn N a f s p ro b :
  rel_open N a f s -> N + 1 < two64 -> fresh_t s p = true -> Badger.NewTxn p ro (sb s) = Some (tt, b) ->
  exists f', on_store (FfiBridge.NewTxn p ro) f = Some (tt, f') /\ rel_open (N + 1) a f' (set_sb b s).
Proof.
  intros Hr HN [Hp%bool_decide_eq_true _]%andb_true_iff (x & b1 & Hx & [= <-])%bind_inv.
  destruct (tmp_new N a f s ro x b1 Hr HN Hx) as (h & L & Hn & H1).
  eexists. split.
  - apply on_store_some. unfold FfiBridge.NewTxn. by rewrite (bind_some _ _ _ _ _ Hn).
  - apply (adopt_new _ _ _ _ p) in H1; [exact H1|]. cbn. by rewrite (newTxn_txns _ _ _ _ Hx).
Qed.

(** The specification forgets a dead transaction. *)
Lemma rel_btx_dead N a f s p x :
  rel_open N a f (kill p s) -> rel_open N a f (kill p (set_sb (Badger.set_txn p x (sb s)) s)).
Proof.
  intros [H1 H2 H3 H4 H5 H6 H7 H8 H9]. split; try done.
  - intros p' x' Hp' Hd. cbn in Hp'. apply lookup_insert_Some in Hp' as [[<- <-]|[Hne Hp']]; [cbn in Hd; set_solver|].
    by apply H5.
  - intros p1 p2 h E1 E2 D1 D2. cbn in *. rewrite lookup_insert_ne in E1, E2 by set_solver. by apply (H6 p1 p2 h).
  - by apply I_rel_put.
Qed.

Lemma sim_discard N a f s p b :
  rel_open N a f s -> live_t s p = true -> Badger.txn_Discard p (sb s) = Some (tt, b) ->
  exists st, FfiBridge.txn_Discard p (fst_ f) = Some (tt, st) /\
    rel_open N a (mk_FSys st (fits f)) (kill p (set_sb b s)).
Proof.
  intros Hr Hl Hb. destruct (unadopt _ _ _ _ _ Hr Hl) as (h & x & Hx & Hf & H1).
  unfold Badger.txn_Discard in Hb. rewrite (bind_some _ _ _ _ _ (the_txn_some _ _ _ Hx)) in Hb.
  unfold reads, or_panic, deref, modify, mbind, M_bind in Hb.
  destruct (Badger.bTxn_Discard x (Badger.db (sb s))) as [[x' d']|] eqn:ED; [|done]. injection Hb as <-.
  destruct (tmp_discard _ _ _ _ _ _ _ _ H1 ED) as (L & Hdis & H2).
  eexists. split.
  - unfold FfiBridge.txn_Discard, FfiBridge.the_txn. rewrite (bind_some _ _ _ _ _ (deref_some _ (fst_ f) _ Hf)).
    by rewrite (bind_some _ _ _ _ _ (on_lib_some _ _ _ _ Hdis)).
  - apply (rel_btx_dead N a _ (set_sb (Badger.set_db d' (sb s)) s) p x').
    apply (rel_ftx N a (with_lib L f)); [done|]. right. split; [cbn; set_solver|done].
Qed.

(** ** Iterators *)

Lemma to_kv_closed : Badger.to_kv badger_ErrDBClosed = ErrDBClosed.
Proof.
  destruct badger_sentinels as (m1 & m2 & m3 & m4 & m5 & m6 & m7 & m8 & E1 & E2 & E3 & E4 & E5 & _ & _ & _ & Hnd).
  unfold Badger.to_kv, Badger.badgerErrToKVErr, Badger.badgerErrToKVErrMap. rewrite E1, E2, E3, E4.
  rewrite !NoDup_cons in Hnd. decompose [and] Hnd. rewrite !not_elem_of_cons in *.
  repeat first [rewrite bool_decide_true by done | rewrite bool_decide_false by (intros [=]; subst; tauto)]. done.
Qed.

Lemma same_err_closed : same_err ErrDBClosed (ffi_err badger_ErrDBClosed).
Proof. exists badger_ErrDBClosed. split; [left; symmetry; apply to_kv_closed|done]. Qed.

(** What the client's iterator [j] is. *)
Lemma live_iter N a f s j it :
  rel_open N a f s -> live_it s j = Some it ->
  exists h q fi y, fits f !! j = Some (FfiBridge.mk_iterator h (Badger.closer it)) /\ h <> 0 /\ (j ∉ dead_i s) /\
    sits s !! j = Some it /\
    items (iterHandles (FfiBridge.lib (fst_ f))) !! h = Some q /\ iters (objs (FfiBridge.lib (fst_ f))) !! q = Some fi /\
    it = as_badger (Badger.it_txn it) (Badger.closer it) fi /\
    txns (objs (FfiBridge.lib (fst_ f))) !! it_txn fi = Some y /\ txn_db y = a.
Proof.
  intros Hr. unfold live_it. case_bool_decide as Hd; [|done]. intros Hj.
  destruct (proj2 (r_iter _ _ _ _ Hr) j it Hj Hd) as (h & fi & H1 & (q & Hq & Hfi)%iter_of_inv & H3 & H4 & _).
  apply fmap_Some in H4 as (y & Hy & ->). exists h, q, fi, y. split_and!; try done.
  pose proof (proj1 (proj2 (li_iter _ _ (r_inv _ _ _ _ Hr))) _ _ Hq). lia.
Qed.

(** A change of the iterator [j]. *)
Lemma rel_put_iter N a f s j it h q fi fi' :
  let L := FfiBridge.lib (fst_ f) in
  rel_open N a f s -> sits s !! j = Some it -> j ∉ dead_i s ->
  fits f !! j = Some (FfiBridge.mk_iterator h (Badger.closer it)) ->
  items (iterHandles L) !! h = Some q -> iters (objs L) !! q = Some fi ->
  it_txn fi' = it_txn fi -> bit_closed (i fi') = bit_closed (i fi) ->
  rel_open N a (with_lib (set_objs (put_iter q fi' (objs L)) L) f)
    (set_sits (<[j := as_badger (Badger.it_txn it) (Badger.closer it) fi']> (sits s)) s).
Proof.
  cbv zeta. intros [H1 H2 H3 H4 H5 H6 [H7 H7'] H8 H9] Hj Hd Hf Hq Hfi Ht Hc. split; try done.
  - apply lib_inv_objs; [done|]. eapply hkeeps_iter; [apply (li_heap _ _ H1)|exact Hfi|done..].
  - split; [cbn; by rewrite length_insert|]. intros j' it' Hj' Hd'. cbn in Hj'.
    destruct (H7' j it Hj Hd) as (h0 & fi0 & G1 & G2 & _ & G4 & G5 & G6).
    assert (fi0 = fi) as ->.
    { rewrite Hf in G1. injection G1 as <-. unfold iter_of in G2. rewrite Hq in G2. cbn in G2. congruence. }
    apply list_lookup_insert_Some in Hj' as [(<- & <- & _)|[Hne Hj']].
    + exists h, fi'. rewrite Ht. split_and!; [done| |done..].
      unfold iter_of. cbn. rewrite Hq. cbn. apply list_lookup_insert_eq. by eapply lookup_lt_Some.
    + destruct (H7' j' it' Hj' Hd') as (h' & fi2 & F1 & (q' & Hq' & F2)%iter_of_inv & F3 & F4 & F5 & F6).
      exists h', fi2. split_and!; [done| |done..]. unfold iter_of. cbn. rewrite Hq'. cbn.
      rewrite list_lookup_insert_ne; [done|]. intros <-. destruct Hne.
      apply (H8 j j' _ _ Hf F1 Hd Hd'). cbn. by eapply (proj2 (proj2 (li_iter _ _ H1))).
Qed.

(** A change of an iterator without a handle. *)
Lemma rel_put_unused N a f s q fi fi' :
  let L := FfiBridge.lib (fst_ f) in
  rel_open N a f s -> iters (objs L) !! q = Some fi -> it_txn fi' = it_txn fi ->
  (forall h, items (iterHandles L) !! h <> Some q) ->
  rel_open N a (with_lib (set_objs (put_iter q fi' (objs L)) L) f) s.
Proof.
  cbv zeta. intros [H1 H2 H3 H4 H5 H6 [H7 H7'] H8 H9] Hfi Ht Hun. split; try done.
  - pose proof (heap_it_txn _ _ _ (li_heap _ _ H1) Hfi) as Hlt. destruct H1 as [I1 I2 I3 [I4 I4'] I5 I6].
    split; cbn; rewrite ?length_insert; try done.
    + split; cbn; [done|]. apply Forall_insert; [done|]. by rewrite Ht.
    + intros h q' it Hq' [(<- & _)|[_ Hit]]%list_lookup_insert_Some; [by destruct (Hun h)|by eapply I6].
  - split; [done|]. intros j it Hj Hd.
    destruct (H7' j it Hj Hd) as (h & fi2 & F1 & (q' & Hq' & F2)%iter_of_inv & F3 & F4 & F5 & F6).
    exists h, fi2. split_and!; try done. unfold iter_of. cbn. rewrite Hq'. cbn.
    rewrite list_lookup_insert_ne; [done|]. intros <-. by destruct (Hun h).
Qed.

Lemma unless_closed_run (h : heap) q fi y d c g :
  iters h !! q = Some fi -> txns h !! it_txn fi = Some y -> dbs h !! txn_db y = Some (mk_DB d c) ->
  unless_closed q g h =
    if c then Some (Err badger_ErrDBClosed, h)
    else match g fi with None => None | Some r => Some (Ok r.1, put_iter q r.2 h) end.
Proof.
  intros H1 H2 H3. unfold unless_closed, the_iter, Ffi.the_txn, the_db, or_panic, deref, mbind, M_bind.
  rewrite H1, H2, H3. cbn [closed]. destruct c; [done|]. by destruct (g fi) as [[b it]|].
Qed.

(** A movement of the iterator. *)
Lemma sim_move N a f s j it (g : Iterator -> option (bool * Iterator))
    (bg : Badger.iterator -> option (bool * Badger.iterator)) (call : Z -> M Lib (result bool)) r' it' :
  (forall fi, bit_closed (i fi) = false -> exists r, g fi = Some r /\ moved fi r) ->
  (forall p cl fi, bg (as_badger p cl fi) = as_result p cl <$> g fi) ->
  (forall L h q r H, mem_ok L -> items (iterHandles L) !! h = Some q -> unless_closed q g (objs L) = Some (r, H) ->
     leaves (call h) L (conv id r) (set_objs H L)) ->
  rel_open N a f s -> live_it s j = Some it ->
  (if Badger.closed (sb s) then Some (Err ErrDBClosed, it) else Badger.lift <$> bg it) = Some (r', it') ->
  exists h r L, fits f !! j = Some (FfiBridge.mk_iterator h (Badger.closer it)) /\
    call h (FfiBridge.lib (fst_ f)) = Some (r, L) /\ same_res eq r' r /\
    rel_open N a (with_lib L f) (set_sits (<[j := it']> (sits s)) s).
Proof.
  intros Hg Hbg Hcall Hr Hl Hm.
  destruct (live_iter _ _ _ _ _ _ Hr Hl) as (h & q & fi & y & Hf & H0 & Hd & Hj & Hq & Hfi & Hit & Hy & Ha).
  pose proof (r_db _ _ _ _ Hr) as Hdb. rewrite <- Ha in Hdb.
  pose proof (unless_closed_run _ _ _ _ _ _ g Hfi Hy Hdb) as Hrun.
  destruct (Badger.closed (sb s)).
  - injection Hm as <- <-. apply (Hcall _ _ _ _ _ (li_mem _ _ (r_inv _ _ _ _ Hr)) Hq) in Hrun.
    apply leaves_grown in Hrun as (L & Hgr & Hrun). exists h, (Err (ffi_err badger_ErrDBClosed)), L.
    split_and!; [done|done|apply same_err_closed|]. rewrite list_insert_id by done.
    eapply (rel_grown _ _ (FfiBridge.lib (fst_ f))); [by destruct (FfiBridge.lib (fst_ f))|]. destruct f as [[] ?], s. done.
  - pose proof (li_open _ _ (r_inv _ _ _ _ Hr) _ _ _ Hq Hfi) as Hop. destruct (Hg fi Hop) as ([b fi'] & Eg & Ht & Hc').
    rewrite Eg in Hrun. apply (Hcall _ _ _ _ _ (li_mem _ _ (r_inv _ _ _ _ Hr)) Hq) in Hrun.
    apply leaves_grown in Hrun as (L & Hgr & Hrun). rewrite Hit, Hbg, Eg in Hm. injection Hm as <- <-.
    exists h, (Ok b), L. split_and!; [done..|].
    eapply rel_grown; [exact Hgr|]. eapply rel_put_iter; try done. cbn in Hc'. cbn [snd]. by rewrite Hc', Hop.
Qed.

(** A new iterator of the client's transaction [p] in the library and in both lists. *)
Lemma rel_new_iter N a f s h x q p mk cl :
  let L := FfiBridge.lib (fst_ f) in
  rel_tmp N a f s h x -> N + 1 < two64 -> items (txnHandles L) !! h = Some q -> it_txn mk = q ->
  bit_closed (i mk) = false -> is_Some (Badger.txns (sb s) !! p) ->
  FfiBridge.txns (fst_ f) !! p = Some (FfiBridge.mk_bTxn h None) ->
  rel_tmp (N + 1) a
    (mk_FSys (FfiBridge.set_lib (set_iters (add (length (iters (objs L))) (iterHandles L)).2
       (set_objs (mk_heap (dbs (objs L)) (txns (objs L)) (iters (objs L) ++ [mk])) L)) (fst_ f))
       (fits f ++ [FfiBridge.mk_iterator (next (iterHandles L)) cl]))
    (set_sits (sits s ++ [as_badger p cl mk]) s) h x.
Proof.
  cbv zeta. intros Hr HN Hq Hmk Hop Hp Hfp. set (L := FfiBridge.lib (fst_ f)) in *.
  destruct Hr as ([H1 H2 H3 H4 H5 H6 [H7 H7'] H8 H9] & Hu & Hxh).
  pose proof (tb_ok_fresh _ _ _ (li_iter _ _ H1)) as Hfr. fold L in Hfr, H1, H2, H4, H7', Hxh.
  pose proof Hxh as Hx. rewrite (txn_of_ptr _ _ _ Hq) in Hx.
  split; [|done]. split; try done.
  + apply lib_inv_new_iter; [done| |done|done]. rewrite Hmk. by eapply lookup_lt_Some.
  + split; [cbn; by rewrite !length_app, H7|]. intros j it Hj Hdj. cbn in Hj.
    apply lookup_app_Some in Hj as [Hj|[Hge Hj]].
    * destruct (H7' j it Hj Hdj) as (h' & fi & F1 & (q' & Hq' & F2)%iter_of_inv & F3 & F4 & F5 & F6). exists h', fi.
      split_and!; [by apply lookup_app_l_Some| |done..]. unfold iter_of. cbn.
      rewrite lookup_insert_ne by (intros <-; congruence). rewrite Hq'. cbn. by apply lookup_app_l_Some.
    * apply list_lookup_singleton_Some in Hj as [Hj <-]. exists (next (iterHandles L)), mk. split_and!; [|..|done| |done|].
      -- cbn. rewrite lookup_app_r by lia. by rewrite H7, Hj.
      -- unfold iter_of. cbn. rewrite lookup_insert_eq. cbn. by rewrite lookup_app_r, Nat.sub_diag by lia.
      -- unfold db_of_txn. cbn. by rewrite Hmk, Hx.
      -- intros h' Hh'. cbn in Hh'. rewrite Hfp in Hh'. injection Hh' as <-. cbn.
         pose proof (proj1 (proj2 (li_txn _ _ H1)) _ _ Hq) as Hlt. split; [lia|]. intros q' Hq'. congruence.
  + intros j j' it it' Hj Hj' D D' E. cbn in Hj, Hj'.
    assert (forall j it, fits f !! j = Some it -> j ∉ dead_i s -> FfiBridge.it_handle it <> next (iterHandles L)) as Hold.
    { intros j1 it1 Hj1 Hd1 E1. pose proof Hj1 as Hlt%lookup_lt_Some. rewrite H7 in Hlt.
      apply lookup_lt_is_Some_2 in Hlt as [it2 Hj2]. destruct (H7' _ _ Hj2 Hd1) as (h' & fi & F1 & (q' & Hq' & _)%iter_of_inv & _).
      rewrite F1 in Hj1. injection Hj1 as <-. cbn in E1. congruence. }
    apply lookup_app_Some in Hj as [Hj|[Hge Hj]]; apply lookup_app_Some in Hj' as [Hj'|[Hge' Hj']].
    * by eapply H8.
    * apply list_lookup_singleton_Some in Hj' as [_ <-]. by destruct (Hold _ _ Hj D).
    * apply list_lookup_singleton_Some in Hj as [_ <-]. by destruct (Hold _ _ Hj' D').
    * apply list_lookup_singleton_Some in Hj as [? _], Hj' as [? _]. lia.
Qed.

(** A new iterator of the badger backend. *)
Lemma bTxn_iterator_as b p q x o :
  Badger.bTxn_iterator b p x (norm_opts o) =
    if Badger.closed b then Some (Err ErrDBClosed, x)
    else match btx_NewIterator x (Ffi.Prefix (ffi_opts o)) (i_Reverse (ffi_opts o)) (negb (i_KeysOnly (ffi_opts o))) with
         | None => None
         | Some (bi, y) => Some (Ok (as_badger p None (iter_with q bi (ffi_opts o))), y)
         end.
Proof.
  unfold Badger.bTxn_iterator, Badger.newPrefixIterator, Badger.newRangeIterator, iter_with. rewrite !bytesPrefixEnd_same.
  destruct (Badger.closed b); [done|]. cbn. destruct (normalizeValue (Kv.Prefix o)); cbn [is_nil negb];
    by destruct (btx_NewIterator _ _ _ _) as [[bi y]|].
Qed.

(** A new iterator over the client's transaction [p], for any closer. *)
Lemma tmp_iterator N a f s h x p o r x' :
  rel_tmp N a f s h x -> N + 1 < two64 -> small_opts o ->
  Badger.bTxn_iterator (sb s) p x (norm_opts o) = Some (r, x') ->
  match r with
  | Err e => exists e' L, FfiBridge.bTxn_iterator (FfiBridge.mk_bTxn h None) o (FfiBridge.lib (fst_ f)) = Some (Err e', L) /\
      same_err e e' /\ rel_tmp N a (with_lib L f) s h x'
  | Ok it =>
      is_Some (Badger.txns (sb s) !! p) -> FfiBridge.txns (fst_ f) !! p = Some (FfiBridge.mk_bTxn h None) ->
      exists hi fi L,
      FfiBridge.bTxn_iterator (FfiBridge.mk_bTxn h None) o (FfiBridge.lib (fst_ f)) =
        Some (Ok (FfiBridge.mk_iterator hi None), L) /\ it = as_badger p None fi /\
      forall cl, rel_tmp (N + 1) a (mk_FSys (FfiBridge.set_lib L (fst_ f)) (fits f ++ [FfiBridge.mk_iterator hi cl]))
        (set_sits (sits s ++ [as_badger p cl fi]) s) h x'
  end.
Proof.
  intros Hr HN Ho Hb. destruct (txn_db_of _ _ _ _ _ _ Hr) as (q & Hq & Hx & Hd & _).
  set (L := FfiBridge.lib (fst_ f)) in *. pose proof (li_mem _ _ (r_inv _ _ _ _ (proj1 Hr))) as Hm. fold L in Hm.
  pose proof (txn_Iterator_run (objs L) q (ffi_opts o) _ _ Hx Hd) as Hrun. cbn [t closed txn_db] in Hrun.
  unfold FfiBridge.bTxn_iterator. cbn [FfiBridge.initErr FfiBridge.txn_handle]. rewrite (bTxn_iterator_as _ _ q) in Hb.
  destruct (Badger.closed (sb s)).
  - injection Hb as <- <-. apply (ffiTxnIterator_call L h q o _ _ Hm Hq Ho) in Hrun.
    apply leaves_grown in Hrun as (L' & Hg & Hrun).
    exists (ffi_err badger_ErrDBClosed), L'. split; [by rewrite (bind_some _ _ _ _ _ Hrun)|].
    split; [apply same_err_closed|]. eapply (rel_tmp_grown _ _ L); [by destruct L|]. by destruct f as [[] ?].
  - destruct (btx_NewIterator _ _ _ _) as [[bi y]|] eqn:En; [|done]. injection Hb as <- <-.
    apply (ffiTxnIterator_call L h q o _ _ Hm Hq Ho) in Hrun. apply leaves_grown in Hrun as (L' & Hg & Hrun).
    destruct (iter_with_fields q bi (ffi_opts o)) as [Hmk Hi]. intros Hp Hfp.
    exists (next (iterHandles L)), (iter_with q bi (ffi_opts o)), L'.
    split; [by rewrite (bind_some _ _ _ _ _ Hrun)|]. split; [done|]. intros cl.
    apply (rel_tmp_grown _ _ _ _ (mk_FSys (fst_ f) (fits f ++ [FfiBridge.mk_iterator (next (iterHandles L)) cl])) _ _ _ Hg).
    pose proof (tmp_put _ _ _ _ _ q _ y Hr Hq) as Hr'.
    refine (rel_new_iter N a _ s h y q p (iter_with q bi (ffi_opts o)) cl Hr' HN Hq Hmk _ Hp Hfp).
    rewrite Hi. by eapply btx_NewIterator_iters.
Qed.

(** Closing an iterator removes its handle. *)
Lemma rel_drop_iter N a f s j h c itj itb :
  let L := FfiBridge.lib (fst_ f) in
  rel_open N a f s -> j ∉ dead_i s -> fits f !! j = Some (FfiBridge.mk_iterator h c) ->
  rel_open N a (mk_FSys (FfiBridge.set_lib (set_iters (delete_h h (iterHandles L)) L) (fst_ f)) (<[j := itj]> (fits f)))
    (mk_Spec (sb s) (<[j := itb]> (sits s)) (dead_t s) ({[j]} ∪ dead_i s) (s_open s)).
Proof.
  cbv zeta. intros [H1 H2 H3 H4 H5 H6 [H7 H7'] H8 H9] Hd Hj.
  split; try done; [by apply lib_inv_del_iter|..].
  - split; [cbn; by rewrite !length_insert|]. intros j' it Hj' Hd'. cbn in Hj', Hd'.
    rewrite list_lookup_insert_ne in Hj' by set_solver.
    destruct (H7' j' it Hj' ltac:(set_solver)) as (h' & fi & F1 & F2 & F3 & F4 & F5 & F6). exists h', fi.
    split_and!; [cbn; rewrite list_lookup_insert_ne; [done|set_solver]| |done..].
    unfold iter_of in *. cbn. rewrite lookup_delete_ne; [done|]. intros <-.
    assert (j = j') as <-; [|set_solver]. apply (H8 _ _ _ _ Hj F1 Hd); [set_solver|done].
  - intros j1 j2 i1 i2 E1 E2 D1 D2. cbn in *. rewrite list_lookup_insert_ne in E1, E2 by set_solver.
    apply (H8 _ _ _ _ E1 E2); set_solver.
Qed.

(** The close of badger's iterator, which its transaction counts, and the loss of
    the handle. *)
Lemma sim_close_badger N a f s j it x :
  rel_open N a f s -> live_it s j = Some it -> live_t s (Badger.it_txn it) = true ->
  Badger.txns (sb s) !! Badger.it_txn it = Some x ->
  let r := bit_Close (Badger.i it) x in
  exists h st L, fits f !! j = Some (FfiBridge.mk_iterator h (Badger.closer it)) /\
    FfiBridge.ffiIterClose h (FfiBridge.lib (fst_ f)) = Some (None, L) /\ st = FfiBridge.set_lib L (fst_ f) /\
    rel_open N a (mk_FSys st (<[j := FfiBridge.mk_iterator 0 (Badger.closer it)]> (fits f)))
      (mk_Spec (Badger.set_txn (Badger.it_txn it) r.2 (sb s)) (<[j := Badger.set_i r.1 it]> (sits s)) (dead_t s)
         ({[j]} ∪ dead_i s) (s_open s)).
Proof.
  cbv zeta. intros Hr Hl Hlt Hx.
  destruct (live_iter _ _ _ _ _ _ Hr Hl) as (h & q & fi & y & Hf & H0 & Hd & Hj & Hq & Hfi & Hit & Hy & Ha).
  set (L := FfiBridge.lib (fst_ f)) in *. set (p := Badger.it_txn it) in *.
  destruct (unadopt _ _ _ _ _ Hr Hlt) as (hx & x0 & Hx0 & Hfx & (_ & _ & (qx & Hqx & Hxx)%txn_of_inv)).
  rewrite Hx in Hx0. injection Hx0 as <-. fold L in Hqx, Hxx.
  destruct (proj2 (r_iter _ _ _ _ Hr) j it Hj Hd) as (h2 & fi2 & F1 & F2 & _ & _ & _ & F6).
  rewrite Hf in F1. injection F1 as <-. unfold iter_of in F2. fold L in F2. rewrite Hq in F2. cbn in F2.
  rewrite Hfi in F2. injection F2 as <-. pose proof (proj2 (F6 hx Hfx) qx Hqx) as ->.
  rewrite Hy in Hxx. injection Hxx as ->.
  pose proof (ffiIterClose_call L h q _ H0 Hq (Close_it_run _ _ _ _ Hfi Hy)) as Hclose. cbn [t txn_db] in Hclose.
  assert (Badger.i it = i fi) as Hi by (by rewrite Hit).
  eexists h, _, _. split; [exact Hf|]. split; [exact Hclose|]. split; [done|]. rewrite Hi.
  (* without its handle *)
  pose proof (rel_drop_iter _ _ _ _ j h (Badger.closer it) (FfiBridge.mk_iterator 0 (Badger.closer it))
    (Badger.set_i (bit_Close (i fi) x).1 it) Hr Hd Hf) as Hr1. cbv zeta in Hr1. fold L in Hr1.
  (* badger's iterator *)
  eapply (rel_put_unused _ _ _ _ q fi (set_i (bit_Close (i fi) x).1 fi)) in Hr1; [|exact Hfi|done|]; cycle 1.
  { intros h'. cbn. intros [Hne Hq']%lookup_delete_Some. destruct Hne.
    by eapply (proj2 (proj2 (li_iter _ _ (r_inv _ _ _ _ Hr)))). }
  (* its transaction *)
  destruct (unadopt _ _ _ _ p Hr1 Hlt) as (h3 & x3 & Hx3 & Hf3 & H3). cbn in Hf3. rewrite Hfx in Hf3. injection Hf3 as <-.
  eapply (tmp_put _ _ _ _ _ (it_txn fi) _ (bit_Close (i fi) x).2) in H3; [|exact Hqx].
  apply (adopt N a _ _ p hx) in H3; [|exact Hfx]. exact H3.
Qed.

Lemma sim_close_it N a f s j it e it' b :
  rel_open N a f s -> live_it s j = Some it ->
  live_t s (Badger.it_txn it) = true -> ctx_ok s (Badger.closer it) = true ->
  Badger.Close_it it (sb s) = Some ((e, it'), b) ->
  exists h r st, fits f !! j = Some (FfiBridge.mk_iterator h (Badger.closer it)) /\
    FfiBridge.Close_it (FfiBridge.mk_iterator h (Badger.closer it)) (fst_ f) = Some (r, st) /\ e = None /\ r.1 = None /\
    rel_open N a (mk_FSys st (<[j := r.2]> (fits f)))
      (mk_Spec b (<[j := it']> (sits s))
         (match Badger.closer it with Some p => {[p]} ∪ dead_t s | None => dead_t s end) ({[j]} ∪ dead_i s) (s_open s)).
Proof.
  intros Hr Hl Hlt Hc Hb. pose proof Hlt as Hlt'. apply andb_true_iff in Hlt' as [[x Hx]%bool_decide_eq_true _].
  destruct (sim_close_badger _ _ _ _ _ _ x Hr Hl Hlt Hx) as (h & st & L & Hf & Hclose & -> & Hr2).
  unfold Badger.Close_it in Hb. rewrite (bind_some _ _ _ _ _ (the_txn_some _ _ _ Hx)) in Hb.
  destruct (bit_Close (Badger.i it) x) as [bi x'] eqn:Eb. cbn [fst snd] in Hr2.
  apply bind_inv in Hb as ([] & b1 & [= <-] & Hb).
  change (Badger.closer (Badger.set_i bi it)) with (Badger.closer it) in Hb.
  unfold FfiBridge.Close_it. cbn [FfiBridge.it_handle FfiBridge.closer].
  destruct (Badger.closer it) as [p|].
  - apply bind_inv in Hb as ([] & b2 & Hdis & [= <- <- <-]).
    destruct (sim_discard _ _ _ _ p b2 Hr2) as (st & Hdis' & Hr3); [|exact Hdis|].
    { apply andb_true_iff in Hc as [Hp Hd]. apply andb_true_iff. split; [|exact Hd].
      apply bool_decide_eq_true in Hp. apply bool_decide_eq_true. cbn. apply lookup_insert_is_Some.
      destruct (decide (Badger.it_txn it = p)); [by left|by right]. }
    exists h, (None, FfiBridge.mk_iterator 0 (Some p)), st. split_and!; [done| |done|done|done].
    rewrite (bind_some _ _ _ _ _ (on_lib_some _ (fst_ f) _ _ Hclose)). cbv zeta match.
    cbn [FfiBridge.closer]. cbn [fst_] in Hdis'. by rewrite (bind_some _ _ _ _ _ Hdis').
  - injection Hb as <- <- <-. eexists h, (None, FfiBridge.mk_iterator 0 None), _. split_and!; [done| |done|done|exact Hr2].
    by rewrite (bind_some _ _ _ _ _ (on_lib_some _ (fst_ f) _ _ Hclose)).
Qed.

(** A failed [Close] leaves the flag set. *)
Lemma rel_close N a f s d :
  let L := FfiBridge.lib (fst_ f) in
  rel_open N a f s ->
  rel_open N a (with_lib (set_objs (put_db a (mk_DB d true) (objs L)) L) f)
    (mk_Spec (Badger.mk_State d true (Badger.txns (sb s))) (sits s) (dead_t s) (dead_i s) true).
Proof.
  cbv zeta. intros [H1 H2 H3 H4 H5 H6 H7 H8 H9]. split; try done.
  - by apply lib_inv_objs, hkeeps_db, (li_heap _ _ H1).
  - cbn. rewrite list_lookup_insert_eq; [done|]. by eapply lookup_lt_Some.
Qed.

(** ** Every call *)

Definition small_call (c : call) : Prop :=
  match c with
  | CGet _ k | CHas _ k | CDelete _ k | CSeek _ k => small k
  | CSet _ k v => small k /\ small v
  | CIterator _ _ o => small_opts o
  | _ => True
  end.

Lemma rel_mono N N' a f s : N <= N' -> rel_open N a f s -> rel_open N' a f s.
Proof. intros HN [H1 H2 H3 H4 H5 H6 H7 H8 H9]. split; try done. by eapply lib_inv_mono. Qed.

Lemma sim_op {R R'} (agree : R' -> R -> Prop) bop op N a f s c r' b :
  op_sim agree bop op -> rel_open N a f s -> N + 1 < two64 -> ctx_ok s c = true ->
  (match c with Some p => Badger.on_txn p bop | None => Badger.implicit_read bop end) (sb s) = Some (r', b) ->
  exists r L, (match c with Some p => FfiBridge.on_txn p op | None => FfiBridge.implicit_read op end) (fst_ f) =
      Some (r, FfiBridge.set_lib L (fst_ f)) /\ agree r' r /\ rel_open (N + 1) a (with_lib L f) (set_sb b s).
Proof.
  intros Hop Hr HN Hc Hb. destruct c as [p|]; [|by eapply sim_read].
  destruct (sim_on_txn agree bop op N a f s p _ _ Hop Hr Hc Hb) as (r & L & H1 & H2 & H3).
  exists r, L. split_and!; [done..|]. by eapply rel_mono; [|exact H3]; lia.
Qed.

Lemma sim_op_write bop op N a f s c r' b :
  op_sim same_opt bop op -> rel_open N a f s -> N + 1 < two64 -> ctx_ok s c = true ->
  (match c with Some p => Badger.on_txn p bop | None => Badger.implicit_write bop end) (sb s) = Some (r', b) ->
  exists r L, (match c with Some p => FfiBridge.on_txn p op | None => FfiBridge.implicit_write op end) (fst_ f) =
      Some (r, FfiBridge.set_lib L (fst_ f)) /\ same_opt r' r /\ rel_open (N + 1) a (with_lib L f) (set_sb b s).
Proof.
  intros Hop Hr HN Hc Hb. destruct c as [p|]; [|by eapply sim_write].
  destruct (sim_on_txn same_opt bop op N a f s p _ _ Hop Hr Hc Hb) as (r & L & H1 & H2 & H3).
  exists r, L. split_and!; [done..|]. by eapply rel_mono; [|exact H3]; lia.
Qed.

(** An implicit transaction with an iterator. *)
Lemma implicit_iterator_run p o st h L r L2 :
  FfiBridge.newTxn true st = Some (FfiBridge.mk_bTxn h None, FfiBridge.set_lib L st) ->
  FfiBridge.bTxn_iterator (FfiBridge.mk_bTxn h None) o L = Some (r, L2) ->
  FfiBridge.Iterator p (ctx_f None) o st = Some match r with
    | Err e => (Err e, FfiBridge.set_lib L2 st)
    | Ok it => (Ok (FfiBridge.withCloser p it), FfiBridge.set_txn p (FfiBridge.mk_bTxn h None) (FfiBridge.set_lib L2 st))
    end.
Proof.
  intros Hn Hit. unfold FfiBridge.Iterator. cbn [TryGetCtxTxnG ctx_Value ctx_f]. rewrite (bind_some _ _ _ _ _ Hn).
  rewrite (bind_some _ _ _ _ _ (on_lib_some _ (FfiBridge.set_lib L st) _ _ Hit)). by destruct r.
Qed.

(** The call [c] of the implementation follows one of the specification that
    answers [ans] and leaves [s']. *)
Definition follows (N : Z) (a : nat) (f : FSys) (c : call) (ans : answer) (s' : Spec) : Prop :=
  exists ans' f', fstep c f = Some (ans', f') /\ agrees ans ans' /\ rel (N + 2) a f' s'.

Lemma follows_store {A} N a f s' c ans (m : M FfiBridge.State A) (g : A -> answer) r st :
  fstep c = (r ← on_store m; mret (g r)) -> m (fst_ f) = Some (r, st) -> agrees ans (g r) ->
  rel_open (N + 1) a (mk_FSys st (fits f)) s' -> follows N a f c ans s'.
Proof.
  intros Hc Hm Hag Hr. exists (g r), (mk_FSys st (fits f)). rewrite Hc. split; [|split; [done|intros _; by eapply rel_mono; [|exact Hr]; lia]].
  by rewrite (bind_some _ _ _ _ _ (on_store_some _ _ _ _ Hm)).
Qed.

Lemma follows_iter {A} N a f s' c ans j h cl (m : FfiBridge.iterator -> M Lib A) (g : A -> answer) r L :
  fstep c = (it ← the_it j; r ← on_store_lib (m it); mret (g r)) ->
  fits f !! j = Some (FfiBridge.mk_iterator h cl) ->
  m (FfiBridge.mk_iterator h cl) (FfiBridge.lib (fst_ f)) = Some (r, L) -> agrees ans (g r) ->
  rel_open (N + 1) a (with_lib L f) s' -> follows N a f c ans s'.
Proof.
  intros Hc Hj Hm Hag Hr. exists (g r), (with_lib L f). rewrite Hc. split; [|split; [done|intros _; by eapply rel_mono; [|exact Hr]; lia]].
  unfold the_it. rewrite (bind_some _ _ _ _ _ (deref_some (fun f => fits f !! j) f _ Hj)).
  by rewrite (bind_some _ _ _ _ _ (on_store_some _ _ _ _ (on_lib_some _ _ _ _ Hm))).
Qed.

Lemma guarded_inv {A} b (x : option A) y : guarded b x = Some y -> b = true /\ x = Some y.
Proof. by destruct b. Qed.

(** A step that ran an operation of the badger backend. *)
Lemma sstep_inv {A B C} (m : option (A * B)) (g : A -> B -> C) y :
  ('(r, b) ← m; Some (g r b)) = Some y -> exists r b, m = Some (r, b) /\ y = g r b.
Proof. destruct m as [[r b]|]; [|done]. intros [= <-]. eauto. Qed.

Lemma try_b c : TryGetCtxTxnG Badger.as_bTxn (ctx_b c) = c.
Proof. by destruct c. Qed.
Lemma try_f c : TryGetCtxTxnG FfiBridge.as_bTxn (ctx_f c) = c.
Proof. by destruct c. Qed.

Section step.
Context (N : Z) (a : nat) (f : FSys) (s : Spec).
Hypothesis Hr : rel_open N a f s.
Hypothesis HN2 : N + 2 < two64.

Lemma HN : N + 1 < two64.
Proof using HN2. lia. Qed.

Lemma step_reads ctx k ans s' :
  small k ->
  (sstep (CGet ctx k) s = Some (ans, s') -> follows N a f (CGet ctx k) ans s') /\
  (sstep (CHas ctx k) s = Some (ans, s') -> follows N a f (CHas ctx k) ans s').
Proof using Hr HN2 BF.
  intros Hk. unfold sstep. destruct (negb (s_open s)); [done|].
  split; intros [Hc (r & b & E & [= -> ->])%sstep_inv]%guarded_inv.
  - unfold Badger.Get in E. rewrite try_b in E.
    destruct (sim_op _ _ _ _ _ _ _ _ _ _ (get_sim k Hk) Hr HN Hc E) as (r' & L & H1 & H2 & H3).
    eapply follows_store; [done| |exact H2|exact H3]. unfold FfiBridge.Get. rewrite try_f. exact H1.
  - unfold Badger.Has in E. rewrite try_b in E.
    destruct (sim_op _ _ _ _ _ _ _ _ _ _ (has_sim k Hk) Hr HN Hc E) as (r' & L & H1 & H2 & H3).
    eapply follows_store; [done| |exact H2|exact H3]. unfold FfiBridge.Has. rewrite try_f. exact H1.
Qed.

Lemma step_writes ctx k v ans s' :
  small k -> small v ->
  (sstep (CSet ctx k v) s = Some (ans, s') -> follows N a f (CSet ctx k v) ans s') /\
  (sstep (CDelete ctx k) s = Some (ans, s') -> follows N a f (CDelete ctx k) ans s').
Proof using Hr HN2 BF.
  intros Hk Hv. unfold sstep. destruct (negb (s_open s)); [done|].
  split; intros [Hc (r & b & E & [= -> ->])%sstep_inv]%guarded_inv.
  - unfold Badger.Set_ in E. rewrite try_b in E.
    destruct (sim_op_write _ _ _ _ _ _ _ _ _ (set_sim k v Hk Hv) Hr HN Hc E) as (r' & L & H1 & H2 & H3).
    eapply follows_store; [done| |exact H2|exact H3]. unfold FfiBridge.Set_. rewrite try_f. exact H1.
  - unfold Badger.Delete in E. rewrite try_b in E.
    destruct (sim_op_write _ _ _ _ _ _ _ _ _ (delete_sim k Hk) Hr HN Hc E) as (r' & L & H1 & H2 & H3).
    eapply follows_store; [done| |exact H2|exact H3]. unfold FfiBridge.Delete. rewrite try_f. exact H1.
Qed.

Lemma step_txns p ro ans s' :
  (sstep (CNewTxn p ro) s = Some (ans, s') -> follows N a f (CNewTxn p ro) ans s') /\
  (sstep (CCommit p) s = Some (ans, s') -> follows N a f (CCommit p) ans s') /\
  (sstep (CDiscard p) s = Some (ans, s') -> follows N a f (CDiscard p) ans s').
Proof using Hr HN2 BF.
  unfold sstep. destruct (negb (s_open s)); [done|].
  split_and!; intros [Hc (r & b & E & [= -> ->])%sstep_inv]%guarded_inv.
  - destruct r. destruct (sim_new_txn _ _ _ _ _ ro _ Hr HN Hc E) as (f' & H1 & H2).
    exists AUnit, f'. split; [|split; [done|intros _; by eapply rel_mono; [|exact H2]; lia]]. cbn [fstep]. by rewrite (bind_some _ _ _ _ _ H1).
  - destruct (sim_commit _ _ _ _ _ _ _ Hr Hc E) as (e' & L & H1 & H2 & H3).
    eapply follows_store; [done|exact H1|exact H2|]. by eapply rel_mono; [|exact H3]; lia.
  - destruct r. destruct (sim_discard _ _ _ _ _ _ Hr Hc E) as (st & H1 & H2).
    eapply (follows_store N a f _ (CDiscard p) AUnit _ (fun _ => AUnit)); [done|exact H1|done|].
    by eapply rel_mono; [|exact H2]; lia.
Qed.

Lemma step_iterator_in p q o ans s' :
  small_opts o -> sstep (CIterator p (Some q) o) s = Some (ans, s') -> follows N a f (CIterator p (Some q) o) ans s'.
Proof using Hr HN2 BF.
  intros Ho. unfold sstep. destruct (negb (s_open s)); [done|].
  intros [[Hc Hp]%andb_true_iff (r & b & E & Hans)%sstep_inv]%guarded_inv.
  unfold Badger.Iterator in E. rewrite try_b in E. unfold follows. cbn [fstep]. unfold FfiBridge.Iterator. rewrite try_f.
  destruct (unadopt _ _ _ _ _ Hr Hc) as (h & x & Hx & Hf & H1).
  rewrite (bind_some _ _ _ _ _ (the_txn_some _ _ _ Hx)) in E. apply bind_inv in E as (b0 & b1 & [= <- <-] & E).
  cbn [id] in E. apply bind_inv in E as ([r0 x'] & b2 & Hit & E). unfold or_panic, deref in Hit.
  destruct (Badger.bTxn_iterator (sb s) q x (norm_opts o)) as [[r1 x1]|] eqn:Eit; [|done]. injection Hit as -> -> <-.
  injection E as -> <-.
  pose proof (tmp_iterator _ _ _ _ _ _ q _ _ _ H1 HN Ho Eit) as H2.
  assert (forall r L, FfiBridge.bTxn_iterator (FfiBridge.mk_bTxn h None) o (FfiBridge.lib (fst_ f)) = Some (r, L) ->
    on_store (FfiBridge.on_txn q (fun x => FfiBridge.bTxn_iterator x o)) f = Some (r, with_lib L f)) as Hon.
  { intros r2 L H. apply on_store_some. unfold FfiBridge.on_txn, FfiBridge.the_txn.
    rewrite (bind_some _ _ _ _ _ (deref_some (fun s => FfiBridge.txns s !! q) (fst_ f) _ Hf)). by apply on_lib_some. }
  destruct r as [it|e]; injection Hans as -> ->.
  + destruct (H2 (ex_intro _ x Hx) Hf) as (hi & fi & L & H3' & -> & H3). specialize (H3 None). clear H2. rename H3' into H2.
    eexists _, _. rewrite (bind_some _ _ _ _ _ (Hon _ _ H2)). split; [done|]. split; [done|]. intros _.
    apply (adopt (N + 1) a _ (set_sits (sits s ++ [as_badger q None fi]) s)) in H3; [|done].
    by eapply rel_mono; [|exact H3]; lia.
  + destruct H2 as (e' & L & H2 & He & H3). eexists _, _. rewrite (bind_some _ _ _ _ _ (Hon _ _ H2)). split; [done|].
    split; [done|]. intros _. apply adopt in H3; [|done]. by eapply rel_mono; [|exact H3]; lia.
Qed.

Lemma step_iterator_implicit p o ans s' :
  small_opts o -> sstep (CIterator p None o) s = Some (ans, s') -> follows N a f (CIterator p None o) ans s'.
Proof using Hr HN2 BF.
  intros Ho. unfold sstep. destruct (negb (s_open s)); [done|].
  intros [[Hc Hp]%andb_true_iff (r & b & E & Hans)%sstep_inv]%guarded_inv.
  apply andb_true_iff in Hp as [Hp%bool_decide_eq_true Hpd].
  unfold Badger.Iterator in E. rewrite try_b in E. apply bind_inv in E as (x & b1 & Hnew & E).
  destruct (tmp_new N a f s true x b1 Hr HN Hnew) as (h & L & Hn & H1).
  pose proof (newTxn_txns _ _ _ _ Hnew) as Eb.
  apply bind_inv in E as (b0 & b2 & [= <- <-] & E). cbn [id] in E. apply bind_inv in E as ([r0 x'] & b3 & Hit & E).
  unfold or_panic, deref in Hit.
  destruct (Badger.bTxn_iterator b1 p x (norm_opts o)) as [[r1 x1]|] eqn:Eit; [|done]. injection Hit as -> -> <-.
  unfold follows. cbn [fstep]. destruct r0 as [it|e].
  - injection E as <- <-. injection Hans as -> ->.
    (* the transaction as the client's, before the iterator is created *)
    pose proof (adopt_new _ _ _ _ p _ _ H1) as Ha. cbn [sb set_sb] in Ha. rewrite Eb in Ha. specialize (Ha Hp).
    assert (live_t (set_sb (Badger.set_txn p x b1) s) p = true) as Hlp.
    { apply andb_true_iff. split; [|exact Hpd]. apply bool_decide_eq_true. cbn. rewrite lookup_insert_eq. by eexists. }
    destruct (unadopt _ _ _ _ _ Ha Hlp) as (h' & x0 & Hx0 & Hf & H2).
    cbn in Hx0, Hf. rewrite lookup_insert_eq in Hx0. rewrite lookup_insert_eq in Hf. injection Hx0 as <-. injection Hf as <-.
    destruct (tmp_iterator _ _ _ _ _ _ p o _ _ H2 ltac:(lia) Ho Eit) as (hi & fi & L2 & Hit & -> & H3);
      [cbn; rewrite lookup_insert_eq; by eexists|cbn; by rewrite lookup_insert_eq|]. specialize (H3 (Some p)).
    eexists _, _. rewrite (bind_some _ _ _ _ _ (on_store_some _ _ _ _ (implicit_iterator_run p o _ _ _ _ _ Hn Hit))).
    split; [done|]. split; [done|]. intros _.
    apply (adopt _ _ _ (set_sits (sits s ++ [as_badger p (Some p) fi]) (set_sb (Badger.set_txn p x b1) s))) in H3;
      [|cbn; apply lookup_insert_eq].
    assert (Badger.set_txn p x' (Badger.set_txn p x b1) = Badger.set_txn p x' b1) as Ei
      by (unfold Badger.set_txn; cbn; by rewrite insert_insert_eq).
    cbn [sb set_sits set_sb] in H3. rewrite Ei in H3. by eapply rel_mono; [|exact H3]; lia.
  - injection E as <- <-. injection Hans as -> ->.
    destruct (tmp_iterator _ _ _ _ _ _ p o _ _ H1 ltac:(lia) Ho Eit) as (e' & L2 & Hit & He & H3).
    eexists _, _. rewrite (bind_some _ _ _ _ _ (on_store_some _ _ _ _ (implicit_iterator_run p o _ _ _ _ _ Hn Hit))).
    split; [done|]. split; [done|]. intros _. by eapply rel_mono; [|exact (proj1 H3)]; lia.
Qed.

Lemma step_moves j k ans s' :
  small k ->
  (sstep (CNext j) s = Some (ans, s') -> follows N a f (CNext j) ans s') /\
  (sstep (CSeek j k) s = Some (ans, s') -> follows N a f (CSeek j k) ans s').
Proof using Hr HN2 BF.
  intros Hk. unfold sstep. destruct (negb (s_open s)); [done|].
  split; intros E; destruct (live_it s j) as [it|] eqn:Hl; try done; cbn in E;
    apply sstep_inv in E as (r & it' & E & [= -> ->]).
  - destruct (sim_move N a f s j it Ffi.next Badger.next FfiBridge.ffiIterNext _ _ next_open next_as
      (fun L h q r H => ffiIterNext_call L h q r H) Hr Hl E) as (h & r' & L & H1 & H2 & H3 & H4).
    eapply follows_iter; [done|exact H1|exact H2|exact H3|]. by eapply rel_mono; [|exact H4]; lia.
  - destruct (sim_move N a f s j it (fun it => seek it (normalizeValue k)) (fun it => Badger.seek it (normalizeValue k))
      (fun h => FfiBridge.ffiIterSeek h k) _ _ (fun fi => seek_open fi _) (fun p cl fi => seek_as p cl fi _)
      (fun L h q r H Hm Hq => ffiIterSeek_call L h q k r H Hm Hq Hk) Hr Hl E) as (h & r' & L & H1 & H2 & H3 & H4).
    eapply follows_iter; [done|exact H1|exact H2|exact H3|]. by eapply rel_mono; [|exact H4]; lia.
Qed.

Lemma rel_same L : grown (FfiBridge.lib (fst_ f)) L -> rel_open (N + 1) a (with_lib L f) s.
Proof using Hr.
  intros Hg. eapply rel_grown; [exact Hg|]. apply (rel_mono N); [lia|]. by destruct f as [[] ?].
Qed.

Lemma step_at j ans s' :
  (sstep (CReset j) s = Some (ans, s') -> follows N a f (CReset j) ans s') /\
  (sstep (CKey j) s = Some (ans, s') -> follows N a f (CKey j) ans s') /\
  (sstep (CValue j) s = Some (ans, s') -> follows N a f (CValue j) ans s').
Proof using Hr HN2 BF.
  unfold sstep. destruct (negb (s_open s)); [done|].
  destruct (live_it s j) as [it|] eqn:Hl; [|by split_and!].
  destruct (live_iter _ _ _ _ _ _ Hr Hl) as (h & q & fi & y & Hf & H0 & Hd & Hj & Hq & Hfi & Hit & Hy & Ha).
  pose proof (li_mem _ _ (r_inv _ _ _ _ Hr)) as Hm. set (L := FfiBridge.lib (fst_ f)) in *.
  assert (set_objs (objs L) L = L) as HL by (by destruct L).
  split_and!; intros E; cbn in E.
  - injection E as <- <-. assert (Reset q (objs L) = Some (tt, put_iter q (set_reset true fi) (objs L))) as Hrun.
    { unfold Reset, the_iter, deref, mbind, M_bind. by rewrite Hfi. }
    apply (ffiIterReset_call L h q _ Hq) in Hrun. apply leaves_grown in Hrun as (L' & Hg & Hrun).
    eapply (follows_iter N a f _ _ AUnit j h _ FfiBridge.Reset (fun _ => AUnit)); [done|exact Hf| |done|].
    { unfold FfiBridge.Reset. cbn [FfiBridge.it_handle]. by rewrite (bind_some _ _ _ _ _ Hrun). }
    assert (Badger.Reset it = as_badger (Badger.it_txn it) (Badger.closer it) (set_reset true fi)) as -> by (by rewrite Hit).
    eapply rel_grown; [exact Hg|]. apply (rel_mono N); [lia|].
    exact (rel_put_iter N a f s j it h q fi (set_reset true fi) Hr Hj Hd Hf Hq Hfi eq_refl eq_refl).
  - assert (Badger.Key it = item_Key <$> bit_Item (i fi)) as Hkey by (by rewrite Hit). rewrite Hkey in E.
    destruct (bit_Item (i fi)) as [item|] eqn:Ei; [|done]. injection E as <- <-.
    assert (Key q (objs L) = Some (item_Key item, objs L)) as Hrun.
    { unfold Key, the_iter, or_panic, deref, mbind, M_bind. by rewrite Hfi, Ei. }
    apply (ffiIterKey_call L h q _ _ Hm Hq) in Hrun; [|apply item_Key_small]. rewrite HL in Hrun.
    apply leaves_grown in Hrun as (L' & Hg & Hrun).
    eapply (follows_iter N a f _ _ _ j h _ FfiBridge.Key AKey); [done|exact Hf| |done|by apply rel_same].
    unfold FfiBridge.Key. cbn [FfiBridge.it_handle]. by rewrite (bind_some _ _ _ _ _ Hrun).
  - assert (Badger.Value it = if keysOnly fi then Some (Ok None) else item_ValueCopy <$> bit_Item (i fi)) as Hval
      by (by rewrite Hit).
    rewrite Hval in E. assert (exists r, Badger.Value it = Some r /\ Value q (objs L) =
      Some (match r with Err e => Err e | Ok v => Ok (normalizeValue v) end, objs L) /\ ans = ABytes r /\ s' = s /\ small_res r)
      as (r & _ & Hrun & -> & -> & Hs).
    { rewrite Hval. unfold Value, the_iter, or_panic, deref, mbind, M_bind. rewrite Hfi.
      destruct (keysOnly fi); [injection E as <- <-; by eexists|]. destruct (bit_Item (i fi)) as [item|]; [|done].
      injection E as <- <-. eexists. split_and!; [done..|].
      destruct (item_ValueCopy item) as [v|] eqn:Ev; [by apply (item_Value_small item)|done]. }
    apply (ffiIterValue_call L h q _ _ Hm Hq) in Hrun; [|destruct r; [by apply small_normalize|done]].
    rewrite HL in Hrun. apply leaves_grown in Hrun as (L' & Hg & Hrun).
    eapply (follows_iter N a f _ _ _ j h _ FfiBridge.Value ABytes); [done|exact Hf|exact Hrun| |by apply rel_same].
    destruct r as [v|e]; [apply normalize_idem|]. exists e. eauto.
Qed.

Lemma step_ends j ans s' :
  (sstep (CCloseIt j) s = Some (ans, s') -> follows N a f (CCloseIt j) ans s') /\
  (sstep CDropAll s = Some (ans, s') -> follows N a f CDropAll ans s') /\
  (sstep CClose s = Some (ans, s') -> follows N a f CClose ans s').
Proof using Hr HN2 BF.
  unfold sstep. destruct (negb (s_open s)); [done|]. pose proof Hr as [H1 H2 H3 H4 _ _ _ _ _].
  set (L := FfiBridge.lib (fst_ f)) in *. split_and!; intros E.
  - destruct (live_it s j) as [it|] eqn:Hl; [|done]. cbn in E.
    apply guarded_inv in E as [[Hlt Hc]%andb_true_iff ([e it'] & b & E & [= -> ->])%sstep_inv].
    destruct (sim_close_it _ _ _ _ _ _ _ _ _ Hr Hl Hlt Hc E) as (h & r & st & F1 & F2 & -> & F3 & F4).
    eexists _, _. split.
    + cbn [fstep]. unfold the_it. rewrite (bind_some _ _ _ _ _ (deref_some (fun f => fits f !! j) f _ F1)).
      by rewrite (bind_some _ _ _ _ _ (on_store_some _ _ _ _ F2)).
    + rewrite F3. split; [done|]. intros _. by eapply rel_mono; [|exact F4]; lia.
  - unfold Badger.DropAll in E. destruct (bdb_DropAll (Badger.db (sb s))) as [e d] eqn:Ed. injection E as <- <-.
    assert (DropAll a (objs L) = Some (e, put_db a (mk_DB d (Badger.closed (sb s))) (objs L))) as Hrun.
    { unfold DropAll, the_db, deref, mbind, M_bind. rewrite H4. cbn [Ffi.db closed]. by rewrite Ed. }
    apply (ffiDBDropAll_call L _ a _ _ (li_mem _ _ H1) H2) in Hrun. apply leaves_grown in Hrun as (L' & Hg & Hrun).
    eapply follows_store; [done|by apply on_lib_some|apply same_opt_raw|].
    eapply rel_mono; [|eapply (rel_grown N a _ L' f); [exact Hg|by apply rel_put_db]]. lia.
  - unfold Badger.Close in E. destruct (bdb_Close (Badger.db (sb s))) as [e d] eqn:Ed. injection E as <- <-.
    assert (Close a (objs L) = Some (e, put_db a (mk_DB d true) (objs L))) as Hrun.
    { unfold Close, the_db, deref, mbind, M_bind. rewrite H4. cbn [Ffi.db]. by rewrite Ed. }
    apply (ffiDBClose_call L _ a _ _ (li_mem _ _ H1) H2) in Hrun. apply leaves_grown in Hrun as (L' & Hg & Hrun).
    assert (forall (k : M FfiBridge.State ()) st, k (FfiBridge.set_lib L' (fst_ f)) = Some (tt, st) ->
      (match ffi_err <$> e with None => modify (FfiBridge.set_closed true) | Some _ => mret tt end) = k ->
      fstep CClose f = Some (AErr (ffi_err <$> e), mk_FSys st (fits f))) as Hstep.
    { intros k st Hk <-. cbn [fstep]. assert (FfiBridge.Close (fst_ f) = Some (ffi_err <$> e, st)) as Hc.
      { unfold FfiBridge.Close. change (reads FfiBridge.ds) with (fun s : FfiBridge.State => Some (FfiBridge.ds s, s)).
        unfold mbind at 1, M_bind at 1. rewrite H3. rewrite (bind_some _ _ _ _ _ (on_lib_some _ (fst_ f) _ _ Hrun)).
        by rewrite (bind_some _ _ _ _ _ Hk). }
      by rewrite (bind_some _ _ _ _ _ (on_store_some _ _ _ _ Hc)). }
    destruct e as [e|]; (eexists _, _; split; [eapply Hstep; [|reflexivity]; reflexivity|]; split; [apply same_opt_raw|]); [|done].
    intros _. apply (rel_mono N); [lia|]. apply (rel_grown N a _ L' f _ Hg). by apply (rel_close N a f s d).
Qed.
End step.
End sim.
