(* ===== verification/FfiExamples.v ===== *)
(** The example programs of badger_ffi/ffi: save_disk, load_disk and
    iter_bounds_reverse, and what they print.

    A program runs over the objects of badger_ffi/ffi and its two output streams.
    The command line is an argument, as is [badger.Open].  The loops that print
    have fuel: [None] is a loop that ran out of it, [Some err] a return. *)
From stdpp Require Import gmap.
From S2P Require Import Prelude BTree Kv Badger BadgerSpec GoMonad Ffi FfiLib FfiSpec FfiRefine FfiSim.
From Stdlib Require Import Strings.Byte.
From Stdlib Require Strings.String.
Import Strings.String.StringSyntax.
Import Ffi.
Local Open Scope string_scope.

(** A new line. *)
Definition nl : bytes := [x0a].

Section programs.
Context {BD : BadgerDB} {BE : BadgerLib}.

Record World := mk_World { objs : heap; stdout : bytes; stderr : bytes }.

Definition set_objs (h : heap) (w : World) : World := mk_World h (stdout w) (stderr w).
Definition ffi {A} : M heap A -> M World A := zoom objs set_objs.
Definition Printf (out : bytes) : M World () := modify (fun w => mk_World (objs w) (stdout w ++ out) (stderr w)).
Definition Fprintf_Stderr (out : bytes) : M World () := modify (fun w => mk_World (objs w) (stdout w) (stderr w ++ out)).

(** [defer f()] in front of the rest of a function. *)
Definition defer {A B} (f : M World B) (rest : M World A) : M World A := r ← rest; _ ← f; mret r.

(** One statement [if err := m; err != nil { return err }] before others. *)
Definition check (m : M World (option error)) (rest : M World (option error)) : M World (option error) :=
  e ← m;
  match e with Some err => mret (Some err) | None => rest end.

(** [os.Args[1]] if there is one. *)
Definition path_arg (args : list String.string) (path : String.string) : String.string :=
  match args with _ :: p :: _ => p | _ => path end.

Definition open_at (path : String.string) : OpenOptions := mk_OpenOptions path path false None 0 0.

(** ** save_disk *)

Definition save_disk_body (path : String.string) (db : nat) : M World (option error) :=
  txn ← ffi (NewTxn db false);
  defer (ffi (txn_Discard txn))
    (check (ffi (txn_Set txn (Some (bs "cross/alpha")) (Some (bs "one"))))
    (check (ffi (txn_Set txn (Some (bs "cross/beta")) (Some (bs "two"))))
    (check (ffi (txn_Set txn (Some (bs "cross/empty")) None))
    (check (ffi (txn_Commit txn))
    (_ ← Printf (bs "saved database at " ++ bs path ++ nl);
     _ ← Printf (bs "wrote cross/alpha=one" ++ nl);
     _ ← Printf (bs "wrote cross/beta=two" ++ nl);
     _ ← Printf (bs "wrote cross/empty=<nil>" ++ nl);
     mret None))))).

Definition save_disk_run (badger_Open : badger_Options BLogger BOthers -> result BDB) (args : list String.string) :
    M World (option error) :=
  let path := path_arg args "/tmp/badger-go-example" in
  r ← ffi (Open badger_Open (open_at path));
  match r with
  | Err err => mret (Some err)
  | Ok db => defer (ffi (Close db)) (save_disk_body path db)
  end.

(** ** load_disk *)

Fixpoint load_disk_loop (fuel : nat) (iter : nat) : M World (option (option error)) :=
  match fuel with
  | O => mret None
  | S fuel =>
      r ← ffi (Next iter);
      match r with
      | Err err => mret (Some (Some err))
      | Ok false => mret (Some None)
      | Ok true =>
          key ← ffi (Key iter);
          r ← ffi (Value iter);
          match r with
          | Err err => mret (Some (Some err))
          | Ok None => _ ← Printf (bdata key ++ bs "=<nil>" ++ nl); load_disk_loop fuel iter
          | Ok (Some value) => _ ← Printf (bdata key ++ bs "=" ++ value ++ nl); load_disk_loop fuel iter
          end
      end
  end.

Definition load_disk_body (fuel : nat) (path : String.string) (db : nat) : M World (option (option error)) :=
  txn ← ffi (NewTxn db true);
  defer (ffi (txn_Discard txn))
    (r ← ffi (txn_Iterator txn (mk_IteratorOptions (Some (bs "cross/")) None None false false));
     match r with
     | Err err => mret (Some (Some err))
     | Ok iter =>
         defer (ffi (Close_it iter))
           (_ ← Printf (bs "loaded database at " ++ bs path ++ nl);
            load_disk_loop fuel iter)
     end).

Definition load_disk_run (fuel : nat) (badger_Open : badger_Options BLogger BOthers -> result BDB)
    (args : list String.string) : M World (option (option error)) :=
  let path := path_arg args "/tmp/badger-go-example" in
  r ← ffi (Open badger_Open (open_at path));
  match r with
  | Err err => mret (Some (Some err))
  | Ok db => defer (ffi (Close db)) (load_disk_body fuel path db)
  end.

(** ** iter_bounds_reverse *)

Definition seed (db : nat) : M World (option error) :=
  txn ← ffi (NewTxn db false);
  defer (ffi (txn_Discard txn))
    (check (ffi (txn_Set txn (Some (bs "cross/010")) (Some (bs "ten"))))
    (check (ffi (txn_Set txn (Some (bs "cross/020")) (Some (bs "twenty"))))
    (check (ffi (txn_Set txn (Some (bs "cross/030")) (Some (bs "thirty"))))
    (check (ffi (txn_Set txn (Some (bs "cross/040")) (Some (bs "forty"))))
    (check (ffi (txn_Set txn (Some (bs "cross/050")) (Some (bs "fifty"))))
    (ffi (txn_Commit txn))))))).

Fixpoint print_loop (fuel : nat) (iter : nat) : M World (option (option error)) :=
  match fuel with
  | O => mret None
  | S fuel =>
      r ← ffi (Next iter);
      match r with
      | Err err => mret (Some (Some err))
      | Ok false => mret (Some None)
      | Ok true =>
          r ← ffi (Value iter);
          match r with
          | Err err => mret (Some (Some err))
          | Ok value =>
              key ← ffi (Key iter);
              _ ← Printf (bdata key ++ bs "=" ++ bdata value ++ nl);
              print_loop fuel iter
          end
      end
  end.

Definition printRange (fuel : nat) (txn : nat) (label : String.string) (opts : IteratorOptions) :
    M World (option (option error)) :=
  r ← ffi (txn_Iterator txn opts);
  match r with
  | Err err => mret (Some (Some err))
  | Ok iter => defer (ffi (Close_it iter)) (_ ← Printf (bs label ++ nl); print_loop fuel iter)
  end.

Definition from_015_to_045 (reverse : bool) : IteratorOptions :=
  mk_IteratorOptions None (Some (bs "cross/015")) (Some (bs "cross/045")) reverse false.

Definition iter_bounds_body (fuel : nat) (path : String.string) (db : nat) : M World (option (option error)) :=
  e ← ffi (DropAll db);
  match e with
  | Some err => mret (Some (Some err))
  | None =>
      e ← seed db;
      match e with
      | Some err => mret (Some (Some err))
      | None =>
          txn ← ffi (NewTxn db true);
          defer (ffi (txn_Discard txn))
            (_ ← Printf (bs "iterating database at " ++ bs path ++ nl);
             r ← printRange fuel txn "forward range [cross/015, cross/045)" (from_015_to_045 false);
             match r with
             | Some None => printRange fuel txn "reverse range [cross/015, cross/045)" (from_015_to_045 true)
             | _ => mret r
             end)
      end
  end.

Definition iter_bounds_run (fuel : nat) (badger_Open : badger_Options BLogger BOthers -> result BDB)
    (args : list String.string) : M World (option (option error)) :=
  let path := path_arg args "/tmp/badger-iter-example" in
  r ← ffi (Open badger_Open (open_at path));
  match r with
  | Err err => mret (Some (Some err))
  | Ok db => defer (ffi (Close db)) (iter_bounds_body fuel path db)
  end.

(** ** The main functions, with their exit status *)

Definition program_main (failed : String.string) (err : option error) : M World Z :=
  match err with
  | Some e => _ ← Fprintf_Stderr (bs failed ++ bs (Badger.error_msg e) ++ nl); mret 1
  | None => mret 0
  end.

Definition save_disk_main (badger_Open : badger_Options BLogger BOthers -> result BDB) (args : list String.string) :
    M World Z :=
  r ← save_disk_run badger_Open args;
  program_main "save_disk failed: " r.

(** A loop that ran out of fuel has no exit status. *)
Definition with_fuel (failed : String.string) (r : option (option error)) : M World (option Z) :=
  match r with
  | None => mret None
  | Some r => z ← program_main failed r; mret (Some z)
  end.

Definition load_disk_main (fuel : nat) (badger_Open : badger_Options BLogger BOthers -> result BDB)
    (args : list String.string) : M World (option Z) :=
  r ← load_disk_run fuel badger_Open args;
  with_fuel "load_disk failed: " r.

Definition iter_bounds_main (fuel : nat) (badger_Open : badger_Options BLogger BOthers -> result BDB)
    (args : list String.string) : M World (option Z) :=
  r ← iter_bounds_run fuel badger_Open args;
  with_fuel "iter_bounds_reverse failed: " r.
End programs.
