(* ===== verification/FfiExamplesSpec.v ===== *)
(** What the example programs of badger_ffi/ffi print and write: they run to the
    end, save_disk writes what load_disk prints, and iter_bounds_reverse prints
    its range in both directions. *)
From stdpp Require Import gmap.
From S2P Require Import Prelude BTree Kv Badger BadgerSpec GoMonad Ffi FfiLib FfiSpec FfiInv FfiRefine FfiSim FfiExamples.
From Stdlib Require Import Strings.Byte.
From Stdlib Require Strings.String.
Import Strings.String.StringSyntax.
Import Ffi.
Local Open Scope string_scope.

(** The objects of a program are the last ones of their lists. *)
Lemma lookup_last {A} (l : list A) x : (l ++ [x]) !! length l = Some x.
Proof. by apply list_lookup_middle. Qed.

Lemma insert_last {A} (l : list A) x y : <[length l := y]> (l ++ [x]) = l ++ [y].
Proof. rewrite insert_app_r_alt by lia. by rewrite Nat.sub_diag. Qed.

Section examples.
Context {BD : BadgerDB} {BE : BadgerLib} {BM : BadgerModel BD} {BL : BadgerLaws BD BM}.

(** ** One call *)

Section calls.
Context (D : list DB) (T : list Txn) (Is : list Iterator) (o e : bytes).

(** A world with the database [d] and the transaction [x]. *)
Definition world (d : BDB) (x : BTx) (Is' : list Iterator) (o' : bytes) : World :=
  mk_World (mk_heap (D ++ [mk_DB d false]) (T ++ [mk_Txn x (length D)]) Is') o' e.

Definition db_world (d : DB) (T' : list Txn) (Is' : list Iterator) (o' : bytes) : World :=
  mk_World (mk_heap (D ++ [d]) T' Is') o' e.

(** An open transaction that wrote [V] over a database to which nothing was committed since. *)
Definition writing (d : BDB) (x : BTx) (V : list entry) : Prop :=
  btx_open x true /\ btx_view x = V /\ kv_sorted V /\ btx_fresh x d /\ btx_iters x = 0%nat.

Ltac call := unfold world, db_world, ffi, zoom, set_objs, mbind, M_bind, the_txn, the_db, the_iter, or_panic, deref, modify, mret, M_ret;
  cbn [objs dbs txns iters FfiExamples.stdout FfiExamples.stderr t txn_db db closed].
Ltac at_last := cbn; unfold put_db, put_txn, put_iter; cbn; rewrite ?insert_last.

Lemma NewTxn_ex d ro : bdb_open d -> exists x d',
  ffi (NewTxn (length D) ro) (db_world (mk_DB d false) T Is o) = Some (length T, world d' x Is o) /\
  bdb_open d' /\ bdb_entries d' = bdb_entries d /\ btx_open x (negb ro) /\ btx_view x = bdb_entries d /\ btx_fresh x d' /\ btx_iters x = 0%nat.
Proof.
  intros Hd. pose proof (NewTransaction_iters d (negb ro)) as Hn.
  destruct (NewTransaction_spec d (negb ro) Hd) as (x & d' & E & H). rewrite E in Hn. exists x, d'. split; [|intuition].
  unfold NewTxn, new_txn. call. rewrite lookup_last. cbn. rewrite E. by at_last.
Qed.

Lemma check_Set_ex d x V k v : writing d x V -> k <> [] -> btx_accepts (Some k) v -> exists x',
  writing d x' (kv_put k (bdata v) V) /\
  forall rest, check (ffi (txn_Set (length T) (Some k) v)) rest (world d x Is o) = rest (world d x' Is o).
Proof.
  intros (Hx & <- & Hs & Hf & Hn) Hk Ha. pose proof (btx_Set_spec x (Some k) v Hx Hs) as H. cbn in H.
  pose proof (btx_Set_iters x (Some k) v) as Hi.
  rewrite bool_decide_false in H by done. destruct (H Ha) as (x' & E & Ho & Hu & Hs' & Hf'). exists x'. rewrite E in Hi. cbn in Hi. split.
  - split_and!; [done| |by apply kv_put_sorted|by apply Hf'|congruence]. apply kv_ext; [done|by apply kv_put_sorted|].
    intros k'. by rewrite Hu, kv_put_lookup.
  - intros rest. unfold check, txn_Set, on_t. call. rewrite lookup_last. cbn. rewrite E. by at_last.
Qed.

Lemma Commit_ex d x V : writing d x V -> bdb_open d -> exists x' d',
  ffi (txn_Commit (length T)) (world d x Is o) = Some (None, world d' x' Is o) /\ bdb_open d' /\ bdb_entries d' = V /\
  btx_iters x' = 0%nat.
Proof.
  intros (Hx & <- & Hs & Hf & Hn) Hd. destruct (btx_Commit_spec x d Hx Hf Hd Hn) as (x' & d' & E & H).
  destruct (btx_Commit_idle x d Hn) as (e' & x2 & d2 & E2 & Hn2). rewrite E in E2. injection E2 as <- <- <-.
  exists x', d'. split; [|intuition].
  unfold txn_Commit. call. rewrite lookup_last. cbn. rewrite lookup_last. cbn. rewrite E. by at_last.
Qed.

Lemma Discard_ex d x : bdb_open d -> btx_iters x = 0%nat -> exists x' d',
  ffi (txn_Discard (length T)) (world d x Is o) = Some (tt, world d' x' Is o) /\
  bdb_open d' /\ bdb_entries d' = bdb_entries d.
Proof.
  intros Hd Hn. destruct (btx_Discard_idle x d Hn) as [[x' d'] E]. exists x', d'. split; [|by eapply btx_Discard_spec].
  unfold txn_Discard. call. rewrite lookup_last. cbn. rewrite lookup_last. cbn. rewrite E. by at_last.
Qed.

Lemma Close_ex d c :
  exists r, ffi (Close (length D)) (db_world (mk_DB d c) T Is o) = Some (r, db_world (mk_DB (bdb_Close d).2 true) T Is o).
Proof.
  exists (bdb_Close d).1. unfold Close. call. rewrite lookup_last. cbn. destruct (bdb_Close d). by at_last.
Qed.

Lemma DropAll_ex d d0 r : bdb_DropAll d = (r, d0) ->
  ffi (DropAll (length D)) (db_world (mk_DB d false) T Is o) = Some (r, db_world (mk_DB d0 false) T Is o).
Proof. intros E. unfold DropAll. call. rewrite lookup_last. cbn. rewrite E. by at_last. Qed.

(** What [Next] returns and leads to are the entries [E]. *)
Definition ahead_of (it : Iterator) (E : list entry) : Prop :=
  it_txn it = length T /\ keysOnly it = false /\ bit_closed (i it) = false /\
  exists r, Badger.next (as_badger 0 None it) = Some r /\ found (as_badger 0 None it) E r.

Lemma Iterator_ex d x u opts :
  let ko := mkIterOptions (Prefix opts) (Start opts) (End_ opts) (i_Reverse opts) (i_KeysOnly opts) in
  btx_open x u -> kv_sorted (btx_view x) -> wf_opts ko = true -> Prefix opts = None \/ i_Reverse opts = false ->
  i_KeysOnly opts = false -> btx_iters x = 0%nat -> exists it x',
  ffi (txn_Iterator (length T) opts) (world d x Is o) = Some (Ok (length Is), world d x' (Is ++ [it]) o) /\
  btx_open x' u /\ btx_view x' = btx_view x /\ btx_iters x' = 1%nat /\
  ahead_of it (select ko (btx_view x)).
Proof.
  intros ko Hx Hs Hwf Hp Hko Hn.
  destruct (bTxn_iterator_live (Badger.mk_State d false ∅) 0 x u ko eq_refl Hx Hs Hwf Hp (or_intror Hn))
    as (bit & x' & Hb & Hx' & Hv' & Hn' & _ & Hr & Hl). rewrite Hn in Hn'.
  unfold Badger.bTxn_iterator, Badger.newPrefixIterator, Badger.newRangeIterator, ko in Hb. cbn in Hb.
  destruct (btx_NewIterator x (Prefix opts) (i_Reverse opts) (negb (i_KeysOnly opts))) as [[b y]|] eqn:En; cycle 1.
  { destruct (Prefix opts); cbn in Hb; by rewrite ?En in Hb. }
  assert (bit = as_badger 0 None (iter_with (length T) b opts) /\ x' = y) as [-> ->].
  { unfold iter_with. rewrite bytesPrefixEnd_same. destruct (Prefix opts); cbn in Hb; rewrite ?En in Hb; by injection Hb as <- <-. }
  destruct (iter_with_fields (length T) b opts) as [Ht Hi].
  exists (iter_with (length T) b opts), y. split; [|split_and!; [done..|]].
  - call. rewrite (txn_Iterator_run _ _ _ (mk_Txn x (length D)) (mk_DB d false)) by (cbn; apply lookup_last).
    cbn. rewrite En. by at_last.
  - split; [done|]. split; [unfold iter_with; destruct (Prefix opts); exact Hko|]. split; [apply (lv_open _ _ _ Hl)|].
    by apply restart_found.
Qed.

Lemma Next_ex d x it E : ahead_of it E -> exists it',
  ffi (Next (length Is)) (world d x (Is ++ [it]) o) =
    Some (Ok (negb (bool_decide (E = []))), world d x (Is ++ [it']) o) /\ it_txn it' = length T /\
  bit_closed (i it') = false /\
  forall en E', E = en :: E' -> ahead_of it' E' /\
    (exists key, ffi (Key (length Is)) (world d x (Is ++ [it']) o) = Some (key, world d x (Is ++ [it']) o) /\ bdata key = en.1) /\
    (exists sv, ffi (Value (length Is)) (world d x (Is ++ [it']) o) =
      Some (Ok (normalizeValue sv), world d x (Is ++ [it']) o) /\ bdata sv = en.2).
Proof.
  intros (Ht & Hk & Hcl & r & Hnx & Hf). rewrite next_as in Hnx.
  destruct (next_open it Hcl) as ([b it'] & En & Ht' & Hcl'). rewrite En in Hnx. injection Hnx as <-. cbn in Ht', Hcl'.
  destruct Hf as [Hsame Hf]. cbn [as_result fst snd] in *. exists it'. split; [|split; [congruence|split; [done|]]].
  - unfold Next, unless_closed. call. rewrite lookup_last. cbn. rewrite Ht, lookup_last. cbn. rewrite lookup_last. cbn.
    rewrite En. cbn. assert (b = negb (bool_decide (E = []))) as -> by (by destruct E; destruct Hf as [-> _]). by at_last.
  - intros en E' ->. destruct Hf as (_ & [Hkey Hval] & Hrem).
    assert (keysOnly it' = false) as Hk' by (destruct Hsame as ((_ & _ & _ & H) & _); cbn in H; congruence).
    split; [|split].
    + split; [congruence|]. split; [done|]. split; [done|]. unfold Badger.next. destruct Hrem as [Hrs Hrem].
      rewrite Hrs. by apply advance_found.
    + destruct Hkey as (key & Hkey & Ekey). exists key. split; [|done]. unfold Badger.Key in Hkey. cbn in Hkey.
      destruct (bit_Item (i it')) as [item|] eqn:Ei; [|done]. injection Hkey as <-.
      unfold Key. call. rewrite lookup_last. cbn. by rewrite Ei.
    + destruct (Hval Hk') as (sv & Hv & Hd). exists sv. split; [|done]. unfold Badger.Value in Hv. cbn in Hv.
      rewrite Hk' in Hv. destruct (bit_Item (i it')) as [item|] eqn:Ei; [|done]. injection Hv as Hv.
      unfold Value. call. rewrite lookup_last. cbn. rewrite Hk'. cbn. rewrite Ei. cbn. by rewrite Hv.
Qed.

Lemma Close_it_ex d x u it :
  it_txn it = length T -> bit_closed (i it) = false -> btx_open x u -> btx_iters x = 1%nat -> exists it' x' r,
  ffi (Close_it (length Is)) (world d x (Is ++ [it]) o) = Some (r, world d x' (Is ++ [it']) o) /\
  btx_open x' u /\ btx_view x' = btx_view x /\ btx_iters x' = 0%nat.
Proof.
  intros Ht Hcl Hx Hn. pose proof (bit_Close_iters (i it) x Hcl) as Hi. rewrite Hn in Hi.
  destruct (bit_Close_spec (i it) x u Hx) as [Ho Hv].
  exists (set_i (bit_Close (i it) x).1 it), (bit_Close (i it) x).2, None. split_and!; [|done..].
  unfold Close_it. call. rewrite lookup_last. cbn. rewrite Ht, lookup_last. cbn. destruct (bit_Close (i it) x). by at_last.
Qed.
(** ** The loops *)

Definition load_line (en : entry) : bytes := en.1 ++ bs "=" ++ (if bool_decide (en.2 = []) then bs "<nil>" else en.2) ++ nl.
Definition print_line (en : entry) : bytes := en.1 ++ bs "=" ++ en.2 ++ nl.
Definition lines (f : entry -> bytes) (E : list entry) : bytes := concat (map f E).
End calls.

Lemma world_Printf D T e d x Is o out : Printf out (world D T e d x Is o) = Some (tt, world D T e d x Is (o ++ out)).
Proof. done. Qed.

Lemma load_loop_ex D T Is e E d x fuel o it :
  ahead_of T it E -> (length E < fuel)%nat -> exists it',
  load_disk_loop fuel (length Is) (world D T e d x (Is ++ [it]) o) =
    Some (Some None, world D T e d x (Is ++ [it']) (o ++ lines load_line E)) /\
  it_txn it' = length T /\ bit_closed (i it') = false.
Proof.
  revert fuel o it. induction E as [|en E IH]; intros fuel o it Ha Hf; (destruct fuel as [|fuel]; [simpl in Hf; lia|]);
    cbn [load_disk_loop]; destruct (Next_ex D T Is o e d x it _ Ha) as (it' & Hn & Ht' & Hc' & Hrest);
    rewrite (bind_some _ _ _ _ _ Hn); cbn [bool_decide negb].
  - exists it'. by rewrite app_nil_r.
  - rewrite (bool_decide_false (en :: E = [])) by done. cbn [negb].
    destruct (Hrest en E eq_refl) as (Ha' & (key & Hk & Ek) & (sv & Hv & Ev)).
    rewrite (bind_some _ _ _ _ _ Hk), (bind_some _ _ _ _ _ Hv). simpl in Hf.
    destruct (IH fuel (o ++ load_line en) it' Ha' ltac:(lia)) as (it2 & Hl & Hit2). exists it2. split; [|exact Hit2].
    assert (o ++ lines load_line (en :: E) = (o ++ load_line en) ++ lines load_line E) as -> by (by rewrite <- app_assoc).
    rewrite <- Hl. unfold load_line. rewrite <- Ek, <- Ev. unfold normalizeValue.
    by destruct sv as [[|b l]|].
Qed.

Lemma print_loop_ex D T Is e E d x fuel o it :
  ahead_of T it E -> (length E < fuel)%nat -> exists it',
  print_loop fuel (length Is) (world D T e d x (Is ++ [it]) o) =
    Some (Some None, world D T e d x (Is ++ [it']) (o ++ lines print_line E)) /\
  it_txn it' = length T /\ bit_closed (i it') = false.
Proof.
  revert fuel o it. induction E as [|en E IH]; intros fuel o it Ha Hf; (destruct fuel as [|fuel]; [simpl in Hf; lia|]);
    cbn [print_loop]; destruct (Next_ex D T Is o e d x it _ Ha) as (it' & Hn & Ht' & Hc' & Hrest);
    rewrite (bind_some _ _ _ _ _ Hn); cbn [bool_decide negb].
  - exists it'. by rewrite app_nil_r.
  - rewrite (bool_decide_false (en :: E = [])) by done. cbn [negb].
    destruct (Hrest en E eq_refl) as (Ha' & (key & Hk & Ek) & (sv & Hv & Ev)).
    rewrite (bind_some _ _ _ _ _ Hv), (bind_some _ _ _ _ _ Hk). simpl in Hf.
    destruct (IH fuel (o ++ print_line en) it' Ha' ltac:(lia)) as (it2 & Hl & Hit2). exists it2. split; [|exact Hit2].
    assert (o ++ lines print_line (en :: E) = (o ++ print_line en) ++ lines print_line E) as -> by (by rewrite <- app_assoc).
    rewrite <- Hl. unfold print_line. by rewrite normalize_bdata, (bind_some _ _ _ _ _ (world_Printf _ _ _ _ _ _ _ _)), Ek, Ev.
Qed.

(** ** The programs *)

Lemma defer_ex {A B} (f : M World B) (rest : M World A) w r w1 b w2 :
  rest w = Some (r, w1) -> f w1 = Some (b, w2) -> defer f rest w = Some (r, w2).
Proof. intros H1 H2. unfold defer. rewrite (bind_some _ _ _ _ _ H1). by rewrite (bind_some _ _ _ _ _ H2). Qed.

(** The options that reach badger. *)
Definition open_options (path : String.string) : badger_Options BLogger BOthers :=
  let d := badger_DefaultOptions path in
  mk_badger_Options (o_Dir d) path None false None (o_IndexCacheSize d) (o_ValueLogFileSize d) (o_others d).

Lemma Open_ex f path d (w : World) : f (open_options path) = Ok d ->
  ffi (Open f (open_at path)) w =
    Some (Ok (length (dbs (objs w))), db_world (dbs (objs w)) (stderr w) (mk_DB d false) (txns (objs w)) (iters (objs w)) (stdout w)).
Proof. intros H. unfold ffi, zoom, Open. cbn. fold (open_options path). by rewrite H. Qed.

Definition put_all (l : list (bytes * slice)) (E : list entry) : list entry :=
  fold_left (fun E kv => kv_put kv.1 (bdata kv.2) E) l E.

Definition accepted (l : list (bytes * slice)) : Prop := Forall (fun kv => btx_accepts (Some kv.1) kv.2) l.

(** A chain of checked writes. *)
Fixpoint sets (txn : nat) (l : list (bytes * slice)) (rest : M World (option error)) : M World (option error) :=
  match l with [] => rest | kv :: l => check (ffi (txn_Set txn (Some kv.1) kv.2)) (sets txn l rest) end.

Lemma sets_ex (D : list DB) (T : list Txn) (Is : list Iterator) (o e : bytes) l d x V :
  writing d x V -> accepted l -> Forall (fun kv => kv.1 <> []) l -> exists x',
  writing d x' (put_all l V) /\ forall rest, sets (length T) l rest (world D T e d x Is o) = rest (world D T e d x' Is o).
Proof.
  revert x V. induction l as [|kv l IH]; intros x V Hw Ha Hk; [by exists x|].
  apply Forall_cons in Ha as [Ha Has], Hk as [Hk Hks].
  destruct (check_Set_ex D T Is o e d x V kv.1 kv.2 Hw Hk Ha) as (x1 & Hw1 & H1).
  destruct (IH x1 _ Hw1 Has Hks) as (x' & Hw' & H'). exists x'. split; [done|]. intros rest. cbn [sets]. by rewrite H1, H'.
Qed.

(** A transaction of writes that [fin] commits, and that is then discarded. *)
Lemma write_body (D : list DB) (T : list Txn) (Is : list Iterator) (o o' e : bytes) l d fin :
  bdb_open d -> accepted l -> Forall (fun kv => kv.1 <> []) l ->
  (forall d x V, writing d x V -> bdb_open d -> exists x' d',
    fin (length T) (world D T e d x Is o) = Some (None, world D T e d' x' Is o') /\ bdb_open d' /\ bdb_entries d' = V /\
    btx_iters x' = 0%nat) ->
  exists x d',
  (txn ← ffi (NewTxn (length D) false); defer (ffi (txn_Discard txn)) (sets txn l (fin txn)))
    (db_world D e (mk_DB d false) T Is o) = Some (None, world D T e d' x Is o') /\
  bdb_open d' /\ bdb_entries d' = put_all l (bdb_entries d).
Proof.
  intros Hd Ha Hk Hfin. destruct (NewTxn_ex D T Is o e d false Hd) as (x & d1 & Hn & Hd1 & He1 & Hx & Hv & Hfr & Hi0).
  assert (writing d1 x (bdb_entries d)) as Hw by (split_and!; try done; by apply bdb_sorted).
  destruct (sets_ex D T Is o e l d1 x _ Hw Ha Hk) as (x2 & Hw2 & Hs).
  destruct (Hfin d1 x2 _ Hw2 Hd1) as (x3 & d3 & Hc & Hd3 & He3 & Hi3).
  destruct (Discard_ex D T Is o' e d3 x3 Hd3 Hi3) as (x4 & d4 & Hdis & Hd4 & He4).
  exists x4, d4. split; [|split; [done|congruence]]. rewrite (bind_some _ _ _ _ _ Hn).
  eapply defer_ex; [|exact Hdis]. by rewrite Hs.
Qed.

Definition saved : list (bytes * slice) :=
  [(bs "cross/alpha", Some (bs "one")); (bs "cross/beta", Some (bs "two")); (bs "cross/empty", None)].

Definition save_output (path : String.string) : bytes :=
  bs "saved database at " ++ bs path ++ nl ++ bs "wrote cross/alpha=one" ++ nl ++ bs "wrote cross/beta=two" ++ nl ++
  bs "wrote cross/empty=<nil>" ++ nl.

Lemma save_disk_ex f args d (w : World) :
  let path := path_arg args "/tmp/badger-go-example" in
  f (open_options path) = Ok d -> bdb_open d -> accepted saved -> exists d' T,
  save_disk_main f args w = Some (0, db_world (dbs (objs w)) (stderr w) (mk_DB (bdb_Close d').2 true) T (iters (objs w))
    (stdout w ++ save_output path)) /\
  bdb_open d' /\ bdb_entries d' = put_all saved (bdb_entries d).
Proof.
  intros path Hf Hd Ha. set (D := dbs (objs w)). set (T := txns (objs w)).
  destruct (write_body D T (iters (objs w)) (stdout w) (stdout w ++ save_output path) (stderr w) saved d
    (fun txn => check (ffi (txn_Commit txn))
    (_ ← Printf (bs "saved database at " ++ bs path ++ nl);
     _ ← Printf (bs "wrote cross/alpha=one" ++ nl);
     _ ← Printf (bs "wrote cross/beta=two" ++ nl);
     _ ← Printf (bs "wrote cross/empty=<nil>" ++ nl);
     mret None)) Hd Ha) as (x & d' & Hrun & Hd' & He'); [repeat constructor; done| |].
  - intros d1 x V Hw Hd1. destruct (Commit_ex D T (iters (objs w)) (stdout w) (stderr w) d1 x V Hw Hd1) as (x' & d' & Hc & H).
    exists x', d'. split; [|done]. unfold check. rewrite (bind_some _ _ _ _ _ Hc).
    do 4 rewrite (bind_some _ _ _ _ _ (world_Printf _ _ _ _ _ _ _ _)). unfold save_output. by rewrite <- !app_assoc.
  - destruct (Close_ex D (T ++ [mk_Txn x (length D)]) (iters (objs w)) (stdout w ++ save_output path) (stderr w) d' false)
      as (r & Hcl). exists d', (T ++ [mk_Txn x (length D)]). split; [|done].
    eassert (save_disk_run f args w = Some _) as Hr.
    { unfold save_disk_run. fold path. rewrite (bind_some _ _ _ _ _ (Open_ex f path d w Hf)).
      exact (defer_ex _ _ _ _ _ _ _ Hrun Hcl). }
    unfold save_disk_main. by rewrite (bind_some _ _ _ _ _ Hr).
Qed.

(** The options of load_disk's iterator. *)
Definition cross : IterOptions := mkIterOptions (Some (bs "cross/")) None None false false.

Definition load_output (path : String.string) (E : list entry) : bytes :=
  bs "loaded database at " ++ bs path ++ nl ++ lines load_line (select cross E).

Lemma load_disk_ex f args d (w : World) fuel :
  let path := path_arg args "/tmp/badger-go-example" in
  f (open_options path) = Ok d -> bdb_open d -> (length (select cross (bdb_entries d)) < fuel)%nat -> exists d' T Is,
  load_disk_main fuel f args w = Some (Some 0, db_world (dbs (objs w)) (stderr w) (mk_DB (bdb_Close d').2 true) T Is
    (stdout w ++ load_output path (bdb_entries d))) /\
  bdb_entries d' = bdb_entries d.
Proof.
  intros path Hf Hd Hfuel. set (D := dbs (objs w)). set (T := txns (objs w)). set (Is := iters (objs w)).
  set (o := stdout w). set (e := stderr w).
  destruct (NewTxn_ex D T Is o e d true Hd) as (x & d1 & Hn & Hd1 & He1 & Hx & Hv & _ & Hi0).
  assert (kv_sorted (btx_view x)) as Hs by (rewrite Hv; by apply bdb_sorted).
  destruct (Iterator_ex D T Is o e d1 x false (mk_IteratorOptions (Some (bs "cross/")) None None false false) Hx Hs
    eq_refl (or_intror eq_refl) eq_refl Hi0) as (it & x1 & Hit & Hx1 & _ & Hi1 & Hahead). fold cross in Hahead. rewrite Hv in Hahead.
  destruct (load_loop_ex D T Is e _ d1 x1 fuel (o ++ bs "loaded database at " ++ bs path ++ nl) it Hahead Hfuel)
    as (it2 & Hloop & Ht2 & Hc2). rewrite <- !app_assoc in Hloop. fold (load_output path (bdb_entries d)) in Hloop.
  destruct (Close_it_ex D T Is (o ++ load_output path (bdb_entries d)) e d1 x1 false it2 Ht2 Hc2 Hx1 Hi1)
    as (it3 & x3 & r3 & Hci & _ & _ & Hi3).
  destruct (Discard_ex D T (Is ++ [it3]) (o ++ load_output path (bdb_entries d)) e d1 x3 Hd1 Hi3)
    as (x4 & d4 & Hdis & Hd4 & He4).
  destruct (Close_ex D (T ++ [mk_Txn x4 (length D)]) (Is ++ [it3]) (o ++ load_output path (bdb_entries d)) e d4 false)
    as (r & Hcl).
  eexists d4, _, _. split; [|congruence]. eassert (load_disk_run fuel f args w = Some (Some None, _)) as Hr.
  { unfold load_disk_run. fold path. rewrite (bind_some _ _ _ _ _ (Open_ex f path d w Hf)).
    eapply defer_ex; [|exact Hcl]. unfold load_disk_body. rewrite (bind_some _ _ _ _ _ Hn). eapply defer_ex; [|exact Hdis].
    rewrite (bind_some _ _ _ _ _ Hit). exact (defer_ex _ _ _ _ _ _ _ Hloop Hci). }
  unfold load_disk_main. by rewrite (bind_some _ _ _ _ _ Hr).
Qed.

(** C23: Saving and loading again: on any database that opens, save_disk exits with
    status 0 after printing its four lines; when it closes the database, that has
    exactly the entries it had before and the three that were written, the last
    with an empty value.  If opening the directory afterwards yields a database
    with the entries of the closed one, load_disk, given more steps than there
    are lines, exits with status 0, prints each entry under [cross/] in order, an
    empty value as [<nil>], and changes nothing.  So after save_disk on an empty
    database it prints the three entries. *)
Theorem save_load_roundtrip f reopen args d w :
  let path := path_arg args "/tmp/badger-go-example" in
  let E := put_all saved (bdb_entries d) in
  f (open_options path) = Ok d -> bdb_open d -> accepted saved ->
  (forall d1, bdb_open d1 -> exists d2, reopen d1 (open_options path) = Ok d2 /\ bdb_open d2 /\ bdb_entries d2 = bdb_entries d1) ->
  exists d1 w1, save_disk_main f args w = Some (0, w1) /\ stdout w1 = stdout w ++ save_output path /\
    dbs (objs w1) = dbs (objs w) ++ [mk_DB (bdb_Close d1).2 true] /\ bdb_entries d1 = E /\
    forall w2 fuel, (length (select cross E) < fuel)%nat ->
      exists d3 w3, load_disk_main fuel (reopen d1) args w2 = Some (Some 0, w3) /\
        stdout w3 = stdout w2 ++ load_output path E /\
        dbs (objs w3) = dbs (objs w2) ++ [mk_DB (bdb_Close d3).2 true] /\ bdb_entries d3 = E /\
        (bdb_entries d = [] -> stdout w3 = stdout w2 ++ bs "loaded database at " ++ bs path ++ nl ++
          bs "cross/alpha=one" ++ nl ++ bs "cross/beta=two" ++ nl ++ bs "cross/empty=<nil>" ++ nl).
Proof.
  intros path E Hf Hd Ha Hre. destruct (save_disk_ex f args d w Hf Hd Ha) as (d1 & T & Hs & Hd1 & He1).
  eexists d1, _. split_and!; [exact Hs|done..|]. intros w2 fuel Hfuel.
  destruct (Hre d1 Hd1) as (d2 & Ho & Hd2 & He2).
  destruct (load_disk_ex (reopen d1) args d2 w2 fuel Ho Hd2) as (d3 & T3 & I3 & Hl & He3); [by rewrite He2, He1|].
  rewrite He2, He1 in Hl. eexists d3, _. split_and!; [exact Hl|done|done|by rewrite He3, He2|]. intros Hnil. cbn [stdout db_world].
  unfold load_output. by rewrite Hnil.
Qed.

(** ** iter_bounds_reverse *)

Definition seeds : list (bytes * slice) :=
  [(bs "cross/010", Some (bs "ten")); (bs "cross/020", Some (bs "twenty")); (bs "cross/030", Some (bs "thirty"));
   (bs "cross/040", Some (bs "forty")); (bs "cross/050", Some (bs "fifty"))].

Lemma seed_ex (D : list DB) (T : list Txn) (Is : list Iterator) (o e : bytes) d :
  bdb_open d -> accepted seeds -> exists x d',
  seed (length D) (db_world D e (mk_DB d false) T Is o) = Some (None, world D T e d' x Is o) /\
  bdb_open d' /\ bdb_entries d' = put_all seeds (bdb_entries d).
Proof.
  intros Hd Ha. apply (write_body D T Is o o e seeds d (fun txn => ffi (txn_Commit txn)) Hd Ha); [repeat constructor; done|].
  intros d1 x V Hw Hd1. exact (Commit_ex D T Is o e d1 x V Hw Hd1).
Qed.

Lemma printRange_ex (D : list DB) (T : list Txn) (Is : list Iterator) (o e : bytes) d x u label opts fuel :
  let ko := mkIterOptions (Prefix opts) (Start opts) (End_ opts) (i_Reverse opts) (i_KeysOnly opts) in
  btx_open x u -> kv_sorted (btx_view x) -> wf_opts ko = true -> Prefix opts = None \/ i_Reverse opts = false ->
  i_KeysOnly opts = false -> btx_iters x = 0%nat -> (length (select ko (btx_view x)) < fuel)%nat -> exists it x',
  printRange fuel (length T) label opts (world D T e d x Is o) =
    Some (Some None, world D T e d x' (Is ++ [it]) (o ++ bs label ++ nl ++ lines print_line (select ko (btx_view x)))) /\
  btx_open x' u /\ btx_view x' = btx_view x /\ btx_iters x' = 0%nat.
Proof.
  intros ko Hx Hs Hwf Hp Hko Hi0 Hfuel.
  destruct (Iterator_ex D T Is o e d x u opts Hx Hs Hwf Hp Hko Hi0) as (it & x1 & Hit & Hx1 & Hv1 & Hi1 & Hahead).
  destruct (print_loop_ex D T Is e _ d x1 fuel (o ++ bs label ++ nl) it Hahead Hfuel) as (it2 & Hloop & Ht2 & Hc2).
  rewrite <- !app_assoc in Hloop.
  destruct (Close_it_ex D T Is (o ++ bs label ++ nl ++ lines print_line (select ko (btx_view x))) e d x1 u it2 Ht2 Hc2 Hx1 Hi1)
    as (it3 & x3 & r3 & Hci & Hx3 & Hv3 & Hi3).
  exists it3, x3. split; [|split_and!; [done|congruence|done]]. unfold printRange. rewrite (bind_some _ _ _ _ _ Hit). exact (defer_ex _ _ _ _ _ _ _ Hloop Hci).
Qed.

Definition iter_output (path : String.string) : bytes :=
  bs "iterating database at " ++ bs path ++ nl ++
  bs "forward range [cross/015, cross/045)" ++ nl ++
  bs "cross/020=twenty" ++ nl ++ bs "cross/030=thirty" ++ nl ++ bs "cross/040=forty" ++ nl ++
  bs "reverse range [cross/015, cross/045)" ++ nl ++
  bs "cross/040=forty" ++ nl ++ bs "cross/030=thirty" ++ nl ++ bs "cross/020=twenty" ++ nl.

(** The five entries that the program writes are all it leaves. *)
Definition seeded : list entry := map (fun kv => (kv.1, bdata kv.2)) seeds.

Lemma iter_bounds_body_ex D T Is o e d d0 path fuel :
  bdb_DropAll d = (None, d0) -> bdb_open d0 -> bdb_entries d0 = [] -> accepted seeds -> (3 < fuel)%nat -> exists d' T' Is',
  iter_bounds_body fuel path (length D) (db_world D e (mk_DB d false) T Is o) =
    Some (Some None, db_world D e (mk_DB d' false) T' Is' (o ++ iter_output path)) /\ bdb_entries d' = seeded.
Proof.
  intros Hdrop Hd0 He0 Ha Hfuel. destruct (seed_ex D T Is o e d0 Hd0 Ha) as (x1 & d1 & Hseed & Hd1 & He1).
  assert (bdb_entries d1 = seeded) as Hes by (rewrite He1, He0; done).
  set (T1 := T ++ [mk_Txn x1 (length D)]).
  destruct (NewTxn_ex D T1 Is o e d1 true Hd1) as (x & d2 & Hn & Hd2 & He2 & Hx & Hv & _ & Hi0).
  assert (kv_sorted (btx_view x)) as Hs by (rewrite Hv; by apply bdb_sorted).
  assert (btx_view x = seeded) as Hvs by congruence.
  pose proof (fun o => printRange_ex D T1 Is o e d2 x false "forward range [cross/015, cross/045)" (from_015_to_045 false) fuel
    Hx Hs eq_refl (or_introl eq_refl) eq_refl Hi0) as H1. rewrite Hvs in H1.
  destruct (H1 (o ++ bs "iterating database at " ++ bs path ++ nl) Hfuel) as (it1 & x1' & Hp1 & Hx1' & Hv1' & Hi1'). clear H1.
  assert (btx_view x1' = seeded) as Hvs1 by congruence.
  assert (kv_sorted (btx_view x1')) as Hs1 by (rewrite Hvs1, <- Hvs; exact Hs).
  pose proof (fun o => printRange_ex D T1 (Is ++ [it1]) o e d2 x1' false "reverse range [cross/015, cross/045)"
    (from_015_to_045 true) fuel Hx1' Hs1 eq_refl (or_introl eq_refl) eq_refl Hi1') as H2. rewrite Hvs1 in H2.
  match type of Hp1 with _ = Some (_, world _ _ _ _ _ _ ?o1) => destruct (H2 o1 Hfuel) as (it2 & x2' & Hp2 & _ & _ & Hi2') end. clear H2.
  match type of Hp2 with _ = Some (_, world _ _ _ _ _ _ ?o2) =>
    assert (o2 = o ++ iter_output path) as Eo by (unfold iter_output; rewrite <- !app_assoc; reflexivity); rewrite Eo in Hp2 end.
  destruct (Discard_ex D T1 ((Is ++ [it1]) ++ [it2]) (o ++ iter_output path) e d2 x2' Hd2 Hi2') as (x4 & d4 & Hdis & Hd4 & He4).
  eexists d4, _, _. split; [|congruence]. unfold iter_bounds_body. rewrite (bind_some _ _ _ _ _ (DropAll_ex D T Is o e d d0 None Hdrop)).
  rewrite (bind_some _ _ _ _ _ Hseed). change (world D T e d1 x1 Is o) with (db_world D e (mk_DB d1 false) T1 Is o).
  rewrite (bind_some _ _ _ _ _ Hn). eapply defer_ex; [|exact Hdis]. rewrite (bind_some _ _ _ _ _ (world_Printf _ _ _ _ _ _ _ _)).
  rewrite (bind_some _ _ _ _ _ Hp1). exact Hp2.
Qed.

(** C30: iter_bounds_reverse: on any database that opens and can be dropped, given more
    than three steps for each loop, the program exits with status 0, prints the
    three entries between its bounds in order and then in reverse order, and
    leaves exactly the five entries it wrote, whatever was there before. *)
Theorem iter_bounds_reverse_output f args d d0 w fuel :
  let path := path_arg args "/tmp/badger-iter-example" in
  f (open_options path) = Ok d -> bdb_DropAll d = (None, d0) -> bdb_open d0 -> bdb_entries d0 = [] -> accepted seeds ->
  (3 < fuel)%nat ->
  exists d' w', iter_bounds_main fuel f args w = Some (Some 0, w') /\ stdout w' = stdout w ++ iter_output path /\
    stderr w' = stderr w /\ dbs (objs w') = dbs (objs w) ++ [mk_DB (bdb_Close d').2 true] /\ bdb_entries d' = seeded.
Proof.
  intros path Hf Hdrop Hd0 He0 Ha Hfuel.
  destruct (iter_bounds_body_ex (dbs (objs w)) (txns (objs w)) (iters (objs w)) (stdout w) (stderr w) d d0 path fuel
    Hdrop Hd0 He0 Ha Hfuel) as (d' & T' & Is' & Hb & He').
  destruct (Close_ex (dbs (objs w)) T' Is' (stdout w ++ iter_output path) (stderr w) d' false) as (r & Hcl).
  eassert (iter_bounds_run fuel f args w = Some (Some None, _)) as Hr.
  { unfold iter_bounds_run. fold path. rewrite (bind_some _ _ _ _ _ (Open_ex f path d w Hf)).
    exact (defer_ex _ _ _ _ _ _ _ Hb Hcl). }
  eexists d', _. split; [unfold iter_bounds_main; by rewrite (bind_some _ _ _ _ _ Hr)|done].
Qed.
End examples.

(** ** On the database of sorted lists *)

Module ExamplesSample.
Import BadgerSample.

#[local] Instance example_lib : BadgerLib := {|
  BLogger := unit;
  BOthers := unit;
  badger_DefaultOptions dir := mk_badger_Options dir dir (Some tt) false None 0 (2 ^ 30 - 1) tt;
  badger_ErrReadOnlyTxn := e_readonly;
  badger_ErrInvalidEncryptionKey := ErrOther "invalid key";
  badger_ErrValueLogSize := ErrOther "invalid size" |}.

(** A disk where every directory holds the database [d]. *)
Definition holding (d : BDB) (_ : badger_Options BLogger BOthers) : result BDB := Ok d.

Definition w0 : World := mk_World (mk_heap [] [] []) [] [].

Lemma accepted_all l : accepted l.
Proof. unfold accepted. induction l; by constructor. Qed.

Lemma sorted_nil : bdb_open ([] : BDB).
Proof. constructor. Qed.

Lemma save_load_roundtrip_witness :
  exists d1 w1 w3, save_disk_main (holding []) [] w0 = Some (0, w1) /\
    load_disk_main 4 (holding d1) [] w0 = Some (Some 0, w3) /\
    stdout w3 = bs "loaded database at /tmp/badger-go-example" ++ nl ++ bs "cross/alpha=one" ++ nl ++
      bs "cross/beta=two" ++ nl ++ bs "cross/empty=<nil>" ++ nl.
Proof.
  destruct (save_load_roundtrip (holding []) holding [] [] w0 eq_refl sorted_nil (accepted_all _)) as (d1 & w1 & H1 & _ & _ & _ & H).
  { intros d Hd. by exists d. }
  destruct (H w0 4%nat ltac:(vm_compute; lia)) as (d3 & w3 & H3 & _ & _ & _ & Hout).
  exists d1, w1, w3. split_and!; [exact H1|exact H3|]. rewrite (Hout eq_refl). reflexivity.
Defined.

Lemma iter_bounds_reverse_output_witness :
  exists w', iter_bounds_main 4 (holding [(bs "a", bs "b")]) ["prog"; "/db"] w0 = Some (Some 0, w') /\
    stdout w' = iter_output "/db".
Proof.
  destruct (iter_bounds_reverse_output (holding [(bs "a", bs "b")]) ["prog"; "/db"] [(bs "a", bs "b")] [] w0 4 eq_refl eq_refl
    sorted_nil eq_refl (accepted_all _) ltac:(lia)) as (d' & w' & H & Hout & _).
  exists w'. split; [exact H|exact Hout].
Defined.
End ExamplesSample.
