(* ===== verification/FfiMain.v ===== *)
(** The theorems about the FFI backend: opening, the refinement of the badger
    backend, the translation of errors, closing, discarding, and the limits of
    what crosses the boundary. *)
From stdpp Require Import gmap.
From S2P Require Import Prelude BTree Kv Badger GoMonad Ffi FfiLib FfiBridge FfiSpec FfiInv FfiRefine FfiSim.
From Stdlib Require Import Strings.Byte.
From Stdlib Require Strings.String.
Import Strings.String.StringSyntax.
Import Ffi FfiLib.
Local Open Scope string_scope.

(** Computations built from parts that keep a condition keep it. *)
Ltac keep :=
  repeat first
    [ solve [auto with corekv]
    | apply keeps_bind; [|intros ?]
    | apply keeps_modify; intros ? ?; assumption
    | case_match ].

Section main.
Context {BD : BadgerDB} {BE : BadgerLib}.

(** ** Opening *)

(** The options that reach badger: the path (as a C string) for both directories
    unless the store is in memory, no logger, the encryption key, positive sizes,
    and badger's defaults for everything else. *)
Definition ffi_options (path : String.string) (opts : badger_Options BLogger BOthers) : badger_Options BLogger BOthers :=
  let dir := if o_InMemory opts then "" else c_message path in
  let d := badger_DefaultOptions dir in
  mk_badger_Options (o_Dir d) dir None (o_InMemory opts) (normalizeValue (o_EncryptionKey opts))
    (if 0 <? o_IndexCacheSize opts then o_IndexCacheSize opts else o_IndexCacheSize d)
    (if 0 <? o_ValueLogFileSize opts then o_ValueLogFileSize opts else o_ValueLogFileSize d) (o_others d).

Definition key_ok (key : slice) : bool := (blen key =? 0)%nat || (blen key =? 32)%nat.

(** What opening yields: keys of another length are refused before badger is asked. *)
Definition opened (badger_Open : badger_Options BLogger BOthers -> result BDB) (path : String.string)
    (opts : badger_Options BLogger BOthers) : result BDB :=
  if key_ok (o_EncryptionKey opts) then badger_Open (ffi_options path opts) else Err badger_ErrInvalidEncryptionKey.

(** The library with a new database. *)
Definition with_db (d : BDB) (L : Lib) : Lib :=
  set_dbs (add (length (dbs (objs L))) (dbHandles L)).2
    (set_objs (mk_heap (dbs (objs L) ++ [mk_DB d false]) (txns (objs L)) (iters (objs L))) L).

Lemma blen_normalize s : blen (normalizeValue s) = blen s.
Proof. unfold blen. by rewrite normalize_bdata. Qed.

Lemma Open_run f path opts (h : heap) :
  Open f (mk_OpenOptions (c_message path) (c_message path) (o_InMemory opts) (normalizeValue (o_EncryptionKey opts))
    (o_IndexCacheSize opts) (o_ValueLogFileSize opts)) h =
  Some (match opened f path opts with
        | Err e => (Err e, h)
        | Ok d => (Ok (length (dbs h)), mk_heap (dbs h ++ [mk_DB d false]) (txns h) (iters h))
        end).
Proof.
  unfold Open, opened, key_ok. cbn [EncryptionKey InMemory Dir ValueDir IndexCacheSize ValueLogFileSize].
  rewrite blen_normalize, cloneBytes_id.
  replace (negb (blen (o_EncryptionKey opts) =? 0)%nat && negb (blen (o_EncryptionKey opts) =? 32)%nat) with
    (negb ((blen (o_EncryptionKey opts) =? 0)%nat || (blen (o_EncryptionKey opts) =? 32)%nat)) by apply negb_orb.
  destruct ((blen _ =? 0)%nat || _); [|done]. cbn [negb].
  assert ((if o_InMemory opts then ("", "") else (c_message path, c_message path)) =
    (if o_InMemory opts then "" else c_message path, if o_InMemory opts then "" else c_message path)) as ->
    by (by destruct (o_InMemory opts)).
  cbv zeta match. fold (ffi_options path opts). unfold ffi_options. cbv zeta. by destruct (f _).
Qed.

(** Opening through the library. *)
Lemma db_open_call f path opts L :
  mem_ok L -> small (o_EncryptionKey opts) ->
  let m := String.list_byte_of_string path ++ [x00] in
  leaves (r ← badger_ffi_db_open f (Some m) (Some m) (FfiBridge.ffiBool (o_InMemory opts))
            (FfiBridge.ffiBytesArg (o_EncryptionKey opts)).1 (FfiBridge.ffiBytesArg (o_EncryptionKey opts)).2
            (o_IndexCacheSize opts) (o_ValueLogFileSize opts) true true; FfiBridge.ret_val 0 mret r) L
    (match opened f path opts with Err e => Err (ffi_err e) | Ok d => Ok (next (dbHandles L)) end)
    (match opened f path opts with Err e => L | Ok d => with_db d L end).
Proof.
  intros Hm Hk. cbv zeta. unfold badger_ffi_db_open. cbn [negb].
  eapply leaves_then; [by eapply cBytes_arg; [apply surjective_pairing|]|].
  pose proof (Open_run f path opts (objs L)) as Hrun. rewrite <- (ffiBool_bool (o_InMemory opts)) in Hrun.
  unfold c_message in Hrun at 1 2. rewrite <- GoString_CString in Hrun.
  destruct (opened f path opts) as [d|e].
  - eapply leaves_then; [by apply on_heap_some|]. eapply leaves_then; [done|]. by apply leaves_intro.
  - eapply leaves_then; [by apply on_heap_some|]. assert (set_objs (objs L) L = L) as -> by (by destruct L).
    apply failStatus_val; [apply StatusFromError_fails|done].
Qed.

(** The call of [NewDatastore]. *)
Lemma NewDatastore_call N f path opts L :
  lib_inv N L -> N + 1 < two64 -> small (o_EncryptionKey opts) ->
  match opened f path opts with
  | Err e => leaves (FfiBridge.NewDatastore f path opts) L (Err (ffi_err e)) L
  | Ok d =>
      leaves (FfiBridge.NewDatastore f path opts) L (Ok (FfiBridge.mk_Datastore (next (dbHandles L)) false)) (with_db d L) /\
      items (dbHandles L) !! next (dbHandles L) = None /\ lib_inv (N + 1) (with_db d L)
  end.
Proof.
  intros HL HN Hk. set (m := String.list_byte_of_string path ++ [x00]).
  set (L1 := set_cmem (<[brk L := m]> (cmem L)) (S (brk L)) L).
  destruct (malloc_free L m (li_mem _ _ HL)) as [Hb Hd].
  assert (mem_ok L1) as Hm1 by (apply (lib_inv_malloc N L m HL)).
  pose proof (db_open_call f path opts L1 Hm1 Hk) as Hc. fold m in Hc.
  apply leaves_grown in Hc as (L2 & (b & Hb2 & ->) & Hc).
  assert (leaves (FfiBridge.NewDatastore f path opts) L
    match opened f path opts with Err e => Err (ffi_err e) | Ok d => Ok (FfiBridge.mk_Datastore (next (dbHandles L)) false) end
    match opened f path opts with Err e => L | Ok d => with_db d L end) as Hl.
  { exists b. split; [destruct (opened f path opts); cbn in *; lia|]. unfold FfiBridge.NewDatastore, FfiBridge.ffiOpen.
    unfold CString. fold m. cbn [FfiBridge.compatOptions FfiBridge.EncryptionKey FfiBridge.InMemory FfiBridge.IndexCacheSize FfiBridge.ValueLogFileSize].
    rewrite (surjective_pairing (FfiBridge.ffiBytesArg (o_EncryptionKey opts))).
    apply bind_inv in Hc as (r & L3 & Hc1 & Hc2).
    unfold mbind, M_bind in *. change (malloc m L) with (Some (brk L, L1)). cbv match beta.
    unfold deref at 1. change (cmem L1) with (<[brk L := m]> (cmem L)). rewrite lookup_insert_eq. cbv match beta.
    rewrite Hc1, Hc2. unfold badger_ffi_free, mbind, M_bind, deref, modify, mret, M_ret.
    destruct (opened f path opts) as [d|e]; cbn -[add]; rewrite lookup_insert_eq; cbn -[add]; rewrite Hd; done. }
  destruct (opened f path opts) as [d|e]; [|done]. split; [done|]. split; [by apply (tb_ok_fresh _ _ _ (li_db _ _ HL))|].
  by apply lib_inv_new_db.
Qed.

(** C25: Opening the datastore: a key that is neither empty nor of 32 bytes is refused
    with badger's error for invalid keys without opening anything; otherwise the
    result is that of [badger.Open] on exactly the options [ffi_options], its
    errors as statuses, and on success a datastore with a handle that no other
    database has.  The C heap is left as it was. *)
Theorem ffi_open_correct N f path opts L :
  lib_inv N L -> N + 1 < two64 -> small (o_EncryptionKey opts) ->
  match opened f path opts with
  | Err e => leaves (FfiBridge.NewDatastore f path opts) L (Err (ffi_err e)) L
  | Ok d =>
      leaves (FfiBridge.NewDatastore f path opts) L (Ok (FfiBridge.mk_Datastore (next (dbHandles L)) false)) (with_db d L) /\
      items (dbHandles L) !! next (dbHandles L) = None /\ lib_inv (N + 1) (with_db d L)
  end.
Proof. apply NewDatastore_call. Qed.

(** ** The refinement *)

Context {BF : BadgerFacts BD BE}.

Lemma sim_step (cm : gmap nat bytes) N a f s c ans s' :
  rel (cm := cm) N a f s -> N + 2 < two64 -> small_call c -> sstep c s = Some (ans, s') ->
  exists ans' f', fstep c f = Some (ans', f') /\ agrees ans ans' /\ rel (cm := cm) (N + 2) a f' s'.
Proof.
  intros Hr HN Hc Hs. destruct (s_open s) eqn:Ho; [|unfold sstep in Hs; by rewrite Ho in Hs].
  specialize (Hr Ho). change (follows (cm := cm) N a f c ans s').
  destruct c as [x k|x k|x k v|x k|p ro|p|p|p [q|] o|j|j k|j|j|j|j| |]; cbn [small_call] in Hc; revert Hs.
  all: first
    [ apply (step_reads N a f s Hr HN x k ans s' Hc)
    | apply (step_writes N a f s Hr HN x k v ans s' (proj1 Hc) (proj2 Hc))
    | apply (step_writes N a f s Hr HN x k None ans s' Hc ltac:(done))
    | apply (step_txns N a f s Hr HN p ro ans s') | apply (step_txns N a f s Hr HN p true ans s')
    | apply (step_iterator_in N a f s Hr HN p q o ans s' Hc) | apply (step_iterator_implicit N a f s Hr HN p o ans s' Hc)
    | apply (step_moves N a f s Hr HN j k ans s' Hc) | apply (step_moves N a f s Hr HN j None ans s' ltac:(done))
    | apply (step_at N a f s Hr HN j ans s') | apply (step_ends N a f s Hr HN j ans s')
    | apply (step_ends N a f s Hr HN 0%nat ans s') ].
Qed.

Lemma sim_run (cm : gmap nat bytes) cs : forall N a f s ans s',
  rel (cm := cm) N a f s -> N + 2 * Z.of_nat (length cs) < two64 -> Forall small_call cs -> srun cs s = Some (ans, s') ->
  exists ans' f', frun cs f = Some (ans', f') /\ Forall2 agrees ans ans' /\ rel (cm := cm) (N + 2 * Z.of_nat (length cs)) a f' s'.
Proof.
  induction cs as [|c cs IH]; intros N a f s ans s' Hr HN Hc Hs.
  - injection Hs as <- <-. exists [], f. split_and!; [done|constructor|]. by rewrite Z.add_0_r.
  - apply Forall_cons in Hc as [Hc Hcs]. cbn [srun length] in *. destruct (sstep c s) as [[a1 s1]|] eqn:E1; [|done].
    cbn in Hs. destruct (srun cs s1) as [[l s2]|] eqn:E2; [|done]. injection Hs as <- <-.
    destruct (sim_step cm N a f s c a1 s1 Hr ltac:(lia) Hc E1) as (a1' & f1 & F1 & Hag & Hr1).
    destruct (IH (N + 2) a f1 s1 l s2 Hr1 ltac:(lia) Hcs E2) as (l' & f2 & F2 & Hl & Hr2).
    exists (a1' :: l'), f2. cbn [frun]. rewrite (bind_some _ _ _ _ _ F1), (bind_some _ _ _ _ _ F2).
    split_and!; [done|by constructor|]. by replace (N + 2 * Z.of_nat (S (length cs))) with (N + 2 + 2 * Z.of_nat (length cs)) by lia.
Qed.

Definition badger_spec (d : BDB) : Spec := mk_Spec (Badger.NewDatastoreFrom d) [] ∅ ∅ true.

Lemma open_rel N d L L' :
  lib_inv N L -> N + 1 < two64 -> grown (with_db d L) L' ->
  rel (cm := cmem L) (N + 1) (length (dbs (objs L)))
    (mk_FSys (FfiBridge.mk_State L' (FfiBridge.mk_Datastore (next (dbHandles L)) false) ∅) []) (badger_spec d).
Proof.
  intros HL HN Hg _.
  apply (rel_grown _ _ _ L' (mk_FSys (FfiBridge.mk_State L (FfiBridge.mk_Datastore (next (dbHandles L)) false) ∅) []) _ Hg).
  split; try done.
  - by apply lib_inv_new_db.
  - cbn. apply lookup_insert_eq.
  - cbn. by rewrite lookup_app_r, Nat.sub_diag by lia.
Qed.

(** C5: The FFI backend refines the badger backend.  After opening, take any sequence
    of calls of the store, its transactions and its iterators, none of them on a
    transaction that was discarded or an iterator that was closed, and none after
    the store was closed, that the badger backend answers on the same database
    without badger panicking (as it does for the key of an iterator that is not
    positioned, or an iterator in a committed transaction).  Then the FFI backend
    answers it without a panic as well, and every answer agrees with that of the
    badger backend given nil for empty slices: values and keys are the same up to
    nil for empty ones, conditions are the same, errors stem from the same error of
    badger.  Unless the last call closed the store, the C heap is afterwards as it
    was before opening: every buffer and message was freed, once.  The keys that
    badger notes as read when an iterator is asked for its item are not modelled. *)
Theorem ffi_refines_badger N f path opts d L cs ans s' :
  lib_inv N L -> small (o_EncryptionKey opts) -> opened f path opts = Ok d ->
  N + 1 + 2 * Z.of_nat (length cs) < two64 -> Forall small_call cs ->
  srun cs (badger_spec d) = Some (ans, s') ->
  exists ds L' ans' f',
    FfiBridge.NewDatastore f path opts L = Some (Ok ds, L') /\
    frun cs (mk_FSys (FfiBridge.mk_State L' ds ∅) []) = Some (ans', f') /\
    Forall2 agrees ans ans' /\ (s_open s' = true -> cmem (FfiBridge.lib (fst_ f')) = cmem L).
Proof.
  intros HL Hk Ho HN Hc Hs. pose proof (NewDatastore_call N f path opts L HL ltac:(lia) Hk) as H. rewrite Ho in H.
  destruct H as [H _]. apply leaves_grown in H as (L' & Hg & Hopen).
  destruct (sim_run (cmem L) cs (N + 1) _ _ _ ans s' (open_rel N d L L' HL ltac:(lia) Hg) HN Hc Hs)
    as (ans' & f' & Hrun & Hag & Hr).
  eexists _, L', ans', f'. split_and!; [exact Hopen|exact Hrun|done|]. intros Hop. apply (r_cmem _ _ _ _ (Hr Hop)).
Qed.

(** ** Errors *)

(** C24: The two translations of badger's errors agree on every error made by
    [errors.New] whose message is not empty and has no zero byte, except for that
    of writes in a read-only transaction, which only the FFI backend turns into
    [ErrReadOnlyTxn], and those of an invalid key or log size, which it hands on
    by message.  It also recognises all five errors that the badger backend knows,
    and the read-only one, when they are wrapped. *)
Theorem ffi_error_translation :
  (forall m, c_message m = m -> m <> "" ->
     ErrOther m ∉ [badger_ErrReadOnlyTxn; badger_ErrInvalidEncryptionKey; badger_ErrValueLogSize] ->
     ffi_err (ErrOther m) = Badger.to_kv (ErrOther m)) /\
  (forall e, e ∈ [badger_ErrEmptyKey; badger_ErrKeyNotFound; badger_ErrDiscardedTxn; badger_ErrDBClosed; badger_ErrConflict] ->
     ffi_err e = Badger.to_kv e /\ ffi_err (ErrJoin1 e) = Badger.to_kv e) /\
  ffi_err badger_ErrReadOnlyTxn = ErrReadOnlyTxn /\ ffi_err (ErrJoin1 badger_ErrReadOnlyTxn) = ErrReadOnlyTxn.
Proof.
  destruct badger_sentinels as (m1 & m2 & m3 & m4 & m5 & m6 & m7 & m8 & E1 & E2 & E3 & E4 & E5 & E6 & E7 & E8 & Hnd).
  assert (forall x y, errors_Is (ErrOther x) (ErrOther y) = bool_decide (x = y)) as HO.
  { intros x y. simpl. rewrite orb_false_r. apply bool_decide_ext. split; congruence. }
  assert (forall x y, errors_Is (ErrJoin1 (ErrOther x)) (ErrOther y) = bool_decide (x = y)) as HJ.
  { intros x y. simpl. rewrite ?orb_false_r. apply bool_decide_ext. split; congruence. }
  assert (forall x y, bool_decide (ErrOther x = ErrOther y) = bool_decide (x = y)) as HM.
  { intros x y. apply bool_decide_ext. split; congruence. }
  rewrite !NoDup_cons in Hnd. decompose [and] Hnd. rewrite !not_elem_of_cons in *. decompose [and] Hnd. clear Hnd.
  unfold ffi_err, reported, StatusFromError, Badger.to_kv, Badger.badgerErrToKVErr, Badger.badgerErrToKVErrMap.
  rewrite E1, E2, E3, E4, E5, E6, E7, E8. split_and!.
  - intros m Hm Hne Hout. rewrite !not_elem_of_cons in Hout. destruct Hout as (O6 & O7 & O8 & _). rewrite !HO, !HM.
    cbn [Badger.error_msg]. destruct (decide (m = m1)), (decide (m = m2)), (decide (m = m3)), (decide (m = m4)),
      (decide (m = m5)); try congruence; subst.
    all: repeat first [rewrite (bool_decide_true (_ = _)) by done | rewrite (bool_decide_false (_ = _)) by congruence].
    all: try done. repeat case_match; try done. cbn. rewrite Hm. by rewrite bool_decide_false.
  - intros e He. rewrite !elem_of_cons, elem_of_nil in He.
    destruct He as [->|[->|[->|[->|[->|[]]]]]]; rewrite !HO, !HJ, !HM.
    all: repeat first [rewrite (bool_decide_true (_ = _)) by done | rewrite (bool_decide_false (_ = _)) by congruence]; done.
  - rewrite !HO. repeat first [rewrite (bool_decide_true (_ = _)) by done | rewrite (bool_decide_false (_ = _)) by congruence]; done.
  - rewrite !HJ. repeat first [rewrite (bool_decide_true (_ = _)) by done | rewrite (bool_decide_false (_ = _)) by congruence]; done.
Qed.

Lemma ffi_err_closed : ffi_err badger_ErrDBClosed = ErrDBClosed.
Proof.
  destruct badger_sentinels as (m1 & m2 & m3 & m4 & m5 & m6 & m7 & m8 & E1 & E2 & E3 & E4 & _ & _ & _ & _ & Hnd).
  rewrite !NoDup_cons in Hnd. decompose [and] Hnd. rewrite !not_elem_of_cons in *. decompose [and] Hnd.
  unfold ffi_err, reported, StatusFromError. rewrite E1, E2, E3, E4. cbn [errors_Is]. rewrite !orb_false_r.
  by rewrite !bool_decide_false, bool_decide_true by congruence.
Qed.

(** ** Closing *)

(** The calls that need no open database: what they answer on a closed store. *)
Definition refuses (st : FfiBridge.State) : Prop :=
  (forall k, FfiBridge.Get Background k st = Some (Err ErrDBClosed, st)) /\
  (forall k, FfiBridge.Has Background k st = Some (Err ErrDBClosed, st)) /\
  (forall k v, FfiBridge.Set_ Background k v st = Some (Some FfiBridge.errWritesBlocked, st)) /\
  (forall k, FfiBridge.Delete Background k st = Some (Some FfiBridge.errWritesBlocked, st)) /\
  (forall p o, FfiBridge.Iterator p Background o st = Some (Err ErrDBClosed, st)) /\
  FfiBridge.Close st = Some (None, st) /\
  (forall p ro, FfiBridge.NewTxn p ro st =
     Some (tt, FfiBridge.set_txn p (FfiBridge.mk_bTxn 0 (Some (FfiBridge.closedTxnErr ro))) st)).

Lemma closed_refuses st : FfiBridge.closed (FfiBridge.ds st) = true -> refuses st.
Proof.
  intros Hc. assert (FfiBridge.set_lib (FfiBridge.lib st) st = st) as Hid by (by destruct st).
  assert (forall ro, FfiBridge.newTxn ro st = Some (FfiBridge.mk_bTxn 0 (Some (FfiBridge.closedTxnErr ro)), st)) as Hn.
  { intros ro. unfold FfiBridge.newTxn, reads, mbind, M_bind. by rewrite Hc. }
  split_and!; intros; unfold FfiBridge.Get, FfiBridge.Has, FfiBridge.Set_, FfiBridge.Delete, FfiBridge.Iterator,
    FfiBridge.NewTxn, FfiBridge.Close, FfiBridge.implicit_read, FfiBridge.implicit_write; cbn [TryGetCtxTxnG ctx_Value].
  all: try (rewrite (bind_some _ _ _ _ _ (Hn _)); cbn; unfold FfiBridge.on_lib, zoom, mbind, M_bind; cbn; by rewrite ?Hid).
  unfold reads, mbind, M_bind. by rewrite Hc.
Qed.

(** C26: After [Close] has closed the database: calls of the store outside of
    transactions fail at once and change nothing, reads and iterators with
    [ErrDBClosed], writes with the error that badger gives blocked writes; new
    transactions carry these errors; closing again succeeds; [DropAll] fails, its
    handle is gone; and the iterators of open transactions fail with
    [ErrDBClosed]. *)
Theorem ffi_close_final N st a d b :
  lib_inv N (FfiBridge.lib st) -> FfiBridge.closed (FfiBridge.ds st) = false ->
  items (dbHandles (FfiBridge.lib st)) !! FfiBridge.handle (FfiBridge.ds st) = Some a ->
  dbs (objs (FfiBridge.lib st)) !! a = Some d -> bdb_Close (Ffi.db d) = (None, b) ->
  exists st', FfiBridge.Close st = Some (None, st') /\ FfiBridge.txns st' = FfiBridge.txns st /\ refuses st' /\
    (exists st'', FfiBridge.DropAll st' = Some (Some ErrInvalidHandle, st'')) /\
    forall h fi k, iter_of (FfiBridge.lib st) h = Some fi -> db_of_txn (FfiBridge.lib st) (it_txn fi) = Some a -> small k ->
      (exists L, FfiBridge.Next (FfiBridge.mk_iterator h None) (FfiBridge.lib st') = Some (Err ErrDBClosed, L)) /\
      (exists L, FfiBridge.Seek (FfiBridge.mk_iterator h None) k (FfiBridge.lib st') = Some (Err ErrDBClosed, L)).
Proof.
  intros HL Hcl Hh Hd Hb. set (L := FfiBridge.lib st) in *.
  assert (Close a (objs L) = Some (None, put_db a (mk_DB b true) (objs L))) as Hrun.
  { unfold Close, the_db, deref, mbind, M_bind. by rewrite Hd, Hb. }
  apply (ffiDBClose_call L _ a _ _ (li_mem _ _ HL) Hh) in Hrun. apply leaves_grown in Hrun as (L' & Hg & Hrun).
  exists (FfiBridge.set_closed true (FfiBridge.set_lib L' st)). split_and!; [|done|by apply closed_refuses|..].
  - unfold FfiBridge.Close. change (reads FfiBridge.ds) with (fun s : FfiBridge.State => Some (FfiBridge.ds s, s)).
    unfold mbind at 1, M_bind at 1. rewrite Hcl. by rewrite (bind_some _ _ _ _ _ (on_lib_some _ st _ _ Hrun)).
  - assert (mem_ok L') as Hm' by (destruct Hg as (n & Hn & ->); intros c Hc; cbn in *; apply (li_mem _ _ HL); lia).
    assert (items (dbHandles L') !! FfiBridge.handle (FfiBridge.ds st) = None) as Hgone
      by (destruct Hg as (n & Hn & ->); cbn; apply lookup_delete_eq).
    pose proof (bad_handle_err dbHandles _ (fun p => err ← on_heap (DropAll p); finish_err true err) L' Hm' Hgone) as Hbad.
    apply leaves_grown in Hbad as (L2 & _ & Hbad). eexists. unfold FfiBridge.DropAll.
    change (reads FfiBridge.ds) with (fun s : FfiBridge.State => Some (FfiBridge.ds s, s)). unfold mbind at 1, M_bind at 1.
    eapply on_lib_some. exact Hbad.
  - intros h fi k (q & Hq & Hfi)%iter_of_inv Ha Hk. apply fmap_Some in Ha as (y & Hy & Ea).
    assert (mem_ok L') as Hm' by (destruct Hg as (n & Hn & ->); intros c Hc; cbn in *; apply (li_mem _ _ HL); lia).
    assert (forall g, unless_closed q g (objs L') = Some (Err badger_ErrDBClosed, objs L')) as Hcl'.
    { intros g. apply (unless_closed_run _ _ fi y b true); destruct Hg as (n & Hn & ->); [done|done|].
      cbn. rewrite <- Ea. rewrite list_lookup_insert_eq; [done|]. by eapply lookup_lt_Some. }
    assert (items (iterHandles L') !! h = Some q) as Hq' by (by destruct Hg as (n & Hn & ->)).
    split.
    + pose proof (ffiIterNext_call L' h q _ _ Hm' Hq' (Hcl' _)) as Hc. apply leaves_grown in Hc as (L2 & _ & Hc).
      cbn [conv] in Hc. rewrite ffi_err_closed in Hc. by exists L2.
    + pose proof (ffiIterSeek_call L' h q k _ _ Hm' Hq' Hk (Hcl' _)) as Hc. apply leaves_grown in Hc as (L2 & _ & Hc).
      cbn [conv] in Hc. rewrite ffi_err_closed in Hc. by exists L2.
Qed.

(** ** Discarding *)

(** What the transaction [x] answers when its handle is not in the table. *)
Definition invalid (x : FfiBridge.bTxn) (L : Lib) : Prop :=
  (forall k, leaves (FfiBridge.bTxn_Get k x) L (Err ErrInvalidHandle) L) /\
  (forall k, leaves (FfiBridge.bTxn_Has k x) L (Err ErrInvalidHandle) L) /\
  (forall k v, leaves (FfiBridge.bTxn_Set k v x) L (Some ErrInvalidHandle) L) /\
  (forall k, leaves (FfiBridge.bTxn_Delete k x) L (Some ErrInvalidHandle) L) /\
  leaves (FfiBridge.bTxn_Commit x) L (Some ErrInvalidHandle) L /\
  (forall o, leaves (FfiBridge.bTxn_iterator x o) L (Err ErrInvalidHandle) L) /\
  FfiBridge.bTxn_Discard x L = Some (FfiBridge.mk_bTxn 0 None, L).

Lemma no_handle_invalid h L :
  mem_ok L -> items (txnHandles L) !! h = None -> invalid (FfiBridge.mk_bTxn h None) L.
Proof.
  intros Hm Hh. unfold invalid, FfiBridge.bTxn_Get, FfiBridge.bTxn_Has, FfiBridge.bTxn_Set, FfiBridge.bTxn_Delete,
    FfiBridge.bTxn_Commit, FfiBridge.bTxn_iterator, FfiBridge.bTxn_Discard. cbn [FfiBridge.initErr FfiBridge.txn_handle].
  split_and!; intros; unfold FfiBridge.ffiTxnGet, FfiBridge.ffiTxnHas, FfiBridge.ffiTxnSet, FfiBridge.ffiTxnDelete,
    FfiBridge.ffiTxnCommit, FfiBridge.ffiTxnIterator; repeat case_match.
  all: try (by apply (bad_handle_val txnHandles)).
  all: try (by apply (bad_handle_err txnHandles)).
  - unfold badger_ffi_txn_iterator. cbn [negb].
    pose proof (fun f => bad_handle_val txnHandles h f 0 (mret : Z -> M Lib Z) L Hm Hh) as Hb.
    match goal with |- context [with_handle txnHandles h true ?f] => specialize (Hb f) end.
    apply leaves_grown in Hb as (L2 & Hg & Hb). apply leaves_grown. exists L2. split; [done|].
    by rewrite (bind_some _ _ _ _ _ Hb).
  - by rewrite (bind_some _ _ _ _ _ (ffiTxnDiscard_gone _ _ Hh)).
Qed.

(** C29: After [Discard] of an open transaction its handle is gone: every call of it
    fails with the error "invalid handle", which is not the [ErrDiscardedTxn] of
    corekv that the other stores return, and discarding again does nothing.  After
    [Commit] it keeps its handle, and is still answered by badger.  Both return
    when badger's do, which it promises for a transaction without unclosed
    iterators. *)
Theorem ffi_discarded_txn N st p h q x a d :
  lib_inv N (FfiBridge.lib st) -> FfiBridge.txns st !! p = Some (FfiBridge.mk_bTxn h None) ->
  items (txnHandles (FfiBridge.lib st)) !! h = Some q -> txns (objs (FfiBridge.lib st)) !! q = Some (mk_Txn x a) ->
  dbs (objs (FfiBridge.lib st)) !! a = Some d ->
  (btx_Discard x (Ffi.db d) <> None ->
   exists st', FfiBridge.txn_Discard p st = Some (tt, st') /\
     items (txnHandles (FfiBridge.lib st')) = delete h (items (txnHandles (FfiBridge.lib st))) /\
     FfiBridge.txns st' !! p = Some (FfiBridge.mk_bTxn 0 None) /\ invalid (FfiBridge.mk_bTxn 0 None) (FfiBridge.lib st')) /\
  (btx_Commit x (Ffi.db d) <> None ->
   exists e st', FfiBridge.on_txn p FfiBridge.bTxn_Commit st = Some (e, st') /\
     items (txnHandles (FfiBridge.lib st')) !! h = Some q) /\
  (btx_iters x = 0%nat -> btx_Discard x (Ffi.db d) <> None /\ btx_Commit x (Ffi.db d) <> None).
Proof.
  intros HL Hp Hh Hq Hd. set (L := FfiBridge.lib st) in *.
  assert (h <> 0) as H0 by (pose proof (proj1 (proj2 (li_txn _ _ HL)) _ _ Hh); lia).
  assert (items (txnHandles L) !! 0 = None) as Hz.
  { destruct (items (txnHandles L) !! 0) eqn:E; [|done]. pose proof (proj1 (proj2 (li_txn _ _ HL)) _ _ E). lia. }
  split; [|split].
  - intros Hn. destruct (btx_Discard x (Ffi.db d)) as [[x' b]|] eqn:E; [|done].
    assert (txn_Discard q (objs L) = Some ((), put_db a (mk_DB b (closed d)) (put_txn q (mk_Txn x' a) (objs L)))) as Hrun.
    { unfold txn_Discard, Ffi.the_txn, the_db, or_panic, deref, mbind, M_bind. rewrite Hq. cbn [t txn_db]. rewrite Hd. by rewrite E. }
    apply (ffiTxnDiscard_call L h q _ H0 Hh) in Hrun.
    eassert (FfiBridge.bTxn_Discard (FfiBridge.mk_bTxn h None) L = Some (FfiBridge.mk_bTxn 0 None, _)) as Hdis.
    { unfold FfiBridge.bTxn_Discard. cbn [FfiBridge.txn_handle]. rewrite (bind_some _ _ _ _ _ Hrun). reflexivity. }
    eexists. split_and!.
    + unfold FfiBridge.txn_Discard, FfiBridge.the_txn.
      rewrite (bind_some _ _ _ _ _ (deref_some (fun s => FfiBridge.txns s !! p) st _ Hp)).
      rewrite (bind_some _ _ _ _ _ (on_lib_some _ st _ _ Hdis)). reflexivity.
    + done.
    + cbn. apply lookup_insert_eq.
    + apply no_handle_invalid; [intros c Hc; by apply (li_mem _ _ HL)|]. cbn. rewrite lookup_delete_None. by right.
  - intros Hn. destruct (btx_Commit x (Ffi.db d)) as [[e [x' b]]|] eqn:E; [|done].
    assert (txn_Commit q (objs L) = Some (e, put_db a (mk_DB b (closed d)) (put_txn q (mk_Txn x' a) (objs L)))) as Hrun.
    { unfold txn_Commit, Ffi.the_txn, the_db, or_panic, deref, mbind, M_bind. rewrite Hq. cbn [t txn_db]. rewrite Hd. by rewrite E. }
    apply (ffiTxnCommit_call L h q _ _ (li_mem _ _ HL) Hh) in Hrun. apply leaves_grown in Hrun as (L' & (n & Hn' & ->) & Hrun).
    eexists _, _. split.
    + unfold FfiBridge.on_txn, FfiBridge.the_txn.
      rewrite (bind_some _ _ _ _ _ (deref_some (fun s => FfiBridge.txns s !! p) st _ Hp)). apply on_lib_some. exact Hrun.
    + exact Hh.
  - intros Hi. destruct (btx_Discard_idle x (Ffi.db d) Hi) as [r ->].
    destruct (btx_Commit_idle x (Ffi.db d) Hi) as (e & x' & d' & -> & _). done.
Qed.

(** ** Bytes at the boundary *)

(** C28: A slice of [n] bytes handed to the library arrives whole if [n < 2^31], nil if
    it is empty, and what the library returns arrives whole as well, its buffer
    freed.  Lengths are passed on as a 32-bit integer: a longer slice is cut to
    its first [n mod 2^32] bytes without notice if that is below 2^31, and is a
    panic otherwise. *)
Theorem ffi_bytes_limits s (L : Lib) :
  mem_ok L ->
  let arg := FfiBridge.ffiBytesArg s in
  (small s -> cBytes arg.1 arg.2 L = Some (normalizeValue s, L) /\
     leaves (o ← setOutBytes s; FfiBridge.take_bytes o) L (normalizeValue s) L) /\
  (~ small s ->
     let n := Z.of_nat (blen s) mod 2 ^ 32 in
     cBytes arg.1 arg.2 L = if n <? 2 ^ 31 then Some (Some (take (Z.to_nat n) (bdata s)), L) else None).
Proof.
  intros Hm. cbv zeta. split.
  - intros Hs. split; [by eapply cBytes_arg; [apply surjective_pairing|]|].
    destruct (finish_bytes_ret (Ok s) L Hm Hs) as (b & Hb & H). exists b. split; [done|].
    apply bind_inv in H as (r & L1 & H1 & H2). apply bind_inv in H1 as (o & L2 & H1 & H3).
    injection H3 as <- <-. apply bind_inv in H2 as (e & L4 & H2 & H4). injection H2 as <- <-.
    apply bind_inv in H4 as (v & L5 & H4 & H5). injection H5 as -> ->. cbn [FfiLib.out default] in H4.
    rewrite (bind_some _ _ _ _ _ H1). exact H4.
  - unfold small. intros Hs. unfold FfiBridge.ffiBytesArg. destruct (Nat.eqb_spec (blen s) 0) as [E|E]; [rewrite E in Hs; done|].
    destruct s as [l|]; [|done]. cbn [fst snd cBytes]. destruct (Z.eqb_spec (Z.of_nat (blen (Some l))) 0) as [|_]; [lia|].
    change (bdata (Some l)) with l. change (blen (Some l)) with (length l) in *. unfold mbind, M_bind, deref, GoBytes, C_int.
    set (n := Z.of_nat (length l)) in *. pose proof (Z.mod_pos_bound n (2 ^ 32) ltac:(lia)) as Hn.
    rewrite <- Z.add_mod_idemp_l by lia. destruct (Z.ltb_spec (n mod 2 ^ 32) (2 ^ 31)) as [Hlt|Hge].
    + rewrite Z.mod_small by lia. destruct (Z.ltb_spec (n mod 2 ^ 32 + 2 ^ 31 - 2 ^ 31) 0); [lia|].
      by replace (n mod 2 ^ 32 + 2 ^ 31 - 2 ^ 31) with (n mod 2 ^ 32) by lia.
    + replace ((n mod 2 ^ 32 + 2 ^ 31) mod 2 ^ 32) with (n mod 2 ^ 32 - 2 ^ 31); cycle 1.
      { apply (Z.mod_unique _ _ 1); lia. }
      destruct (Z.ltb_spec (n mod 2 ^ 32 - 2 ^ 31 - 2 ^ 31) 0); [done|lia].
Qed.

(** ** Handles of implicit transactions *)

(** The handles in use. *)
Definition tables (L : Lib) : gmap Z nat * gmap Z nat * gmap Z nat :=
  (items (dbHandles L), items (txnHandles L), items (iterHandles L)).

Section handles.
Context (T : gmap Z nat * gmap Z nat * gmap Z nat).
Local Notation keepsT := (keeps (fun L => tables L = T)).

Lemma keepsT_on_heap {A} (m : M heap A) : keepsT (on_heap m).
Proof. by apply keeps_zoom. Qed.
Lemma keepsT_malloc m : keepsT (malloc m).
Proof. by intros L a L' H [= <- <-]. Qed.
Lemma keepsT_free p : keepsT (badger_ffi_free p).
Proof. destruct p; unfold badger_ffi_free; keep. Qed.
Hint Resolve keepsT_on_heap keepsT_malloc keepsT_free : corekv.

Lemma keepsT_cBytes p n : keepsT (cBytes p n).
Proof. unfold cBytes. keep. Qed.
Lemma keepsT_failStatus {A} st e b : keepsT (failStatus st e b : M Lib (Ret A)).
Proof. unfold failStatus, setError, CString. keep. Qed.
Lemma keepsT_err r : keepsT (finish_err true r).
Proof. unfold finish_err, fail, succeed. destruct r; [apply keepsT_failStatus|apply keeps_ret]. Qed.
Lemma keepsT_bool r : keepsT (finish_bool true r).
Proof. unfold finish_bool, fail, succeed. destruct r; [apply keeps_ret|apply keepsT_failStatus]. Qed.
Lemma keepsT_bytes r : keepsT (finish_bytes true r).
Proof.
  unfold finish_bytes, fail, succeed. destruct r; [|apply keepsT_failStatus]. unfold setOutBytes. keep.
Qed.
Lemma keepsT_ret_err {A} (r : Ret A) : keepsT (FfiBridge.ret_err r).
Proof. unfold FfiBridge.ret_err, FfiBridge.ffiStatusErr, FfiBridge.ffiCString. destruct (err_out r); keep. Qed.
Lemma keepsT_ret_val {A B} d (k : A -> M Lib B) r : (forall a, keepsT (k a)) -> keepsT (FfiBridge.ret_val d k r).
Proof. intros Hk. unfold FfiBridge.ret_val. apply keeps_bind; [apply keepsT_ret_err|]. intros e. keep. Qed.
Lemma keepsT_take o : keepsT (FfiBridge.take_bytes o).
Proof. unfold FfiBridge.take_bytes, FfiBridge.ffiBytesResult. keep. Qed.
Lemma keepsT_take_bool o : keepsT (FfiBridge.take_bool o).
Proof. apply keeps_ret. Qed.
Hint Resolve keepsT_cBytes keepsT_failStatus keepsT_err keepsT_bool keepsT_bytes keepsT_ret_err keepsT_ret_val keepsT_take
  keepsT_take_bool : corekv.

(** The methods of a transaction create and remove no handles. *)
Lemma keepsT_txn k v x :
  keepsT (FfiBridge.bTxn_Get k x) /\ keepsT (FfiBridge.bTxn_Has k x) /\ keepsT (FfiBridge.bTxn_Set k v x) /\
  keepsT (FfiBridge.bTxn_Delete k x) /\ keepsT (FfiBridge.bTxn_Commit x).
Proof.
  unfold FfiBridge.bTxn_Get, FfiBridge.bTxn_Has, FfiBridge.bTxn_Set, FfiBridge.bTxn_Delete, FfiBridge.bTxn_Commit.
  unfold FfiBridge.ffiTxnGet, FfiBridge.ffiTxnHas, FfiBridge.ffiTxnSet, FfiBridge.ffiTxnDelete, FfiBridge.ffiTxnCommit.
  unfold badger_ffi_txn_get, badger_ffi_txn_has, badger_ffi_txn_set, badger_ffi_txn_delete, badger_ffi_txn_commit, with_handle.
  split_and!; keep.
Qed.
End handles.

(** The tables with a transaction's handle, or as they were for a transaction
    that could not be created. *)
Definition created (L L' : Lib) (x : FfiBridge.bTxn) : Prop :=
  (FfiBridge.txn_handle x = 0 /\ tables L' = tables L) \/
  (exists q, FfiBridge.txn_handle x <> 0 /\ items (txnHandles L) !! FfiBridge.txn_handle x = None /\
     tables L' = (items (dbHandles L), <[FfiBridge.txn_handle x := q]> (items (txnHandles L)), items (iterHandles L))).

Lemma newTxn_created N st ro x st' :
  lib_inv N (FfiBridge.lib st) -> FfiBridge.newTxn ro st = Some (x, st') ->
  created (FfiBridge.lib st) (FfiBridge.lib st') x.
Proof.
  intros HL. set (L := FfiBridge.lib st) in *. unfold FfiBridge.newTxn.
  change (reads FfiBridge.ds) with (fun s : FfiBridge.State => Some (FfiBridge.ds s, s)). unfold mbind at 1, M_bind at 1.
  destruct (FfiBridge.closed (FfiBridge.ds st)); [intros [= <- <-]; by left|]. intros (r & st1 & H1 & [= <- <-])%bind_inv.
  unfold FfiBridge.on_lib, zoom in H1. fold L in H1.
  destruct (FfiBridge.ffiDBNewTxn (FfiBridge.handle (FfiBridge.ds st)) ro L) as [[r1 L1]|] eqn:E; [|done]. injection H1 as <- <-.
  change (created L L1 match r1 with Ok h => FfiBridge.mk_bTxn h None | Err e => FfiBridge.mk_bTxn 0 (Some e) end).
  destruct (items (dbHandles L) !! FfiBridge.handle (FfiBridge.ds st)) as [p|] eqn:Eh.
  - destruct (NewTxn p ro (objs L)) as [[q H]|] eqn:En.
    + destruct (ffiDBNewTxn_call _ _ _ _ _ _ Eh En) as (b & _ & Hc). rewrite Hc in E. injection E as <- <-.
      right. exists q. pose proof (li_txn _ _ HL) as Ht. split_and!; [destruct Ht; cbn; lia|by eapply tb_ok_fresh|done].
    + exfalso. unfold FfiBridge.ffiDBNewTxn, badger_ffi_db_new_txn in E. cbn [negb] in E.
      rewrite <- (ffiBool_bool ro) in En. unfold with_handle, reads, mbind, M_bind, on_heap, zoom, get in E.
      rewrite Eh in E. by rewrite En in E.
  - destruct (bad_handle_val dbHandles _ (fun p => x ← on_heap (NewTxn p (negb (FfiBridge.ffiBool ro =? 0))); h ← txns_add x; succeed h)
      0 mret L (li_mem _ _ HL) Eh) as (b & _ & Hc).
    change (FfiBridge.ffiDBNewTxn (FfiBridge.handle (FfiBridge.ds st)) ro L = Some (Err ErrInvalidHandle, set_cmem (cmem L) b L)) in Hc.
    rewrite Hc in E. injection E as <- <-. by left.
Qed.

Lemma discard_created L L1 L2 x x' :
  created L L1 x -> FfiBridge.bTxn_Discard x L1 = Some (x', L2) -> tables L2 = tables L.
Proof.
  intros Hc (u & L3 & H1 & [= <- <-])%bind_inv. unfold FfiBridge.ffiTxnDiscard in H1. destruct Hc as [[H0 HT]|(q & H0 & Hf & HT)].
  - rewrite H0 in H1. by injection H1 as <- <-.
  - rewrite (proj2 (Z.eqb_neq _ _) H0) in H1. injection HT as T1 T2 T3.
    unfold badger_ffi_txn_discard, reads, get, mbind, M_bind, on_heap, zoom in H1. rewrite T2, lookup_insert_eq in H1.
    destruct (txn_Discard q (objs L1)) as [[u' H]|]; [|done]. injection H1 as <- <-. unfold tables. cbn.
    by rewrite T1, T2, T3, delete_insert_id.
Qed.

Lemma created_keeps {A} L L1 x (m : M Lib A) a L2 :
  created L L1 x -> keeps (fun L => tables L = tables L1) m -> m L1 = Some (a, L2) -> created L L2 x.
Proof. intros Hc Hk Hm. apply (Hk _ _ _ eq_refl) in Hm. unfold created in *. rewrite Hm. exact Hc. Qed.

Lemma on_lib_inv {A} (m : M Lib A) st a st' :
  FfiBridge.on_lib m st = Some (a, st') -> m (FfiBridge.lib st) = Some (a, FfiBridge.lib st').
Proof. unfold FfiBridge.on_lib, zoom. destruct (m (FfiBridge.lib st)) as [[b L]|]; [|done]. by intros [= <- <-]. Qed.

Lemma implicit_read_tables {R} N (f : FfiBridge.bTxn -> M Lib R) st r st' :
  lib_inv N (FfiBridge.lib st) -> (forall T x, keeps (fun L => tables L = T) (f x)) ->
  FfiBridge.implicit_read f st = Some (r, st') -> tables (FfiBridge.lib st') = tables (FfiBridge.lib st).
Proof.
  intros HL Hf (x & st1 & H1 & (a & st2 & H2 & (x' & st3 & H3 & [= <- <-])%bind_inv)%bind_inv)%bind_inv.
  apply (newTxn_created N) in H1; [|done]. apply on_lib_inv in H2, H3. eapply created_keeps in H2; [|done|apply Hf].
  by eapply discard_created.
Qed.

Lemma implicit_write_tables N f st r st' :
  lib_inv N (FfiBridge.lib st) -> (forall T x, keeps (fun L => tables L = T) (f x)) ->
  FfiBridge.implicit_write f st = Some (r, st') -> tables (FfiBridge.lib st') = tables (FfiBridge.lib st).
Proof.
  intros HL Hf (x & st1 & H1 & (e & st2 & H2 & (e' & st3 & H3 & (x' & st4 & H4 & [= <- <-])%bind_inv)%bind_inv)%bind_inv)%bind_inv.
  apply (newTxn_created N) in H1; [|done]. apply on_lib_inv in H2, H4. eapply created_keeps in H2; [|done|apply Hf].
  eapply discard_created; [|exact H4]. destruct e; [by injection H3 as <- <-|]. apply on_lib_inv in H3.
  eapply created_keeps in H3; [done..|]. apply (keepsT_txn _ None None x).
Qed.

(** The store's calls outside of transactions return, whatever the state of the
    library: the specification answers them. *)
Lemma implicit_returns N st a d c :
  lib_inv N (FfiBridge.lib st) -> N + 2 < two64 ->
  items (dbHandles (FfiBridge.lib st)) !! FfiBridge.handle (FfiBridge.ds st) = Some a ->
  FfiBridge.closed (FfiBridge.ds st) = false -> dbs (objs (FfiBridge.lib st)) !! a = Some d -> small_call c ->
  is_Some (sstep c (mk_Spec (Badger.mk_State (db d) (closed d) ∅) [] ∅ ∅ true)) -> is_Some (fstep c (mk_FSys st [])).
Proof.
  intros HL HN Hh Hc Hd Hs [[ans s'] Hst].
  eapply (sim_step (cmem (FfiBridge.lib st)) N a) in Hst as (ans' & f' & Hf & _); [by rewrite Hf| |done..].
  intros _. split; try done; [by destruct d|]. by intros p p' h [? ?].
Qed.

Lemma on_store_returns {A} (m : M FfiBridge.State A) (g : A -> answer) st :
  is_Some ((r ← on_store m; mret (g r)) (mk_FSys st [])) -> exists r st', m st = Some (r, st').
Proof.
  intros [[ans f'] (r & f1 & Hr & _)%bind_inv]. unfold on_store, zoom in Hr. cbn in Hr.
  destruct (m st) as [[r' st']|]; [eauto|done].
Qed.

(** The badger backend's calls outside of transactions do not panic: an implicit
    transaction has no iterators when it is committed and discarded. *)
Lemma newTxn_returns ro b : exists x b', Badger.newTxn ro b = Some (x, b') /\ btx_iters x = 0%nat.
Proof.
  unfold Badger.newTxn, reads, modify, mbind, M_bind, mret, M_ret. pose proof (NewTransaction_iters (Badger.db b) (negb ro)) as H.
  destruct (bdb_NewTransaction _ _) as [x d]. eauto.
Qed.

Lemma discard_implicit_returns x b : btx_iters x = 0%nat -> exists b', Badger.discard_implicit x b = Some (tt, b').
Proof.
  intros Hn. destruct (btx_Discard_idle x (Badger.db b) Hn) as [[x' d'] E].
  unfold Badger.discard_implicit, reads, or_panic, deref, modify, mbind, M_bind, Badger.bTxn_Discard. rewrite E. eauto.
Qed.

Lemma implicit_read_returns {R} (op : BTx -> R * BTx) b :
  (forall x, btx_iters (op x).2 = btx_iters x) -> exists r b', Badger.implicit_read op b = Some (r, b').
Proof.
  intros Hop. destruct (newTxn_returns true b) as (x & b1 & H1 & Hn). specialize (Hop x).
  destruct (discard_implicit_returns (op x).2 b1) as (b2 & H2); [congruence|]. exists (op x).1, b2.
  unfold Badger.implicit_read. rewrite (bind_some _ _ _ _ _ H1). destruct (op x) as [r x'].
  by rewrite (bind_some _ _ _ _ _ H2).
Qed.

Lemma implicit_write_returns (op : BTx -> option error * BTx) b :
  (forall x, btx_iters (op x).2 = btx_iters x) -> exists e b', Badger.implicit_write op b = Some (e, b').
Proof.
  intros Hop. destruct (newTxn_returns false b) as (x & b1 & H1 & Hn). specialize (Hop x). rewrite Hn in Hop.
  unfold Badger.implicit_write. rewrite (bind_some _ _ _ _ _ H1). destruct (op x) as [[e|] x']; cbn [snd] in Hop.
  - destruct (discard_implicit_returns x' b1 Hop) as (b2 & H2). rewrite (bind_some _ _ _ _ _ H2). by eexists _, _.
  - destruct (btx_Commit_idle x' (Badger.db b1) Hop) as (e & x2 & d2 & Hc & Hn2).
    destruct (discard_implicit_returns x2 (Badger.set_db d2 b1) Hn2) as (b3 & H3).
    unfold reads, or_panic, deref, modify, Badger.bTxn_Commit, mbind, M_bind. rewrite Hc. cbn. rewrite H3. by eexists _, _.
Qed.

Lemma implicit_steps k v b :
  let s := mk_Spec b [] ∅ ∅ true in
  is_Some (sstep (CGet None k) s) /\ is_Some (sstep (CHas None k) s) /\ is_Some (sstep (CSet None k v) s) /\
  is_Some (sstep (CDelete None k) s).
Proof.
  cbv zeta. set (k' := normalizeValue k). set (v' := normalizeValue v).
  destruct (implicit_read_returns (Badger.bTxn_Get k') b) as (r1 & b1 & H1); [intros x; apply (Badger.bTxn_iters k' v' x)|].
  destruct (implicit_read_returns (Badger.bTxn_Has k') b) as (r2 & b2 & H2); [intros x; apply (Badger.bTxn_iters k' v' x)|].
  destruct (implicit_write_returns (Badger.bTxn_Set k' v') b) as (r3 & b3 & H3); [intros x; apply (Badger.bTxn_iters k' v' x)|].
  destruct (implicit_write_returns (Badger.bTxn_Delete k') b) as (r4 & b4 & H4); [intros x; apply (Badger.bTxn_iters k' v' x)|].
  unfold sstep. cbn [negb s_open ctx_ok guarded ctx_b sb]. fold k' v'.
  unfold Badger.Get, Badger.Has, Badger.Set_, Badger.Delete. cbn [TryGetCtxTxnG ctx_Value].
  rewrite H1, H2, H3, H4. split_and!; by eexists.
Qed.

(** C27: The implicit transactions of [Get], [Has], [Set] and [Delete] leave no handle
    behind: on an open store each call returns, and the tables of handles are
    afterwards as they were, whatever badger answers. *)
Theorem ffi_no_handle_leak N st a d k v :
  lib_inv N (FfiBridge.lib st) -> N + 2 < two64 ->
  items (dbHandles (FfiBridge.lib st)) !! FfiBridge.handle (FfiBridge.ds st) = Some a ->
  FfiBridge.closed (FfiBridge.ds st) = false -> dbs (objs (FfiBridge.lib st)) !! a = Some d ->
  small k -> small v ->
  let intact (st' : FfiBridge.State) := tables (FfiBridge.lib st') = tables (FfiBridge.lib st) in
  (exists r st', FfiBridge.Get Background k st = Some (r, st') /\ intact st') /\
  (exists r st', FfiBridge.Has Background k st = Some (r, st') /\ intact st') /\
  (exists r st', FfiBridge.Set_ Background k v st = Some (r, st') /\ intact st') /\
  (exists r st', FfiBridge.Delete Background k st = Some (r, st') /\ intact st').
Proof.
  intros HL HN Hh Hc Hd Hk Hv intact.
  pose proof (fun c => implicit_returns N st a d c HL HN Hh Hc Hd) as H.
  destruct (implicit_steps k v (Badger.mk_State (db d) (closed d) ∅)) as (S1 & S2 & S3 & S4).
  destruct (on_store_returns (FfiBridge.Get Background k) ABytes st (H (CGet None k) Hk S1)) as (r1 & s1 & H1).
  destruct (on_store_returns (FfiBridge.Has Background k) ABool st (H (CHas None k) Hk S2)) as (r2 & s2 & H2).
  destruct (on_store_returns (FfiBridge.Set_ Background k v) AErr st (H (CSet None k v) (conj Hk Hv) S3)) as (r3 & s3 & H3).
  destruct (on_store_returns (FfiBridge.Delete Background k) AErr st (H (CDelete None k) Hk S4)) as (r4 & s4 & H4).
  split_and!; eexists _, _; (split; [eassumption|]).
  - apply (implicit_read_tables N) in H1; [done..|]. intros T x; apply (keepsT_txn T k v x).
  - apply (implicit_read_tables N) in H2; [done..|]. intros T x; apply (keepsT_txn T k v x).
  - apply (implicit_write_tables N) in H3; [done..|]. intros T x; apply (keepsT_txn T k v x).
  - apply (implicit_write_tables N) in H4; [done..|]. intros T x; apply (keepsT_txn T k v x).
Qed.
End main.
