(* ===== verification/FfiSample.v ===== *)
(** Runs of the FFI backend over a database of sorted lists. *)
From stdpp Require Import gmap.
From S2P Require Import Prelude BTree Kv Badger BadgerSpec GoMonad Ffi FfiLib FfiBridge FfiSpec FfiInv FfiRefine FfiSim FfiMain.
From Stdlib Require Import Strings.Byte.
From Stdlib Require Strings.String.
Import Strings.String.StringSyntax.
Import Ffi FfiLib.
Local Open Scope string_scope.

Module FfiSample.
Import BadgerSample.

(** Items above 2 GB do not exist. *)
Definition clip (l : bytes) : bytes := if Z.of_nat (length l) <? 2 ^ 31 then l else [].

Lemma clip_small l : small (Some (clip l)).
Proof. unfold small, blen, clip. cbn. destruct (Z.ltb_spec (Z.of_nat (length l)) (2 ^ 31)); [done|]. cbn. lia. Qed.

Definition small_badger : BadgerDB := {|
  BDB := list entry;
  BTx := ltx;
  BItem := entry;
  BIter := lit;
  badger_ErrEmptyKey := e_empty;
  badger_ErrKeyNotFound := e_notfound;
  badger_ErrDiscardedTxn := e_discarded;
  badger_ErrDBClosed := ErrOther "DB Closed";
  badger_ErrConflict := ErrOther "Transaction Conflict. Please retry";
  bdb_NewTransaction d u := (mk_ltx d d u 0 false, d);
  bdb_Close d := (None, d);
  bdb_DropAll d := (None, []);
  btx_Get := tx_get;
  btx_Set x k v := tx_write x k (kv_put (bdata k) (bdata v) (lview x));
  btx_Delete x k := tx_write x k (kv_del (bdata k) (lview x));
  btx_Commit := tx_commit;
  btx_Discard := tx_discard;
  btx_NewIterator x pre rv pf := tx_iterator x pre rv;
  item_Key e := Some (clip e.1);
  item_ValueCopy e := Ok (Some (clip e.2));
  bit_Seek := it_seek;
  bit_Next := it_next;
  bit_Valid it := (lpos it <? length (ll it))%nat;
  bit_Item it := ll it !! lpos it;
  bit_Close := it_close;
  btx_iters := lcount;
  bit_closed := lclosed |}.
#[local] Existing Instance small_badger.

#[local] Instance small_badger_panics : BadgerPanics small_badger.
Proof.
  split; cbn; try done.
  - intros. apply tx_write_count.
  - intros. apply tx_write_count.
  - apply tx_commit_idle.
  - apply tx_discard_idle.
  - intros x pre rv _. apply tx_iterator_count.
  - by intros it x ->.
  - intros it k H. by apply it_open.
  - intros it H _. by apply (it_open it None).
  - intros it H%Nat.ltb_lt. by apply lookup_lt_is_Some_2.
Qed.

#[local] Instance small_lib : BadgerLib := {|
  BLogger := unit;
  BOthers := unit;
  badger_DefaultOptions dir := mk_badger_Options dir dir (Some tt) false None 0 (2 ^ 30 - 1) tt;
  badger_ErrReadOnlyTxn := e_readonly;
  badger_ErrInvalidEncryptionKey := ErrOther "Encryption key's length should be either 16, 24, or 32 bytes";
  badger_ErrValueLogSize := ErrOther "Invalid ValueLogFileSize, must be in range [1MB, 2GB)" |}.

#[local] Instance small_facts : BadgerFacts small_badger small_lib.
Proof.
  split; [exact _|..].
  - eexists _, _, _, _, _, _, _, _. split_and!; [done..|]. apply (bool_decide_unpack _). vm_compute. exact I.
  - intros item. apply clip_small.
  - intros item v [= <-]. apply clip_small.
Qed.

(** A file system with one database. *)
Definition disk (o : badger_Options BLogger BOthers) : result BDB :=
  if bool_decide (o_Dir o = "/db") then Ok [(bs "k1", bs "v1"); (bs "k2", bs "v2")] else Err (ErrOther "no such directory").

Definition options : badger_Options BLogger BOthers := badger_DefaultOptions "".

Definition db0 : BDB := [(bs "k1", bs "v1"); (bs "k2", bs "v2")].

Lemma opened0 : opened disk "/db" options = Ok db0.
Proof. reflexivity. Qed.

(** A write, reads, a transaction that commits, and an iterator backwards. *)
Definition calls : list call :=
  [CSet None (Some (bs "k3")) (Some []); CGet None (Some (bs "k3")); CGet None (Some []); CNewTxn 1 false;
   CDelete (Some 1%nat) (Some (bs "k1")); CHas None (Some (bs "k1")); CCommit 1; CHas None (Some (bs "k1")); CDiscard 1;
   CIterator 2 None (mkIterOptions None None None true false); CNext 0; CKey 0; CValue 0; CNext 0; CKey 0; CValue 0; CNext 0;
   CCloseIt 0; CDelete None (Some (bs "k9")); CDropAll; CHas None (Some (bs "k2"))].

Definition answers : list answer :=
  [AErr None; ABytes (Ok (Some [])); ABytes (Err ErrEmptyKey); AUnit; AErr None; ABool (Ok true); AErr None;
   ABool (Ok false); AUnit; AErr None; ABool (Ok true); AKey (Some (bs "k3")); ABytes (Ok (Some [])); ABool (Ok true);
   AKey (Some (bs "k2")); ABytes (Ok (Some (bs "v2"))); ABool (Ok false); AErr None; AErr None; AErr None; ABool (Ok false)].

Definition last_state : Spec := match srun calls (badger_spec db0) with Some (_, s) => s | None => badger_spec db0 end.

Lemma calls_answers :
  match srun calls (badger_spec db0) with Some (ans, _) => Some ans | None => None end = Some answers.
Proof. vm_compute. reflexivity. Qed.

Lemma calls_run : srun calls (badger_spec db0) = Some (answers, last_state).
Proof.
  pose proof calls_answers as H. unfold last_state. destruct (srun calls (badger_spec db0)) as [[ans s]|]; [|done].
  by injection H as ->.
Qed.

Lemma calls_small : Forall small_call calls.
Proof. repeat constructor. Qed.

Lemma ffi_refines_badger_witness :
  exists ds L' ans' f', FfiBridge.NewDatastore disk "/db" options lib_init = Some (Ok ds, L') /\
    frun calls (mk_FSys (FfiBridge.mk_State L' ds ∅) []) = Some (ans', f') /\ Forall2 agrees answers ans' /\
    (s_open last_state = true -> cmem (FfiBridge.lib (fst_ f')) = cmem lib_init).
Proof.
  exact (ffi_refines_badger 1 disk "/db" options db0 lib_init calls answers last_state lib_inv_init eq_refl opened0 eq_refl
    calls_small calls_run).
Defined.

Lemma ffi_open_correct_witness :
  leaves (FfiBridge.NewDatastore disk "/tmp" options) lib_init (Err (ErrOther "no such directory")) lib_init.
Proof. exact (ffi_open_correct 1 disk "/tmp" options lib_init lib_inv_init eq_refl eq_refl). Defined.

(** A database, a transaction and an iterator through the library; the iterator
    was not moved. *)
Definition after (c : ccall) (L : Lib) : Lib := match cstep disk c L with Some (_, L') => L' | None => L end.

Lemma reach_after n L c :
  reach disk n L -> legal L c -> is_Some (cstep disk c L) -> reach disk (S n) (after c L).
Proof.
  intros Hr Hl [[r L'] E]. unfold after. rewrite E. by eapply reach_call.
Qed.

Definition path_db : cptr := Some (String.list_byte_of_string "/db" ++ [x00]).

Definition L3 : Lib :=
  after (C_txn_iterator 1 None 0 None 0 None 0 0 0 true true)
    (after (C_db_new_txn 1 0 true true) (after (C_db_open path_db path_db 0 None 0 0 0 true true) lib_init)).

Lemma reach_L3 : reach disk 3 L3.
Proof.
  apply reach_after; [apply reach_after; [apply reach_after; [apply reach_init|..]|..]|..].
  all: first [by eexists | cbn; unfold len_ok; lia | done].
Qed.


Lemma ffi_error_translation_witness :
  ffi_err (ErrOther "Txn is too big to fit into one request") = Badger.to_kv (ErrOther "Txn is too big to fit into one request").
Proof.
  refine (proj1 ffi_error_translation _ _ _ _); [reflexivity|discriminate|].
  apply (bool_decide_unpack _). vm_compute. exact I.
Defined.

(** A store with an open transaction at the address 1. *)
Definition st1 : FfiBridge.State :=
  FfiBridge.mk_State
    (mk_Lib (mk_heap [mk_DB db0 false] [mk_Txn (mk_ltx db0 db0 true 0 false) 0] []) (mk_handleTable 2 {[1 := 0%nat]})
       (mk_handleTable 2 {[1 := 0%nat]}) newHandleTable ∅ 0)
    (FfiBridge.mk_Datastore 1 false) {[1%nat := FfiBridge.mk_bTxn 1 None]}.

Lemma st1_inv : lib_inv 2 (FfiBridge.lib st1).
Proof.
  assert (tb_ok 2 1 (mk_handleTable 2 {[1 := 0%nat]})) as Htb.
  { split; [cbn; lia|]. cbn [items next]. split.
    - intros h p [<- <-]%lookup_singleton_Some. lia.
    - by intros h h' p [<- _]%lookup_singleton_Some [<- _]%lookup_singleton_Some. }
  split; [exact Htb|exact Htb|..].
  - eapply tb_ok_mono; [..|apply tb_ok_new]; cbn; lia.
  - split; repeat constructor.
  - intros a _. apply lookup_empty.
  - intros h q it Hq _. cbn in Hq. by apply lookup_empty_Some in Hq.
Qed.

Lemma ffi_close_final_witness :
  exists st', FfiBridge.Close st1 = Some (None, st') /\ refuses st'.
Proof.
  destruct (ffi_close_final 2 st1 0 (mk_DB db0 false) db0 st1_inv eq_refl eq_refl eq_refl eq_refl) as (st' & H & _ & Hr & _).
  exists st'. split; [exact H|exact Hr].
Defined.

Lemma ffi_discarded_txn_witness :
  exists st', FfiBridge.txn_Discard 1 st1 = Some (tt, st') /\ invalid (FfiBridge.mk_bTxn 0 None) (FfiBridge.lib st').
Proof.
  destruct (ffi_discarded_txn 2 st1 1 1 0 (mk_ltx db0 db0 true 0 false) 0 (mk_DB db0 false) st1_inv eq_refl eq_refl eq_refl eq_refl)
    as [H _]. destruct (H ltac:(discriminate)) as (st' & H' & _ & _ & Hi). exists st'. split; [exact H'|exact Hi].
Defined.

Lemma ffi_bytes_limits_witness :
  cBytes (FfiBridge.ffiBytesArg (Some (bs "key"))).1 (FfiBridge.ffiBytesArg (Some (bs "key"))).2 lib_init =
    Some (Some (bs "key"), lib_init).
Proof. exact (proj1 (proj1 (ffi_bytes_limits (Some (bs "key")) lib_init (li_mem _ _ lib_inv_init)) eq_refl)). Defined.

Lemma ffi_no_handle_leak_witness :
  exists r st', FfiBridge.Get Background (Some (bs "k1")) st1 = Some (r, st') /\
    tables (FfiBridge.lib st') = tables (FfiBridge.lib st1).
Proof.
  exact (proj1 (ffi_no_handle_leak 2 st1 0 (mk_DB db0 false) (Some (bs "k1")) None st1_inv eq_refl eq_refl eq_refl eq_refl
    eq_refl eq_refl)).
Defined.
End FfiSample.
